(* ===== verification/_CoqProject ===== *)
-Q . S2P
Prelude.v
Values.v
Domain.v
World.v
Demo.v
Cel.v
Clock.v
Clone.v
CloneProps.v
StoreApi.v
Rows.v
StoreSpec.v
MemStore.v
MemSpec.v
Sorting.v
MemInv.v
MemProps.v
MemRows.v
MemRaces.v
Json.v
RedisDB.v
Redis.v
JsonProps.v
RedisProps.v
RedisRaces.v
RedisRows.v
RedisIndex.v
PgSchema.v
Pg.v
PgData.v
PgVars.v
PgRows.v
PgSim.v
PgInv.v
PgRaces.v
Storetest.v
RedisConformance.v
PgConformance.v
VerbsData.v
VerbsDataProps.v
Join.v
JoinProps.v
Fanout.v
VerbsEffect.v
Licensing.v
Action.v
Registry.v
Retry.v
Engine.v
EngineLemmas.v
EngineStep.v
EngineRounds.v
EngineProps.v
EngineJoinProps.v
EngineRollback.v
RetryProps.v
EngineTermination.v
EngineRaces.v
Dispatchers.v
DispatcherProps.v
RunLock.v
Saga.v
SagaProps.v
Liveness.v
Worker.v
LivenessProps.v
LivenessRaces.v
WorkerProps.v
Api.v
ApiProps.v
ApiRequests.v
Broker.v
BrokerProps.v
BrokerDemo.v
Stream.v
Process.v
Bootstrap.v
BootstrapProps.v
Shutdown.v
PgAdmin.v
