(* ===== verification/Prelude.v ===== *)
(** * go-saga-orchestration: a verified model of the saga engine

    The program runs workflows ("sagas").  A definition is a set of typed steps
    with [next] edges and named branches; a run is a row with a state, a current
    step and a JSON-like variable map.  A coordinator advances one run at a time:
    it reads the run, dispatches the current step's verb, writes the outcome and
    goes on until the run waits or ends.  Verbs pause runs (signals, events,
    timers, children, user tasks, remote actions), and dispatchers, the API and
    other runs wake them by publishing [saga.advance] messages.

    ** The files

    - [Prelude]: errors, the state monad, shared notation, tactics and lemmas.
    - [Values]: dynamic Go values, strings (cutting and joining them), 64-bit and float64
      arithmetic.
    - [Domain] ([src/domain]): definitions, runs, events, rules, tasks, triggers.
    - [World]: what is outside [src/] ([Env]: uuids, cel-go, json, net/http, map
      iteration order, external calls) and the process state ([World]: the store,
      the two clocks, the id supply, the calls made so far).
    - [Cel] ([src/internal/cel], [src/internal/rules]), with its theorems.
    - [Clock] ([src/clock]): the virtual clock, and when its channels fire.
    - [Demo]: one concrete outside, for the witnesses only.
    - [StoreApi] ([src/store/store.go]): the store interface as a type class.
    - [Rows]: what each store operation does to one run row, with the dotted-key
      variable writes and their algebra.
    - [StoreSpec]: the contract of the interface, over an abstract view (rows,
      trails, definitions); [MemStore] ([src/store/memory]) and [MemSpec]: the
      in-memory store and the proof that it meets the contract.
    - [Sorting], [MemInv], [MemProps], [MemRows], [MemRaces]: the store as a
      transition system, its invariant, its listing queries, what each operation
      does to the rows, and its contended operations; recording a signal and
      handing it over is at the end of [MemProps].
    - [Clone] ([src/store/memory/clone.go]): the deep copies on a heap, and
      [CloneProps]: with them the store shares no map or pointer with its callers.
    - [Json]: [encoding/json] on value trees with the number conversion of the Redis
      store, and [JsonProps]: which values it keeps; [RedisDB]: the keys, the server
      as an interface ([RedisServer], [RedisLaws]) and [txRun]; [Redis]: the
      operations of [src/store/redis].  [RedisProps]: transactions are atomic;
      [RedisRows]: the rows move as in memory; [RedisIndex]: the wait indexes;
      [RedisRaces]: what breaks when a transaction is retried; [RedisConformance]:
      keys, round trips, the conformance suite run over a concrete server.
    - [PgSchema]: the tables of the migrations, column types, statements and
      transactions; [Pg] and [PgData]: the operations of [src/store/postgres], each SQL
      statement a function on the tables.  [PgVars]: the statements that merge
      variables; [PgRows] and [PgSim]: the rows move as in memory; [PgInv]: the schema
      invariant; [PgRaces]: racing consumers of a signal, statement by statement under row
      locks, and repeated events; [PgConformance]: the suite run over a concrete server, and
      the witnesses.
    - [Storetest] ([src/store/storetest]): the conformance suite as a program over
      the store interface, run on the in-memory store.
    - [VerbsData] (pure verbs), [Join] (join conditions), [Fanout] (parallel,
      foreach, sub-sagas, join), [VerbsEffect] (waits, tasks, http, events),
      [Action] (remote actions), [Registry] (the verb table, license groups):
      [src/engine/verbs]; [VerbsDataProps], [JoinProps].
    - [Licensing] ([src/licensing]): the cached and the HTTP license resolvers.
    - [Retry] ([src/engine/retry.go]) and [RetryProps].
    - [Engine] ([src/engine/advance.go], [compensation.go], [coordinator.go]).
    - [RunLock] ([src/engine/runlock.go]): the per-run locks as a step relation.
    - [Dispatchers] ([src/engine/timer.go], [cron_dispatcher.go],
      [trigger_dispatcher.go], [event_subscriber.go], [startup_variables.go]) and
      [DispatcherProps]: one pass of each background loop.
    - [EngineLemmas], [EngineStep], [EngineRounds]: symbolic execution of the
      coordinator over the contract: what one round does to the run's row and
      trail.  [EngineProps], [EngineJoinProps], [EngineRollback],
      [EngineTermination], [EngineRaces]: the theorems about it.

    - [Saga] ([src/saga]) and [SagaProps]: the embedded API, with its in-process
      publisher and event emitter.
    - [Liveness] ([src/liveness]) and [Worker] ([src/clients/go/worker]): the two
      ends of the worker protocol; [LivenessProps] composes them over a network that may
      break or delay each call, [LivenessRaces] interleaves reports with other store
      operations, [WorkerProps] is the client
      alone (idempotency, configuration, action names).
    - [Api] ([src/api]): the REST handlers; [ApiProps] (signals, tasks, results) and
      [ApiRequests] (starts, triggers, the override header) run them against the
      engine, the dispatchers and the store.  [Stream] ([handler_stream.go]): the live view
      of a run over the PostgreSQL store, call by call, with LISTEN, the notifications and
      the trigger of migration 007 that sends them.
    - [Broker] ([src/topology], [src/internal/mq], the handler of [src/cmd/engine]): RabbitMQ
      as an interface ([Broker], [BrokerLaws]), the declarations over a [Channel], the
      messages of the publisher, the consumer of [saga.advance]; [BrokerProps]: engines,
      database and broker as one system; [BrokerDemo]: a broker that meets the laws.
    - [Process] ([src/internal/config], [storefactory], [dispatch]): the configuration, the
      choice of the store, the http dispatcher.
    - [Bootstrap] ([Bootstrap] of [runtime.go]): how a worker starts; [BootstrapProps]: with
      the API, the engine and the broker.
    - [Shutdown] ([src/saga/publisher.go], [Saga.Shutdown]): background advances and their
      end, with the run locks they and the program's own calls take.
    - [PgAdmin] ([migrate.go], [leader.go]): the migration runner and the leader lock.

    ** How state and operations correspond

    A Go function that touches the store, the clock or the outside is a
    computation [M (World St) A]; an [error] result is [res].  A store method
    holds the store's mutex, so it is one atomic step.  Maps are [gmap]; [for
    range] over a map follows [range_map], an arbitrary order.  A [uuid.UUID] is
    an [N], a [time.Time] a [Z] of nanoseconds, a float a [spec_float], an [int]
    a [Z] with the wrap-around written where it can occur.  Logging and tracing
    are left out.  SQL is a language of the program like Go: a [CREATE TABLE] is a map from
    primary keys to rows, a statement a function on the tables that checks its
    constraints, a condition has three truth values.  What SQL leaves open is a parameter
    ([PgEnv]: scan order, collation, the input syntax of [uuid]), and the server's clock
    may be off by [clock_skew].  A nil and an empty Go map are the same here; PostgreSQL
    would store a nil one as a JSON null, but [NewSagaRun] makes both maps of a run.
    A handler returns a [response]; a worker process is a [Proc] of
    [LivenessProps]: the engine's process, the stream and the handler's calls.

    The engine's theorems are proved against [StoreSpec] and so hold for every
    store that meets it; their witnesses run on the in-memory store.

    ** What the theorems show

    - Rounds of the advance loop: completion, caught and uncaught failures,
      waking and timeouts, idle advances, the license gate; termination.
    - Rollback: which steps are compensated, in which order, what is sent.
    - Joins: stability and satisfiability of the condition, waiting and waking.
    - The in-memory store: its invariant, publication as a refinement of the
      history of definitions, isolation from its callers, single consumption of signals
      and cron fires, cancellation, pages and orders of the listings.
    - Dispatchers: which runs a tick, an event or a record transition wakes or
      starts; one run per cron fire.  Run locks: exclusion, no leak, no deadlock.
    - Workers: however deliveries repeat and calls break or are delayed, at most one report
      of a dispatch is accepted, and nothing happens once one was; a report that is lost
      leaves the run waiting ([WorkerProps.lost_report_acked]); a reported failure fails and
      rolls back the run; a keyed action takes effect once.
    - Requests: a started saga exists and is published once, an approval reaches the
      verb that waits for it, an accepted cron trigger fires, a posted result ends
      any wait, override headers round trip.
    - Embedding: an emitted event does what service mode does; a signal carries its
      run on from the next step within the call; starting a forward workflow always
      returns; the drain of [Shutdown] ends and nothing executes after it.
    - Transport: no message that asks to advance a run is lost, whichever engines crash; a
      worker that started gets the actions it declared; what is refused is gone, and who
      hears an event.  The live view misses what is inserted before it listens.
    - Operations: migrations run once whatever the search path; one leader among the replicas
      whose session lives, and two timers when one breaks; configuration defaults.
    - Conformance: the repository's own suite, evaluated on all three stores over the demo
      servers: a test of the models, at fixed start times.
    - The Redis store: transactions are atomic and lose no update, whatever other
      clients send; runs move as in memory; who waits is found through the indexes;
      what is read back survives further round trips.  A retried transaction can
      report a signal consumed that another caller consumed.
    - The PostgreSQL store: a simulation with the in-memory store, row by row, with its
      preconditions ([row_fit], [op_fit]) where the two mean different things; its
      variable merge in SQL is the dotted merge in Go; every reachable database satisfies
      its schema; among racing callers one consumes a signal; a repeated event is dropped.
    - Data: dotted-key merging, while counters, filter and map, decision tables,
      the expression cache, retries and backoff.

    ** Bounds and fuel

    [Advance] takes fuel for its [for] loop.  [EngineTermination] bounds it: on a
    definition whose edges lead forward, 3^rank(current step) plus the same for
    every pending catch step suffices.  Loops through [while] steps are bounded by
    [max_iterations] ([VerbsDataProps.while_terminates]).  Other recursion is
    structural.  [txRun] makes at most fifty attempts, as the code does.

    ** Not modelled

    Dialling and closing connections.  Isolation in PostgreSQL: a transaction is atomic, which
    the row locks it takes are there for; for [TryConsumeAwaitedSignal] the locks and the
    interleaving of its statements are modelled ([PgRaces]), for the others they are not.
    Redis keys running out of time (the EXPIRE commands are sent, no law says when they act).  The protobuf and HTTP plumbing, the routing of
    requests, health checks; prefetch, publisher confirms and loss in transit between process
    and broker (between worker and engine it is modelled, [LivenessProps]); the tickers of
    the dispatchers.  The wiring and signal handling of [src/cmd],
    tracing ([src/internal/telemetry]) and logging ([src/sagalog], [src/internal/logging]).
    Fields no code sets or reads ([FromState] and [ToState] of events, [Extra] of steps).
    [json_run] and its like change the [map[string]any] fields only; a watched Redis key counts
    as modified by every command that names it; a Redis transaction reads the clock once, not
    at each attempt; the event of the in-memory [Cancel] and [FailAction], appended after the
    mutex was released, is one step with the row; of the in-memory operations that copy,
    [CreateRun] and [GetRun] are on the heap.
    Of the tests, the worker's test harness, the examples and the end-to-end suites.
    Background advances and calls of the embedding program interleave in [Shutdown] by rounds
    and run locks, the contents of the rounds being those of [Engine]; one store operation is atomic everywhere.
    Outside
    [Clone], maps and pointers are values; [CloneProps.store_isolated] is why that is
    faithful. *)
From stdpp Require Export base gmap sets list strings pretty sorting.
From Stdlib Require Export ZArith Lia.

(** ** Go errors

    [error] values as the engine tells them apart.  [EMsg] is an
    [errors.New] / [fmt.Errorf] without [%w]; [EWrap p e] is
    [fmt.Errorf("p: %w", e)] and [EDetail e d] is [fmt.Errorf("%w: d", e)].  The sentinels of [engine/verbs/errors.go],
    [store.ErrNotFound], the two sentinels of [liveness/server.go] and
    [engine.LicenseGateError] keep a constructor of their own because the code
    recognises them with [errors.Is] or a type assertion. *)
Inductive err :=
| ErrSagaPaused
| ErrSagaCancelled
| ErrRunNotFound
| ErrStepNotAwaited
| ErrNotFound (entity id : string)
| ELicenseGate (stepID group feature : string)
| ECtx (reason : string)
| EMsg (msg : string)
| EWrap (prefix : string) (inner : err)
| EDetail (inner : err) (suffix : string).

#[export] Instance err_eq_dec : EqDecision err.
Proof. solve_decision. Defined.

(** [errors.Is] for the sentinels: it walks the wrap chain. *)
Fixpoint errors_Is (e target : err) : bool :=
  bool_decide (e = target) ||
  match e with EWrap _ i | EDetail i _ => errors_Is i target | _ => false end.

(** [errors.As] against [store.ErrNotFound]. *)
Fixpoint errors_As_NotFound (e : err) : bool :=
  match e with
  | ErrNotFound _ _ => true
  | EWrap _ i | EDetail i _ => errors_As_NotFound i
  | _ => false
  end.

(** The (value, error) results of Go functions; a non-nil error drops the
    value, as every caller in the modelled code does. *)
Inductive res (A : Type) := Ok (a : A) | Err (e : err).
Arguments Ok {A} a.
Arguments Err {A} e.

Definition res_err {A} (r : res A) : option err :=
  match r with Ok _ => None | Err e => Some e end.

(** Wrap the error of a result. *)
Definition map_err_res {A} (f : err → err) (r : res A) : res A :=
  match r with Ok a => Ok a | Err e => Err (f e) end.

Definition is_Ok {A} (r : res A) : bool := match r with Ok _ => true | Err _ => false end.

(** ** The state monad the stateful code runs in *)
Definition M (W A : Type) := W → A * W.
Definition ret {W A} (a : A) : M W A := λ w, (a, w).
Definition bind {W A B} (c : M W A) (f : A → M W B) : M W B :=
  λ w, let '(a, w') := c w in f a w'.

Declare Scope saga_scope.
Delimit Scope saga_scope with saga.
Notation "'let*' x := c 'in' k" := (bind c (λ x, k))
  (at level 10, x pattern, c at level 100, k at level 200) : saga_scope.
Notation "'do*' c 'in' k" := (bind c (λ _, k))
  (at level 10, c at level 100, k at level 200) : saga_scope.
(** [try* x := c else f in k]: on an error return [f err], Go's
    [if err != nil { return f(err) }]. *)
Notation "'try*' x := c 'else' f 'in' k" :=
  (bind c (λ r, match r with Ok x => k | Err e => ret (Err (f e)) end))
  (at level 10, x pattern, c at level 100, f at level 100, k at level 200) : saga_scope.
(** The same in the pure (stateless) code. *)
Notation "'tryp*' x := c 'else' f 'in' k" :=
  (match c with Ok x => k | Err e => Err (f e) end)
  (at level 10, x pattern, c at level 100, f at level 100, k at level 200) : saga_scope.
Open Scope saga_scope.

Section monad.
Context {W : Type}.

Lemma bind_step {A B} (c : M W A) (f : A → M W B) w a w' :
  c w = (a, w') → bind c f w = f a w'.
Proof. unfold bind. by intros ->. Qed.

Lemma bind_ret {A B} (a : A) (f : A → M W B) w : bind (ret a) f w = f a w.
Proof. done. Qed.

Lemma bind_assoc {A B C} (c : M W A) (f : A → M W B) (g : B → M W C) w :
  bind (bind c f) g w = bind c (λ a, bind (f a) g) w.
Proof. unfold bind. by destruct (c w). Qed.

(** Left-to-right traversal, Go's [for range] with a body that may change
    the state but not leave the loop. *)
Fixpoint for_each {A} (f : A → M W unit) (l : list A) : M W unit :=
  match l with
  | [] => ret tt
  | x :: l => do* f x in for_each f l
  end.

(** The same with a body that may return an error from the function. *)
Fixpoint for_each_err {A} (f : A → M W (res unit)) (l : list A) : M W (res unit) :=
  match l with
  | [] => ret (Ok tt)
  | x :: l => try* _ := f x else id in for_each_err f l
  end.

(** A loop that collects one result per element, stopping at the first
    error. *)
Fixpoint map_err {A B} (f : A → M W (res B)) (l : list A) : M W (res (list B)) :=
  match l with
  | [] => ret (Ok [])
  | x :: l => try* y := f x else id in try* ys := map_err f l else id in ret (Ok (y :: ys))
  end.
End monad.

(** Pure version of [map_err]. *)
Fixpoint map_res {A B} (f : A → res B) (l : list A) : res (list B) :=
  match l with
  | [] => Ok []
  | x :: l => tryp* y := f x else id in tryp* ys := map_res f l else id in Ok (y :: ys)
  end.

(** Symbolic execution: replace the head command by its known outcome. *)
Ltac mstep H := rewrite (bind_step _ _ _ _ _ H); cbn beta iota.

(** Case analysis on the first stuck [match]/[if]/[decide] of the goal. *)
Ltac cases := repeat (case_match || case_decide); simplify_eq.

Create HintDb saga.
Create Rewrite HintDb saga_rw.
#[export] Hint Rewrite @bind_ret : saga_rw.

(** ** Generic lemmas *)
Section generic.
Lemma bool_decide_iff_eq (P Q : Prop) `{!Decision P, !Decision Q} :
  (P ↔ Q) → bool_decide P = bool_decide Q.
Proof. intros H. by apply bool_decide_ext. Qed.

Lemma alter_insert_lookup `{Countable K} {A} (m : gmap K A) k x f :
  m !! k = Some x → alter f k m = <[k := f x]> m.
Proof.
  intros Hx. apply map_eq. intros j. rewrite lookup_alter, lookup_insert.
  case_decide; subst; [by rewrite Hx | done].
Qed.

Lemma alter_id_None `{Countable K} {A} (m : gmap K A) k f :
  m !! k = None → alter f k m = m.
Proof.
  intros Hx. apply map_eq. intros j. rewrite lookup_alter.
  case_decide; subst; [by rewrite Hx | done].
Qed.

Lemma filter_perm {A} (P : A → Prop) `{!∀ x, Decision (P x)} (l k : list A) :
  l ≡ₚ k → filter P l ≡ₚ filter P k.
Proof. by intros ->. Qed.

Lemma forallb_perm {A} (f : A → bool) (l k : list A) :
  l ≡ₚ k → forallb f l = forallb f k.
Proof.
  induction 1; simpl; try congruence.
  by destruct (f x), (f y).
Qed.
End generic.
#[export] Hint Resolve filter_perm : saga.
