(* ===== verification/Values.v ===== *)
(** Go's dynamic values ([any]) as the engine handles them, its float64
    arithmetic, and the string functions the code calls.

    - [Val]: the JSON- and CEL-shaped values held in variables, inputs and
      payloads; a type switch or type assertion is a [match] on it.
    - [float64]: IEEE 754 binary64, through [SpecFloat] with precision 53.
    - [strings_*]: the functions of Go's [strings] package the sources use. *)
From S2P Require Import Prelude.
From Stdlib Require Export Ascii SpecFloat.

(** ** Values *)
Inductive Val :=
| VNil
| VBool (b : bool)
| VInt (z : Z)
| VInt32 (z : Z)
| VInt64 (z : Z)
| VUint64 (z : Z)
| VFloat (f : spec_float)
| VStr (s : string)
| VList (l : list Val)
| VMap (m : gmap string Val)
| VStrs (l : list string)
| VStrMap (m : gmap string string)
| VOther (ty : string).

(** Go maps with string keys and dynamic values. *)
Abbreviation Vars := (gmap string Val).

(** [%T]. *)
Definition type_name (v : Val) : string :=
  match v with
  | VNil => "<nil>" | VBool _ => "bool" | VInt _ => "int" | VInt32 _ => "int32"
  | VInt64 _ => "int64" | VUint64 _ => "uint64" | VFloat _ => "float64"
  | VStr _ => "string" | VList _ => "[]interface {}"
  | VMap _ => "map[string]interface {}" | VStrs _ => "[]string"
  | VStrMap _ => "map[string]string" | VOther ty => ty
  end.

(** ** Type assertions with the comma-ok form *)
Definition as_str (v : option Val) : option string :=
  match v with Some (VStr s) => Some s | _ => None end.
Definition as_bool (v : option Val) : option bool :=
  match v with Some (VBool b) => Some b | _ => None end.
Definition as_float (v : option Val) : option spec_float :=
  match v with Some (VFloat f) => Some f | _ => None end.
Definition as_list (v : option Val) : option (list Val) :=
  match v with Some (VList l) => Some l | _ => None end.
Definition as_map (v : option Val) : option Vars :=
  match v with Some (VMap m) => Some m | _ => None end.

(** [s, _ := m[k].(string)]: the zero value when absent or of another type. *)
Definition get_str (m : Vars) (k : string) : string := default "" (as_str (m !! k)).
(** [b, _ := v.(bool)]. *)
Definition val_bool (v : Val) : bool := match v with VBool b => b | _ => false end.

(** ** Machine integers: [int] and [int64] are 64 bits wide *)
Definition wrap64 (z : Z) : Z := ((z + 2 ^ 63) mod 2 ^ 64 - 2 ^ 63)%Z.
Definition MaxInt : Z := 2 ^ 63 - 1.
Definition MinInt : Z := - 2 ^ 63.
Definition in_int64 (z : Z) : Prop := (MinInt ≤ z ≤ MaxInt)%Z.

Lemma wrap64_id z : in_int64 z → wrap64 z = z.
Proof.
  unfold in_int64, MinInt, MaxInt, wrap64. intros.
  rewrite Z.mod_small by lia. lia.
Qed.

Lemma wrap64_in z : in_int64 (wrap64 z).
Proof.
  unfold in_int64, MinInt, MaxInt, wrap64.
  pose proof (Z.mod_pos_bound (z + 2 ^ 63) (2 ^ 64) eq_refl). lia.
Qed.

(** ** float64 *)
Definition prec64 : Z := 53.
Definition emax64 : Z := 1024.
Definition f_mul (x y : spec_float) : spec_float := SFmul prec64 emax64 x y.
Definition f_add (x y : spec_float) : spec_float := SFadd prec64 emax64 x y.
Definition f_sub (x y : spec_float) : spec_float := SFsub prec64 emax64 x y.
(** [float64(n)] for an integer [n]. *)
Definition f_of_Z (n : Z) : spec_float := binary_normalize prec64 emax64 n 0 false.
Definition f_ltb (x y : spec_float) : bool := SFltb x y.
Definition f_leb (x y : spec_float) : bool := SFleb x y.
Definition f_eqb (x y : spec_float) : bool := SFeqb x y.
Definition f_zero : spec_float := S754_zero false.

(** Truncation toward zero of a finite float; [None] for NaN and the
    infinities. *)
Definition f_trunc (x : spec_float) : option Z :=
  match x with
  | S754_zero _ => Some 0%Z
  | S754_finite s m e =>
      let a := (if (0 <=? e)%Z then Z.pos m * 2 ^ e else Z.pos m / 2 ^ (- e))%Z in
      Some (if s then - a else a)%Z
  | _ => None
  end.

(** [int(f)] / [int64(f)] / [time.Duration(f)].  Go leaves the result of an
    out-of-range conversion to the implementation; on amd64 it is MinInt64. *)
Definition int_of_float (x : spec_float) : Z :=
  match f_trunc x with
  | Some z => if decide (MinInt ≤ z ≤ MaxInt)%Z then z else MinInt
  | None => MinInt
  end.

(** ** Strings *)
(** [strings.Split(s, ".")] and friends, for a one-byte separator. *)
Fixpoint split_aux (sep : ascii) (cur : string) (s : string) : list string :=
  match s with
  | EmptyString => [cur]
  | String c s =>
      if decide (c = sep) then cur :: split_aux sep "" s
      else split_aux sep (cur +:+ String c "") s
  end.
Definition strings_Split (s : string) (sep : ascii) : list string := split_aux sep "" s.
Definition dot : ascii := "."%char.

Fixpoint strings_HasPrefix (s pre : string) : bool :=
  match pre, s with
  | EmptyString, _ => true
  | String c pre, String d s => bool_decide (c = d) && strings_HasPrefix s pre
  | _, EmptyString => false
  end.

Fixpoint strings_drop (n : nat) (s : string) : string :=
  match n, s with
  | S n, String _ s => strings_drop n s
  | _, _ => s
  end.

Fixpoint strings_take (n : nat) (s : string) : string :=
  match n, s with
  | S n, String c s => String c (strings_take n s)
  | _, _ => ""
  end.

Definition strings_TrimPrefix (s pre : string) : string :=
  if strings_HasPrefix s pre then strings_drop (String.length pre) s else s.

(** [strings.Contains]. *)
Fixpoint strings_Contains (s sub : string) : bool :=
  strings_HasPrefix s sub ||
  match s with EmptyString => false | String _ s => strings_Contains s sub end.

(** [strings.Index(s, c)] for a one-byte [c]; [None] is Go's -1. *)
Fixpoint strings_Index (s : string) (c : ascii) : option nat :=
  match s with
  | EmptyString => None
  | String d s => if decide (d = c) then Some 0 else S <$> strings_Index s c
  end.

(** [strings.ToLower] on the ASCII letters. *)
Definition ascii_lower (c : ascii) : ascii :=
  let n := nat_of_ascii c in
  if decide (65 ≤ n ≤ 90) then ascii_of_nat (n + 32) else c.
Fixpoint strings_ToLower (s : string) : string :=
  match s with EmptyString => "" | String c s => String (ascii_lower c) (strings_ToLower s) end.

(** [fmt.Sprintf("%d", n)]. *)
Definition itoa (n : Z) : string := pretty n.

(** ** Strings that a separator cuts *)
(** The byte [c] does not occur in the string. *)
Fixpoint char_free (c : ascii) (s : string) : Prop :=
  match s with EmptyString => True | String d s => d ≠ c ∧ char_free c s end.

#[export] Instance char_free_dec c s : Decision (char_free c s).
Proof. induction s; simpl; apply _. Defined.

Lemma string_app_assoc (a b c : string) : (a +:+ b) +:+ c = a +:+ b +:+ c.
Proof.
  induction a as [|x a IH]; [done|].
  change (String x ((a +:+ b) +:+ c) = String x (a +:+ b +:+ c)). by rewrite IH.
Qed.
Lemma string_app_nil_r (a : string) : a +:+ "" = a.
Proof. induction a as [|x a IH]; [done|]. change (String x (a +:+ "") = String x a). by rewrite IH. Qed.
Lemma string_app_cons (x : ascii) (a b : string) : String x a +:+ b = String x (a +:+ b).
Proof. done. Qed.
Lemma string_app_inj_l (a b c : string) : a +:+ b = a +:+ c → b = c.
Proof. intros E. by apply (inj (String.app a)). Qed.

Lemma char_free_app c s t : char_free c (s +:+ t) ↔ char_free c s ∧ char_free c t.
Proof.
  induction s as [|d s IH]; [change ("" +:+ t) with t; simpl; tauto|].
  rewrite string_app_cons; simpl. rewrite IH. tauto.
Qed.

(** ** Split *)
Section split.
Context (c : ascii).

Lemma split_aux_free cur s : char_free c s → split_aux c cur s = [cur +:+ s].
Proof.
  revert cur. induction s as [|d s IH]; intros cur; simpl; [by rewrite string_app_nil_r|].
  intros [Hd Hs]. rewrite decide_False by done. rewrite IH by done.
  by rewrite string_app_assoc.
Qed.

Lemma split_aux_app cur s t :
  char_free c s → split_aux c cur (s +:+ String c t) = (cur +:+ s) :: strings_Split t c.
Proof.
  revert cur. induction s as [|d s IH]; intros cur.
  - intros _. change ("" +:+ String c t) with (String c t); simpl.
    by rewrite decide_True, string_app_nil_r.
  - intros [Hd Hs]. rewrite string_app_cons; simpl. rewrite decide_False by done. rewrite IH by done.
    by rewrite string_app_assoc.
Qed.

Lemma Split_free s : char_free c s → strings_Split s c = [s].
Proof. apply split_aux_free. Qed.
Lemma Split_app s t : char_free c s → strings_Split (s +:+ String c t) c = s :: strings_Split t c.
Proof. apply split_aux_app. Qed.

(** [strings.Join] with a one-byte separator. *)
Fixpoint strings_join (l : list string) : string :=
  match l with
  | [] => ""
  | [s] => s
  | s :: l => s +:+ String c (strings_join l)
  end.

Lemma Split_join l : l ≠ [] → Forall (char_free c) l → strings_Split (strings_join l) c = l.
Proof.
  induction l as [|s l IH]; [done|]. intros _ [Hs Hl]%Forall_cons.
  destruct l as [|t l]; [by apply Split_free|].
  change (strings_Split (s +:+ String c (strings_join (t :: l))) c = s :: t :: l).
  rewrite Split_app by done. by rewrite IH.
Qed.
End split.

(** ** Index, slicing *)
Lemma Index_app c s t : char_free c s → strings_Index (s +:+ String c t) c = Some (String.length s).
Proof.
  induction s as [|d s IH].
  - intros _. change ("" +:+ String c t) with (String c t); simpl. by rewrite decide_True.
  - intros [Hd Hs]. rewrite string_app_cons; simpl. rewrite decide_False by done. by rewrite IH.
Qed.
Lemma Index_cut c s i :
  strings_Index s c = Some i →
  s = strings_take i s +:+ String c (strings_drop (S i) s) ∧ char_free c (strings_take i s) ∧
  String.length (strings_take i s) = i.
Proof.
  revert i. induction s as [|d s IH]; intros i; simpl; [done|].
  case_decide as Hd; [intros [= <-]; subst; by destruct s|].
  destruct (strings_Index s c) as [j|]; [|done]. intros [= <-]. destruct (IH j eq_refl) as (E & Hf & Hl).
  simpl. rewrite string_app_cons. split_and!; [by f_equal|done|done|by f_equal].
Qed.
Lemma strings_take_app s t : strings_take (String.length s) (s +:+ t) = s.
Proof.
  induction s as [|d s IH]; [by destruct t|]. rewrite string_app_cons; simpl. by rewrite IH.
Qed.
Lemma drop_app_S s d t : strings_drop (S (String.length s)) (s +:+ String d t) = t.
Proof.
  induction s as [|e s IH]; [by destruct t|]. rewrite string_app_cons. exact IH.
Qed.
Lemma length_string_app (s t : string) :
  String.length (s +:+ t) = String.length s + String.length t.
Proof. induction s as [|d s IH]; [done|]. rewrite string_app_cons; simpl. by rewrite IH. Qed.
