(* ===== verification/Domain.v ===== *)
(** The types of [src/domain]: definitions, runs, audit events, rules, signals,
    user tasks, triggers and action registrations, with the methods the package
    defines on them.

    Conventions: a [uuid.UUID] is its 128-bit value as an [N] ([uuid.Nil] is 0),
    a [time.Time] is nanoseconds since an epoch as a [Z], a pointer used as an
    optional is an [option], a Go map is a [gmap] (nil and empty maps are
    identified, except where the code compares with nil: there an [option] is
    used).  A step type is its string: verbs can be registered under any name. *)
From S2P Require Import Prelude Values.

Abbreviation uuid := N.
Definition uuid_Nil : uuid := 0%N.

(** ** src/domain/run.go *)
Inductive RunState :=
| RunStatePending
| RunStateRunning
| RunStatePaused
| RunStateCompensating
| RunStateSucceeded
| RunStateFailed
| RunStateCancelled.

#[export] Instance RunState_eq_dec : EqDecision RunState.
Proof. solve_decision. Defined.

(** [string(s)]. *)
Definition RunState_string (s : RunState) : string :=
  match s with
  | RunStatePending => "pending"
  | RunStateRunning => "running"
  | RunStatePaused => "paused"
  | RunStateCompensating => "compensating"
  | RunStateSucceeded => "succeeded"
  | RunStateFailed => "failed"
  | RunStateCancelled => "cancelled"
  end.

Definition IsTerminal (s : RunState) : bool :=
  match s with
  | RunStateSucceeded | RunStateFailed | RunStateCancelled => true
  | _ => false
  end.

Record TryCatchFrame := mkFrame {
  frame_StepID : string;
  frame_CatchStep : string
}.

Record SagaRun := mkRun {
  run_ID : uuid;
  run_WorkflowID : string;
  run_DefinitionID : uuid;
  run_TenantID : option uuid;
  run_State : RunState;
  run_CurrentStep : string;
  run_Inputs : Vars;
  run_Variables : Vars;
  run_StartedAt : Z;
  run_LastEventAt : Z;
  run_TerminalAt : option Z;
  run_RequiresManualReview : bool;
  run_TriggerID : option uuid;
  run_ParentRunID : option uuid;
  run_ParentStepID : option string;
  run_ParentBranchID : option string;
  run_TryCatchStack : list TryCatchFrame;
  run_DryRun : bool;
  run_WakeupAt : option Z;
  run_AwaitedSignal : option string;
  run_AwaitedEventTopic : option string;
  run_AwaitedEventHeaders : gmap string string;
  run_FeatureOverrides : gmap string bool;
  run_AwaitedActionDispatch : option string;
  run_CurrentAttempt : Z;
  run_LastError : option string
}.

Definition set_run_State (x : RunState) (r : SagaRun) : SagaRun :=
  mkRun (run_ID r) (run_WorkflowID r) (run_DefinitionID r) (run_TenantID r) x
    (run_CurrentStep r) (run_Inputs r) (run_Variables r) (run_StartedAt r) (run_LastEventAt
    r) (run_TerminalAt r) (run_RequiresManualReview r) (run_TriggerID r) (run_ParentRunID r)
    (run_ParentStepID r) (run_ParentBranchID r) (run_TryCatchStack r) (run_DryRun r)
    (run_WakeupAt r) (run_AwaitedSignal r) (run_AwaitedEventTopic r)
    (run_AwaitedEventHeaders r) (run_FeatureOverrides r) (run_AwaitedActionDispatch r)
    (run_CurrentAttempt r) (run_LastError r).
#[global] Arguments set_run_State x r : simpl never.
Definition set_run_CurrentStep (x : string) (r : SagaRun) : SagaRun :=
  mkRun (run_ID r) (run_WorkflowID r) (run_DefinitionID r) (run_TenantID r) (run_State r) x
    (run_Inputs r) (run_Variables r) (run_StartedAt r) (run_LastEventAt r) (run_TerminalAt
    r) (run_RequiresManualReview r) (run_TriggerID r) (run_ParentRunID r) (run_ParentStepID
    r) (run_ParentBranchID r) (run_TryCatchStack r) (run_DryRun r) (run_WakeupAt r)
    (run_AwaitedSignal r) (run_AwaitedEventTopic r) (run_AwaitedEventHeaders r)
    (run_FeatureOverrides r) (run_AwaitedActionDispatch r) (run_CurrentAttempt r)
    (run_LastError r).
#[global] Arguments set_run_CurrentStep x r : simpl never.
Definition set_run_Variables (x : Vars) (r : SagaRun) : SagaRun :=
  mkRun (run_ID r) (run_WorkflowID r) (run_DefinitionID r) (run_TenantID r) (run_State r)
    (run_CurrentStep r) (run_Inputs r) x (run_StartedAt r) (run_LastEventAt r)
    (run_TerminalAt r) (run_RequiresManualReview r) (run_TriggerID r) (run_ParentRunID r)
    (run_ParentStepID r) (run_ParentBranchID r) (run_TryCatchStack r) (run_DryRun r)
    (run_WakeupAt r) (run_AwaitedSignal r) (run_AwaitedEventTopic r)
    (run_AwaitedEventHeaders r) (run_FeatureOverrides r) (run_AwaitedActionDispatch r)
    (run_CurrentAttempt r) (run_LastError r).
#[global] Arguments set_run_Variables x r : simpl never.
Definition set_run_LastEventAt (x : Z) (r : SagaRun) : SagaRun :=
  mkRun (run_ID r) (run_WorkflowID r) (run_DefinitionID r) (run_TenantID r) (run_State r)
    (run_CurrentStep r) (run_Inputs r) (run_Variables r) (run_StartedAt r) x (run_TerminalAt
    r) (run_RequiresManualReview r) (run_TriggerID r) (run_ParentRunID r) (run_ParentStepID
    r) (run_ParentBranchID r) (run_TryCatchStack r) (run_DryRun r) (run_WakeupAt r)
    (run_AwaitedSignal r) (run_AwaitedEventTopic r) (run_AwaitedEventHeaders r)
    (run_FeatureOverrides r) (run_AwaitedActionDispatch r) (run_CurrentAttempt r)
    (run_LastError r).
#[global] Arguments set_run_LastEventAt x r : simpl never.
Definition set_run_TerminalAt (x : option Z) (r : SagaRun) : SagaRun :=
  mkRun (run_ID r) (run_WorkflowID r) (run_DefinitionID r) (run_TenantID r) (run_State r)
    (run_CurrentStep r) (run_Inputs r) (run_Variables r) (run_StartedAt r) (run_LastEventAt
    r) x (run_RequiresManualReview r) (run_TriggerID r) (run_ParentRunID r)
    (run_ParentStepID r) (run_ParentBranchID r) (run_TryCatchStack r) (run_DryRun r)
    (run_WakeupAt r) (run_AwaitedSignal r) (run_AwaitedEventTopic r)
    (run_AwaitedEventHeaders r) (run_FeatureOverrides r) (run_AwaitedActionDispatch r)
    (run_CurrentAttempt r) (run_LastError r).
#[global] Arguments set_run_TerminalAt x r : simpl never.
Definition set_run_TriggerID (x : option uuid) (r : SagaRun) : SagaRun :=
  mkRun (run_ID r) (run_WorkflowID r) (run_DefinitionID r) (run_TenantID r) (run_State r)
    (run_CurrentStep r) (run_Inputs r) (run_Variables r) (run_StartedAt r) (run_LastEventAt
    r) (run_TerminalAt r) (run_RequiresManualReview r) x (run_ParentRunID r)
    (run_ParentStepID r) (run_ParentBranchID r) (run_TryCatchStack r) (run_DryRun r)
    (run_WakeupAt r) (run_AwaitedSignal r) (run_AwaitedEventTopic r)
    (run_AwaitedEventHeaders r) (run_FeatureOverrides r) (run_AwaitedActionDispatch r)
    (run_CurrentAttempt r) (run_LastError r).
#[global] Arguments set_run_TriggerID x r : simpl never.
Definition set_run_ParentRunID (x : option uuid) (r : SagaRun) : SagaRun :=
  mkRun (run_ID r) (run_WorkflowID r) (run_DefinitionID r) (run_TenantID r) (run_State r)
    (run_CurrentStep r) (run_Inputs r) (run_Variables r) (run_StartedAt r) (run_LastEventAt
    r) (run_TerminalAt r) (run_RequiresManualReview r) (run_TriggerID r) x (run_ParentStepID
    r) (run_ParentBranchID r) (run_TryCatchStack r) (run_DryRun r) (run_WakeupAt r)
    (run_AwaitedSignal r) (run_AwaitedEventTopic r) (run_AwaitedEventHeaders r)
    (run_FeatureOverrides r) (run_AwaitedActionDispatch r) (run_CurrentAttempt r)
    (run_LastError r).
#[global] Arguments set_run_ParentRunID x r : simpl never.
Definition set_run_ParentStepID (x : option string) (r : SagaRun) : SagaRun :=
  mkRun (run_ID r) (run_WorkflowID r) (run_DefinitionID r) (run_TenantID r) (run_State r)
    (run_CurrentStep r) (run_Inputs r) (run_Variables r) (run_StartedAt r) (run_LastEventAt
    r) (run_TerminalAt r) (run_RequiresManualReview r) (run_TriggerID r) (run_ParentRunID r)
    x (run_ParentBranchID r) (run_TryCatchStack r) (run_DryRun r) (run_WakeupAt r)
    (run_AwaitedSignal r) (run_AwaitedEventTopic r) (run_AwaitedEventHeaders r)
    (run_FeatureOverrides r) (run_AwaitedActionDispatch r) (run_CurrentAttempt r)
    (run_LastError r).
#[global] Arguments set_run_ParentStepID x r : simpl never.
Definition set_run_ParentBranchID (x : option string) (r : SagaRun) : SagaRun :=
  mkRun (run_ID r) (run_WorkflowID r) (run_DefinitionID r) (run_TenantID r) (run_State r)
    (run_CurrentStep r) (run_Inputs r) (run_Variables r) (run_StartedAt r) (run_LastEventAt
    r) (run_TerminalAt r) (run_RequiresManualReview r) (run_TriggerID r) (run_ParentRunID r)
    (run_ParentStepID r) x (run_TryCatchStack r) (run_DryRun r) (run_WakeupAt r)
    (run_AwaitedSignal r) (run_AwaitedEventTopic r) (run_AwaitedEventHeaders r)
    (run_FeatureOverrides r) (run_AwaitedActionDispatch r) (run_CurrentAttempt r)
    (run_LastError r).
#[global] Arguments set_run_ParentBranchID x r : simpl never.
Definition set_run_TryCatchStack (x : list TryCatchFrame) (r : SagaRun) : SagaRun :=
  mkRun (run_ID r) (run_WorkflowID r) (run_DefinitionID r) (run_TenantID r) (run_State r)
    (run_CurrentStep r) (run_Inputs r) (run_Variables r) (run_StartedAt r) (run_LastEventAt
    r) (run_TerminalAt r) (run_RequiresManualReview r) (run_TriggerID r) (run_ParentRunID r)
    (run_ParentStepID r) (run_ParentBranchID r) x (run_DryRun r) (run_WakeupAt r)
    (run_AwaitedSignal r) (run_AwaitedEventTopic r) (run_AwaitedEventHeaders r)
    (run_FeatureOverrides r) (run_AwaitedActionDispatch r) (run_CurrentAttempt r)
    (run_LastError r).
#[global] Arguments set_run_TryCatchStack x r : simpl never.
Definition set_run_WakeupAt (x : option Z) (r : SagaRun) : SagaRun :=
  mkRun (run_ID r) (run_WorkflowID r) (run_DefinitionID r) (run_TenantID r) (run_State r)
    (run_CurrentStep r) (run_Inputs r) (run_Variables r) (run_StartedAt r) (run_LastEventAt
    r) (run_TerminalAt r) (run_RequiresManualReview r) (run_TriggerID r) (run_ParentRunID r)
    (run_ParentStepID r) (run_ParentBranchID r) (run_TryCatchStack r) (run_DryRun r) x
    (run_AwaitedSignal r) (run_AwaitedEventTopic r) (run_AwaitedEventHeaders r)
    (run_FeatureOverrides r) (run_AwaitedActionDispatch r) (run_CurrentAttempt r)
    (run_LastError r).
#[global] Arguments set_run_WakeupAt x r : simpl never.
Definition set_run_AwaitedSignal (x : option string) (r : SagaRun) : SagaRun :=
  mkRun (run_ID r) (run_WorkflowID r) (run_DefinitionID r) (run_TenantID r) (run_State r)
    (run_CurrentStep r) (run_Inputs r) (run_Variables r) (run_StartedAt r) (run_LastEventAt
    r) (run_TerminalAt r) (run_RequiresManualReview r) (run_TriggerID r) (run_ParentRunID r)
    (run_ParentStepID r) (run_ParentBranchID r) (run_TryCatchStack r) (run_DryRun r)
    (run_WakeupAt r) x (run_AwaitedEventTopic r) (run_AwaitedEventHeaders r)
    (run_FeatureOverrides r) (run_AwaitedActionDispatch r) (run_CurrentAttempt r)
    (run_LastError r).
#[global] Arguments set_run_AwaitedSignal x r : simpl never.
Definition set_run_AwaitedEventTopic (x : option string) (r : SagaRun) : SagaRun :=
  mkRun (run_ID r) (run_WorkflowID r) (run_DefinitionID r) (run_TenantID r) (run_State r)
    (run_CurrentStep r) (run_Inputs r) (run_Variables r) (run_StartedAt r) (run_LastEventAt
    r) (run_TerminalAt r) (run_RequiresManualReview r) (run_TriggerID r) (run_ParentRunID r)
    (run_ParentStepID r) (run_ParentBranchID r) (run_TryCatchStack r) (run_DryRun r)
    (run_WakeupAt r) (run_AwaitedSignal r) x (run_AwaitedEventHeaders r)
    (run_FeatureOverrides r) (run_AwaitedActionDispatch r) (run_CurrentAttempt r)
    (run_LastError r).
#[global] Arguments set_run_AwaitedEventTopic x r : simpl never.
Definition set_run_AwaitedEventHeaders (x : gmap string string) (r : SagaRun) : SagaRun :=
  mkRun (run_ID r) (run_WorkflowID r) (run_DefinitionID r) (run_TenantID r) (run_State r)
    (run_CurrentStep r) (run_Inputs r) (run_Variables r) (run_StartedAt r) (run_LastEventAt
    r) (run_TerminalAt r) (run_RequiresManualReview r) (run_TriggerID r) (run_ParentRunID r)
    (run_ParentStepID r) (run_ParentBranchID r) (run_TryCatchStack r) (run_DryRun r)
    (run_WakeupAt r) (run_AwaitedSignal r) (run_AwaitedEventTopic r) x (run_FeatureOverrides
    r) (run_AwaitedActionDispatch r) (run_CurrentAttempt r) (run_LastError r).
#[global] Arguments set_run_AwaitedEventHeaders x r : simpl never.
Definition set_run_AwaitedActionDispatch (x : option string) (r : SagaRun) : SagaRun :=
  mkRun (run_ID r) (run_WorkflowID r) (run_DefinitionID r) (run_TenantID r) (run_State r)
    (run_CurrentStep r) (run_Inputs r) (run_Variables r) (run_StartedAt r) (run_LastEventAt
    r) (run_TerminalAt r) (run_RequiresManualReview r) (run_TriggerID r) (run_ParentRunID r)
    (run_ParentStepID r) (run_ParentBranchID r) (run_TryCatchStack r) (run_DryRun r)
    (run_WakeupAt r) (run_AwaitedSignal r) (run_AwaitedEventTopic r)
    (run_AwaitedEventHeaders r) (run_FeatureOverrides r) x (run_CurrentAttempt r)
    (run_LastError r).
#[global] Arguments set_run_AwaitedActionDispatch x r : simpl never.
Definition set_run_CurrentAttempt (x : Z) (r : SagaRun) : SagaRun :=
  mkRun (run_ID r) (run_WorkflowID r) (run_DefinitionID r) (run_TenantID r) (run_State r)
    (run_CurrentStep r) (run_Inputs r) (run_Variables r) (run_StartedAt r) (run_LastEventAt
    r) (run_TerminalAt r) (run_RequiresManualReview r) (run_TriggerID r) (run_ParentRunID r)
    (run_ParentStepID r) (run_ParentBranchID r) (run_TryCatchStack r) (run_DryRun r)
    (run_WakeupAt r) (run_AwaitedSignal r) (run_AwaitedEventTopic r)
    (run_AwaitedEventHeaders r) (run_FeatureOverrides r) (run_AwaitedActionDispatch r) x
    (run_LastError r).
#[global] Arguments set_run_CurrentAttempt x r : simpl never.
Definition set_run_LastError (x : option string) (r : SagaRun) : SagaRun :=
  mkRun (run_ID r) (run_WorkflowID r) (run_DefinitionID r) (run_TenantID r) (run_State r)
    (run_CurrentStep r) (run_Inputs r) (run_Variables r) (run_StartedAt r) (run_LastEventAt
    r) (run_TerminalAt r) (run_RequiresManualReview r) (run_TriggerID r) (run_ParentRunID r)
    (run_ParentStepID r) (run_ParentBranchID r) (run_TryCatchStack r) (run_DryRun r)
    (run_WakeupAt r) (run_AwaitedSignal r) (run_AwaitedEventTopic r)
    (run_AwaitedEventHeaders r) (run_FeatureOverrides r) (run_AwaitedActionDispatch r)
    (run_CurrentAttempt r) x.
#[global] Arguments set_run_LastError x r : simpl never.
Definition set_run_DryRun (x : bool) (r : SagaRun) : SagaRun :=
  mkRun (run_ID r) (run_WorkflowID r) (run_DefinitionID r) (run_TenantID r) (run_State
    r) (run_CurrentStep r) (run_Inputs r) (run_Variables r) (run_StartedAt r)
    (run_LastEventAt r) (run_TerminalAt r) (run_RequiresManualReview r) (run_TriggerID
    r) (run_ParentRunID r) (run_ParentStepID r) (run_ParentBranchID r)
    (run_TryCatchStack r) x (run_WakeupAt r) (run_AwaitedSignal r)
    (run_AwaitedEventTopic r) (run_AwaitedEventHeaders r) (run_FeatureOverrides r)
    (run_AwaitedActionDispatch r) (run_CurrentAttempt r) (run_LastError r).
#[global] Arguments set_run_DryRun x r : simpl never.
Definition set_run_FeatureOverrides (x : gmap string bool) (r : SagaRun) : SagaRun :=
  mkRun (run_ID r) (run_WorkflowID r) (run_DefinitionID r) (run_TenantID r) (run_State
    r) (run_CurrentStep r) (run_Inputs r) (run_Variables r) (run_StartedAt r)
    (run_LastEventAt r) (run_TerminalAt r) (run_RequiresManualReview r) (run_TriggerID
    r) (run_ParentRunID r) (run_ParentStepID r) (run_ParentBranchID r)
    (run_TryCatchStack r) (run_DryRun r) (run_WakeupAt r) (run_AwaitedSignal r)
    (run_AwaitedEventTopic r) (run_AwaitedEventHeaders r) x (run_AwaitedActionDispatch
    r) (run_CurrentAttempt r) (run_LastError r).
#[global] Arguments set_run_FeatureOverrides x r : simpl never.

(** [NewSagaRun]; the fresh id and the wall-clock time are arguments. *)
Definition NewSagaRun (id : uuid) (now : Z) (workflowID : string) (definitionID : uuid)
    (tenantID : option uuid) (inputs : Vars) : SagaRun := {|
  run_ID := id; run_WorkflowID := workflowID; run_DefinitionID := definitionID;
  run_TenantID := tenantID; run_State := RunStatePending; run_CurrentStep := "";
  run_Inputs := inputs; run_Variables := ∅; run_StartedAt := now;
  run_LastEventAt := now; run_TerminalAt := None; run_RequiresManualReview := false;
  run_TriggerID := None; run_ParentRunID := None; run_ParentStepID := None;
  run_ParentBranchID := None; run_TryCatchStack := []; run_DryRun := false;
  run_WakeupAt := None; run_AwaitedSignal := None; run_AwaitedEventTopic := None;
  run_AwaitedEventHeaders := ∅; run_FeatureOverrides := ∅;
  run_AwaitedActionDispatch := None; run_CurrentAttempt := 0; run_LastError := None
|}.

(** ** src/domain/definition.go *)
Definition StepTypeEnd : string := "end".
Definition StepTypeAction : string := "action".
Definition StepTypeDecision : string := "decision".
Definition StepTypeError : string := "error".
Definition StepTypeNoop : string := "noop".
Definition StepTypeSetVar : string := "set_var".
Definition StepTypeTransform : string := "transform".
Definition StepTypeMerge : string := "merge".
Definition StepTypeFilter : string := "filter".
Definition StepTypeMap : string := "map".
Definition StepTypeLog : string := "log".
Definition StepTypeMetricEmit : string := "metric_emit".
Definition StepTypeAssert : string := "assert".
Definition StepTypeHTTPRequest : string := "http_request".
Definition StepTypeWebhookEmit : string := "webhook_emit".
Definition StepTypeWaitDuration : string := "wait_duration".
Definition StepTypeWaitUntil : string := "wait_until".
Definition StepTypeWaitForSignal : string := "wait_for_signal".
Definition StepTypeWaitForEvent : string := "wait_for_event".
Definition StepTypeParallel : string := "parallel".
Definition StepTypeJoin : string := "join".
Definition StepTypeForeach : string := "foreach".
Definition StepTypeWhile : string := "while".
Definition StepTypeTryCatch : string := "try_catch".
Definition StepTypeSubSaga : string := "sub_saga".
Definition StepTypeSpawnSaga : string := "spawn_saga".
Definition StepTypeManualApproval : string := "manual_approval".
Definition StepTypeCollectInput : string := "collect_input".
Definition StepTypeSwitch : string := "switch".
Definition StepTypeEmitSignal : string := "emit_signal".
Definition StepTypeCancel : string := "cancel".
Definition StepTypeEmitEvent : string := "emit_event".

Record Compensation := mkComp {
  comp_Action : string;
  comp_Inputs : Vars
}.

Record RetryPolicy := mkRetry {
  MaxAttempts : Z;
  InitialBackoffMS : Z;
  MaxBackoffMS : Z;
  Multiplier : spec_float;
  Jitter : bool
}.

(** [Branch] has the single field [Next]. *)
Record Branch := mkBranch { br_Next : string }.

(** Without [Extra], which is not in the JSON and which no code reads. *)
Record Step := mkStep {
  step_ID : string;
  step_Type : string;
  step_Next : string;
  step_Action : string;
  step_Inputs : Vars;
  step_Compensation : option Compensation;
  step_Retry : option RetryPolicy;
  step_Branches : gmap string Branch
}.

(** [domain.Step{ID: id}]. *)
Definition bare_step (id : string) : Step := mkStep id "" "" "" ∅ None None ∅.

Record WorkflowDefinition := mkDef {
  def_ID : string;
  def_Version : Z;
  def_TenantID : option string;
  def_Name : string;
  def_Description : string;
  def_Start : string;
  def_Entrypoints : gmap string string;
  def_Steps : list Step;
  def_Published : bool;
  def_CreatedAt : Z;
  def_CreatedBy : string
}.

(** [ResolveEntry]; [quote] is the [%q] verb of [fmt]. *)
Definition ResolveEntry (quote : string → string) (d : WorkflowDefinition)
    (entrypoint : string) : res string :=
  if decide (entrypoint = "" ∨ entrypoint = "default") then
    if decide (def_Start d = "") then
      Err (EMsg ("resolve entry: workflow " +:+ quote (def_ID d) +:+ " has no Start"))
    else Ok (def_Start d)
  else
    match def_Entrypoints d !! entrypoint with
    | None => Err (EMsg ("resolve entry: unknown entrypoint " +:+ quote entrypoint +:+
                         " for workflow " +:+ quote (def_ID d)))
    | Some stepID => Ok stepID
    end.

(** [StepByID]: the first step with the id. *)
Fixpoint find_step (id : string) (steps : list Step) : option Step :=
  match steps with
  | [] => None
  | s :: steps => if decide (step_ID s = id) then Some s else find_step id steps
  end.
Definition StepByID (d : WorkflowDefinition) (id : string) : option Step :=
  find_step id (def_Steps d).

(** ** src/domain/event.go *)
Inductive EventType :=
| EventSagaStarted
| EventStepDispatched
| EventStepStarted
| EventStepSucceeded
| EventStepFailed
| EventStepSkipped
| EventStepPaused
| EventRunSucceeded
| EventRunFailed
| EventRunCancelled
| EventCompensationStarted
| EventLog
| EventMetric
| EventRuleEvaluated
| EventLicenseGateRejected.

#[export] Instance EventType_eq_dec : EqDecision EventType.
Proof. solve_decision. Defined.

(** Without [FromState] and [ToState], which no code sets. *)
Record SagaRunEvent := mkEvent {
  ev_ID : uuid;
  ev_RunID : uuid;
  ev_StepID : string;
  ev_Attempt : Z;
  ev_EventType : EventType;
  ev_Actor : string;
  ev_Metadata : Vars;
  ev_RecordedAt : Z
}.

(** ** src/domain/rule.go *)
Record DecisionTableRow := mkRow {
  row_When : string;
  row_Then : Vars
}.

(** [DefaultOutput] is compared with nil by the evaluator, hence the option. *)
Record RuleSpec := mkSpec {
  HitPolicy : string;
  Rows : list DecisionTableRow;
  DefaultOutput : option Vars
}.
Definition HitPolicyFirst : string := "first".
Definition RuleTypeDecisionTable : string := "decision_table".

Record RuleDefinition := mkRule {
  rule_ID : uuid;
  rule_RuleID : string;
  rule_Version : Z;
  rule_TenantID : option string;
  rule_Name : string;
  rule_RuleType : string;
  rule_Spec : RuleSpec;
  rule_Published : bool;
  rule_CreatedAt : Z;
  rule_CreatedBy : string
}.

(** ** src/domain/signal.go, src/domain/user_task.go *)
Record SagaSignal := mkSignal {
  sig_ID : uuid;
  sig_RunID : uuid;
  sig_SignalName : string;
  sig_Payload : Vars;
  sig_ReceivedAt : Z;
  sig_ConsumedAt : option Z
}.

Record UserTask := mkTask {
  task_ID : uuid;
  task_RunID : uuid;
  task_StepID : string;
  task_Assignee : string;
  task_DueAt : option Z;
  task_FormSchema : Vars;
  task_SubmittedAt : option Z;
  task_SubmittedBy : string;
  task_Result : Vars
}.

(** ** src/domain/trigger.go, src/domain/trigger_fire.go *)
Definition TriggerRecordTransition : string := "record_transition".
Definition TriggerCron : string := "cron".

Record SagaTrigger := mkTrigger {
  trig_ID : uuid;
  trig_TriggerType : string;
  trig_WorkflowID : string;
  trig_Version : Z;
  trig_Config : Vars;
  trig_Enabled : bool;
  trig_TenantID : option uuid;
  trig_CreatedAt : option Z;   (* None: the zero time *)
  trig_CreatedBy : string;
  trig_NextFireAt : option Z;
  trig_LastFiredAt : option Z
}.

Record TriggerFireRow := mkFire {
  fire_ID : uuid;
  fire_TriggerID : uuid;
  fire_WorkflowID : string;
  fire_FiredAt : Z;
  fire_ResultingRunID : option uuid;
  fire_Error : string
}.

(** ** src/domain/registry.go *)
Definition TransportGRPC : string := "grpc".
Definition TransportHTTP : string := "http".
Definition TransportRMQ : string := "rmq".

Record ActionRegistration := mkAction {
  act_ID : uuid;
  act_Service : string;
  act_ActionName : string;
  act_Version : Z;
  act_Description : string;
  act_Category : string;
  act_Compensable : bool;
  act_InputSchema : Vars;
  act_OutputSchema : Vars;
  act_ErrorCodes : list string;
  act_DefaultRetry : option RetryPolicy;
  act_DefaultTimeoutMS : Z;
  act_Deprecated : bool;
  act_RegisteredAt : option Z;   (* None: the zero time *)
  act_ServiceVersion : string;
  act_DryRunSupported : bool;
  act_LicenseGroup : string;
  act_Transport : string;
  act_Address : string
}.

(** ** Lemmas *)
Lemma find_step_Some id steps s :
  find_step id steps = Some s → s ∈ steps ∧ step_ID s = id.
Proof.
  induction steps as [|t steps IH]; simpl; [done|].
  case_decide; intros; simplify_eq; [set_solver|].
  destruct IH; [done|]. split; [set_solver|done].
Qed.

Lemma find_step_None id steps :
  find_step id steps = None ↔ ∀ s, s ∈ steps → step_ID s ≠ id.
Proof.
  induction steps as [|t steps IH]; simpl.
  - split; [intros _ s Hs; set_solver|done].
  - case_decide; [split; [done|intros Ht; exfalso; apply (Ht t); [set_solver|done]]|].
    rewrite IH. split; intros Hall s; [intros [->|Hs]%elem_of_cons; eauto|].
    intros Hs. apply Hall. set_solver.
Qed.

Lemma find_step_NoDup steps s :
  NoDup (step_ID <$> steps) → s ∈ steps → find_step (step_ID s) steps = Some s.
Proof.
  induction steps as [|t steps IH]; simpl; [set_solver|].
  intros [Hn Hd]%NoDup_cons [->|Hs]%elem_of_cons.
  - by rewrite decide_True.
  - rewrite decide_False; [by apply IH|].
    intros Heq. apply Hn. rewrite Heq. apply list_elem_of_fmap. eauto.
Qed.
