(* ===== verification/World.v ===== *)
(** The outside of the program: the code that is not under [src/] ([Env]), the
    state everything runs in ([World]) and the primitive commands of that state
    (fresh ids, the two clocks, the context, calls that leave the process).

    [World] is generic in the state of the store, so that the engine and the
    verbs are written against the [Store] interface of [StoreApi.v]. *)
From S2P Require Import Prelude Values Domain.

(** An outgoing request and its answer.  Header names are in canonical form;
    the timeout is a duration. *)
Record HTTPRequest := mkHTTP {
  rq_Method : string;
  rq_URL : string;
  rq_Header : gmap string string;
  rq_Body : option string;
  rq_Timeout : Z
}.
Record HTTPResponse := mkResp {
  rs_StatusCode : Z;
  rs_Header : gmap string (list string);
  rs_Body : string
}.

(** A call that leaves the process: a published message, an HTTP dispatch, an
    emitted event, a request of the http verbs, a liveness acknowledgement. *)
Inductive Msg :=
| MAdvance (runID : string)
| MActionDispatch (routingKey body : string)
| MDispatchHTTP (address body : string)
| MDispatchRMQ (queue body : string)
| MEmitEvent (topic : string) (headers : gmap string string) (payload : Vars)
| MHTTP (req : HTTPRequest)
| MAck.

(** A cel-go result ([ref.Val]) as [internal/cel] inspects it: nil, a lister, a
    mapper with, per key in iteration order, the key's native value and what
    [Find] answers for it, a value with a native form, or one whose [Value()] is
    again a [ref.Val]. *)
Inductive RefVal :=
| RefNil
| RefLister (elems : list RefVal)
| RefMapper (entries : list (Val * option RefVal))
| RefNative (native : Val)
| RefRef (ty : string).

(** Code outside [src/].  Nothing is assumed of it here; the properties a
    theorem relies on are the fields of [EnvLaws] below.

    - [uuid_*]: github.com/google/uuid; [uuid_New n] is the n-th id drawn.
    - [quote], [sprint]: [%q] and [fmt.Sprint] on dynamic values.
    - [range_map]: the order in which [for range] visits a map.  Go leaves it
      open; every order is an instance.
    - [cel_*]: cel-go behind [internal/cel]: [cel_NewEnv] builds the environment
      with the variables in scope, [cel_Compile] parses and type-checks,
      [cel_Eval] runs a program.
    - [http_*], [canonical_header], [hmac_sha256_hex]: net/http and crypto/hmac;
      [http_NewRequest method url] is the error the constructor reports, and
      [http_response hist req] the answer to a request sent after [hist].
    - [parse_duration], [parse_rfc3339], [format_rfc3339], [json_*],
      [sha256_hex], [rand_float]: the parsers, encoders and generators of Go's
      standard library the code calls, with the n-th random number.
    - [ext_result hist m]: the outcome of sending [m] after the calls [hist].
    - [ctx_err n]: what the n-th look at the context reports. *)
Class Env := {
  uuid_string : uuid → string;
  uuid_parse : string → res uuid;
  uuid_New : nat → uuid;
  quote : string → string;
  sprint : Val → string;
  range_map : ∀ {K A} `{Countable K}, gmap K A → list (K * A);
  cel_program : Type;
  cel_env : Type;
  cel_NewEnv : list string → res cel_env;
  cel_Compile : cel_env → string → res cel_program;
  cel_Eval : cel_program → Vars → res RefVal;
  parse_duration : string → res Z;
  parse_rfc3339 : string → res Z;
  format_rfc3339 : Z → string;
  json_marshal : Val → res string;
  json_struct : list (string * Val) → res string;
  json_steps : string → res (list Step);
  json_object : string → res Vars;
  json_value : string → res Val;
  sha256_hex : string → string;
  hmac_sha256_hex : string → string → string;
  canonical_header : string → string;
  http_NewRequest : string → string → option err;
  http_response : list (Msg * option err) → HTTPRequest → HTTPResponse;
  rand_float : nat → spec_float;
  ext_result : list (Msg * option err) → Msg → option err;
  ctx_err : nat → option err
}.

(** [err.Error()]. *)
Fixpoint err_Error `{Env} (e : err) : string :=
  match e with
  | ErrSagaPaused => "saga paused"
  | ErrSagaCancelled => "saga cancelled"
  | ErrRunNotFound => "liveness: run not found"
  | ErrStepNotAwaited => "liveness: step not awaited"
  | ErrNotFound entity id => entity +:+ " not found: " +:+ id
  | ELicenseGate stepID group feature =>
      "license_gate: step " +:+ quote stepID +:+ " in group " +:+ quote group +:+
      " requires feature " +:+ quote feature +:+ " (not enabled for tenant)"
  | ECtx reason => reason
  | EMsg msg => msg
  | EWrap p i => p +:+ ": " +:+ err_Error i
  | EDetail i s => err_Error i +:+ ": " +:+ s
  end.

(** The documented behaviour the theorems use: ranging visits each entry once,
    the printed form of a uuid parses back, and fresh ids are distinct. *)
Class EnvLaws `{Env} := {
  range_map_perm : ∀ {K A} `{Countable K} (m : gmap K A), range_map m ≡ₚ map_to_list m;
  uuid_parse_string : ∀ u, uuid_parse (uuid_string u) = Ok u;
  uuid_New_inj : ∀ n m, uuid_New n = uuid_New m → n = m
}.

(** ** The state of the process *)
Record World (St : Type) := mkWorld {
  w_store : St;
  w_now : Z;       (* time.Now() *)
  w_clk : Z;       (* the injected clock.Clock *)
  w_ids : nat;     (* uuids drawn so far *)
  w_polls : nat;   (* looks at the context so far *)
  w_rands : nat;   (* random numbers drawn so far *)
  w_out : list (Msg * option err)   (* external calls so far, with their outcome *)
}.
Arguments mkWorld {St}.
Arguments w_store {St}.
Arguments w_now {St}.
Arguments w_clk {St}.
Arguments w_ids {St}.
Arguments w_polls {St}.
Arguments w_rands {St}.
Arguments w_out {St}.

Definition set_store {St} (s : St) (w : World St) : World St :=
  mkWorld s (w_now w) (w_clk w) (w_ids w) (w_polls w) (w_rands w) (w_out w).
#[global] Arguments set_store {St} s w /.

Section World.
Context `{Env} {St : Type}.
Abbreviation M := (M (World St)).

Definition uuidNew : M uuid := λ w,
  (uuid_New (w_ids w),
   mkWorld (w_store w) (w_now w) (w_clk w) (S (w_ids w)) (w_polls w) (w_rands w) (w_out w)).

Definition timeNow : M Z := λ w, (w_now w, w).

Definition Clock_Now : M Z := λ w, (w_clk w, w).

(** [<-clock.After(d)]: the channel delivers once the clock has moved by [d]. *)
Definition Clock_After (d : Z) : M unit := λ w,
  (tt, mkWorld (w_store w) (w_now w) (w_clk w + Z.max 0 d) (w_ids w) (w_polls w)
         (w_rands w) (w_out w)).

Definition ctx_Err : M (option err) := λ w,
  (ctx_err (w_polls w),
   mkWorld (w_store w) (w_now w) (w_clk w) (w_ids w) (S (w_polls w)) (w_rands w) (w_out w)).

Definition randFloat64 : M spec_float := λ w,
  (rand_float (w_rands w),
   mkWorld (w_store w) (w_now w) (w_clk w) (w_ids w) (w_polls w) (S (w_rands w)) (w_out w)).

(** Make an external call; the attempt and its outcome are recorded. *)
Definition send (m : Msg) : M (res unit) := λ w,
  let r := ext_result (w_out w) m in
  (match r with None => Ok tt | Some e => Err e end,
   mkWorld (w_store w) (w_now w) (w_clk w) (w_ids w) (w_polls w) (w_rands w)
     (w_out w ++ [(m, r)])).

Definition get_store : M St := λ w, (w_store w, w).
Definition put_store (s : St) : M unit := λ w, (tt, set_store s w).

(** [domain.NewEvent]: a fresh id and the wall-clock time. *)
Definition NewEvent (runID : uuid) (stepID : string) (attempt : Z) (ty : EventType)
    (actor : string) : M SagaRunEvent :=
  let* id := uuidNew in
  let* now := timeNow in
  ret (mkEvent id runID stepID attempt ty actor ∅ now).

(** The messages handed over successfully, in order. *)
Definition sent (w : World St) : list Msg :=
  fst <$> filter (λ p, p.2 = None) (w_out w).

Definition with_Metadata (md : Vars) (e : SagaRunEvent) : SagaRunEvent :=
  mkEvent (ev_ID e) (ev_RunID e) (ev_StepID e) (ev_Attempt e) (ev_EventType e)
    (ev_Actor e) md (ev_RecordedAt e).
End World.

(** The primitive commands as rewrite rules. *)
Section prims.
Context `{Env} {St : Type}.
Implicit Types w : World St.

Lemma bind_get_store {B} (f : St → M (World St) B) w : bind get_store f w = f (w_store w) w.
Proof. done. Qed.
Lemma bind_put_store {B} s (f : unit → M (World St) B) w :
  bind (put_store s) f w = f tt (set_store s w).
Proof. done. Qed.
Lemma bind_timeNow {B} (f : Z → M (World St) B) w : bind timeNow f w = f (w_now w) w.
Proof. done. Qed.
Lemma bind_Clock_Now {B} (f : Z → M (World St) B) w : bind Clock_Now f w = f (w_clk w) w.
Proof. done. Qed.
End prims.
#[export] Hint Rewrite @bind_get_store @bind_put_store @bind_timeNow @bind_Clock_Now : saga_rw.

(** ** The interfaces of [engine/verbs/publisher.go] and [engine/coordinator.go]

    A nil interface value is [None] where the code tests for it. *)
Section interfaces.
Context `{Env} {St : Type}.
Abbreviation M := (M (World St)).

Definition Publisher : Type := string → M (res unit).
Definition ActionDispatchPublisher : Type := string → string → M (res unit).
Definition ActionHTTPDispatcher : Type := string → string → M (res unit).
Definition ActionRMQDispatcher : Type := string → string → M (res unit).
Definition EventEmitter : Type := string → gmap string string → Vars → M (res unit).

(** The implementations that hand the message to the outside (the broker,
    the http client), which [internal/mq] and [internal/dispatch] wrap. *)
Definition mq_PublishSagaAdvance : Publisher := λ id, send (MAdvance id).
Definition mq_PublishActionDispatch : ActionDispatchPublisher :=
  λ key body, send (MActionDispatch key body).
Definition http_Dispatch : ActionHTTPDispatcher := λ a b, send (MDispatchHTTP a b).
Definition rmq_Dispatch : ActionRMQDispatcher := λ q b, send (MDispatchRMQ q b).
End interfaces.
Arguments Publisher St : clear implicits.
Arguments ActionDispatchPublisher St : clear implicits.
Arguments ActionHTTPDispatcher St : clear implicits.
Arguments ActionRMQDispatcher St : clear implicits.
Arguments EventEmitter St : clear implicits.

(** [licensing.Resolver]. *)
Definition LicenseResolver (St : Type) : Type :=
  option uuid → string → gmap string bool → M (World St) (res bool).

(** [verbs.Handler]: one verb. *)
Definition Handler (St : Type) : Type := SagaRun → Step → M (World St) (res Vars).
