(* ===== verification/Demo.v ===== *)
(** A concrete instance of the outside of the program, for evaluating the model
    on examples: fixed answers for the external calls, printed uuids that parse
    back, and an expression language with literals and variables only.  The
    theorems do not depend on this file; their witnesses do. *)
From S2P Require Import Prelude Values Domain World.

(** The binary digits of a uuid, least significant first. *)
Fixpoint pos_digits (p : positive) : string :=
  match p with
  | xH => "."
  | xO p => String "0" (pos_digits p)
  | xI p => String "1" (pos_digits p)
  end.
Fixpoint digits_pos (s : string) : option positive :=
  match s with
  | String "." "" => Some xH
  | String "0" s => xO <$> digits_pos s
  | String "1" s => xI <$> digits_pos s
  | _ => None
  end.
Definition demo_uuid_string (u : uuid) : string :=
  match u with N0 => "nil" | Npos p => pos_digits p end.
Definition demo_uuid_parse (s : string) : res uuid :=
  if decide (s = "nil") then Ok 0%N
  else match digits_pos s with Some p => Ok (Npos p) | None => Err (EMsg "invalid UUID") end.

Lemma digits_pos_digits p : digits_pos (pos_digits p) = Some p.
Proof. induction p as [p IH|p IH|]; simpl; [by rewrite IH..|done]. Qed.

(** Expressions: "true", "false", or a variable; a leading "!" does not parse. *)
Definition demo_eval (prg : string) (vars : Vars) : res RefVal :=
  if decide (prg = "true") then Ok (RefNative (VBool true))
  else if decide (prg = "false") then Ok (RefNative (VBool false))
  else match vars !! prg with
       | Some v => Ok (RefNative v)
       | None => Err (EMsg ("no such attribute: " +:+ prg))
       end.

Definition demo_duration (s : string) : res Z :=
  if decide (s = "5s") then Ok 5000000000%Z
  else if decide (s = "-5s") then Ok (-5000000000)%Z
  else Err (EMsg "invalid duration").

(** Calls to the address "down" fail. *)
Definition demo_result (m : Msg) : option err :=
  match m with
  | MDispatchHTTP a _ => if decide (a = "down") then Some (EMsg "connection refused") else None
  | _ => None
  end.

Definition end_step (id : string) : Step := mkStep id StepTypeEnd "" "" ∅ None None ∅.

Definition demo_env : Env := {|
  uuid_string := demo_uuid_string;
  uuid_parse := demo_uuid_parse;
  uuid_New n := (1000 + N.of_nat n)%N;
  quote s := "'" +:+ s +:+ "'";
  sprint v := match v with VStr s => s | _ => type_name v end;
  range_map := λ K A _ _ m, map_to_list m;
  cel_program := string;
  cel_env := list string;
  cel_NewEnv := Ok;
  cel_Compile _ s := if strings_HasPrefix s "!" then Err (EMsg "syntax error") else Ok s;
  cel_Eval := demo_eval;
  parse_duration := demo_duration;
  parse_rfc3339 s := if decide (s = "t") then Ok 7%Z else Err (EMsg "invalid time");
  format_rfc3339 := itoa;
  json_marshal v := Ok (type_name v);
  json_struct kvs := Ok (foldr (λ kv s, kv.1 +:+ ";" +:+ s) "" kvs);
  json_steps _ := Ok [end_step "e"];
  json_object _ := Ok ∅;
  json_value s := Ok (VStr s);
  sha256_hex s := s;
  hmac_sha256_hex k s := k +:+ s;
  canonical_header s := s;
  http_NewRequest _ _ := None;
  http_response _ _ := mkResp 200 ∅ "";
  rand_float _ := f_zero;
  ext_result _ := demo_result;
  ctx_err _ := None
|}.

Lemma demo_laws : @EnvLaws demo_env.
Proof.
  split.
  - done.
  - intros [|p]; [done|]. unfold uuid_parse, uuid_string; simpl. unfold demo_uuid_parse; simpl.
    rewrite digits_pos_digits. by destruct p.
  - intros n m; simpl. lia.
Defined.

(** A world around a store: both clocks at 100, nothing drawn or sent yet. *)
Definition demo_world {St} (s : St) : World St := mkWorld s 100 100 0 0 0 [].
