(* ===== verification/Cel.v ===== *)
(** [src/internal/cel] and [src/internal/rules]: the compiled-program cache and
    the decision-table evaluator.

    cel-go itself is outside ([cel_NewEnv], [cel_Compile], [cel_Eval]); what the
    repository adds is modelled: the empty-expression guard, the
    conversion of results to Go values, the sorted and
    de-duplicated variable list, the process-wide cache keyed by a joined
    string, and first-hit evaluation with its audit trail. *)
From S2P Require Import Prelude Values Domain World Demo.

(** ** src/internal/cel/cache.go *)

(** [sort.Strings]: byte-wise order. *)
Definition str_le (a b : string) : Prop := String.leb a b = true.
#[export] Instance str_le_dec : RelDecision str_le.
Proof. unfold str_le. intros a b. apply _. Defined.
Definition sort_Strings (l : list string) : list string := merge_sort str_le l.

(** The in-place de-duplication of a sorted list, against the last kept name. *)
Fixpoint dedup_from (last : string) (l : list string) : list string :=
  match l with
  | [] => []
  | n :: l => if decide (n = last) then dedup_from last l else n :: dedup_from n l
  end.
Definition sortedUnique (names : list string) : list string :=
  match sort_Strings names with
  | [] => []
  | n :: l => n :: dedup_from n l
  end.

Definition sep_name : ascii := ascii_of_nat 31.
Definition sep_expr : ascii := ascii_of_nat 30.

(** [strings.Join] with a one-byte separator. *)
Fixpoint strings_Join (l : list string) (sep : ascii) : string :=
  match l with
  | [] => ""
  | [s] => s
  | s :: l => s +:+ String sep (strings_Join l sep)
  end.

Definition cache_key (names : list string) (expr : string) : string :=
  strings_Join names sep_name +:+ String sep_expr expr.

Section Cel.
Context `{Env}.

(** ** src/internal/cel/cel.go *)
Definition NewEnv (varNames : list string) : res cel_env :=
  map_err_res (EWrap "cel: new env") (cel_NewEnv varNames).

Definition Compile (e : cel_env) (expr : string) : res cel_program :=
  if decide (expr = "") then Err (EMsg "cel: empty expression")
  else cel_Compile e expr.

(** [refValueToNative]; a key that repeats keeps its last value. *)
Fixpoint refValueToNative (v : RefVal) : res Val :=
  match v with
  | RefNil => Ok VNil
  | RefLister elems =>
      tryp* out := map_res refValueToNative elems else id in Ok (VList out)
  | RefMapper entries =>
      tryp* out := map_res (λ kv : Val * option RefVal,
        match kv.1 with
        | VStr ks =>
            match kv.2 with
            | None => Err (EMsg ("cel: map key " +:+ quote ks +:+
                                 " not found during iteration"))
            | Some val => tryp* conv := refValueToNative val else id in Ok (ks, conv)
            end
        | k => Err (EMsg ("cel: map key is not a string: " +:+ type_name k))
        end) entries else id in
      Ok (VMap (foldl (λ m kv, <[kv.1 := kv.2]> m) ∅ out))
  | RefNative native => Ok native
  | RefRef ty => Err (EMsg ("cel: unsupported result type " +:+ ty))
  end.

Definition Eval (prg : cel_program) (vars : Vars) : res Val :=
  tryp* out := cel_Eval prg vars else EWrap "cel: eval" in refValueToNative out.

(** Building without the cache. *)
Definition build_program (names : list string) (expr : string) : res cel_program :=
  tryp* e := NewEnv names else id in Compile e expr.

(** What a caller of [CompiledProgram] sees. *)
Definition CompiledProgram (varNames : list string) (expr : string) : res cel_program :=
  build_program (sortedUnique varNames) expr.

(** The function as written, with [programCache] as explicit state. *)
Definition CompiledProgram_cached (varNames : list string) (expr : string)
    (programCache : gmap string cel_program) : res cel_program * gmap string cel_program :=
  let names := sortedUnique varNames in
  let key := cache_key names expr in
  match programCache !! key with
  | Some p => (Ok p, programCache)
  | None =>
      match NewEnv names with
      | Err e => (Err e, programCache)
      | Ok env =>
          match Compile env expr with
          | Err e => (Err e, programCache)
          | Ok prg => (Ok prg, <[key := prg]> programCache)
          end
      end
  end.

(** [keysOf]: the keys of a map in visiting order. *)
Definition keysOf (m : Vars) : list string := (range_map m).*1.
End Cel.

(** ** src/internal/rules/rules.go *)
Record EvaluatedRow := mkEvalRow {
  er_Index : nat;
  er_When : string;
  er_Matched : bool
}.

(** The audit trail as the value stored in an event's metadata. *)
Definition audit_val (audit : list EvaluatedRow) : Val :=
  VList ((λ e, VMap {["index" := VInt (Z.of_nat (er_Index e)); "when" := VStr (er_When e);
                       "matched" := VBool (er_Matched e)]}) <$> audit).

Section Rules.
Context `{Env}.

(** The loop over the rows, from row [i]: the outcome and the rows audited. *)
Fixpoint evaluate_rows (varNames : list string) (inputs : Vars) (i : nat)
    (rows : list DecisionTableRow) (audit : list EvaluatedRow)
    : res (option Vars) * list EvaluatedRow :=
  match rows with
  | [] => (Ok None, audit)
  | row :: rows =>
      match CompiledProgram varNames (row_When row) with
      | Err e => (Err (EWrap ("rules: row " +:+ itoa (Z.of_nat i) +:+ " compile") e), audit)
      | Ok prg =>
          match Eval prg inputs with
          | Err e => (Err (EWrap ("rules: row " +:+ itoa (Z.of_nat i) +:+ " eval") e), audit)
          | Ok v =>
              let matched := val_bool v in
              let audit := audit ++ [mkEvalRow i (row_When row) matched] in
              if matched then (Ok (Some (row_Then row)), audit)
              else evaluate_rows varNames inputs (S i) rows audit
          end
      end
  end.

(** [Evaluate]: the output, the audit trail and the error. *)
Definition Evaluate (def : RuleDefinition) (inputs : Vars)
    : res Vars * list EvaluatedRow :=
  if decide (rule_RuleType def ≠ RuleTypeDecisionTable) then
    (Err (EMsg ("rules: unsupported rule type: " +:+ rule_RuleType def)), [])
  else if decide (HitPolicy (rule_Spec def) ≠ HitPolicyFirst) then
    (Err (EMsg ("rules: unsupported hit policy: " +:+ HitPolicy (rule_Spec def))), [])
  else
    match evaluate_rows (keysOf inputs) inputs 0 (Rows (rule_Spec def)) [] with
    | (Err e, audit) => (Err e, audit)
    | (Ok (Some out), audit) => (Ok out, audit)
    | (Ok None, audit) =>
        match DefaultOutput (rule_Spec def) with
        | Some out => (Ok out, audit)
        | None => (Err (EMsg "rules: no_decision_row_matched"), audit)
        end
    end.
End Rules.

(** ** Lemmas on the name list *)
Lemma ascii_compare_lt_trans a b c o :
  Ascii.compare a b = Lt → (Ascii.compare b c = o ∧ o ≠ Gt) → Ascii.compare a c = Lt.
Proof.
  unfold Ascii.compare. rewrite !N.compare_lt_iff. intros Hab [Hbc Ho].
  destruct (N.compare_spec (N_of_ascii b) (N_of_ascii c)); subst; try lia. done.
Qed.

Lemma ascii_compare_eq a b : Ascii.compare a b = Eq → a = b.
Proof.
  unfold Ascii.compare. rewrite N.compare_eq_iff. intros E.
  by rewrite <-(ascii_N_embedding a), <-(ascii_N_embedding b), E.
Qed.

Lemma ascii_compare_refl a : Ascii.compare a a = Eq.
Proof. unfold Ascii.compare. apply N.compare_refl. Qed.

Lemma str_le_alt s1 s2 : str_le s1 s2 ↔ String.compare s1 s2 ≠ Gt.
Proof. unfold str_le, String.leb. by destruct (String.compare s1 s2). Qed.

#[export] Instance str_le_trans : Transitive str_le.
Proof.
  intros s1. induction s1 as [|a s1 IH]; intros [|b s2] [|c s3]; rewrite !str_le_alt; simpl;
    try done.
  destruct (Ascii.compare a b) eqn:Eab; [apply ascii_compare_eq in Eab as ->| |done].
  - destruct (Ascii.compare b c); [|done..]. rewrite <-!str_le_alt. apply IH.
  - intros _ Hbc. erewrite ascii_compare_lt_trans; [done|done|].
    split; [done|]. by destruct (Ascii.compare b c).
Qed.
#[export] Instance str_le_total : Total str_le.
Proof. intros a b. apply String.leb_total. Qed.
#[export] Instance str_le_antisymm : AntiSymm (=) str_le.
Proof. intros a b. apply String.leb_antisym. Qed.
#[export] Instance str_le_refl : Reflexive str_le.
Proof. intros a. by destruct (str_le_total a a). Qed.

(** Strictly sorted lists are determined by their elements. *)
Definition str_lt (a b : string) : Prop := str_le a b ∧ a ≠ b.

Lemma dedup_from_elem x n l : x ∈ dedup_from n l → x ∈ l.
Proof.
  revert n. induction l as [|y l IH]; simpl; intros n Hx; [done|].
  case_decide; [by right; eapply IH|].
  apply elem_of_cons in Hx as [->|Hx]; [left|right; by eapply IH].
Qed.

Lemma dedup_from_elem_inv x n l : x ∈ l → x = n ∨ x ∈ dedup_from n l.
Proof.
  revert n. induction l as [|y l IH]; simpl; intros n; [by intros ?%elem_of_nil|].
  intros [->|Hx]%elem_of_cons; case_decide; subst; auto.
  - right. left.
  - destruct (IH y Hx) as [->|]; [right; left|right; by right].
Qed.

Lemma dedup_from_sorted n l :
  StronglySorted str_le (n :: l) → StronglySorted str_lt (n :: dedup_from n l).
Proof.
  revert n. induction l as [|y l IH]; intros n Hs; simpl; [repeat constructor|].
  apply StronglySorted_inv in Hs as [Hs Hall]. apply Forall_cons in Hall as [Hny Hall].
  case_decide as Heq.
  - subst. by apply IH.
  - constructor; [by apply IH|].
    pose proof (IH y Hs) as Hy. apply StronglySorted_inv in Hy as [_ Hy].
    constructor; [by split|].
    eapply Forall_impl; [exact Hy|]. intros z [Hyz Hne]. split; [by etrans|].
    intros <-. apply Heq. by apply (anti_symm str_le).
Qed.

Lemma sortedUnique_sorted l : StronglySorted str_lt (sortedUnique l).
Proof.
  unfold sortedUnique, sort_Strings.
  pose proof (StronglySorted_merge_sort str_le l) as Hs.
  destruct (merge_sort str_le l); [constructor|]. by apply dedup_from_sorted.
Qed.

Lemma elem_of_sortedUnique x l : x ∈ sortedUnique l ↔ x ∈ l.
Proof.
  unfold sortedUnique, sort_Strings.
  rewrite <-(merge_sort_Permutation str_le l) at 2.
  destruct (merge_sort str_le l) as [|n k]; [done|]. rewrite !elem_of_cons. split.
  - intros [->|Hx%dedup_from_elem]; auto.
  - intros [->|Hx]; auto. by apply dedup_from_elem_inv.
Qed.

Lemma strictly_sorted_unique l k :
  StronglySorted str_lt l → StronglySorted str_lt k → (∀ x, x ∈ l ↔ x ∈ k) → l = k.
Proof.
  revert k. induction l as [|x l IH]; intros [|y k] Hl Hk Heq.
  - done.
  - exfalso. by apply (not_elem_of_nil y), Heq; left.
  - exfalso. by apply (not_elem_of_nil x), Heq; left.
  - apply StronglySorted_inv in Hl as [Hl Hxl]. apply StronglySorted_inv in Hk as [Hk Hyk].
    rewrite Forall_forall in Hxl, Hyk.
    assert (x = y) as <-.
    { assert (x ∈ y :: k) as [?|Hx]%elem_of_cons by (apply Heq; left); [done|].
      assert (y ∈ x :: l) as [?|Hy]%elem_of_cons by (apply Heq; left); [done|].
      apply (anti_symm str_le); [apply Hxl, Hy|apply Hyk, Hx]. }
    f_equal. apply IH; [done..|]. intros z. split; intros Hz.
    + assert (z ∈ x :: k) as [->|?]%elem_of_cons by (apply Heq; by right); [|done].
      by destruct (Hxl _ Hz).
    + assert (z ∈ x :: l) as [->|?]%elem_of_cons by (apply Heq; by right); [|done].
      by destruct (Hyk _ Hz).
Qed.

(** The order and multiplicity of the names do not matter. *)
Lemma sortedUnique_ext l k : (∀ x, x ∈ l ↔ x ∈ k) → sortedUnique l = sortedUnique k.
Proof.
  intros Heq. apply strictly_sorted_unique; [apply sortedUnique_sorted..|].
  intros x. by rewrite !elem_of_sortedUnique.
Qed.

(** Permuting the names does not change the program. *)
#[export] Instance CompiledProgram_Proper `{Env} :
  Proper ((≡ₚ) ==> (=) ==> (=)) CompiledProgram.
Proof.
  intros l k Hlk e ? <-. unfold CompiledProgram.
  by rewrite (sortedUnique_ext l k) by (intros x; by rewrite Hlk).
Qed.

(** ** The cache is transparent *)

(** [s] does not contain the byte [c]. *)
Fixpoint str_free (c : ascii) (s : string) : Prop :=
  match s with EmptyString => True | String d s => d ≠ c ∧ str_free c s end.

(** A name as CEL accepts it: not empty, without the two separators. *)
Definition name_ok (n : string) : Prop := n ≠ "" ∧ str_free sep_name n ∧ str_free sep_expr n.

Lemma str_split_inj c s1 s2 t1 t2 :
  str_free c s1 → str_free c s2 →
  s1 +:+ String c t1 = s2 +:+ String c t2 → s1 = s2 ∧ t1 = t2.
Proof.
  revert s2. induction s1 as [|a s1 IH]; intros [|b s2]; simpl; intros H1 H2 Heq.
  - by injection Heq.
  - injection Heq as -> _. by destruct H2.
  - injection Heq as -> _. by destruct H1.
  - injection Heq as -> Heq. destruct (IH s2); naive_solver.
Qed.

Lemma str_free_app c s t : str_free c s → str_free c t → str_free c (s +:+ t).
Proof. induction s; simpl; naive_solver. Qed.

Lemma str_split_no_sep c s t1 t2 : str_free c s → s ≠ t1 +:+ String c t2.
Proof.
  revert s. induction t1 as [|a t1 IH]; intros [|b s]; simpl; intros Hf Heq; [done| |done|].
  - injection Heq as -> _. by destruct Hf.
  - injection Heq as -> Heq. by apply (IH s); destruct Hf.
Qed.

Lemma str_free_Join l : Forall name_ok l → str_free sep_expr (strings_Join l sep_name).
Proof.
  induction 1 as [|n [|m l] (_ & _ & Hn) _ IH]; [done|done|].
  change (str_free sep_expr (n +:+ String sep_name (strings_Join (m :: l) sep_name))).
  apply str_free_app; [done|]. by split.
Qed.

Lemma strings_Join_inj l k :
  Forall name_ok l → Forall name_ok k →
  strings_Join l sep_name = strings_Join k sep_name → l = k.
Proof.
  revert k. induction l as [|n [|m l] IH]; intros k Hl Hk Heq.
  - destruct k as [|x [|y k]]; [done|simpl in Heq; subst|].
    + apply Forall_cons in Hk as [[? _] _]. done.
    + by destruct x.
  - apply Forall_cons in Hl as [(Hne & Hn & _) _].
    destruct k as [|x [|y k]]; simpl in Heq; [done|by subst|].
    exfalso. by apply (str_split_no_sep _ _ _ _ Hn Heq).
  - apply Forall_cons in Hl as [(Hne & Hn & _) Hl].
    destruct k as [|x [|y k]].
    + by destruct n.
    + apply Forall_cons in Hk as [(_ & Hx & _) _]. exfalso.
      by apply (str_split_no_sep _ _ _ _ Hx (eq_sym Heq)).
    + apply Forall_cons in Hk as [(_ & Hx & _) Hk].
      apply str_split_inj in Heq as [-> Heq]; [|done..]. by rewrite (IH (y :: k)).
Qed.

Lemma cache_key_inj l k e f :
  Forall name_ok l → Forall name_ok k → cache_key l e = cache_key k f → l = k ∧ e = f.
Proof.
  intros Hl Hk Heq. unfold cache_key in Heq.
  apply str_split_inj in Heq as [Hj ->]; [|by apply str_free_Join..].
  split; [|done]. by apply strings_Join_inj.
Qed.

Lemma name_ok_sortedUnique l : Forall name_ok l → Forall name_ok (sortedUnique l).
Proof. rewrite !Forall_forall. intros Hl x. rewrite elem_of_sortedUnique. apply Hl. Qed.

Section cache.
Context `{Env}.

(** Every entry is what compiling its key's arguments gives. *)
Definition cache_ok (c : gmap string cel_program) : Prop :=
  ∀ key p, c !! key = Some p →
    ∃ names expr, key = cache_key names expr ∧ Forall name_ok names ∧
                  build_program names expr = Ok p.

Lemma cache_ok_empty : cache_ok ∅.
Proof. intros key p Hk. by rewrite lookup_empty in Hk. Qed.

Lemma CompiledProgram_cached_step names expr c :
  cache_ok c → Forall name_ok names →
  (CompiledProgram_cached names expr c).1 = CompiledProgram names expr ∧
  cache_ok (CompiledProgram_cached names expr c).2.
Proof.
  intros Hc Hn%name_ok_sortedUnique. unfold CompiledProgram_cached, CompiledProgram.
  destruct (c !! _) as [p|] eqn:Hp.
  - split; [|done]. apply Hc in Hp as (names' & expr' & Hkey & Hn' & Hb).
    by apply cache_key_inj in Hkey as [-> ->].
  - unfold build_program. destruct (NewEnv (sortedUnique names)) as [e|] eqn:HE; [|done].
    destruct (Compile e expr) as [p|] eqn:HC; [|done]. split; [done|].
    intros key q; simpl. destruct (decide (key = cache_key (sortedUnique names) expr)) as [->|Hne].
    + rewrite lookup_insert_eq. intros [= <-]. eexists _, _. split_and!; [done|done|].
      unfold build_program. by rewrite HE.
    + rewrite lookup_insert_ne by done. apply Hc.
Qed.

(** A sequence of calls sharing one cache. *)
Fixpoint run_calls (calls : list (list string * string)) (c : gmap string cel_program)
    : list (res cel_program) :=
  match calls with
  | [] => []
  | (names, expr) :: calls =>
      let '(r, c) := CompiledProgram_cached names expr c in r :: run_calls calls c
  end.
End cache.

(** ** Properties of the program cache and of decision tables *)
Section cache_props.
Context `{Env}.

(** C13: Memoisation is transparent: whatever calls came before, in any order and
    with the variable names in any order, [CompiledProgram] with its shared
    cache returns what compiling the expression from scratch returns, as long
    as variable names are not empty and free of the two separator bytes. *)
Theorem CompiledProgram_cache_transparent calls c :
  cache_ok c → Forall (λ call, Forall name_ok call.1) calls →
  run_calls calls c = (λ call, CompiledProgram call.1 call.2) <$> calls.
Proof.
  revert c. induction calls as [|[names expr] calls IH]; intros c Hc; [done|].
  intros [Hn Hcalls]%Forall_cons; simpl in *.
  destruct (CompiledProgram_cached_step names expr c Hc Hn) as [Hr Hc'].
  destruct (CompiledProgram_cached names expr c) as [r c']; simpl in *.
  by rewrite Hr, IH.
Qed.
End cache_props.

Lemma CompiledProgram_cache_transparent_witness :
  @run_calls demo_env [(["b"; "a"; "b"], "a"); (["a"; "b"], "a"); (["a"], "!"); (["b"; "a"], "a")] ∅
  = [Ok "a"; Ok "a"; Err (EMsg "syntax error"); Ok "a"].
Proof.
  etransitivity.
  - apply (@CompiledProgram_cache_transparent demo_env).
    + apply cache_ok_empty.
    + repeat constructor; by vm_compute.
  - by vm_compute.
Defined.

Section rule_props.
Context `{Env}.

(** What one row of a decision table says about the inputs. *)
Definition row_outcome (inputs : Vars) (row : DecisionTableRow) : res bool :=
  tryp* prg := CompiledProgram (keysOf inputs) (row_When row) else id in
  tryp* v := Eval prg inputs else id in Ok (val_bool v).

(** The audit entries of rows that did not match, from index [i]. *)
Definition misses (i : nat) (rows : list DecisionTableRow) : list EvaluatedRow :=
  imap (λ k row, mkEvalRow (i + k) (row_When row) false) rows.

Lemma misses_cons i row rows :
  misses i (row :: rows) = mkEvalRow i (row_When row) false :: misses (S i) rows.
Proof.
  unfold misses; simpl. f_equal; [f_equal; lia|].
  apply imap_ext. intros. unfold compose. f_equal. lia.
Qed.

Lemma evaluate_rows_misses inputs pre post i audit :
  Forall (λ row, row_outcome inputs row = Ok false) pre →
  evaluate_rows (keysOf inputs) inputs i (pre ++ post) audit =
  evaluate_rows (keysOf inputs) inputs (i + length pre) post (audit ++ misses i pre).
Proof.
  revert i audit. induction pre as [|row pre IH]; intros i audit Hpre; simpl.
  - unfold misses; simpl. by rewrite app_nil_r, Nat.add_0_r.
  - apply Forall_cons in Hpre as [Hrow Hpre]. unfold row_outcome in Hrow.
    destruct (CompiledProgram _ _) as [prg|]; [|done].
    destruct (Eval prg inputs) as [v|]; [|done]. injection Hrow as ->.
    rewrite IH by done. rewrite misses_cons, <-app_assoc; simpl. f_equal. lia.
Qed.

Definition decision_table (def : RuleDefinition) : Prop :=
  rule_RuleType def = RuleTypeDecisionTable ∧ HitPolicy (rule_Spec def) = HitPolicyFirst.

(** First-hit semantics of decision tables: after a prefix of rows that do
    not match, a matching row decides the output and nothing behind it is
    evaluated, a row that does not compile or evaluate is an error, and when the
    table is exhausted the default output applies, or else the
    [no_decision_row_matched] error; the audit trail lists the prefix as missed
    (and the hit as matched) with their indices. *)
Theorem Evaluate_first_hit def inputs pre post :
  decision_table def → Rows (rule_Spec def) = pre ++ post →
  Forall (λ row, row_outcome inputs row = Ok false) pre →
  match post with
  | [] =>
      Evaluate def inputs =
        (match DefaultOutput (rule_Spec def) with
         | Some out => Ok out
         | None => Err (EMsg "rules: no_decision_row_matched") end, misses 0 pre)
  | row :: _ =>
      match row_outcome inputs row with
      | Ok true => Evaluate def inputs =
          (Ok (row_Then row), misses 0 pre ++ [mkEvalRow (length pre) (row_When row) true])
      | Ok false => True
      | Err _ => ∃ e, Evaluate def inputs = (Err e, misses 0 pre)
      end
  end.
Proof.
  intros [Hty Hhp] Hrows Hpre. unfold Evaluate. rewrite Hty, Hhp, Hrows.
  rewrite !decide_False by naive_solver. rewrite evaluate_rows_misses by done; simpl.
  destruct post as [|row post]; simpl; [by destruct (DefaultOutput _)|].
  unfold row_outcome. destruct (CompiledProgram _ _) as [prg|]; [|by eexists].
  destruct (Eval prg inputs) as [v|]; [|by eexists].
  by destruct (val_bool v).
Qed.
End rule_props.

Definition demo_rule : RuleDefinition :=
  mkRule 1 "r" 1 None "" RuleTypeDecisionTable
    (mkSpec HitPolicyFirst [mkRow "false" ∅; mkRow "x" {["branch" := VStr "yes"]}; mkRow "!" ∅] None)
    true 0 "".

Lemma Evaluate_first_hit_witness :
  @Evaluate demo_env demo_rule {["x" := VBool true]} =
  (Ok {["branch" := VStr "yes"]}, [mkEvalRow 0 "false" false; mkEvalRow 1 "x" true]).
Proof.
  assert (@row_outcome demo_env {["x" := VBool true]} (mkRow "x" {["branch" := VStr "yes"]})
          = Ok true) as Hrow by (vm_compute; reflexivity).
  pose proof (@Evaluate_first_hit demo_env demo_rule {["x" := VBool true]} [mkRow "false" ∅]
           [mkRow "x" {["branch" := VStr "yes"]}; mkRow "!" ∅]) as Hhit.
  cbv beta iota in Hhit. rewrite Hrow in Hhit. apply Hhit.
  - done.
  - done.
  - repeat constructor.
Defined.
