(* ===== verification/Clock.v ===== *)
(** The virtual clock: [src/clock/clock.go].

    A channel is a number; [fc_chans] holds the time that was put into it (each
    channel has a buffer of one and is closed after the first send).  The system
    clock is part of the process state ([World]). *)
From S2P Require Import Prelude.

Record fakeWaiter := mkWaiter { fw_at : Z; fw_ch : nat }.
Record FakeClock := mkFake {
  fc_now : Z;
  fc_waiters : list fakeWaiter;
  fc_next : nat;               (* channels made so far *)
  fc_chans : gmap nat Z
}.

Definition NewFakeClock (start : Z) : FakeClock := mkFake start [] 0 ∅.

(** [After]: the new channel. *)
Definition After (d : Z) (f : FakeClock) : nat * FakeClock :=
  let ch := fc_next f in
  (ch, mkFake (fc_now f) (fc_waiters f ++ [mkWaiter (fc_now f + d) ch]) (S ch) (fc_chans f)).

(** The loop of [Advance]: the waiters kept, and the channels after the sends. *)
Fixpoint fire_waiters (now : Z) (l : list fakeWaiter) (chans : gmap nat Z)
    : list fakeWaiter * gmap nat Z :=
  match l with
  | [] => ([], chans)
  | w :: l =>
      if decide (fw_at w ≤ now)%Z then fire_waiters now l (<[fw_ch w := now]> chans)
      else let '(kept, chans) := fire_waiters now l chans in (w :: kept, chans)
  end.
Definition FakeClock_Advance (d : Z) (f : FakeClock) : FakeClock :=
  let now := (fc_now f + d)%Z in
  let '(kept, chans) := fire_waiters now (fc_waiters f) (fc_chans f) in
  mkFake now kept (fc_next f) chans.

(** ** A channel fires once, at the first instant at or past its deadline *)

(** What a test does with the clock. *)
Inductive clock_op := OpAfter (d : Z) | OpAdvance (d : Z).
Definition clock_step (op : clock_op) (f : FakeClock) : FakeClock :=
  match op with OpAfter d => (After d f).2 | OpAdvance d => FakeClock_Advance d f end.
Definition clock_run (ops : list clock_op) (f : FakeClock) : FakeClock :=
  fold_left (λ f op, clock_step op f) ops f.

(** The instants the clock shows after each [Advance]. *)
Fixpoint instants (now : Z) (ops : list clock_op) : list Z :=
  match ops with
  | [] => []
  | OpAfter _ :: ops => instants now ops
  | OpAdvance d :: ops => (now + d)%Z :: instants (now + d)%Z ops
  end.

(** A channel whose deadline is ahead: it has one waiter and is empty; and one that
    got its time: no waiter is left. *)
Definition pending (at_ : Z) (ch : nat) (f : FakeClock) : Prop :=
  ch < fc_next f ∧ fc_chans f !! ch = None ∧
  filter (λ w, fw_ch w = ch) (fc_waiters f) = [mkWaiter at_ ch].
Definition fired (t : Z) (ch : nat) (f : FakeClock) : Prop :=
  ch < fc_next f ∧ fc_chans f !! ch = Some t ∧ filter (λ w, fw_ch w = ch) (fc_waiters f) = [].

Lemma fire_waiters_spec now l chans ch :
  (fire_waiters now l chans).1 = filter (λ w, ¬ (fw_at w ≤ now)%Z) l ∧
  (fire_waiters now l chans).2 !! ch =
    if decide (filter (λ w, (fw_at w ≤ now)%Z) (filter (λ w, fw_ch w = ch) l) = [])
    then chans !! ch else Some now.
Proof.
  revert chans. induction l as [|w l IH]; intros chans; [done|]; cbn [fire_waiters].
  rewrite !filter_cons. destruct (decide (fw_at w ≤ now)%Z) as [Hw|Hw].
  - rewrite (decide_False (P := ¬ (fw_at w ≤ now)%Z)) by (intros Hn; by apply Hn). destruct (IH (<[fw_ch w := now]> chans)) as [-> ->].
    split; [done|]. case_decide as Hl.
    + destruct (decide (fw_ch w = ch)) as [<-|Hne].
      * rewrite filter_cons, (decide_True (P := (fw_at w ≤ now)%Z)) by done.
        by rewrite decide_False, lookup_insert_eq.
      * by rewrite decide_True, lookup_insert_ne.
    + rewrite decide_False; [done|]. case_decide; [|done].
      by rewrite filter_cons, decide_True.
  - rewrite (decide_True (P := ¬ (fw_at w ≤ now)%Z)) by done. specialize (IH chans).
    destruct (fire_waiters now l chans) as [kept chans']; cbn [fst snd] in *.
    destruct IH as [-> ->]. split; [done|].
    destruct (decide (fw_ch w = ch)); [|done]. by rewrite filter_cons, (decide_False (P := (_ ≤ _)%Z)).
Qed.

Lemma Advance_pending d at_ ch f :
  pending at_ ch f →
  let now := (fc_now f + d)%Z in
  if decide (at_ ≤ now)%Z then fired now ch (FakeClock_Advance d f)
  else pending at_ ch (FakeClock_Advance d f).
Proof.
  intros (Hm & Hc & Hw) now. unfold FakeClock_Advance, fired, pending. fold now.
  pose proof (fire_waiters_spec now (fc_waiters f) (fc_chans f) ch) as Hs.
  destruct (fire_waiters _ _ _) as [kept chans]; cbn [fst snd] in Hs; destruct Hs as [-> Hs].
  rewrite Hw, filter_cons, filter_nil in Hs. cbn [fc_next fc_chans fc_waiters fw_at] in *.
  assert (∀ P : fakeWaiter → Prop, ∀ `{∀ x, Decision (P x)},
    filter (λ w, fw_ch w = ch) (filter P (fc_waiters f)) = filter P [mkWaiter at_ ch]) as Hcomm.
  { intros P ?. rewrite <-Hw, !list_filter_filter. apply list_filter_iff. intros w. tauto. }
  rewrite Hcomm, filter_cons, filter_nil. cbn [fw_at].
  destruct (decide (at_ ≤ now)%Z) as [Ha|Ha].
  - rewrite (decide_False (P := ¬ (at_ ≤ now)%Z)) by (intros Hn; by apply Hn).
    by rewrite decide_False in Hs.
  - rewrite (decide_True (P := ¬ (at_ ≤ now)%Z)) by done.
    rewrite decide_True in Hs by done. split_and!; [done|by rewrite Hs|done].
Qed.

Lemma Advance_fired d t ch f : fired t ch f → fired t ch (FakeClock_Advance d f).
Proof.
  intros (Hm & Hc & Hw). unfold FakeClock_Advance, fired.
  pose proof (fire_waiters_spec (fc_now f + d) (fc_waiters f) (fc_chans f) ch) as Hs.
  destruct (fire_waiters _ _ _) as [kept chans]; cbn [fst snd] in Hs; destruct Hs as [-> Hs].
  rewrite Hw, filter_nil in Hs. cbn [fc_next fc_chans fc_waiters]. split_and!; [done|by rewrite Hs|].
  assert (filter (λ w, fw_ch w = ch) (filter (λ w, ¬ (fw_at w ≤ fc_now f + d)%Z) (fc_waiters f)) =
          filter (λ w, ¬ (fw_at w ≤ fc_now f + d)%Z) (filter (λ w, fw_ch w = ch) (fc_waiters f))) as ->.
  { rewrite !list_filter_filter. apply list_filter_iff. intros w. tauto. }
  by rewrite Hw.
Qed.

(** Waiting on another channel changes neither. *)
Lemma After_others d ch f :
  ch < fc_next f →
  filter (λ w, fw_ch w = ch) (fc_waiters (After d f).2) = filter (λ w, fw_ch w = ch) (fc_waiters f).
Proof.
  intros Hm. simpl. rewrite filter_app, filter_cons, filter_nil; cbn [fw_ch].
  rewrite decide_False by lia. by rewrite app_nil_r.
Qed.

Lemma run_fired ops t ch f : fired t ch f → fired t ch (clock_run ops f).
Proof.
  revert f. induction ops as [|[d|d] ops IH]; intros f Hf; [done|..]; apply IH.
  - destruct Hf as (Hm & Hc & Hw). split_and!; [simpl; lia|done|].
    cbn [clock_step]. by rewrite After_others.
  - by apply Advance_fired.
Qed.

Lemma run_pending ops at_ ch f :
  pending at_ ch f →
  match list_find (λ t, (at_ ≤ t)%Z) (instants (fc_now f) ops) with
  | Some (_, t) => fired t ch (clock_run ops f)
  | None => pending at_ ch (clock_run ops f)
  end.
Proof.
  revert f. induction ops as [|[d|d] ops IH]; intros f Hf; [done|..]; cbn [instants].
  - apply (IH (After d f).2). destruct Hf as (Hm & Hc & Hw). split_and!; [simpl; lia|done|].
    by rewrite After_others.
  - pose proof (Advance_pending d at_ ch f Hf) as Ha. cbv zeta in Ha. cbn [list_find].
    assert (fc_now (FakeClock_Advance d f) = (fc_now f + d)%Z) as Hn.
    { unfold FakeClock_Advance. by destruct (fire_waiters _ _ _). }
    destruct (decide (at_ ≤ fc_now f + d)%Z); [by apply (run_fired ops)|].
    specialize (IH _ Ha). rewrite Hn in IH.
    by destruct (list_find _ _) as [[i t]|].
Qed.

(** A channel made by [After] receives exactly one value: the first instant an
    [Advance] shows at or past its deadline, whatever else happens to the clock
    meanwhile; a zero or negative duration fires at the next [Advance], not at
    once. *)
Theorem After_fires_once d f ops :
  (∀ w, w ∈ fc_waiters f → fw_ch w < fc_next f) →
  (∀ ch t, fc_chans f !! ch = Some t → ch < fc_next f) →
  let '(ch, f1) := After d f in
  fc_chans (clock_run ops f1) !! ch =
    snd <$> list_find (λ t, (fc_now f + d ≤ t)%Z) (instants (fc_now f) ops).
Proof.
  intros Hm Hc. simpl. pose proof (run_pending ops (fc_now f + d) (fc_next f) (After d f).2) as Hp.
  assert (pending (fc_now f + d) (fc_next f) (After d f).2) as Hpend.
  { split_and!; simpl; [lia| |].
    - destruct (fc_chans f !! fc_next f) as [t|] eqn:E; [|done]. specialize (Hc _ _ E). lia.
    - rewrite filter_app, filter_cons_True by done.
      assert (filter (λ w, fw_ch w = fc_next f) (fc_waiters f) = []) as ->; [|done].
      induction (fc_waiters f) as [|w l IH]; [done|]. rewrite filter_cons, decide_False.
      + apply IH. intros x Hx. apply Hm. by right.
      + specialize (Hm w ltac:(left)). lia. }
  specialize (Hp Hpend). simpl in Hp. destruct (list_find _ _) as [[i t]|]; by destruct Hp as (_ & Hp & _).
Qed.
