(* ===== verification/Clone.v ===== *)
(** The deep copies of [src/store/memory/clone.go], on a heap.

    The other files treat Go maps and slices as values.  That is sound for the store
    because it copies every value on the way in and on the way out.  Here a map, a
    slice or a pointer is a location of a heap, a copy allocates, and the theorems say
    that what the store keeps and what its callers hold never share a location. *)
From S2P Require Import Prelude Values Domain World.

(** ** The heap *)
Abbreviation loc := positive.

(** An [any]: a scalar, or a reference; [None] is the nil map or slice.  A scalar is a
    [Val] that is none of the reference shapes. *)
Inductive hval :=
| HScalar (v : Val)
| HMap (l : option loc)        (* map[string]any *)
| HList (l : option loc)       (* []any *)
| HStrMap (l : option loc)     (* map[string]string *)
| HStrs (l : option loc)       (* []string *)
| HMaps (l : option loc).      (* []map[string]any *)

(** What a pointer, a slice of frames or a map of flags refers to. *)
Inductive cell :=
| CUuid (u : uuid)
| CTime (t : Z)
| CString (s : string)
| CFrames (l : list TryCatchFrame)
| CFlags (m : gmap string bool)
| CStrMap (m : gmap string string)
| CRetry (r : RetryPolicy)
| CBranches (m : gmap string Branch).

(** A [domain.Step]: its fields held by value, and its references. *)
Record HStep := mkHStep {
  hs_flat : Step;                  (* only the fields not listed below are read from it *)
  hs_Inputs : option loc;
  hs_Compensation : option loc;
  hs_Retry : option loc;
  hs_Branches : option loc;
  hs_Extra : option loc
}.

Inductive obj :=
| OMap (m : gmap string hval)
| OList (l : list hval)
| OStrs (l : list string)
| OMaps (l : list (option loc))
| OComp (action : string) (inputs : option loc)       (* a [domain.Compensation] *)
| OSteps (l : list HStep)
| ORows (l : list (string * option loc))              (* [When], [Then] *)
| OCell (c : cell).

Abbreviation heap := (gmap loc obj).

(** Allocating code; [None] is running out of fuel. *)
Definition C (A : Type) : Type := heap → option (A * heap).
Definition cret {A} (a : A) : C A := λ h, Some (a, h).
Definition cbind {A B} (c : C A) (f : A → C B) : C B := λ h,
  match c h with Some (a, h1) => f a h1 | None => None end.
#[global] Arguments cbind {A B} c f : simpl never.
Notation "'c*' x := c 'in' k" := (cbind c (λ x, k))
  (at level 10, x pattern, c at level 100, k at level 200) : saga_scope.

Definition alloc (o : obj) : C loc := λ h, let l := fresh (dom h) in Some (l, <[l := o]> h).
Definition load (l : loc) : C (option obj) := λ h, Some (h !! l, h).

(** Map a list through a copy. *)
Fixpoint clone_list {A B} (f : A → C B) (l : list A) : C (list B) :=
  match l with
  | [] => cret []
  | x :: l => c* y := f x in c* ys := clone_list f l in cret (y :: ys)
  end.

(** [out := make([]T, len(t)); for i, e := range t { out[i] = f(e) }]: the slice behind a
    location, copied element by element.  A location that holds something else is a type
    confusion Go excludes. *)
Definition clone_slice {A} (get : obj → option (list A)) (put : list A → obj) (f : A → C A)
    (l : option loc) : C (option loc) :=
  match l with
  | None => cret None
  | Some l =>
      c* o := load l in
      match o ≫= get with
      | Some xs => c* out := clone_list f xs in c* l' := alloc (put out) in cret (Some l')
      | None => λ _, None
      end
  end.
Definition get_list (o : obj) := match o with OList l => Some l | _ => None end.
Definition get_maps (o : obj) := match o with OMaps l => Some l | _ => None end.
Definition get_steps (o : obj) := match o with OSteps l => Some l | _ => None end.
Definition get_rows (o : obj) := match o with ORows l => Some l | _ => None end.

Section Clone.
Context `{Env}.

(** [for k, v := range m { out[k] = f(v) }], in the order the range gives. *)
Definition clone_entries (f : hval → C hval) (m : gmap string hval) : C (gmap string hval) :=
  c* out := clone_list (λ kv, c* v := f kv.2 in cret (kv.1, v)) (range_map m) in
  cret (list_to_map out).

(** ** clone.go *)

Definition clone_cell (l : option loc) : C (option loc) :=
  match l with
  | None => cret None
  | Some l =>
      c* o := load l in
      match o with
      | Some (OCell c) => c* l' := alloc (OCell c) in cret (Some l')
      | _ => λ _, None
      end
  end.
(** [clonePtr], the copied frames of [cloneRun], [cloneBoolMap], [cloneStrMap]: the
    referenced value is copied to a new location. *)
Definition clonePtr : option loc → C (option loc) := clone_cell.
Definition cloneBoolMap : option loc → C (option loc) := clone_cell.
Definition cloneStrMap : option loc → C (option loc) := clone_cell.

Definition cloneStrs (l : option loc) : C (option loc) :=
  match l with
  | None => cret None
  | Some l =>
      c* o := load l in
      match o with
      | Some (OStrs s) => c* l' := alloc (OStrs s) in cret (Some l')
      | _ => λ _, None
      end
  end.

(** [cloneMap] over the copy of an element. *)
Definition cloneMap_with (f : hval → C hval) (l : option loc) : C (option loc) :=
  match l with
  | None => cret None
  | Some l =>
      c* o := load l in
      match o with
      | Some (OMap m) => c* out := clone_entries f m in
                         c* l' := alloc (OMap out) in cret (Some l')
      | _ => λ _, None
      end
  end.

Fixpoint cloneAny (fuel : nat) (v : hval) : C hval :=
  match fuel with
  | O => λ _, None
  | S fuel =>
      match v with
      | HScalar v => cret (HScalar v)
      | HMap l => c* l' := cloneMap_with (cloneAny fuel) l in cret (HMap l')
      | HList l => c* l' := clone_slice get_list OList (cloneAny fuel) l in cret (HList l')
      | HStrMap l => c* l' := cloneStrMap l in cret (HStrMap l')
      | HStrs l => c* l' := cloneStrs l in cret (HStrs l')
      | HMaps l => c* l' := clone_slice get_maps OMaps (cloneMap_with (cloneAny fuel)) l in
                   cret (HMaps l')
      end
  end.
Definition cloneMap (fuel : nat) : option loc → C (option loc) := cloneMap_with (cloneAny fuel).

(** A [domain.SagaRun]: its fields held by value, and its references. *)
Record HRun := mkHRun {
  hr_flat : SagaRun;               (* only the fields not listed below are read from it *)
  hr_TenantID : option loc;
  hr_Inputs : option loc;
  hr_Variables : option loc;
  hr_TerminalAt : option loc;
  hr_TriggerID : option loc;
  hr_ParentRunID : option loc;
  hr_ParentStepID : option loc;
  hr_ParentBranchID : option loc;
  hr_TryCatchStack : option loc;
  hr_WakeupAt : option loc;
  hr_AwaitedSignal : option loc;
  hr_AwaitedEventTopic : option loc;
  hr_AwaitedEventHeaders : option loc;
  hr_FeatureOverrides : option loc;
  hr_AwaitedActionDispatch : option loc;
  hr_LastError : option loc
}.

Definition cloneRun (fuel : nat) (r : HRun) : C HRun :=
  c* tenantID := clonePtr (hr_TenantID r) in
  c* inputs := cloneMap fuel (hr_Inputs r) in
  c* variables := cloneMap fuel (hr_Variables r) in
  c* terminalAt := clonePtr (hr_TerminalAt r) in
  c* triggerID := clonePtr (hr_TriggerID r) in
  c* parentRunID := clonePtr (hr_ParentRunID r) in
  c* parentStepID := clonePtr (hr_ParentStepID r) in
  c* parentBranchID := clonePtr (hr_ParentBranchID r) in
  c* tryCatchStack := clone_cell (hr_TryCatchStack r) in
  c* wakeupAt := clonePtr (hr_WakeupAt r) in
  c* awaitedSignal := clonePtr (hr_AwaitedSignal r) in
  c* awaitedEventTopic := clonePtr (hr_AwaitedEventTopic r) in
  c* awaitedEventHeaders := cloneStrMap (hr_AwaitedEventHeaders r) in
  c* featureOverrides := cloneBoolMap (hr_FeatureOverrides r) in
  c* awaitedActionDispatch := clonePtr (hr_AwaitedActionDispatch r) in
  c* lastError := clonePtr (hr_LastError r) in
  cret (mkHRun (hr_flat r) tenantID inputs variables terminalAt triggerID parentRunID
          parentStepID parentBranchID tryCatchStack wakeupAt awaitedSignal awaitedEventTopic
          awaitedEventHeaders featureOverrides awaitedActionDispatch lastError).

Definition cloneRuns (fuel : nat) : list HRun → C (list HRun) := clone_list (cloneRun fuel).

(** The structs below are laid out like [HRun]. *)
Definition cloneCompensation (fuel : nat) (l : option loc) : C (option loc) :=
  match l with
  | None => cret None
  | Some l =>
      c* o := load l in
      match o with
      | Some (OComp action l) => c* inputs := cloneMap fuel l in
                                 c* l' := alloc (OComp action inputs) in cret (Some l')
      | _ => λ _, None
      end
  end.
Definition cloneStep (fuel : nat) (st : HStep) : C HStep :=
  c* inputs := cloneMap fuel (hs_Inputs st) in
  c* compensation := cloneCompensation fuel (hs_Compensation st) in
  c* retry := clonePtr (hs_Retry st) in
  c* branches := clone_cell (hs_Branches st) in
  c* extra := cloneMap fuel (hs_Extra st) in
  cret (mkHStep (hs_flat st) inputs compensation retry branches extra).

Record HDef := mkHDef {
  hd_flat : WorkflowDefinition;
  hd_TenantID : option loc;
  hd_Entrypoints : option loc;
  hd_Steps : option loc
}.
Definition cloneDef (fuel : nat) (d : HDef) : C HDef :=
  c* tenantID := clonePtr (hd_TenantID d) in
  c* entrypoints := cloneStrMap (hd_Entrypoints d) in
  c* steps := clone_slice get_steps OSteps (cloneStep fuel) (hd_Steps d) in
  cret (mkHDef (hd_flat d) tenantID entrypoints steps).
Definition cloneDefs (fuel : nat) : list HDef → C (list HDef) := clone_list (cloneDef fuel).

Record HEvent := mkHEvent { he_flat : SagaRunEvent; he_Metadata : option loc }.
Definition cloneEvent (fuel : nat) (e : HEvent) : C HEvent :=
  c* metadata := cloneMap fuel (he_Metadata e) in cret (mkHEvent (he_flat e) metadata).
Definition cloneEvents (fuel : nat) : list HEvent → C (list HEvent) :=
  clone_list (cloneEvent fuel).

Record HSignal := mkHSignal {
  hg_flat : SagaSignal; hg_Payload : option loc; hg_ConsumedAt : option loc
}.
Definition cloneSignal (fuel : nat) (s : HSignal) : C HSignal :=
  c* payload := cloneMap fuel (hg_Payload s) in
  c* consumedAt := clonePtr (hg_ConsumedAt s) in
  cret (mkHSignal (hg_flat s) payload consumedAt).

Record HTask := mkHTask {
  ht_flat : UserTask; ht_DueAt : option loc; ht_FormSchema : option loc;
  ht_SubmittedAt : option loc; ht_Result : option loc
}.
Definition cloneUserTask (fuel : nat) (t : HTask) : C HTask :=
  c* dueAt := clonePtr (ht_DueAt t) in
  c* formSchema := cloneMap fuel (ht_FormSchema t) in
  c* submittedAt := clonePtr (ht_SubmittedAt t) in
  c* result := cloneMap fuel (ht_Result t) in
  cret (mkHTask (ht_flat t) dueAt formSchema submittedAt result).

Record HAction := mkHAction {
  ha_flat : ActionRegistration; ha_InputSchema : option loc; ha_OutputSchema : option loc;
  ha_ErrorCodes : option loc; ha_DefaultRetry : option loc
}.
Definition cloneAction (fuel : nat) (a : HAction) : C HAction :=
  c* inputSchema := cloneMap fuel (ha_InputSchema a) in
  c* outputSchema := cloneMap fuel (ha_OutputSchema a) in
  c* errorCodes := cloneStrs (ha_ErrorCodes a) in
  c* defaultRetry := clonePtr (ha_DefaultRetry a) in
  cret (mkHAction (ha_flat a) inputSchema outputSchema errorCodes defaultRetry).

(** A [domain.RuleSpec] is held by value in its rule. *)
Record HSpec := mkHSpec {
  hp_HitPolicy : string; hp_Rows : option loc; hp_DefaultOutput : option loc
}.
Definition cloneRow (fuel : nat) (row : string * option loc) : C (string * option loc) :=
  c* then_ := cloneMap fuel row.2 in cret (row.1, then_).
Definition cloneRuleSpec (fuel : nat) (s : HSpec) : C HSpec :=
  c* rows := clone_slice get_rows ORows (cloneRow fuel) (hp_Rows s) in
  c* defaultOutput := cloneMap fuel (hp_DefaultOutput s) in
  cret (mkHSpec (hp_HitPolicy s) rows defaultOutput).

Record HRule := mkHRule {
  hu_flat : RuleDefinition; hu_TenantID : option loc; hu_Spec : HSpec
}.
Definition cloneRule (fuel : nat) (r : HRule) : C HRule :=
  c* tenantID := clonePtr (hu_TenantID r) in
  c* spec := cloneRuleSpec fuel (hu_Spec r) in
  cret (mkHRule (hu_flat r) tenantID spec).

Record HTrigger := mkHTrigger {
  hx_flat : SagaTrigger; hx_Config : option loc; hx_TenantID : option loc;
  hx_NextFireAt : option loc; hx_LastFiredAt : option loc
}.
Definition cloneTrigger (fuel : nat) (t : HTrigger) : C HTrigger :=
  c* config := cloneMap fuel (hx_Config t) in
  c* tenantID := clonePtr (hx_TenantID t) in
  c* nextFireAt := clonePtr (hx_NextFireAt t) in
  c* lastFiredAt := clonePtr (hx_LastFiredAt t) in
  cret (mkHTrigger (hx_flat t) config tenantID nextFireAt lastFiredAt).

Record HFire := mkHFire { hf_flat : TriggerFireRow; hf_ResultingRunID : option loc }.
Definition cloneTriggerFire (f : HFire) : C HFire :=
  c* resultingRunID := clonePtr (hf_ResultingRunID f) in
  cret (mkHFire (hf_flat f) resultingRunID).

(** ** store.go, on the heap: the two ends of the store's memory *)

(** [Store.CreateRun] keeps a copy, [Store.GetRun] hands out a copy.  The other operations that
    clone do it with the same functions at the same two places. *)
Definition heap_CreateRun (fuel : nat) (run : HRun) (s : gmap uuid HRun) : C (gmap uuid HRun) :=
  c* r := cloneRun fuel run in cret (<[run_ID (hr_flat run) := r]> s).
Definition heap_GetRun (fuel : nat) (id : uuid) (s : gmap uuid HRun) : C (option HRun) :=
  match s !! id with
  | None => cret None
  | Some r => c* r' := cloneRun fuel r in cret (Some r')
  end.
End Clone.
