(* ===== verification/CloneProps.v ===== *)
(** The deep copies of [Clone]: a copy reads as its original and lies in new locations,
    so what the store keeps is out of its callers' reach. *)
From S2P Require Import Prelude Values Domain World Demo Clone.

(** ** What a reference reads as *)

(** None of the shapes that are references in Go. *)
Definition scalar (v : Val) : Prop :=
  match v with VList _ | VMap _ | VStrs _ | VStrMap _ => False | _ => True end.

(** A kind of reference: [R h x t] when [x] reads as [t] using the locations of [h]. *)
Definition reading (A T : Type) : Type := heap → A → T → Prop.
Class Mono {A T} (R : reading A T) : Prop :=
  mono h h' x t : h ⊆ h' → R h x t → R h' x t.

(** A copying function: the copy reads as the original, by new locations only. *)
Class Clones {A T} (R : reading A T) (f : A → C A) : Prop :=
  clones h h1 x t : R h x t → h ⊆ h1 →
    ∃ x' h2, f x h1 = Some (x', h2) ∧ h1 ⊆ h2 ∧ R (h2 ∖ h1) x' t.

Definition reads_cell {T} (inj : T → cell) (nil : T → Prop) : reading (option loc) T :=
  λ h l t, match l with None => nil t | Some l => h !! l = Some (OCell (inj t)) end.
(** A pointer reads as an option. *)
Definition reads_ptr {T} (inj : T → cell) : reading (option loc) (option T) :=
  λ h l t, match l, t with
           | None, None => True
           | Some l, Some t => h !! l = Some (OCell (inj t))
           | _, _ => False
           end.
Definition reads_strs : reading (option loc) (list string) :=
  λ h l t, match l with None => t = [] | Some l => h !! l = Some (OStrs t) end.
Definition reads_list {A T} (R : reading A T) : reading (list A) (list T) :=
  λ h, Forall2 (R h).
Definition reads_entry {A T} (R : reading A T) : reading (string * A) (string * T) :=
  λ h x t, x.1 = t.1 ∧ R h x.2 t.2.
Definition reads_map {T} (R : reading hval T) : reading (option loc) (gmap string T) :=
  λ h l m, match l with
           | None => m = ∅
           | Some l => ∃ hm, h !! l = Some (OMap hm) ∧
                             ∀ k, option_Forall2 (R h) (hm !! k) (m !! k)
           end.

Definition reads_slice {A T} (put : list A → obj) (R : reading A T) :
    reading (option loc) (list T) :=
  λ h l ts, match l with
            | None => ts = []
            | Some l => ∃ xs, h !! l = Some (put xs) ∧ reads_list R h xs ts
            end.

(** [reads n]: a value nested at most [n] deep. *)
Fixpoint reads (n : nat) : reading hval Val := λ h v t,
  match n with
  | O => False
  | S n =>
      match v with
      | HScalar s => scalar s ∧ t = s
      | HMap l => ∃ m, t = VMap m ∧ reads_map (reads n) h l m
      | HList l => ∃ ts, t = VList ts ∧ reads_slice OList (reads n) h l ts
      | HStrMap l => ∃ m, t = VStrMap m ∧ reads_cell CStrMap (.= ∅) h l m
      | HStrs l => ∃ s, t = VStrs s ∧ reads_strs h l s
      | HMaps l => ∃ ms, t = VList (VMap <$> ms) ∧ reads_slice OMaps (reads_map (reads n)) h l ms
      end
  end.

(** A run on the heap reads as a [SagaRun]. *)
Definition reads_run (n : nat) : reading HRun SagaRun := λ h r t,
  t = mkRun (run_ID (hr_flat r)) (run_WorkflowID (hr_flat r)) (run_DefinitionID (hr_flat r))
        (run_TenantID t) (run_State (hr_flat r)) (run_CurrentStep (hr_flat r)) (run_Inputs t)
        (run_Variables t) (run_StartedAt (hr_flat r)) (run_LastEventAt (hr_flat r))
        (run_TerminalAt t) (run_RequiresManualReview (hr_flat r)) (run_TriggerID t)
        (run_ParentRunID t) (run_ParentStepID t) (run_ParentBranchID t) (run_TryCatchStack t)
        (run_DryRun (hr_flat r)) (run_WakeupAt t) (run_AwaitedSignal t)
        (run_AwaitedEventTopic t) (run_AwaitedEventHeaders t) (run_FeatureOverrides t)
        (run_AwaitedActionDispatch t) (run_CurrentAttempt (hr_flat r)) (run_LastError t) ∧
  reads_ptr CUuid h (hr_TenantID r) (run_TenantID t) ∧
  reads_map (reads n) h (hr_Inputs r) (run_Inputs t) ∧
  reads_map (reads n) h (hr_Variables r) (run_Variables t) ∧
  reads_ptr CTime h (hr_TerminalAt r) (run_TerminalAt t) ∧
  reads_ptr CUuid h (hr_TriggerID r) (run_TriggerID t) ∧
  reads_ptr CUuid h (hr_ParentRunID r) (run_ParentRunID t) ∧
  reads_ptr CString h (hr_ParentStepID r) (run_ParentStepID t) ∧
  reads_ptr CString h (hr_ParentBranchID r) (run_ParentBranchID t) ∧
  reads_cell CFrames (.= []) h (hr_TryCatchStack r) (run_TryCatchStack t) ∧
  reads_ptr CTime h (hr_WakeupAt r) (run_WakeupAt t) ∧
  reads_ptr CString h (hr_AwaitedSignal r) (run_AwaitedSignal t) ∧
  reads_ptr CString h (hr_AwaitedEventTopic r) (run_AwaitedEventTopic t) ∧
  reads_cell CStrMap (.= ∅) h (hr_AwaitedEventHeaders r) (run_AwaitedEventHeaders t) ∧
  reads_cell CFlags (.= ∅) h (hr_FeatureOverrides r) (run_FeatureOverrides t) ∧
  reads_ptr CString h (hr_AwaitedActionDispatch r) (run_AwaitedActionDispatch t) ∧
  reads_ptr CString h (hr_LastError r) (run_LastError t).

(** The other structs.  [Extra] is not a field of [Step]: it is read beside it. *)
Definition reads_comp (n : nat) : reading (option loc) (option Compensation) :=
  λ h l t, match l, t with
           | None, None => True
           | Some l, Some t => ∃ inputs, h !! l = Some (OComp (comp_Action t) inputs) ∧
                                         reads_map (reads n) h inputs (comp_Inputs t)
           | _, _ => False
           end.
Definition reads_step (n : nat) : reading HStep (Step * Vars) := λ h st t,
  t.1 = mkStep (step_ID (hs_flat st)) (step_Type (hs_flat st)) (step_Next (hs_flat st))
          (step_Action (hs_flat st)) (step_Inputs t.1) (step_Compensation t.1)
          (step_Retry t.1) (step_Branches t.1) ∧
  reads_map (reads n) h (hs_Inputs st) (step_Inputs t.1) ∧
  reads_comp n h (hs_Compensation st) (step_Compensation t.1) ∧
  reads_ptr CRetry h (hs_Retry st) (step_Retry t.1) ∧
  reads_cell CBranches (.= ∅) h (hs_Branches st) (step_Branches t.1) ∧
  reads_map (reads n) h (hs_Extra st) t.2.
(** A definition, with the [Extra] of its steps. *)
Definition reads_def (n : nat) : reading HDef (WorkflowDefinition * list Vars) := λ h d t,
  t.1 = mkDef (def_ID (hd_flat d)) (def_Version (hd_flat d)) (def_TenantID t.1)
          (def_Name (hd_flat d)) (def_Description (hd_flat d)) (def_Start (hd_flat d))
          (def_Entrypoints t.1) (def_Steps t.1) (def_Published (hd_flat d))
          (def_CreatedAt (hd_flat d)) (def_CreatedBy (hd_flat d)) ∧
  length (def_Steps t.1) = length t.2 ∧
  reads_ptr CString h (hd_TenantID d) (def_TenantID t.1) ∧
  reads_cell CStrMap (.= ∅) h (hd_Entrypoints d) (def_Entrypoints t.1) ∧
  reads_slice OSteps (reads_step n) h (hd_Steps d) (zip (def_Steps t.1) t.2).
Definition reads_event (n : nat) : reading HEvent SagaRunEvent := λ h e t,
  t = mkEvent (ev_ID (he_flat e)) (ev_RunID (he_flat e)) (ev_StepID (he_flat e))
        (ev_Attempt (he_flat e)) (ev_EventType (he_flat e)) (ev_Actor (he_flat e))
        (ev_Metadata t) (ev_RecordedAt (he_flat e)) ∧
  reads_map (reads n) h (he_Metadata e) (ev_Metadata t).
Definition reads_signal (n : nat) : reading HSignal SagaSignal := λ h s t,
  t = mkSignal (sig_ID (hg_flat s)) (sig_RunID (hg_flat s)) (sig_SignalName (hg_flat s))
        (sig_Payload t) (sig_ReceivedAt (hg_flat s)) (sig_ConsumedAt t) ∧
  reads_map (reads n) h (hg_Payload s) (sig_Payload t) ∧
  reads_ptr CTime h (hg_ConsumedAt s) (sig_ConsumedAt t).
Definition reads_task (n : nat) : reading HTask UserTask := λ h k t,
  t = mkTask (task_ID (ht_flat k)) (task_RunID (ht_flat k)) (task_StepID (ht_flat k))
        (task_Assignee (ht_flat k)) (task_DueAt t) (task_FormSchema t) (task_SubmittedAt t)
        (task_SubmittedBy (ht_flat k)) (task_Result t) ∧
  reads_ptr CTime h (ht_DueAt k) (task_DueAt t) ∧
  reads_map (reads n) h (ht_FormSchema k) (task_FormSchema t) ∧
  reads_ptr CTime h (ht_SubmittedAt k) (task_SubmittedAt t) ∧
  reads_map (reads n) h (ht_Result k) (task_Result t).
Definition reads_action (n : nat) : reading HAction ActionRegistration := λ h a t,
  t = mkAction (act_ID (ha_flat a)) (act_Service (ha_flat a)) (act_ActionName (ha_flat a))
        (act_Version (ha_flat a)) (act_Description (ha_flat a)) (act_Category (ha_flat a))
        (act_Compensable (ha_flat a)) (act_InputSchema t) (act_OutputSchema t)
        (act_ErrorCodes t) (act_DefaultRetry t) (act_DefaultTimeoutMS (ha_flat a))
        (act_Deprecated (ha_flat a)) (act_RegisteredAt (ha_flat a))
        (act_ServiceVersion (ha_flat a)) (act_DryRunSupported (ha_flat a))
        (act_LicenseGroup (ha_flat a)) (act_Transport (ha_flat a)) (act_Address (ha_flat a)) ∧
  reads_map (reads n) h (ha_InputSchema a) (act_InputSchema t) ∧
  reads_map (reads n) h (ha_OutputSchema a) (act_OutputSchema t) ∧
  reads_strs h (ha_ErrorCodes a) (act_ErrorCodes t) ∧
  reads_ptr CRetry h (ha_DefaultRetry a) (act_DefaultRetry t).
Definition reads_row (n : nat) : reading (string * option loc) DecisionTableRow := λ h row t,
  t = mkRow row.1 (row_Then t) ∧ reads_map (reads n) h row.2 (row_Then t).
(** A nil [DefaultOutput] is told from an empty one. *)
Definition reads_optmap (n : nat) : reading (option loc) (option Vars) := λ h l t,
  (l = None ↔ t = None) ∧ reads_map (reads n) h l (default ∅ t).
Definition reads_spec (n : nat) : reading HSpec RuleSpec := λ h s t,
  t = mkSpec (hp_HitPolicy s) (Rows t) (DefaultOutput t) ∧
  reads_slice ORows (reads_row n) h (hp_Rows s) (Rows t) ∧
  reads_optmap n h (hp_DefaultOutput s) (DefaultOutput t).
Definition reads_rule (n : nat) : reading HRule RuleDefinition := λ h r t,
  t = mkRule (rule_ID (hu_flat r)) (rule_RuleID (hu_flat r)) (rule_Version (hu_flat r))
        (rule_TenantID t) (rule_Name (hu_flat r)) (rule_RuleType (hu_flat r)) (rule_Spec t)
        (rule_Published (hu_flat r)) (rule_CreatedAt (hu_flat r))
        (rule_CreatedBy (hu_flat r)) ∧
  reads_ptr CString h (hu_TenantID r) (rule_TenantID t) ∧
  reads_spec n h (hu_Spec r) (rule_Spec t).
Definition reads_trigger (n : nat) : reading HTrigger SagaTrigger := λ h x t,
  t = mkTrigger (trig_ID (hx_flat x)) (trig_TriggerType (hx_flat x))
        (trig_WorkflowID (hx_flat x)) (trig_Version (hx_flat x)) (trig_Config t)
        (trig_Enabled (hx_flat x)) (trig_TenantID t) (trig_CreatedAt (hx_flat x))
        (trig_CreatedBy (hx_flat x)) (trig_NextFireAt t) (trig_LastFiredAt t) ∧
  reads_map (reads n) h (hx_Config x) (trig_Config t) ∧
  reads_ptr CUuid h (hx_TenantID x) (trig_TenantID t) ∧
  reads_ptr CTime h (hx_NextFireAt x) (trig_NextFireAt t) ∧
  reads_ptr CTime h (hx_LastFiredAt x) (trig_LastFiredAt t).
Definition reads_fire : reading HFire TriggerFireRow := λ h f t,
  t = mkFire (fire_ID (hf_flat f)) (fire_TriggerID (hf_flat f)) (fire_WorkflowID (hf_flat f))
        (fire_FiredAt (hf_flat f)) (fire_ResultingRunID t) (fire_Error (hf_flat f)) ∧
  reads_ptr CUuid h (hf_ResultingRunID f) (fire_ResultingRunID t).

(** ** Reading is monotone in the heap *)
#[export] Instance reads_cell_mono {T} inj nil : Mono (@reads_cell T inj nil).
Proof. intros h h' [l|] t Hs; cbn; [|done]. intros; by eapply lookup_weaken. Qed.
#[export] Instance reads_ptr_mono {T} inj : Mono (@reads_ptr T inj).
Proof. intros h h' [l|] [t|] Hs; cbn; try done. intros; by eapply lookup_weaken. Qed.
#[export] Instance reads_strs_mono : Mono reads_strs.
Proof. intros h h' [l|] t Hs; cbn; [|done]. intros; by eapply lookup_weaken. Qed.
#[export] Instance reads_list_mono {A T} (R : reading A T) `{!Mono R} : Mono (reads_list R).
Proof. intros h h' x t Hs HR. eapply Forall2_impl; [exact HR|]. intros. by eapply mono. Qed.
#[export] Instance reads_entry_mono {A T} (R : reading A T) `{!Mono R} : Mono (reads_entry R).
Proof. intros h h' x t Hs [? HR]. split; [done|]. by eapply mono. Qed.
#[export] Instance reads_map_mono {T} (R : reading hval T) `{!Mono R} : Mono (reads_map R).
Proof.
  intros h h' [l|] m Hs; cbn; [|done]. intros (hm & Hl & HR). exists hm.
  split; [by eapply lookup_weaken|]. intros k. specialize (HR k).
  destruct HR; constructor. by eapply mono.
Qed.
#[export] Instance reads_slice_mono {A T} put (R : reading A T) `{!Mono R} :
  Mono (reads_slice put R).
Proof.
  intros h h' [l|] ts Hs; cbn; [|done]. intros (xs & Hl & HR). exists xs.
  split; [by eapply lookup_weaken|]. by eapply mono.
Qed.
#[export] Instance reads_mono n : Mono (reads n).
Proof.
  induction n as [|n IH]; [by intros ? ? ? ? ? []|]. intros h h' v t Hs.
  destruct v as [s|l|l|l|l|l]; cbn; [done|..];
    intros (m & -> & HR); exists m; (split; [done|]); by eapply mono.
Qed.
(** A struct: every field is. *)
Ltac mono_fields :=
  intros ? ? ? ? ? HR; hnf in HR; destruct_and! HR; hnf;
  split_and?; first [assumption|eapply mono; eassumption].
#[export] Instance reads_run_mono n : Mono (reads_run n).
Proof. mono_fields. Qed.
#[export] Instance reads_comp_mono n : Mono (reads_comp n).
Proof.
  intros h h' [l|] [t|] Hs; cbn; try done. intros (i & Hl & HR). exists i.
  split; [by eapply lookup_weaken|by eapply mono].
Qed.
#[export] Instance reads_step_mono n : Mono (reads_step n).
Proof. mono_fields. Qed.
#[export] Instance reads_def_mono n : Mono (reads_def n).
Proof. mono_fields. Qed.
#[export] Instance reads_event_mono n : Mono (reads_event n).
Proof. mono_fields. Qed.
#[export] Instance reads_signal_mono n : Mono (reads_signal n).
Proof. mono_fields. Qed.
#[export] Instance reads_task_mono n : Mono (reads_task n).
Proof. mono_fields. Qed.
#[export] Instance reads_action_mono n : Mono (reads_action n).
Proof. mono_fields. Qed.
#[export] Instance reads_row_mono n : Mono (reads_row n).
Proof. mono_fields. Qed.
#[export] Instance reads_optmap_mono n : Mono (reads_optmap n).
Proof. mono_fields. Qed.
#[export] Instance reads_spec_mono n : Mono (reads_spec n).
Proof. mono_fields. Qed.
#[export] Instance reads_rule_mono n : Mono (reads_rule n).
Proof. mono_fields. Qed.
#[export] Instance reads_trigger_mono n : Mono (reads_trigger n).
Proof. mono_fields. Qed.
#[export] Instance reads_fire_mono : Mono (reads_fire).
Proof. mono_fields. Qed.

(** ** The heap's steps *)
Lemma heap_step (h h1 h2 : heap) : h ⊆ h1 → h1 ⊆ h2 → h2 ∖ h1 ⊆ h2 ∖ h.
Proof.
  intros S1 S2. apply map_subseteq_spec. intros l o.
  rewrite !lookup_difference_Some. intros [? Hn]. split; [done|].
  destruct (h !! l) eqn:E; [|done]. by rewrite (lookup_weaken _ _ _ _ E S1) in Hn.
Qed.
Lemma heap_grow (h h1 h2 : heap) : h1 ⊆ h2 → h1 ∖ h ⊆ h2 ∖ h.
Proof.
  intros S2. apply map_subseteq_spec. intros l o.
  rewrite !lookup_difference_Some. intros [? Hn]. split; [|done]. by eapply lookup_weaken.
Qed.

Lemma cbind_Some {A B} (c : C A) (f : A → C B) h a h1 :
  c h = Some (a, h1) → cbind c f h = f a h1.
Proof. unfold cbind. by intros ->. Qed.

(** The rule for a sequence: run a copy, then the rest, keeping what was copied. *)
Lemma clone_bind {A B T} (R : reading A T) `{!Mono R} (f : A → C A) `{!Clones R f}
    h h0 h1 x t (k : A → C B) (P : B → heap → Prop) :
  R h x t → h ⊆ h0 → h0 ⊆ h1 →
  (∀ x' h2, h1 ⊆ h2 → (∀ h3, h2 ⊆ h3 → R (h3 ∖ h0) x' t) →
     ∃ y h3, k x' h2 = Some (y, h3) ∧ h2 ⊆ h3 ∧ P y h3) →
  ∃ y h3, cbind (f x) k h1 = Some (y, h3) ∧ h1 ⊆ h3 ∧ P y h3.
Proof.
  intros HR S0 S1 K. destruct (clones h h1 x t HR) as (x' & h2 & E & S2 & HR'); [by etrans|].
  destruct (K x' h2 S2) as (y & h3 & E3 & S3 & HP).
  - intros h3 S3. eapply mono; [|exact HR']. etrans; [by apply heap_step|by apply heap_grow].
  - exists y, h3. unfold cbind. rewrite E. split_and!; [done|by etrans|done].
Qed.
Lemma alloc_fresh o (h : heap) :
  ∃ l, alloc o h = Some (l, <[l := o]> h) ∧ h !! l = None ∧ h ⊆ <[l := o]> h.
Proof.
  set (l := fresh (dom h)). assert (h !! l = None) by apply not_elem_of_dom, is_fresh.
  exists l. split_and!; [done..|]. by apply insert_subseteq.
Qed.
Lemma new_lookup (h h0 : heap) l o :
  h0 ⊆ h → h !! l = None → (<[l := o]> h ∖ h0) !! l = Some o.
Proof.
  intros Hs Hl. apply lookup_difference_Some. rewrite lookup_insert_eq. split; [done|].
  destruct (h0 !! l) eqn:E; [|done]. by rewrite (lookup_weaken _ _ _ _ E Hs) in Hl.
Qed.

(** ** The copying functions *)
#[export] Instance clone_cell_clones {T} inj nil : Clones (@reads_cell T inj nil) clone_cell.
Proof.
  intros h h1 [l|] t HR Hs; cbn in *; [|by exists None, h1].
  unfold cbind, load. rewrite (lookup_weaken _ _ _ _ HR Hs).
  destruct (alloc_fresh (OCell (inj t)) h1) as (l' & E & Hl & S). rewrite E; cbn.
  eexists _, _. split_and!; [done|done|]. by apply new_lookup.
Qed.
#[export] Instance clonePtr_clones {T} inj : Clones (@reads_ptr T inj) clonePtr.
Proof.
  intros h h1 [l|] [t|] HR Hs; cbn in *; try done; [|by exists None, h1].
  apply (clone_cell_clones inj (λ _, False) h h1 (Some l) t HR Hs).
Qed.
#[export] Instance cloneStrs_clones : Clones reads_strs cloneStrs.
Proof.
  intros h h1 [l|] t HR Hs; cbn in *; [|by exists None, h1].
  unfold cbind, load. rewrite (lookup_weaken _ _ _ _ HR Hs).
  destruct (alloc_fresh (OStrs t) h1) as (l' & E & Hl & S). rewrite E; cbn.
  eexists _, _. split_and!; [done|done|]. by apply new_lookup.
Qed.
#[export] Instance clone_list_clones {A T} (R : reading A T) f
  `{!Mono R} `{!Clones R f} : Clones (reads_list R) (clone_list f).
Proof.
  intros h h1 xs ts HR. revert h1. induction HR as [|x t xs ts HR _ IH]; intros h1 Hs; cbn.
  { exists [], h1. by repeat constructor. }
  eapply (clone_bind R); [done..|]. intros y h2 S2 Hy.
  destruct (IH h2) as (ys & h3 & E & S3 & HF); [by etrans|].
  exists (y :: ys), h3. unfold cbind. rewrite E. split_and!; [done..|].
  constructor; [by apply Hy|]. eapply (mono (R := reads_list R)); [|exact HF]. by apply heap_step.
Qed.

Section Laws.
Context `{EnvLaws}.

#[local] Instance entry_clones {T} (R : reading hval T) f `{!Mono R} `{!Clones R f} :
  Clones (reads_entry R) (λ kv : string * hval, c* v := f kv.2 in cret (kv.1, v)).
Proof.
  intros h h1 [k x] [k' t] [Hk HR] Hs; cbn in *. subst k'.
  eapply (clone_bind R); [done..|]. intros y h2 S2 Hy.
  eexists _, _. split_and!; [done..|]. split; [done|]. by apply Hy.
Qed.

Lemma reads_entries {T} (R : reading hval T) h hm (m : gmap string T) :
  (∀ k, option_Forall2 (R h) (hm !! k) (m !! k)) →
  ∃ ts, reads_list (reads_entry R) h (range_map hm) ts ∧ list_to_map ts = m.
Proof.
  intros HR. pose proof (range_map_perm hm) as Hp.
  assert (∃ ts, reads_list (reads_entry R) h (range_map hm) ts ∧
            ∀ k t, (k, t) ∈ ts → m !! k = Some t) as (ts & HF & Hin).
  { assert (∀ k v, (k, v) ∈ range_map hm → hm !! k = Some v) as Hx.
    { intros k v. rewrite Hp. apply elem_of_map_to_list. }
    clear Hp. induction (range_map hm) as [|[k v] l IH].
    { exists []. split; [constructor|]. intros ? ? ?%elem_of_nil. done. }
    destruct IH as (ts & HF & Hin); [intros; apply Hx; by right|].
    pose proof (HR k) as Hk. rewrite (Hx k v) in Hk by left.
    inversion Hk as [? t HRk Ek Et|]; subst.
    exists ((k, t) :: ts). split; [by constructor|].
    intros k' t' [[= -> ->]|]%elem_of_cons; [done|by apply Hin]. }
  assert (ts.*1 = (range_map hm).*1) as Hk.
  { clear -HF. induction HF as [|[] [] ? ? [? _]]; simplify_eq/=; by f_equal. }
  assert (NoDup ts.*1) as Hnd.
  { rewrite Hk, Hp. apply NoDup_fst_map_to_list. }
  exists ts. split; [done|]. apply map_eq. intros k. apply option_eq. intros t.
  rewrite <- elem_of_list_to_map by done. split; [apply Hin|]. intros Hm.
  specialize (HR k). rewrite Hm in HR. inversion HR as [v ? ? Ev|]; subst.
  assert (k ∈ ts.*1) as [[k' t'] [-> Ht]]%list_elem_of_fmap.
  { rewrite Hk. apply list_elem_of_fmap. exists (k, v). split; [done|].
    rewrite Hp. by apply elem_of_map_to_list. }
  pose proof (Hin _ _ Ht) as E. cbn in *. congruence.
Qed.

Lemma reads_list_to_map {T} (R : reading hval T) h out ts :
  reads_list (reads_entry R) h out ts → ∀ k,
  option_Forall2 (R h) ((list_to_map out : gmap string hval) !! k)
    ((list_to_map ts : gmap string T) !! k).
Proof.
  induction 1 as [|[k1 v] [k2 t] out ts [Hk HR] _ IH]; intros k; cbn in *.
  { rewrite !lookup_empty. constructor. }
  subst k2. destruct (decide (k = k1)) as [->|Hn].
  - rewrite !lookup_insert_eq. by constructor.
  - by rewrite !lookup_insert_ne.
Qed.

#[export] Instance cloneMap_with_clones {T} (R : reading hval T) f
  `{!Mono R} `{!Clones R f} : Clones (reads_map R) (cloneMap_with f).
Proof.
  intros h h1 [l|] m HR Hs; cbn in *; [|by exists None, h1].
  destruct HR as (hm & Hl & HR). destruct (reads_entries R h hm m HR) as (ts & HF & <-).
  rewrite (cbind_Some (load l) _ _ (Some (OMap hm)) h1)
    by (unfold load; by rewrite (lookup_weaken _ _ _ _ Hl Hs)).
  destruct (clones (Clones := clone_list_clones _ _) h h1 _ ts HF Hs) as (out & h2 & E & S2 & HO).
  unfold clone_entries.
  rewrite (cbind_Some _ _ _ (list_to_map out) h2) by (rewrite (cbind_Some _ _ _ _ _ E); done).
  destruct (alloc_fresh (OMap (list_to_map out)) h2) as (l' & El & Hn & S).
  rewrite (cbind_Some _ _ _ _ _ El). eexists _, _. split_and!; [done|by etrans|]. cbn.
  eexists. split; [by apply new_lookup|]. intros k.
  apply reads_list_to_map. eapply (mono (R := reads_list (reads_entry R))); [|exact HO]. by apply heap_grow.
Qed.

Lemma load_Some (h h1 : heap) l o : h !! l = Some o → h ⊆ h1 → load l h1 = Some (Some o, h1).
Proof. intros. unfold load. by erewrite lookup_weaken. Qed.

(** [get] undoes [put]. *)
Class Slot {A} (get : obj → option (list A)) (put : list A → obj) : Prop :=
  slot xs : get (put xs) = Some xs.
#[local] Hint Extern 0 (Slot _ _) => (intros ?; reflexivity) : typeclass_instances.

#[export] Instance clone_slice_clones {A T} (R : reading A T) get put f
  `{!Mono R} `{!Clones R f} `{!Slot get put} :
  Clones (reads_slice put R) (clone_slice get put f).
Proof.
  intros h h1 [l|] ts HR Hs; cbn in *; [|by exists None, h1]. destruct HR as (xs & Hl & HF).
  rewrite (cbind_Some _ _ _ _ _ (load_Some _ _ _ _ Hl Hs)). cbn. rewrite slot.
  destruct (clones h h1 xs ts HF Hs) as (out & h2 & E & S2 & HO).
  destruct (alloc_fresh (put out) h2) as (l' & El & Hn & S).
  rewrite (cbind_Some _ _ _ _ _ E), (cbind_Some _ _ _ _ _ El).
  eexists _, _. split_and!; [done|by etrans|]. exists out. split.
  - apply new_lookup; [|done]. done.
  - eapply (mono (R := reads_list R)); [|exact HO]. by apply heap_grow.
Qed.

(** A copy under a constructor. *)
Lemma clone_wrap {A T B U} (R : reading A T) f `{!Clones R f} (wrap : A → B) h h1 x t
    (R' : reading B U) u :
  R h x t → h ⊆ h1 → (∀ h y, R h y t → R' h (wrap y) u) →
  ∃ y h2, cbind (f x) (λ y, cret (wrap y)) h1 = Some (y, h2) ∧ h1 ⊆ h2 ∧ R' (h2 ∖ h1) y u.
Proof.
  intros HR Hs K. destruct (clones h h1 x t HR Hs) as (y & h2 & E & S & HR').
  exists (wrap y), h2. rewrite (cbind_Some _ _ _ _ _ E). split_and!; [done..|]. by apply K.
Qed.

#[export] Instance cloneAny_clones n : Clones (reads n) (cloneAny n).
Proof.
  induction n as [|n IH]; [by intros ? ? ? ? []|].
  intros h h1 v t HR Hs. destruct v as [s|l|l|l|l|l]; cbn in HR; cbn [cloneAny];
    [by exists (HScalar s), h1|..];
    destruct HR as (m & -> & HR); (eapply clone_wrap; [..|exact HR|exact Hs|];
      [apply _|]; intros h' y HR'; by exists m).
Qed.
#[export] Instance cloneMap_clones n : Clones (reads_map (reads n)) (cloneMap n).
Proof. unfold cloneMap. apply _. Qed.

(** Run the next copy of a struct's copying function, whose copy started in heap [h0]. *)
Ltac clone_field h0 :=
  match goal with
  | HR : ?R ?h ?x ?t |- ∃ y h3, cbind (?f ?x) _ ?h1 = _ ∧ _ =>
      eapply (clone_bind R f h h0 h1 x t); [exact HR|assumption|first [done|etrans; eassumption]|];
      let x' := fresh "x" in let h2 := fresh "h" in intros x' h2 ? ?;
      assert (h0 ⊆ h2) by first [done|etrans; eassumption]
  end.
(** The heaps of the copies made so far form a chain. *)
Ltac heap_chain := repeat first [reflexivity|eassumption|etrans; [eassumption|]].
Ltac clone_done :=
  eexists _, _; split; [reflexivity|]; split; [reflexivity|]; hnf; split_and?; cbn;
  first [assumption|match goal with
                    | K : ∀ h3, _ ⊆ _ → ?R _ ?x _ |- ?R _ ?x _ => apply K; heap_chain
                    end|auto].

(** A struct: copy its reference fields in turn. *)
Ltac clone_fields :=
  let h1 := fresh "h1" in let HR := fresh "HR" in
  intros ? h1 ? ? HR ?; hnf in HR; destruct_and! HR; repeat clone_field h1; clone_done.

#[export] Instance cloneRun_clones n : Clones (reads_run n) (cloneRun n).
Proof. unfold cloneRun. clone_fields. Qed.
#[export] Instance cloneRuns_clones n : Clones (reads_list (reads_run n)) (cloneRuns n).
Proof. unfold cloneRuns. apply _. Qed.
#[export] Instance cloneCompensation_clones n : Clones (reads_comp n) (cloneCompensation n).
Proof.
  intros h h1 [l|] [t|] HR Hs; cbn in *; try done; [|by exists None, h1].
  destruct HR as (i & Hl & HR). rewrite (cbind_Some _ _ _ _ _ (load_Some _ _ _ _ Hl Hs)).
  destruct (clones h h1 i _ HR Hs) as (i' & h2 & E & S2 & HO).
  destruct (alloc_fresh (OComp (comp_Action t) i') h2) as (l' & El & Hn & S).
  rewrite (cbind_Some _ _ _ _ _ E), (cbind_Some _ _ _ _ _ El).
  eexists _, _. split_and!; [done|by etrans|]. exists i'. split.
  - by apply new_lookup.
  - eapply mono; [|exact HO]. by apply heap_grow.
Qed.
#[export] Instance cloneBranches_clones : Clones (reads_cell CBranches (.= ∅)) clone_cell.
Proof. apply _. Qed.
#[export] Instance cloneStep_clones n : Clones (reads_step n) (cloneStep n).
Proof. unfold cloneStep. clone_fields. Qed.
#[export] Instance cloneDef_clones n : Clones (reads_def n) (cloneDef n).
Proof. unfold cloneDef. clone_fields. Qed.
#[export] Instance cloneDefs_clones n : Clones (reads_list (reads_def n)) (cloneDefs n).
Proof. unfold cloneDefs. apply _. Qed.
#[export] Instance cloneEvent_clones n : Clones (reads_event n) (cloneEvent n).
Proof. unfold cloneEvent. clone_fields. Qed.
#[export] Instance cloneEvents_clones n : Clones (reads_list (reads_event n)) (cloneEvents n).
Proof. unfold cloneEvents. apply _. Qed.
#[export] Instance cloneSignal_clones n : Clones (reads_signal n) (cloneSignal n).
Proof. unfold cloneSignal. clone_fields. Qed.
#[export] Instance cloneUserTask_clones n : Clones (reads_task n) (cloneUserTask n).
Proof. unfold cloneUserTask. clone_fields. Qed.
#[export] Instance cloneAction_clones n : Clones (reads_action n) (cloneAction n).
Proof. unfold cloneAction. clone_fields. Qed.
#[export] Instance cloneRow_clones n : Clones (reads_row n) (cloneRow n).
Proof. unfold cloneRow. clone_fields. Qed.
#[export] Instance cloneOptMap_clones n : Clones (reads_optmap n) (cloneMap n).
Proof.
  intros h h1 l t [Hn HR] Hs. destruct l as [l|].
  - destruct (clones h h1 (Some l) _ HR Hs) as (l' & h2 & E & S & HO).
    exists l', h2. split_and!; [done..|]. split; [|done].
    assert (l' ≠ None); [|naive_solver]. intros ->. cbn in HR.
    destruct HR as (hm & Hl & _). revert E. unfold cloneMap; cbn [cloneMap_with].
    rewrite (cbind_Some _ _ _ _ _ (load_Some _ _ _ _ Hl Hs)). unfold cbind, alloc, cret.
    by repeat case_match.
  - exists None, h1. split_and!; [done..|]. split; [done|]. cbn in *. done.
Qed.
#[export] Instance cloneRuleSpec_clones n : Clones (reads_spec n) (cloneRuleSpec n).
Proof. unfold cloneRuleSpec. clone_fields. Qed.
#[export] Instance cloneRule_clones n : Clones (reads_rule n) (cloneRule n).
Proof. unfold cloneRule. clone_fields. Qed.
#[export] Instance cloneTrigger_clones n : Clones (reads_trigger n) (cloneTrigger n).
Proof. unfold cloneTrigger. clone_fields. Qed.
#[export] Instance cloneTriggerFire_clones : Clones reads_fire cloneTriggerFire.
Proof. unfold cloneTriggerFire. clone_fields. Qed.
End Laws.

(** ** The store's data is out of reach *)

(** The heap, the locations callers hold, the store's runs. *)
Record Mem := mkMem { m_heap : heap; m_known : gset loc; m_runs : gmap uuid HRun }.

Section Isolation.
Context `{EnvLaws} (n : nat).

(** What callers do: write whatever they like where they can, allocate, hand over a run
    (which they keep), ask for a run.  Beside it the runs as values, the state of
    [MemStore]: only [CreateRun] changes it. *)
Inductive mstep : Mem * gmap uuid SagaRun → Mem * gmap uuid SagaRun → Prop :=
| m_write h K s ts l o : l ∈ K → mstep (mkMem h K s, ts) (mkMem (<[l := o]> h) K s, ts)
| m_alloc h K s ts l o :
    l ∉ dom h → mstep (mkMem h K s, ts) (mkMem (<[l := o]> h) ({[l]} ∪ K) s, ts)
| m_CreateRun h K s ts r t s' h' :
    reads_run n h r t → heap_CreateRun n r s h = Some (s', h') →
    mstep (mkMem h K s, ts) (mkMem h' K s', <[run_ID t := t]> ts)
| m_GetRun h K s ts id r h' :
    heap_GetRun n id s h = Some (r, h') →
    mstep (mkMem h K s, ts) (mkMem h' (K ∪ (dom h' ∖ dom h)) s, ts).

(** The store owns a part of the heap no caller knows, and its runs read there. *)
Definition isolated (m : Mem * gmap uuid SagaRun) : Prop :=
  ∃ O, O ⊆ m_heap m.1 ∧ dom O ## m_known m.1 ∧ m_known m.1 ⊆ dom (m_heap m.1) ∧
       ∀ id, option_Forall2 (reads_run n O) (m_runs m.1 !! id) (m.2 !! id).

Lemma CreateRun_copies h r t s :
  reads_run n h r t →
  ∃ r' h', heap_CreateRun n r s h = Some (<[run_ID t := r']> s, h') ∧ h ⊆ h' ∧
           reads_run n (h' ∖ h) r' t.
Proof.
  intros HR. destruct (clones h h r t HR) as (r' & h' & E & S & HR'); [done|].
  exists r', h'. unfold heap_CreateRun. rewrite (cbind_Some _ _ _ _ _ E).
  assert (run_ID t = run_ID (hr_flat r)) as -> by (destruct HR as [E' _]; by rewrite E').
  done.
Qed.
Lemma GetRun_copies h O s id t r :
  s !! id = Some r → reads_run n O r t → O ⊆ h →
  ∃ r' h', heap_GetRun n id s h = Some (Some r', h') ∧ h ⊆ h' ∧ reads_run n (h' ∖ h) r' t.
Proof.
  intros E HR Hs. destruct (clones O h r t HR Hs) as (r' & h' & Ec & S & HR').
  exists r', h'. unfold heap_GetRun. rewrite E, (cbind_Some _ _ _ _ _ Ec). done.
Qed.
Lemma GetRun_grows h O s (ts : gmap uuid SagaRun) id r h' :
  O ⊆ h → (∀ id, option_Forall2 (reads_run n O) (s !! id) (ts !! id)) →
  heap_GetRun n id s h = Some (r, h') → h ⊆ h'.
Proof.
  intros Hs HO E. specialize (HO id). destruct (s !! id) as [r0|] eqn:E0.
  - inversion HO as [r1 t HR Er Et|]; subst.
    destruct (GetRun_copies h O s id t r0 E0 HR Hs) as (r' & h2 & E2 & S & _).
    rewrite E2 in E. by injection E as <- <-.
  - unfold heap_GetRun in E. rewrite E0 in E. by injection E as <- <-.
Qed.

Lemma mstep_isolated m m' : mstep m m' → isolated m → isolated m'.
Proof.
  destruct 1 as [h K s ts l o Hl|h K s ts l o Hl|h K s ts r t s' h' HR E|h K s ts id r h' E];
    intros (O & HO & Hd & HK & Hr); cbn in *.
  - exists O. cbn. split_and!; [|done|set_solver|done].
    apply insert_subseteq_r; [|done]. apply not_elem_of_dom. set_solver.
  - exists O. cbn. assert (O !! l = None).
    { apply not_elem_of_dom. apply subseteq_dom in HO. set_solver. }
    split_and!; [by apply insert_subseteq_r| |set_solver|done].
    apply not_elem_of_dom in H1. set_solver.
  - destruct (CreateRun_copies h r t s HR) as (r' & h2 & E2 & S & HR'). simplify_eq.
    assert (dom (h' ∖ h) = dom h' ∖ dom h) as Ed by apply dom_difference_L.
    exists (O ∪ (h' ∖ h)). cbn. assert (O ##ₘ h' ∖ h) as Hdj.
    { apply map_disjoint_dom. rewrite Ed. apply subseteq_dom in HO. set_solver. }
    split_and!.
    + apply map_union_least; [by etrans|by apply map_subseteq_difference_l].
    + rewrite dom_union, Ed. set_solver.
    + apply subseteq_dom in S. set_solver.
    + intros id'. destruct (decide (id' = run_ID t)) as [->|Hn].
      * rewrite !lookup_insert_eq. constructor. eapply mono; [|exact HR'].
        by apply map_union_subseteq_r.
      * rewrite !lookup_insert_ne by done. specialize (Hr id').
        destruct Hr; constructor. eapply mono; [|done]. apply map_union_subseteq_l.
  - pose proof (GetRun_grows _ _ _ _ _ _ _ HO Hr E) as S.
    exists O. cbn. pose proof (subseteq_dom _ _ S). pose proof (subseteq_dom _ _ HO).
    split_and!; [by etrans|set_solver|set_solver|done].
Qed.

(** C23: Whatever its callers do to the runs they handed over and to the runs they were handed,
    the store answers with the values its own operations put there, in locations no caller
    holds: the copies make the store's maps and pointers values. *)
Theorem store_isolated h0 m ts id :
  rtc mstep (mkMem h0 (dom h0) ∅, ∅) (m, ts) →
  match ts !! id with
  | None => heap_GetRun n id (m_runs m) (m_heap m) = Some (None, m_heap m)
  | Some t => ∃ r h', heap_GetRun n id (m_runs m) (m_heap m) = Some (Some r, h') ∧
                      m_heap m ⊆ h' ∧ reads_run n (h' ∖ m_heap m) r t
  end.
Proof.
  intros Hrtc. assert (isolated (m, ts)) as (O & HO & _ & _ & Hr).
  { cut (isolated (mkMem h0 (dom h0) ∅, ∅)).
    - induction Hrtc; [done|]. intros. by eapply IHHrtc, mstep_isolated.
    - exists ∅. cbn. split_and!; [apply map_empty_subseteq|set_solver|done|].
      intros id'. rewrite !lookup_empty. constructor. }
  cbn in *. specialize (Hr id). inversion Hr as [r t HR Er Et|Er Et].
  - by eapply GetRun_copies.
  - unfold heap_GetRun. by rewrite <- Er.
Qed.
End Isolation.

(** ** A caller that keeps writing to what it handed over *)
Definition demo_run (v : Val) : SagaRun :=
  mkRun 7 "wf" 1 None RunStatePending "" ∅ {["order" := VMap {["total" := v]}]} 0 0 None false
    None None None None [] false None None None ∅ ∅ None 0 None.
(** The variables are at location 1, the nested order at 2. *)
Definition demo_hrun : HRun :=
  mkHRun (demo_run VNil) None None (Some 1%positive) None None None None None None None None
    None None None None None.
Definition demo_heap : heap :=
  {[1%positive := OMap {["order" := HMap (Some 2%positive)]};
    2%positive := OMap {["total" := HScalar (VInt 10)]}]}.

Lemma demo_reads : reads_run 3 demo_heap demo_hrun (demo_run (VInt 10)).
Proof.
  assert (∀ {T} (R : reading hval T) h l k v t, R h v t →
    h !! l = Some (OMap {[k := v]}) → reads_map R h (Some l) {[k := t]}) as one.
  { intros T R h l k v t HR Hl. exists {[k := v]}. split; [done|]. intros k'.
    destruct (decide (k' = k)) as [->|Hn].
    - rewrite !lookup_singleton_eq. by constructor.
    - rewrite !lookup_singleton_ne by done. constructor. }
  unfold reads_run. split_and!; try done. apply (one _ (reads 3) _ _ _ (HMap (Some 2%positive))); [|done].
  exists {["total" := VInt 10]}. split; [done|].
  by apply (one _ (reads 2) _ _ _ (HScalar (VInt 10))).
Qed.

(** The caller clears the order it has handed over; the store still has its total. *)
Lemma store_isolated_witness :
  ∃ m, rtc (mstep (H := demo_env) 3) (mkMem demo_heap (dom demo_heap) ∅, ∅)
           (m, <[7%N := demo_run (VInt 10)]> ∅) ∧
       m_heap m !! 2%positive = Some (OMap ∅) ∧
       ∃ r h', heap_GetRun (H := demo_env) 3 7%N (m_runs m) (m_heap m) = Some (Some r, h') ∧
               reads_run 3 (h' ∖ m_heap m) r (demo_run (VInt 10)).
Proof.
  destruct (@CreateRun_copies demo_env demo_laws 3 demo_heap demo_hrun (demo_run (VInt 10)) ∅
    demo_reads) as (r' & h' & E & S & _).
  set (m := mkMem (<[2%positive := OMap ∅]> h') (dom demo_heap) (<[7%N := r']> ∅)).
  assert (rtc (mstep (H := demo_env) 3) (mkMem demo_heap (dom demo_heap) ∅, ∅)
           (m, <[7%N := demo_run (VInt 10)]> ∅)) as Hrtc.
  { eapply rtc_l; [apply (m_CreateRun 3 _ _ _ _ _ _ _ _ demo_reads E)|].
    apply rtc_once, m_write. vm_compute. done. }
  exists m. split; [exact Hrtc|]. split; [apply lookup_insert_eq|].
  destruct (@store_isolated demo_env demo_laws 3 demo_heap m _ 7%N Hrtc) as (r & h2 & E2 & _ & HR).
  exists r, h2. split; [exact E2|exact HR].
Defined.
