(* ===== verification/StoreApi.v ===== *)
(** The persistence interface of [src/store/store.go] as a type class, with the
    filters and the statistics row it declares, and its contract.

    [Store] has one operation per method.  [StoreSpec]
    is the contract the engine is verified against: an abstract view of the
    store ([SView]: run rows, event lists and definitions) and, per operation,
    what it returns and how it moves the view.  [MemStore.v] gives the
    in-memory implementation and proves the contract for it. *)
From S2P Require Import Prelude Values Domain World.

(** ** Filters and statistics *)
Record RunFilter := mkRunFilter {
  rf_WorkflowID : string;
  rf_State : string;
  rf_TriggerType : string;
  rf_Since : option Z;
  rf_HasError : option bool;
  rf_RequiresReview : option bool;
  rf_Limit : Z;
  rf_Offset : Z
}.

Record DefinitionFilter := mkDefFilter {
  df_Published : option bool;
  df_Search : string;
  df_Limit : Z;
  df_Offset : Z
}.

(** The success rate is kept as the pair (succeeded, total): the code divides
    the two as floats. *)
Record WorkflowStats := mkStats {
  st_WorkflowID : string;
  st_SuccessRate24h : option (Z * Z);
  st_LastRunAt : option Z;
  st_InFlight : Z
}.

Record ActionFilter := mkActionFilter {
  af_Service : string;
  af_Search : string;
  af_Category : string
}.

Record TriggerFilter := mkTriggerFilter {
  tf_Type : string;
  tf_Enabled : option bool;
  tf_TenantID : option uuid
}.

(** ** The interface *)
Class Store (St : Type) := {
  GetWorkflowDefinition : uuid → M (World St) (res WorkflowDefinition);
  GetPublishedWorkflowByID : string → option uuid → M (World St) (res WorkflowDefinition);
  UpsertWorkflowDefinition : WorkflowDefinition → M (World St) (res uuid);
  CreateRun : SagaRun → M (World St) (res unit);
  GetRun : uuid → M (World St) (res SagaRun);
  UpdateRunState : uuid → RunState → string → M (World St) (res unit);
  CancelRun : uuid → string → M (World St) (res unit);
  MarkRunFailed : uuid → string → string → M (World St) (res unit);
  AppendEvent : SagaRunEvent → M (World St) (res unit);
  ListEventsByRun : uuid → M (World St) (res (list SagaRunEvent));
  GetPublishedRuleByID : string → option uuid → M (World St) (res RuleDefinition);
  UpdateRunVariables : uuid → Vars → M (World St) (res unit);
  SetPausedWithWakeup : uuid → Z → M (World St) (res unit);
  SetPausedAwaitingSignal : uuid → string → option Z → M (World St) (res unit);
  SetPausedAwaitingEventWithDeadline :
    uuid → string → gmap string string → option Z → M (World St) (res unit);
  ClearPause : uuid → M (World St) (res unit);
  FindRunsByDueWakeup : Z → nat → M (World St) (res (list uuid));
  FindRunsByAwaitedEvent : string → M (World St) (res (list SagaRun));
  TryConsumeAwaitedSignal : uuid → string → M (World St) (res bool);
  AppendSignal : SagaSignal → M (World St) (res unit);
  WakeFromExternal : uuid → M (World St) (res unit);
  SpawnChildRunAt :
    uuid → string → string → WorkflowDefinition → Vars → string → M (World St) (res uuid);
  ListChildrenByParent : uuid → string → M (World St) (res (list SagaRun));
  PushTryCatch : uuid → TryCatchFrame → M (World St) (res unit);
  PopTryCatch : uuid → M (World St) (res (option TryCatchFrame));
  CreateUserTask : UserTask → M (World St) (res unit);
  GetUserTask : uuid → M (World St) (res UserTask);
  SubmitUserTask : uuid → string → Vars → M (World St) (res unit);
  ListUserTasksByRun : uuid → M (World St) (res (list UserTask));
  ListActions : ActionFilter → M (World St) (res (list ActionRegistration));
  ListTriggers : TriggerFilter → M (World St) (res (list SagaTrigger));
  ListDueCronTriggers : Z → Z → M (World St) (res (list SagaTrigger));
  ClaimCronFire : uuid → Z → Z → M (World St) (res bool);
  RecordTriggerFire : uuid → string → option uuid → string → M (World St) (res unit);
  MarkAwaitingAction : uuid → string → Z → M (World St) (res unit);
  CompleteAction : uuid → Z → Vars → M (World St) (res unit);
  FailAction : uuid → Z → string → string → bool → M (World St) (res unit);
  ListWorkflowDefinitions : DefinitionFilter → M (World St) (res (list WorkflowDefinition));
  ListRuns : RunFilter → M (World St) (res (list SagaRun));
  CountRuns : RunFilter → M (World St) (res Z);
  StatsForWorkflow : string → M (World St) (res WorkflowStats);
  GetEventByID : uuid → M (World St) (res SagaRunEvent);
  UpsertRuleDefinition : RuleDefinition → M (World St) (res uuid);
  UpsertActionRegistration : ActionRegistration → M (World St) (res unit);
  GetAction : string → string → Z → M (World St) (res ActionRegistration);
  UpsertTrigger : SagaTrigger → M (World St) (res uuid);
  GetTrigger : uuid → M (World St) (res SagaTrigger);
  DeleteTrigger : uuid → M (World St) (res unit)
}.

(** [SpawnChildRun] delegates with an empty start step. *)
Definition SpawnChildRun `{Store St} (parentID : uuid) (parentStepID branchKey : string)
    (def : WorkflowDefinition) (inputs : Vars) : M (World St) (res uuid) :=
  SpawnChildRunAt parentID parentStepID branchKey def inputs "".

(** [SetPausedAwaitingEvent] delegates without a deadline. *)
Definition SetPausedAwaitingEvent `{Store St} (runID : uuid) (topic : string)
    (headers : gmap string string) : M (World St) (res unit) :=
  SetPausedAwaitingEventWithDeadline runID topic headers None.
