(* ===== verification/Rows.v ===== *)
(** What the store operations do to one run row, as the in-memory store of
    [src/store/memory/store.go] writes it: dotted-key writes into the variables
    and the row transitions.  [StoreSpec.v] states the contract of the
    interface with these functions; [MemStore.v] uses them as its bodies. *)
From S2P Require Import Prelude Values Domain World.

(** ** Variables *)

(** [string(key[i])]: Go takes the byte for a code point and writes that in UTF-8, so a
    byte above 127 becomes two. *)
Definition byte_string (c : ascii) : string :=
  let n := N_of_ascii c in
  if (n <? 128)%N then String c ""
  else String (ascii_of_N (192 + n / 64)) (String (ascii_of_N (128 + n mod 64)) "").

(** The loop of [applyDottedKey] that cuts the key at its dots. *)
Fixpoint cut_key (cur key : string) : list string :=
  match key with
  | EmptyString => [cur]
  | String c key =>
      if decide (c = dot) then cur :: cut_key "" key
      else cut_key (cur +:+ byte_string c) key
  end.
Definition key_path (key : string) : list string := cut_key "" key.

(** [applyDottedKey]: walk the path, replacing what is not a map by an empty
    map, and write the value at the last component. *)
Fixpoint apply_path (parts : list string) (value : Val) (t : Vars) : Vars :=
  match parts with
  | [] => t
  | p :: ps =>
      match ps with
      | [] => <[p := value]> t
      | _ =>
          let nested := default ∅ (as_map (t !! p)) in
          <[p := VMap (apply_path ps value nested)]> t
      end
  end.
Definition applyDottedKey (target : Vars) (key : string) (value : Val) : Vars :=
  apply_path (key_path key) value target.

(** The loop of [UpdateRunVariables] over the entries, in visiting order. *)
Definition merge_entries (entries : list (string * Val)) (vars : Vars) : Vars :=
  fold_left (λ t kv, applyDottedKey t kv.1 kv.2) entries vars.

(** ** Row transitions

    What each operation does to the run row it finds. *)
Definition row_UpdateRunState (st : RunState) (cs : string) (r : SagaRun) : SagaRun :=
  set_run_CurrentStep cs (set_run_State st r).

Definition row_clear_awaits (r : SagaRun) : SagaRun :=
  set_run_WakeupAt None (set_run_AwaitedSignal None
    (set_run_AwaitedEventTopic None (set_run_AwaitedEventHeaders ∅ r))).

Definition row_ClearPause (r : SagaRun) : SagaRun :=
  row_clear_awaits (set_run_State RunStateRunning r).

Definition row_Cancel (now : Z) (reason : string) (r : SagaRun) : SagaRun :=
  let r := set_run_LastEventAt now (set_run_TerminalAt (Some now)
             (set_run_State RunStateCancelled r)) in
  let r := if decide (reason = "") then r else set_run_LastError (Some reason) r in
  set_run_AwaitedActionDispatch None (row_clear_awaits r).

Definition row_MarkRunFailed (now : Z) (cs lastError : string) (r : SagaRun) : SagaRun :=
  let r := set_run_LastEventAt now (set_run_TerminalAt (Some now)
             (set_run_CurrentStep cs (set_run_State RunStateFailed r))) in
  if decide (lastError = "") then r else set_run_LastError (Some lastError) r.

Definition row_SetPausedAwaitingSignal (name : string) (deadline : option Z)
    (r : SagaRun) : SagaRun :=
  let r := set_run_AwaitedSignal (Some name) (set_run_State RunStatePaused r) in
  match deadline with Some d => set_run_WakeupAt (Some d) r | None => r end.

Definition row_SetPausedAwaitingEvent (topic : string) (headers : gmap string string)
    (deadline : option Z) (r : SagaRun) : SagaRun :=
  set_run_WakeupAt deadline (set_run_AwaitedEventHeaders headers
    (set_run_AwaitedEventTopic (Some topic) (set_run_State RunStatePaused r))).

Definition row_MarkAwaitingAction (dispatch : string) (attempt : Z) (r : SagaRun) : SagaRun :=
  if decide (run_CurrentAttempt r = attempt ∧ run_AwaitedActionDispatch r = Some dispatch)
  then r
  else set_run_CurrentAttempt attempt (set_run_AwaitedActionDispatch (Some dispatch)
         (set_run_State RunStatePaused r)).

(** The result map overrides key by key (no dotted paths here). *)
Definition row_CompleteAction (now : Z) (result : Vars) (r : SagaRun) : SagaRun :=
  set_run_Variables (result ∪ run_Variables r)
    (set_run_WakeupAt (Some now) (set_run_AwaitedActionDispatch None r)).

Definition row_FailAction (now : Z) (message : string) (r : SagaRun) : SagaRun :=
  let r := set_run_LastEventAt now (set_run_TerminalAt (Some now)
             (set_run_State RunStateFailed (set_run_AwaitedActionDispatch None r))) in
  if decide (message = "") then r else set_run_LastError (Some message) r.

Definition is_child_of (parentID : uuid) (parentStepID : string) (r : SagaRun) : Prop :=
  run_ParentRunID r = Some parentID ∧ run_ParentStepID r = Some parentStepID.
#[export] Instance is_child_of_dec p st r : Decision (is_child_of p st r).
Proof. unfold is_child_of. apply _. Defined.


Definition not_found_run `{Env} (id : uuid) : err := ErrNotFound "saga_run" (uuid_string id).

(** ** Reading and writing dotted keys

    What [applyDottedKey] of the memory store guarantees, and when the order of a batch of
    writes does not matter. *)
(** The value at a path of nested maps. *)
Fixpoint get_path (parts : list string) (t : Vars) : option Val :=
  match parts with
  | [] => None
  | p :: ps =>
      match ps with
      | [] => t !! p
      | _ => as_map (t !! p) ≫= get_path ps
      end
  end.
Definition get_dotted (vars : Vars) (key : string) : option Val :=
  get_path (key_path key) vars.

(** Neither path runs through the other. *)
Definition independent (p q : list string) : Prop := ¬ p `prefix_of` q ∧ ¬ q `prefix_of` p.
#[export] Instance independent_sym : Symmetric independent.
Proof. intros p q [? ?]. by split. Qed.

Definition indep_keys (k1 k2 : string) : Prop :=
  independent (key_path k1) (key_path k2).

#[export] Instance indep_keys_sym : Symmetric indep_keys.
Proof. unfold indep_keys. intros k1 k2 Hi. by symmetry. Qed.

Lemma apply_path_cons p q ps v t :
  apply_path (p :: q :: ps) v t =
  <[p := VMap (apply_path (q :: ps) v (default ∅ (as_map (t !! p))))]> t.
Proof. done. Qed.

Lemma get_path_cons p q ps t : get_path (p :: q :: ps) t = as_map (t !! p) ≫= get_path (q :: ps).
Proof. done. Qed.

Lemma get_apply_path_same parts v t :
  parts ≠ [] → get_path parts (apply_path parts v t) = Some v.
Proof.
  revert t. induction parts as [|p [|q ps] IH]; intros t Hne; [done|by simpl; simplify_map_eq|].
  rewrite apply_path_cons, get_path_cons, lookup_insert_eq. cbn [as_map mbind option_bind]. by apply IH.
Qed.

Lemma get_path_empty parts : get_path parts (∅ : Vars) = None.
Proof. by destruct parts as [|p [|q ps]]. Qed.

Lemma independent_cons a p q : independent (a :: p) (a :: q) → independent p q.
Proof. intros [H1 H2]. split; intros H; [apply H1|apply H2]; by apply prefix_cons. Qed.

Lemma independent_nonnil p q : independent p q → p ≠ [] ∧ q ≠ [].
Proof. intros [H1 H2]. split; intros ->; [apply H1|apply H2]; apply prefix_nil. Qed.

Lemma get_apply_path_other p q v t :
  independent p q → get_path p (apply_path q v t) = get_path p t.
Proof.
  revert q t. induction p as [|a ps IH]; intros q t Hi.
  { by destruct (independent_nonnil _ _ Hi). }
  destruct q as [|b qs]; [by destruct (independent_nonnil _ _ Hi)|].
  destruct (decide (a = b)) as [->|Hab].
  - apply independent_cons in Hi. destruct (independent_nonnil _ _ Hi).
    destruct ps as [|a' ps]; [done|]. destruct qs as [|b' qs]; [done|].
    rewrite apply_path_cons, !get_path_cons, lookup_insert_eq. cbn [as_map mbind option_bind].
    rewrite IH by done. destruct (as_map (t !! b)); cbn [default from_option mbind option_bind]; [done|]. apply get_path_empty.
  - destruct ps as [|a' ps], qs as [|b' qs];
      rewrite ?apply_path_cons, ?get_path_cons; simpl; by rewrite lookup_insert_ne by done.
Qed.

Lemma apply_path_comm p q v u t :
  independent p q → apply_path p v (apply_path q u t) = apply_path q u (apply_path p v t).
Proof.
  revert q t. induction p as [|a ps IH]; intros q t Hi.
  { by destruct (independent_nonnil _ _ Hi). }
  destruct q as [|b qs]; [by destruct (independent_nonnil _ _ Hi)|].
  destruct (decide (a = b)) as [->|Hab].
  - apply independent_cons in Hi. destruct (independent_nonnil _ _ Hi).
    destruct ps as [|a' ps]; [done|]. destruct qs as [|b' qs]; [done|].
    rewrite !apply_path_cons, !lookup_insert_eq, !insert_insert_eq. cbn [as_map default from_option].
    do 2 f_equal. by apply IH.
  - destruct ps as [|a' ps], qs as [|b' qs]; rewrite ?apply_path_cons; simpl;
      rewrite ?(lookup_insert_ne _ a b), ?(lookup_insert_ne _ b a) by done;
      by rewrite (insert_insert_ne _ a b) by done.
Qed.

Lemma applyDottedKey_comm k1 v1 k2 v2 t :
  indep_keys k1 k2 →
  applyDottedKey (applyDottedKey t k1 v1) k2 v2 = applyDottedKey (applyDottedKey t k2 v2) k1 v1.
Proof. intros Hi. symmetry. by apply apply_path_comm. Qed.

(** *** Cutting a key *)
Lemma cut_key_nonnil cur s : cut_key cur s ≠ [].
Proof. revert cur. induction s as [|c s IH]; intros cur; simpl; [done|]. by case_decide. Qed.
Lemma key_path_nonnil s : key_path s ≠ [].
Proof. apply cut_key_nonnil. Qed.

Lemma cut_key_app cur s t : cut_key cur (s +:+ String dot t) = cut_key cur s ++ key_path t.
Proof.
  revert cur. induction s as [|c s IH]; intros cur.
  - change ("" +:+ String dot t) with (String dot t); simpl. done.
  - rewrite string_app_cons; simpl. case_decide; [|by rewrite IH]. by rewrite IH.
Qed.
Lemma key_path_app s t : key_path (s +:+ String dot t) = key_path s ++ key_path t.
Proof. apply cut_key_app. Qed.

(** A key without a dot is one component. *)
Abbreviation dot_free := (char_free dot).
Fixpoint ascii_only (s : string) : Prop :=
  match s with EmptyString => True | String c s => (N_of_ascii c < 128)%N ∧ ascii_only s end.

Lemma cut_key_ascii cur s : ascii_only s → cut_key cur s = split_aux dot cur s.
Proof.
  revert cur. induction s as [|c s IH]; intros cur; simpl; [done|]. intros [Hc Hs].
  unfold byte_string. rewrite (proj2 (N.ltb_lt _ _) Hc). case_decide; by rewrite IH.
Qed.
(** On ASCII keys the loop is [strings.Split]. *)
Lemma key_path_ascii s : ascii_only s → key_path s = strings_Split s dot.
Proof. apply cut_key_ascii. Qed.
Lemma key_path_plain s : ascii_only s → dot_free s → key_path s = [s].
Proof. intros. by rewrite key_path_ascii, Split_free. Qed.

Lemma byte_string_free c : c ≠ dot → dot_free (byte_string c).
Proof. by destruct c as [[][][][][][][][]]; vm_compute; intuition congruence. Qed.
Lemma cut_key_components cur s : dot_free cur → Forall dot_free (cut_key cur s).
Proof.
  revert cur. induction s as [|c s IH]; intros cur Hc; simpl; [by constructor|].
  case_decide; [constructor; [done|by apply IH]|].
  apply IH, char_free_app. split; [done|by apply byte_string_free].
Qed.
Lemma cut_key_one cur s : dot_free s → ∃ a, cut_key cur s = [a].
Proof.
  revert cur. induction s as [|c s IH]; intros cur; simpl; [eauto|].
  intros [Hc Hs]. rewrite decide_False by done. by apply IH.
Qed.
(** A key that is its own first component has no other. *)
Lemma key_path_head s ps : key_path s = s :: ps → ps = [].
Proof.
  intros E. pose proof (cut_key_components "" s I) as HF. fold (key_path s) in HF.
  rewrite E in HF. apply Forall_cons in HF as [Hs _].
  destruct (cut_key_one "" s Hs) as [a Ha]. fold (key_path s) in Ha. congruence.
Qed.

Lemma byte_string_length c :
  (1 ≤ String.length (byte_string c)) ∧
  ((128 ≤ N_of_ascii c)%N → 2 ≤ String.length (byte_string c)).
Proof.
  unfold byte_string. case_match eqn:E; simpl; [|lia].
  apply N.ltb_lt in E. split; [lia|]. intros. lia.
Qed.
Lemma string_length_app (a b : string) :
  String.length (a +:+ b) = String.length a + String.length b.
Proof. induction a as [|c a IH]; [done|]. rewrite string_app_cons; simpl. by rewrite IH. Qed.
Lemma cut_key_length cur s a :
  dot_free s → cut_key cur s = [a] →
  String.length cur + String.length s ≤ String.length a ∧
  (¬ ascii_only s → String.length cur + String.length s < String.length a).
Proof.
  revert cur. induction s as [|c s IH]; intros cur; simpl.
  { intros _ [= ->]. split; [lia|done]. }
  intros [Hc Hs]. rewrite decide_False by done. intros E.
  destruct (IH _ Hs E) as [IH1 IH2]. rewrite string_length_app in *.
  destruct (byte_string_length c) as [B1 B2]. split; [lia|]. intros Hn.
  destruct (decide (128 ≤ N_of_ascii c)%N); [specialize (B2 ltac:(done)); lia|].
  assert (¬ ascii_only s) as Hns by (intros ?; apply Hn; split; [lia|done]).
  specialize (IH2 Hns). lia.
Qed.
(** A name with a byte above 127 is stored under another name, and never read back. *)
Theorem nonascii_name_lost key v t :
  dot_free key → ¬ ascii_only key → applyDottedKey t key v !! key = t !! key.
Proof.
  intros Hd Hn. destruct (cut_key_one "" key Hd) as [a Ha].
  destruct (cut_key_length _ _ _ Hd Ha) as [_ Hl]. specialize (Hl Hn). simpl in Hl.
  unfold applyDottedKey, key_path. rewrite Ha; simpl. rewrite lookup_insert_ne; [done|].
  intros ->. lia.
Qed.

(** Pairwise independence of a batch. *)
Inductive indep_batch : list (string * Val) → Prop :=
| indep_nil : indep_batch []
| indep_cons k v l :
    Forall (λ kv, indep_keys k kv.1) l → indep_batch l → indep_batch ((k, v) :: l).

Lemma indep_batch_perm l k : l ≡ₚ k → indep_batch l → indep_batch k.
Proof.
  induction 1 as [|[a v] l k Hlk IH|[a v] [b u] l|l1 l2 l3 _ IH1 _ IH2]; intros Hi; auto.
  - inversion Hi; subst. constructor; [by rewrite <-Hlk|auto].
  - inversion Hi as [|? ? ? Ha Hb]; subst. inversion Hb as [|? ? ? Hb' Hl]; subst.
    apply Forall_cons in Ha as [Hab Ha]. constructor; [|by constructor].
    constructor; [by symmetry|done].
Qed.

Lemma merge_entries_perm l k t : l ≡ₚ k → indep_batch l → merge_entries l t = merge_entries k t.
Proof.
  intros Hlk. revert t.
  induction Hlk as [|[a v] l k Hlk IH|[a v] [b u] l|l1 l2 l3 H12 IH1 _ IH2]; intros t Hi; simpl.
  - done.
  - inversion Hi; subst. unfold merge_entries; simpl. by apply IH.
  - inversion Hi as [|? ? ? Ha _]; subst. apply Forall_cons in Ha as [Hab _].
    unfold merge_entries; simpl. rewrite applyDottedKey_comm; [done|]. by symmetry.
  - rewrite IH1 by done. apply IH2. by eapply indep_batch_perm.
Qed.

Lemma get_merge_entries_other key l t :
  Forall (λ kv, indep_keys key kv.1) l →
  get_dotted (merge_entries l t) key = get_dotted t key.
Proof.
  revert t. induction l as [|[k v] l IH]; intros t; [done|]. intros [Hk Hl]%Forall_cons.
  unfold merge_entries; simpl. unfold merge_entries in IH. rewrite IH by done.
  by apply get_apply_path_other.
Qed.

Lemma get_merge_entries_in key v l t :
  indep_batch l → (key, v) ∈ l → get_dotted (merge_entries l t) key = Some v.
Proof.
  revert t. induction l as [|[k u] l IH]; intros t Hi Hin; [by apply elem_of_nil in Hin|].
  inversion Hi; subst. unfold merge_entries; simpl.
  apply elem_of_cons in Hin as [[= -> ->]|Hin]; [|by apply IH].
  fold (merge_entries l (applyDottedKey t k u)). rewrite get_merge_entries_other by done.
  apply get_apply_path_same, key_path_nonnil.
Qed.
