(* ===== verification/StoreSpec.v ===== *)
(** The contract of the [Store] interface the engine relies on.

    [SView] is the part of a store the engine reads back: run rows, audit
    events per run and definitions.  [StoreSpec] says of each operation what it
    returns and how it moves the view ([implements]), leaving the rest of the
    process state alone ([same_env]).  Theorems about the engine are proved in
    sections over [StoreSpec]; [MemSpec.v] proves it of the in-memory store. *)
From S2P Require Import Prelude Values Domain World StoreApi Rows.

Record SView := mkView {
  v_runs : gmap uuid SagaRun;
  v_events : gmap uuid (list SagaRunEvent);
  v_defs : gmap uuid WorkflowDefinition
}.

(** Everything but the store and the id supply is unchanged. *)
Definition same_env {St} (w w' : World St) : Prop :=
  w_now w' = w_now w ∧ w_clk w' = w_clk w ∧ w_polls w' = w_polls w ∧
  w_rands w' = w_rands w ∧ w_out w' = w_out w.

#[export] Instance same_env_refl {St} : Reflexive (@same_env St).
Proof. by intros w. Qed.
#[export] Instance same_env_trans {St} : Transitive (@same_env St).
Proof. unfold same_env. intros w1 w2 w3. intuition congruence. Qed.

(** ** The abstract operations *)
Definition alter_run (f : SagaRun → SagaRun) (id : uuid) (v : SView) : SView :=
  mkView (alter f id (v_runs v)) (v_events v) (v_defs v).
Definition add_event (e : SagaRunEvent) (v : SView) : SView :=
  mkView (v_runs v)
    (<[ev_RunID e := default [] (v_events v !! ev_RunID e) ++ [e]]> (v_events v)) (v_defs v).
Definition found `{Env} {A} (id : uuid) (v : SView) (k : SagaRun → A) : res A :=
  match v_runs v !! id with Some r => Ok (k r) | None => Err (not_found_run id) end.
Definition events_of (v : SView) (id : uuid) : list SagaRunEvent :=
  default [] (v_events v !! id).
Definition rows (v : SView) : list SagaRun := (map_to_list (v_runs v)).*2.

Definition MarkFailed_row (now : Z) (cs e : string) (r : SagaRun) : SagaRun :=
  if IsTerminal (run_State r) then r else row_MarkRunFailed now cs e r.

Definition Complete_row (now attempt : Z) (result : Vars) (r : SagaRun) : SagaRun :=
  if decide (run_CurrentAttempt r ≠ attempt) then r else row_CompleteAction now result r.

(** [c], run in [w], returns [a] and leaves the view [v]. *)
Definition implements {St A} (view : St → SView) (c : M (World St) A) (w : World St) (a : A)
    (v : SView) : Prop :=
  ∃ w', c w = (a, w') ∧ same_env w w' ∧ view (w_store w') = v.

Class StoreSpec (St : Type) `{Env} `{!Store St} := {
  view : St → SView;
  spec_GetRun id w :
    implements view (GetRun id) w (found id (view (w_store w)) (λ r, r)) (view (w_store w));
  spec_GetWorkflowDefinition did w :
    implements view (GetWorkflowDefinition did) w
      (match v_defs (view (w_store w)) !! did with
       | Some d => Ok d
       | None => Err (ErrNotFound "workflow_definition" (uuid_string did)) end)
      (view (w_store w));
  spec_UpdateRunState id st cs w :
    implements view (UpdateRunState id st cs) w
      (found id (view (w_store w)) (λ _, tt))
      (alter_run (row_UpdateRunState st cs) id (view (w_store w)));
  spec_MarkRunFailed id cs e w :
    implements view (MarkRunFailed id cs e) w
      (found id (view (w_store w)) (λ _, tt))
      (alter_run (MarkFailed_row (w_now w) cs e) id (view (w_store w)));
  spec_AppendEvent e w :
    implements view (AppendEvent e) w (Ok tt) (add_event e (view (w_store w)));
  spec_ListEventsByRun id w :
    implements view (ListEventsByRun id) w (Ok (events_of (view (w_store w)) id))
      (view (w_store w));
  spec_UpdateRunVariables id m w :
    implements view (UpdateRunVariables id m) w
      (found id (view (w_store w)) (λ _, tt))
      (alter_run (λ r, set_run_Variables (merge_entries (range_map m) (run_Variables r)) r)
         id (view (w_store w)));
  spec_ClearPause id w :
    implements view (ClearPause id) w (found id (view (w_store w)) (λ _, tt))
      (alter_run row_ClearPause id (view (w_store w)));
  spec_WakeFromExternal id w :
    implements view (WakeFromExternal id) w (found id (view (w_store w)) (λ _, tt))
      (alter_run row_clear_awaits id (view (w_store w)));
  spec_ListChildrenByParent id sid w :
    ∃ l, implements view (ListChildrenByParent id sid) w (Ok l) (view (w_store w)) ∧
         l ≡ₚ filter (is_child_of id sid) (rows (view (w_store w)));
  spec_ListUserTasksByRun id w :
    ∃ l, implements view (ListUserTasksByRun id) w (Ok l) (view (w_store w));
  spec_PushTryCatch id f w :
    match v_runs (view (w_store w)) !! id with
    | Some r =>
        if decide (3 ≤ length (run_TryCatchStack r)) then
          ∃ e, implements view (PushTryCatch id f) w (Err e) (view (w_store w))
        else implements view (PushTryCatch id f) w (Ok tt)
               (alter_run (λ r, set_run_TryCatchStack (run_TryCatchStack r ++ [f]) r) id
                  (view (w_store w)))
    | None => implements view (PushTryCatch id f) w (Err (not_found_run id)) (view (w_store w))
    end;
  spec_PopTryCatch id w :
    implements view (PopTryCatch id) w
      (found id (view (w_store w)) (λ r, last (run_TryCatchStack r)))
      (alter_run (λ r, set_run_TryCatchStack
                         (take (pred (length (run_TryCatchStack r))) (run_TryCatchStack r)) r)
         id (view (w_store w)));
  spec_SetPausedWithWakeup id t w :
    implements view (SetPausedWithWakeup id t) w (found id (view (w_store w)) (λ _, tt))
      (alter_run (λ r, set_run_WakeupAt (Some t) (set_run_State RunStatePaused r)) id
         (view (w_store w)));
  spec_SetPausedAwaitingSignal id n d w :
    implements view (SetPausedAwaitingSignal id n d) w (found id (view (w_store w)) (λ _, tt))
      (alter_run (row_SetPausedAwaitingSignal n d) id (view (w_store w)));
  spec_SetPausedAwaitingEvent id t h d w :
    implements view (SetPausedAwaitingEventWithDeadline id t h d) w
      (found id (view (w_store w)) (λ _, tt))
      (alter_run (row_SetPausedAwaitingEvent t h d) id (view (w_store w)));
  spec_MarkAwaitingAction id d a w :
    implements view (MarkAwaitingAction id d a) w (found id (view (w_store w)) (λ _, tt))
      (alter_run (row_MarkAwaitingAction d a) id (view (w_store w)));
  spec_CompleteAction id a result w :
    implements view (CompleteAction id a result) w (found id (view (w_store w)) (λ _, tt))
      (alter_run (Complete_row (w_now w) a result) id (view (w_store w)));
  spec_FailAction id a code msg retryable w :
    match v_runs (view (w_store w)) !! id with
    | Some r =>
        if decide (run_CurrentAttempt r = a) then
          ∃ e, implements view (FailAction id a code msg retryable) w (Ok tt)
                 (add_event e (alter_run (row_FailAction (w_now w) msg) id (view (w_store w)))) ∧
               ev_RunID e = id ∧ ev_EventType e = EventStepFailed ∧ ev_StepID e = run_CurrentStep r ∧
               ev_Actor e = "engine"
        else implements view (FailAction id a code msg retryable) w (Ok tt) (view (w_store w))
    | None => implements view (FailAction id a code msg retryable) w (Err (not_found_run id))
                (view (w_store w))
    end
}.

(** The view a world's store presents. *)
Definition V `{StoreSpec St} (w : World St) : SView := view (w_store w).

(** ** Lemmas on the abstract operations *)
Section views.
Context `{Env}.

Lemma alter_run_lookup f id v r :
  v_runs v !! id = Some r → v_runs (alter_run f id v) !! id = Some (f r).
Proof. intros Hr. unfold alter_run; simpl. by rewrite lookup_alter_eq, Hr. Qed.

Lemma alter_run_lookup_ne f id j v :
  id ≠ j → v_runs (alter_run f id v) !! j = v_runs v !! j.
Proof. intros Hr. unfold alter_run; simpl. by rewrite lookup_alter_ne. Qed.

Lemma alter_run_defs f id v : v_defs (alter_run f id v) = v_defs v.
Proof. done. Qed.
Lemma alter_run_events f id v j : events_of (alter_run f id v) j = events_of v j.
Proof. done. Qed.
Lemma add_event_runs e v : v_runs (add_event e v) = v_runs v.
Proof. done. Qed.
Lemma add_event_defs e v : v_defs (add_event e v) = v_defs v.
Proof. done. Qed.
Lemma add_event_events e v : events_of (add_event e v) (ev_RunID e) = events_of v (ev_RunID e) ++ [e].
Proof. unfold events_of, add_event; simpl. by rewrite lookup_insert_eq. Qed.
Lemma add_event_events_ne e v j :
  ev_RunID e ≠ j → events_of (add_event e v) j = events_of v j.
Proof. intros Hj. unfold events_of, add_event; simpl. by rewrite lookup_insert_ne. Qed.

Lemma found_Some {A} id v (k : SagaRun → A) r :
  v_runs v !! id = Some r → found id v k = Ok (k r).
Proof. unfold found. by intros ->. Qed.
Lemma found_None {A} id v (k : SagaRun → A) :
  v_runs v !! id = None → found id v k = Err (not_found_run id).
Proof. unfold found. by intros ->. Qed.

Lemma elem_of_rows r v : r ∈ rows v ↔ ∃ id, v_runs v !! id = Some r.
Proof.
  unfold rows. rewrite list_elem_of_fmap. split.
  - intros ([id r'] & -> & Hin%elem_of_map_to_list). eauto.
  - intros (id & Hid). exists (id, r). split; [done|]. by apply elem_of_map_to_list.
Qed.
End views.
