(* ===== verification/MemStore.v ===== *)
(** The in-memory store, [src/store/memory/store.go] and [triggers.go]: state,
    operations in the order of the sources, and the [Store] instance.

    A Go store method holds the mutex for its whole body (or its whole effect),
    so one operation is one atomic step.  Values are stored by copy ([clone.go])
    and Rocq values are immutable, so the copies need no counterpart here. *)
From S2P Require Import Prelude Values Domain World StoreApi Rows.

Record MemStore := mkMem {
  defs : gmap uuid WorkflowDefinition;
  defsByName : gmap string (list uuid);
  runs : gmap uuid SagaRun;
  events : gmap uuid (list SagaRunEvent);
  rules : gmap uuid RuleDefinition;
  rulesByID : gmap string (list uuid);
  signals : gmap uuid (list SagaSignal);
  userTasks : gmap uuid UserTask;
  actions : gmap string (gmap Z ActionRegistration);
  triggers : gmap uuid SagaTrigger;
  triggerFires : list TriggerFireRow
}.

(** [New]. *)
Definition New : MemStore := mkMem ∅ ∅ ∅ ∅ ∅ ∅ ∅ ∅ ∅ ∅ [].

Definition set_defs x s :=
  mkMem x (defsByName s) (runs s) (events s) (rules s) (rulesByID s) (signals s) (userTasks s) (actions s) (triggers s) (triggerFires s).
Definition set_defsByName x s :=
  mkMem (defs s) x (runs s) (events s) (rules s) (rulesByID s) (signals s) (userTasks s) (actions s) (triggers s) (triggerFires s).
Definition set_runs x s :=
  mkMem (defs s) (defsByName s) x (events s) (rules s) (rulesByID s) (signals s) (userTasks s) (actions s) (triggers s) (triggerFires s).
Definition set_events x s :=
  mkMem (defs s) (defsByName s) (runs s) x (rules s) (rulesByID s) (signals s) (userTasks s) (actions s) (triggers s) (triggerFires s).
Definition set_rules x y s :=
  mkMem (defs s) (defsByName s) (runs s) (events s) x y (signals s) (userTasks s) (actions s) (triggers s) (triggerFires s).
Definition set_signals x s :=
  mkMem (defs s) (defsByName s) (runs s) (events s) (rules s) (rulesByID s) x (userTasks s) (actions s) (triggers s) (triggerFires s).
Definition set_userTasks x s :=
  mkMem (defs s) (defsByName s) (runs s) (events s) (rules s) (rulesByID s) (signals s) x (actions s) (triggers s) (triggerFires s).
Definition set_actions x s :=
  mkMem (defs s) (defsByName s) (runs s) (events s) (rules s) (rulesByID s) (signals s) (userTasks s) x (triggers s) (triggerFires s).
Definition set_triggers x s :=
  mkMem (defs s) (defsByName s) (runs s) (events s) (rules s) (rulesByID s) (signals s) (userTasks s) (actions s) x (triggerFires s).
Definition set_triggerFires x s :=
  mkMem (defs s) (defsByName s) (runs s) (events s) (rules s) (rulesByID s) (signals s) (userTasks s) (actions s) (triggers s) x.
#[global] Arguments set_defs x s /.
#[global] Arguments set_defsByName x s /.
#[global] Arguments set_runs x s /.
#[global] Arguments set_events x s /.
#[global] Arguments set_rules x y s /.
#[global] Arguments set_signals x s /.
#[global] Arguments set_userTasks x s /.
#[global] Arguments set_actions x s /.
#[global] Arguments set_triggers x s /.
#[global] Arguments set_triggerFires x s /.

(** ** Pure helpers *)

(** [for i := len(ids)-1; i >= 0; i--] with an early return. *)
Definition newest_first {A} (f : uuid → option A) (ids : list uuid) : option A :=
  head (omap f (rev ids)).

(** The in-place insertion sort the store writes out: each element sinks left
    while [before] holds between it and its left neighbour.  The sorted prefix
    is kept reversed. *)
Fixpoint sink {A} (before : A → A → bool) (x : A) (rprefix : list A) : list A :=
  match rprefix with
  | [] => [x]
  | y :: rp => if before x y then y :: sink before x rp else x :: y :: rp
  end.
Definition insertion_sort {A} (before : A → A → bool) (l : list A) : list A :=
  rev (fold_left (λ acc x, sink before x acc) l []).

(** [l[a:b]]; [None] is the run-time panic of an invalid slice expression. *)
Definition slice {A} (a b : Z) (l : list A) : option (list A) :=
  if decide (0 ≤ a ≤ b ∧ b ≤ Z.of_nat (length l))%Z
  then Some (take (Z.to_nat (b - a)) (drop (Z.to_nat a) l)) else None.

(** The shared tail of the list queries; [cap] is the largest page. *)
Definition paginate {A} (limit offset : Z) (cap : option Z) (matched : list A) : res (list A) :=
  let limit := if decide (limit ≤ 0)%Z then 50%Z else limit in
  let limit := match cap with Some c => Z.min limit c | None => limit end in
  let offset := Z.max offset 0 in
  let n := Z.of_nat (length matched) in
  if decide (n ≤ offset)%Z then Ok []
  else
    let e := wrap64 (offset + limit) in
    let e := Z.min e n in
    match slice offset e matched with
    | Some l => Ok l
    | None => Err (EMsg "panic: slice bounds out of range")
    end.

(** [uuidLess]: byte by byte, big-endian. *)
Definition uuid_byte (u : uuid) (i : nat) : N := N.land (N.shiftr u (8 * N.of_nat (15 - i))) 255.
Fixpoint uuidLess_from (fuel i : nat) (a b : uuid) : bool :=
  match fuel with
  | O => false
  | S fuel =>
      if decide (uuid_byte a i = uuid_byte b i) then uuidLess_from fuel (S i) a b
      else (uuid_byte a i <? uuid_byte b i)%N
  end.
Definition uuidLess (a b : uuid) : bool := uuidLess_from 16 0 a b.

Definition SubmittedAt_nil (t : UserTask) : bool :=
  match task_SubmittedAt t with None => true | Some _ => false end.
Definition set_submitted (at_ : option Z) (by_ : string) (t : UserTask) : UserTask :=
  mkTask (task_ID t) (task_RunID t) (task_StepID t) (task_Assignee t) (task_DueAt t)
    (task_FormSchema t) at_ by_ (task_Result t).
Definition set_task_Result (r : Vars) (t : UserTask) : UserTask :=
  mkTask (task_ID t) (task_RunID t) (task_StepID t) (task_Assignee t) (task_DueAt t)
    (task_FormSchema t) (task_SubmittedAt t) (task_SubmittedBy t) r.
Definition set_ConsumedAt (at_ : option Z) (s : SagaSignal) : SagaSignal :=
  mkSignal (sig_ID s) (sig_RunID s) (sig_SignalName s) (sig_Payload s) (sig_ReceivedAt s) at_.
Definition set_fire_times (next last : option Z) (t : SagaTrigger) : SagaTrigger :=
  mkTrigger (trig_ID t) (trig_TriggerType t) (trig_WorkflowID t) (trig_Version t)
    (trig_Config t) (trig_Enabled t) (trig_TenantID t) (trig_CreatedAt t) (trig_CreatedBy t)
    next last.

Definition maxDepth : nat := 3.

Section MemStore.
Context `{Env}.
Abbreviation M := (M (World MemStore)).

(** Read, change and write back one run row. *)
Definition upd_run (id : uuid) (f : SagaRun → SagaRun) : M (res unit) :=
  let* s := get_store in
  match runs s !! id with
  | None => ret (Err (not_found_run id))
  | Some r => do* put_store (set_runs (<[id := f r]> (runs s)) s) in ret (Ok tt)
  end.

(** *** Definitions *)
Definition mem_UpsertWorkflowDefinition (def : WorkflowDefinition) : M (res uuid) :=
  let* s := get_store in
  let* id := uuidNew in
  let s := set_defs (<[id := def]> (defs s)) s in
  let ids := default [] (defsByName s !! def_ID def) in
  do* put_store (set_defsByName (<[def_ID def := ids ++ [id]]> (defsByName s)) s) in
  ret (Ok id).

Definition mem_GetWorkflowDefinition (id : uuid) : M (res WorkflowDefinition) :=
  let* s := get_store in
  match defs s !! id with
  | None => ret (Err (ErrNotFound "workflow_definition" (uuid_string id)))
  | Some d => ret (Ok d)
  end.

(** The zero definition of a Go map lookup that misses. *)
Definition zero_def : WorkflowDefinition := mkDef "" 0 None "" "" "" ∅ [] false 0 "".

Definition mem_GetPublishedWorkflowByID (workflowID : string) (_ : option uuid)
    : M (res WorkflowDefinition) :=
  let* s := get_store in
  let ids := default [] (defsByName s !! workflowID) in
  let look id := default zero_def (defs s !! id) in
  match newest_first (λ id, if def_Published (look id) then Some (look id) else None) ids with
  | Some d => ret (Ok d)
  | None =>
      match last ids with
      | Some id => ret (Ok (look id))
      | None => ret (Err (ErrNotFound "workflow_definition" workflowID))
      end
  end.

Definition def_matches (f : DefinitionFilter) (d : WorkflowDefinition) : bool :=
  let search := strings_ToLower (df_Search f) in
  match df_Published f with Some b => bool_decide (def_Published d = b) | None => true end &&
  (bool_decide (search = "") ||
   strings_Contains (strings_ToLower (def_ID d)) search ||
   strings_Contains (strings_ToLower (def_Name d)) search).

(** The [less] function handed to [sort.SliceStable]. *)
Definition def_less (a b : WorkflowDefinition) : bool :=
  if decide (def_CreatedAt a = def_CreatedAt b)
  then (def_Version b <? def_Version a)%Z
  else (def_CreatedAt b <? def_CreatedAt a)%Z.

Definition mem_ListWorkflowDefinitions (f : DefinitionFilter)
    : M (res (list WorkflowDefinition)) :=
  let* s := get_store in
  let matched := filter (λ d, def_matches f d = true) ((range_map (defs s)).*2) in
  let matched := insertion_sort def_less matched in
  ret (paginate (df_Limit f) (df_Offset f) (Some 500%Z) matched).

(** *** Runs *)
Definition mem_CreateRun (run : SagaRun) : M (res unit) :=
  let* s := get_store in
  do* put_store (set_runs (<[run_ID run := run]> (runs s)) s) in
  ret (Ok tt).

Definition mem_GetRun (id : uuid) : M (res SagaRun) :=
  let* s := get_store in
  match runs s !! id with
  | None => ret (Err (not_found_run id))
  | Some r => ret (Ok r)
  end.

Definition mem_UpdateRunState (id : uuid) (st : RunState) (currentStep : string)
    : M (res unit) :=
  upd_run id (row_UpdateRunState st currentStep).

Definition mem_AppendEvent (evt : SagaRunEvent) : M (res unit) :=
  let* s := get_store in
  let es := default [] (events s !! ev_RunID evt) in
  do* put_store (set_events (<[ev_RunID evt := es ++ [evt]]> (events s)) s) in
  ret (Ok tt).

(** Close one open user task of the cancelled run. *)
Definition close_task (now : Z) (runID : uuid) (t : UserTask) : UserTask :=
  if decide (task_RunID t = runID ∧ SubmittedAt_nil t = true)
  then set_submitted (Some now) "system:run-cancelled" t else t.

Definition mem_Cancel (runID : uuid) (reason : string) : M (res unit) :=
  let* s := get_store in
  match runs s !! runID with
  | None => ret (Err (not_found_run runID))
  | Some r =>
      if IsTerminal (run_State r) then ret (Ok tt)
      else
        let* now := timeNow in
        let r := row_Cancel now reason r in
        let s := set_runs (<[runID := r]> (runs s)) s in
        let s := set_userTasks (close_task now runID <$> userTasks s) s in
        do* put_store s in
        let* evt := NewEvent runID (run_CurrentStep r) 0 EventRunCancelled "engine" in
        let evt := if decide (reason = "") then evt
                   else with_Metadata {["reason" := VStr reason]} evt in
        do* mem_AppendEvent evt in
        ret (Ok tt)
  end.

Definition mem_MarkRunFailed (runID : uuid) (currentStep lastError : string)
    : M (res unit) :=
  let* now := timeNow in
  upd_run runID (λ r, if IsTerminal (run_State r) then r
                      else row_MarkRunFailed now currentStep lastError r).

Definition mem_ListEventsByRun (runID : uuid) : M (res (list SagaRunEvent)) :=
  let* s := get_store in
  ret (Ok (default [] (events s !! runID))).

Definition mem_GetEventByID (id : uuid) : M (res SagaRunEvent) :=
  let* s := get_store in
  match list_find (λ e, ev_ID e = id) (concat ((range_map (events s)).*2)) with
  | Some (_, e) => ret (Ok e)
  | None => ret (Err (ErrNotFound "saga_run_event" (uuid_string id)))
  end.

(** *** Rules *)
Definition set_rule_ID (id : uuid) (r : RuleDefinition) : RuleDefinition :=
  mkRule id (rule_RuleID r) (rule_Version r) (rule_TenantID r) (rule_Name r)
    (rule_RuleType r) (rule_Spec r) (rule_Published r) (rule_CreatedAt r) (rule_CreatedBy r).

Definition mem_UpsertRuleDefinition (def : RuleDefinition) : M (res uuid) :=
  let* s := get_store in
  let* id := (if decide (rule_ID def = uuid_Nil) then uuidNew else ret (rule_ID def)) in
  let def := set_rule_ID id def in
  let byID :=
    match rules s !! id with
    | Some existing =>
        let oldIDs := default [] (rulesByID s !! rule_RuleID existing) in
        <[rule_RuleID existing := filter (λ eid, eid ≠ id) oldIDs]> (rulesByID s)
    | None => rulesByID s
    end in
  let ids := default [] (byID !! rule_RuleID def) in
  do* put_store (set_rules (<[id := def]> (rules s))
                   (<[rule_RuleID def := ids ++ [id]]> byID) s) in
  ret (Ok id).

Definition zero_rule : RuleDefinition :=
  mkRule 0 "" 0 None "" "" (mkSpec "" [] None) false 0 "".

Definition mem_GetPublishedRuleByID (ruleID : string) (_ : option uuid)
    : M (res RuleDefinition) :=
  let* s := get_store in
  let ids := default [] (rulesByID s !! ruleID) in
  let look id := default zero_rule (rules s !! id) in
  match newest_first (λ id, if rule_Published (look id) then Some (look id) else None) ids with
  | Some r => ret (Ok r)
  | None =>
      match last ids with
      | Some id => ret (Ok (look id))
      | None => ret (Err (ErrNotFound "rule_definition" ruleID))
      end
  end.

(** *** Variables, pauses and signals *)
Definition mem_UpdateRunVariables (runID : uuid) (merge : Vars) : M (res unit) :=
  upd_run runID (λ r, set_run_Variables
                        (merge_entries (range_map merge) (run_Variables r)) r).

Definition mem_SetPausedWithWakeup (runID : uuid) (wakeupAt : Z) : M (res unit) :=
  upd_run runID (λ r, set_run_WakeupAt (Some wakeupAt) (set_run_State RunStatePaused r)).

Definition mem_SetPausedAwaitingSignal (runID : uuid) (signalName : string)
    (deadline : option Z) : M (res unit) :=
  upd_run runID (row_SetPausedAwaitingSignal signalName deadline).

Definition mem_SetPausedAwaitingEventWithDeadline (runID : uuid) (topic : string)
    (headers : gmap string string) (deadline : option Z) : M (res unit) :=
  upd_run runID (row_SetPausedAwaitingEvent topic headers deadline).

Definition mem_ClearPause (runID : uuid) : M (res unit) := upd_run runID row_ClearPause.

Definition due (now : Z) (r : SagaRun) : bool :=
  bool_decide (run_State r = RunStatePaused) &&
  match run_WakeupAt r with Some t => (t <=? now)%Z | None => false end.

(** The loop appends before it tests the limit. *)
Fixpoint find_due (now : Z) (limit : nat) (rs : list (uuid * SagaRun)) (out : list uuid)
    : list uuid :=
  match rs with
  | [] => out
  | (id, r) :: rs =>
      if due now r then
        let out := out ++ [id] in
        if decide (limit ≤ length out) then out else find_due now limit rs out
      else find_due now limit rs out
  end.

Definition mem_FindRunsByDueWakeup (now : Z) (limit : nat) : M (res (list uuid)) :=
  let* s := get_store in
  ret (Ok (find_due now limit (range_map (runs s)) [])).

Definition awaits_topic (topic : string) (r : SagaRun) : Prop :=
  run_State r = RunStatePaused ∧ run_AwaitedEventTopic r = Some topic.
#[export] Instance awaits_topic_dec topic r : Decision (awaits_topic topic r).
Proof. unfold awaits_topic. apply _. Defined.

Definition mem_FindRunsByAwaitedEvent (topic : string) : M (res (list SagaRun)) :=
  let* s := get_store in
  ret (Ok (filter (awaits_topic topic) ((range_map (runs s)).*2))).

Definition consume_signal (now : Z) (name : string) (sg : SagaSignal) : SagaSignal :=
  if decide (sig_SignalName sg = name ∧ sig_ConsumedAt sg = None)
  then set_ConsumedAt (Some now) sg else sg.

Definition mem_TryConsumeAwaitedSignal (runID : uuid) (signalName : string)
    : M (res bool) :=
  let* s := get_store in
  match runs s !! runID with
  | None => ret (Ok false)
  | Some r =>
      if decide (run_State r = RunStatePaused ∧ run_AwaitedSignal r = Some signalName) then
        let* now := timeNow in
        let s := match signals s !! runID with
                 | Some sigs =>
                     set_signals (<[runID := consume_signal now signalName <$> sigs]>
                                    (signals s)) s
                 | None => s
                 end in
        do* put_store (set_runs (<[runID := row_clear_awaits r]> (runs s)) s) in
        ret (Ok true)
      else ret (Ok false)
  end.

Definition mem_WakeFromExternal (runID : uuid) : M (res unit) :=
  upd_run runID row_clear_awaits.

Definition mem_AppendSignal (sg : SagaSignal) : M (res unit) :=
  let* s := get_store in
  let sigs := default [] (signals s !! sig_RunID sg) in
  do* put_store (set_signals (<[sig_RunID sg := sigs ++ [sg]]> (signals s)) s) in
  ret (Ok tt).

(** *** Children and the try_catch stack *)
Definition mem_SpawnChildRunAt (parentID : uuid) (parentStepID branchKey : string)
    (def : WorkflowDefinition) (inputs : Vars) (startStep : string) : M (res uuid) :=
  let* s := get_store in
  let* r := (match last (default [] (defsByName s !! def_ID def)) with
             | Some id => ret (id, s)
             | None =>
                 let* id := uuidNew in
                 ret (id, set_defsByName (<[def_ID def := [id]]> (defsByName s))
                            (set_defs (<[id := def]> (defs s)) s))
             end) in
  let '(defStoredID, s) := r in
  let* cid := uuidNew in
  let* now := timeNow in
  let child := NewSagaRun cid now (def_ID def) defStoredID None inputs in
  let child := if decide (startStep = "") then child
               else set_run_CurrentStep startStep child in
  let child := set_run_ParentBranchID (Some branchKey)
                 (set_run_ParentStepID (Some parentStepID)
                   (set_run_ParentRunID (Some parentID) child)) in
  do* put_store (set_runs (<[cid := child]> (runs s)) s) in
  ret (Ok cid).

Definition mem_ListChildrenByParent (parentID : uuid) (parentStepID : string)
    : M (res (list SagaRun)) :=
  let* s := get_store in
  ret (Ok (filter (is_child_of parentID parentStepID) ((range_map (runs s)).*2))).

Definition mem_PushTryCatch (runID : uuid) (frame : TryCatchFrame) : M (res unit) :=
  let* s := get_store in
  match runs s !! runID with
  | None => ret (Err (not_found_run runID))
  | Some r =>
      if decide (maxDepth ≤ length (run_TryCatchStack r)) then
        ret (Err (EMsg ("try_catch max nesting depth 3 exceeded for run " +:+
                        uuid_string runID)))
      else upd_run runID (λ r, set_run_TryCatchStack (run_TryCatchStack r ++ [frame]) r)
  end.

Definition mem_PopTryCatch (runID : uuid) : M (res (option TryCatchFrame)) :=
  let* s := get_store in
  match runs s !! runID with
  | None => ret (Err (not_found_run runID))
  | Some r =>
      match last (run_TryCatchStack r) with
      | None => ret (Ok None)
      | Some top =>
          let rest := take (pred (length (run_TryCatchStack r))) (run_TryCatchStack r) in
          do* upd_run runID (set_run_TryCatchStack rest) in
          ret (Ok (Some top))
      end
  end.

(** *** User tasks *)
Definition mem_CreateUserTask (task : UserTask) : M (res unit) :=
  let* s := get_store in
  do* put_store (set_userTasks (<[task_ID task := task]> (userTasks s)) s) in
  ret (Ok tt).

Definition mem_GetUserTask (taskID : uuid) : M (res UserTask) :=
  let* s := get_store in
  match userTasks s !! taskID with
  | None => ret (Err (ErrNotFound "user_task" (uuid_string taskID)))
  | Some t => ret (Ok t)
  end.

Definition mem_ListUserTasksByRun (runID : uuid) : M (res (list UserTask)) :=
  let* s := get_store in
  let out := filter (λ t, task_RunID t = runID) ((range_map (userTasks s)).*2) in
  ret (Ok (insertion_sort (λ a b, uuidLess (task_ID a) (task_ID b)) out)).

Definition mem_SubmitUserTask (taskID : uuid) (submittedBy : string) (result : Vars)
    : M (res unit) :=
  let* s := get_store in
  match userTasks s !! taskID with
  | None => ret (Err (ErrNotFound "user_task" (uuid_string taskID)))
  | Some t =>
      let* now := timeNow in
      let t := set_task_Result result (set_submitted (Some now) submittedBy t) in
      do* put_store (set_userTasks (<[taskID := t]> (userTasks s)) s) in
      ret (Ok tt)
  end.

(** *** Action registry *)
Definition with_act_ids (id : uuid) (at_ : option Z) (a : ActionRegistration)
    : ActionRegistration :=
  mkAction id (act_Service a) (act_ActionName a) (act_Version a) (act_Description a)
    (act_Category a) (act_Compensable a) (act_InputSchema a) (act_OutputSchema a)
    (act_ErrorCodes a) (act_DefaultRetry a) (act_DefaultTimeoutMS a) (act_Deprecated a)
    at_ (act_ServiceVersion a) (act_DryRunSupported a) (act_LicenseGroup a)
    (act_Transport a) (act_Address a).

Definition mem_UpsertActionRegistration (reg : ActionRegistration) : M (res unit) :=
  let* s := get_store in
  let key := act_Service reg +:+ "." +:+ act_ActionName reg in
  let byVer := default ∅ (actions s !! key) in
  let* id := (if decide (act_ID reg = uuid_Nil) then uuidNew else ret (act_ID reg)) in
  let* now := timeNow in
  let at_ := match act_RegisteredAt reg with None => Some now | t => t end in
  let reg := with_act_ids id at_ reg in
  do* put_store (set_actions (<[key := <[act_Version reg := reg]> byVer]> (actions s)) s) in
  ret (Ok tt).

Definition act_matches (f : ActionFilter) (a : ActionRegistration) : bool :=
  (bool_decide (af_Service f = "") || bool_decide (act_Service a = af_Service f)) &&
  (bool_decide (af_Category f = "") || bool_decide (act_Category a = af_Category f)) &&
  (bool_decide (af_Search f = "") || strings_Contains (act_ActionName a) (af_Search f)).

Definition mem_ListActions (f : ActionFilter) : M (res (list ActionRegistration)) :=
  let* s := get_store in
  let all := concat ((λ m, (range_map m).*2) <$> (range_map (actions s)).*2) in
  ret (Ok (filter (λ a, act_matches f a = true) all)).

Definition mem_GetAction (service name : string) (version : Z)
    : M (res ActionRegistration) :=
  let* s := get_store in
  match actions s !! (service +:+ "." +:+ name) ≫= (.!! version) with
  | Some a => ret (Ok a)
  | None => ret (Err (ErrNotFound "action_registration"
                        (service +:+ "." +:+ name +:+ ":" +:+ itoa version)))
  end.

(** *** Awaited actions *)
Definition mem_MarkAwaitingAction (runID : uuid) (dispatch : string) (attempt : Z)
    : M (res unit) :=
  upd_run runID (row_MarkAwaitingAction dispatch attempt).

Definition mem_CompleteAction (runID : uuid) (attempt : Z) (result : Vars)
    : M (res unit) :=
  let* now := timeNow in
  upd_run runID (λ r, if decide (run_CurrentAttempt r ≠ attempt) then r
                      else row_CompleteAction now result r).

(** One step: the event that the code appends after it released the mutex follows the row at once,
    here and in [mem_Cancel]. *)
Definition mem_FailAction (runID : uuid) (attempt : Z) (code message : string)
    (retryable : bool) : M (res unit) :=
  let* s := get_store in
  match runs s !! runID with
  | None => ret (Err (not_found_run runID))
  | Some r =>
      if decide (run_CurrentAttempt r ≠ attempt) then ret (Ok tt)
      else
        let dispatch := default "" (run_AwaitedActionDispatch r) in
        let* now := timeNow in
        let r := row_FailAction now message r in
        do* put_store (set_runs (<[runID := r]> (runs s)) s) in
        let* evt := NewEvent runID (run_CurrentStep r) attempt EventStepFailed "engine" in
        do* mem_AppendEvent (with_Metadata
              (list_to_map [("code", VStr code); ("message", VStr message);
                            ("retryable", VBool retryable); ("action", VStr dispatch)]) evt) in
        ret (Ok tt)
  end.

(** *** Run queries *)
Definition buildTriggerTypeMap (s : MemStore) : gmap uuid string :=
  trig_TriggerType <$> triggers s.

Definition run_matches (f : RunFilter) (triggerTypeByID : gmap uuid string) (r : SagaRun)
    : bool :=
  (bool_decide (rf_WorkflowID f = "") || bool_decide (run_WorkflowID r = rf_WorkflowID f)) &&
  (bool_decide (rf_State f = "") ||
   bool_decide (RunState_string (run_State r) = rf_State f)) &&
  match rf_Since f with Some t => negb (run_StartedAt r <? t)%Z | None => true end &&
  match rf_HasError f with
  | Some b => bool_decide (b = bool_decide (run_State r = RunStateFailed))
  | None => true end &&
  match rf_RequiresReview f with
  | Some b => bool_decide (run_RequiresManualReview r = b)
  | None => true end &&
  (bool_decide (rf_TriggerType f = "") ||
   match run_TriggerID r with
   | None => false
   | Some id => bool_decide (triggerTypeByID !! id = Some (rf_TriggerType f))
   end).

Definition filterRuns (f : RunFilter) (s : MemStore) : list SagaRun :=
  filter (λ r, run_matches f (buildTriggerTypeMap s) r = true) ((range_map (runs s)).*2).

Definition started_after (a b : SagaRun) : bool := (run_StartedAt b <? run_StartedAt a)%Z.

Definition mem_ListRuns (f : RunFilter) : M (res (list SagaRun)) :=
  let* s := get_store in
  let matched := insertion_sort started_after (filterRuns f s) in
  ret (paginate (rf_Limit f) (rf_Offset f) None matched).

Definition mem_CountRuns (f : RunFilter) : M (res Z) :=
  let* s := get_store in
  ret (Ok (Z.of_nat (length (filterRuns f s)))).

(** One round of the loop of [StatsForWorkflow]: the row so far, and the
    (succeeded, failed) counts inside the 24-hour window. *)
Definition stats_step (window : Z) (acc : WorkflowStats * (Z * Z)) (r : SagaRun)
    : WorkflowStats * (Z * Z) :=
  let '(st, (ok, ko)) := acc in
  if decide (run_WorkflowID r ≠ st_WorkflowID st) then acc
  else
    let last := match st_LastRunAt st with
                | Some t => if (t <? run_StartedAt r)%Z then Some (run_StartedAt r) else Some t
                | None => Some (run_StartedAt r)
                end in
    let inflight := (st_InFlight st + if IsTerminal (run_State r) then 0 else 1)%Z in
    let st := mkStats (st_WorkflowID st) (st_SuccessRate24h st) last inflight in
    if (run_StartedAt r <? window)%Z then (st, (ok, ko))
    else match run_State r with
         | RunStateSucceeded => (st, (ok + 1, ko)%Z)
         | RunStateFailed => (st, (ok, ko + 1)%Z)
         | _ => (st, (ok, ko))
         end.

Definition day_ns : Z := 24 * 3600 * 1000000000.

Definition mem_StatsForWorkflow (workflowID : string) : M (res WorkflowStats) :=
  let* s := get_store in
  let* now := timeNow in
  let '(st, (ok, ko)) :=
    fold_left (stats_step (now - day_ns)) ((range_map (runs s)).*2)
      (mkStats workflowID None None 0, (0, 0)%Z) in
  let total := (ok + ko)%Z in
  ret (Ok (if decide (0 < total)%Z
           then mkStats (st_WorkflowID st) (Some (ok, total)) (st_LastRunAt st) (st_InFlight st)
           else st)).

(** *** Triggers *)
Definition mem_UpsertTrigger (trigger : SagaTrigger) : M (res uuid) :=
  let* s := get_store in
  let* id := (if decide (trig_ID trigger = uuid_Nil) then uuidNew else ret (trig_ID trigger)) in
  let* now := timeNow in
  let at_ := match trig_CreatedAt trigger with None => Some now | t => t end in
  let t := mkTrigger id (trig_TriggerType trigger) (trig_WorkflowID trigger)
             (trig_Version trigger) (trig_Config trigger) (trig_Enabled trigger)
             (trig_TenantID trigger) at_ (trig_CreatedBy trigger)
             (trig_NextFireAt trigger) (trig_LastFiredAt trigger) in
  do* put_store (set_triggers (<[id := t]> (triggers s)) s) in
  ret (Ok id).

Definition mem_GetTrigger (id : uuid) : M (res SagaTrigger) :=
  let* s := get_store in
  match triggers s !! id with
  | None => ret (Err (ErrNotFound "saga_trigger" (uuid_string id)))
  | Some t => ret (Ok t)
  end.

Definition trig_matches (f : TriggerFilter) (t : SagaTrigger) : bool :=
  (bool_decide (tf_Type f = "") || bool_decide (trig_TriggerType t = tf_Type f)) &&
  match tf_Enabled f with Some b => bool_decide (trig_Enabled t = b) | None => true end &&
  match tf_TenantID f with
  | Some u => bool_decide (trig_TenantID t = Some u)
  | None => true end.

Definition mem_ListTriggers (f : TriggerFilter) : M (res (list SagaTrigger)) :=
  let* s := get_store in
  ret (Ok (filter (λ t, trig_matches f t = true) ((range_map (triggers s)).*2))).

Definition mem_DeleteTrigger (id : uuid) : M (res unit) :=
  let* s := get_store in
  match triggers s !! id with
  | None => ret (Err (ErrNotFound "saga_trigger" (uuid_string id)))
  | Some _ => do* put_store (set_triggers (delete id (triggers s)) s) in ret (Ok tt)
  end.

Definition cron_due (now : Z) (t : SagaTrigger) : bool :=
  bool_decide (trig_TriggerType t = TriggerCron) && trig_Enabled t &&
  match trig_NextFireAt t with Some n => (n <=? now)%Z | None => false end.

Definition fires_before (a b : SagaTrigger) : bool :=
  match trig_NextFireAt a, trig_NextFireAt b with
  | Some x, Some y => (x <? y)%Z
  | _, _ => false
  end.

(** [sort.Slice] leaves ties in any order; so does the visiting order. *)
Definition mem_ListDueCronTriggers (now limit : Z) : M (res (list SagaTrigger)) :=
  let* s := get_store in
  let out := filter (λ t, cron_due now t = true) ((range_map (triggers s)).*2) in
  let out := insertion_sort fires_before out in
  ret (Ok (if decide (0 < limit ∧ limit < Z.of_nat (length out))%Z
           then take (Z.to_nat limit) out else out)).

Definition mem_ClaimCronFire (id : uuid) (expectedNextFire newNextFire : Z)
    : M (res bool) :=
  let* s := get_store in
  match triggers s !! id with
  | None => ret (Ok false)
  | Some t =>
      if decide (trig_NextFireAt t = Some expectedNextFire) then
        do* put_store (set_triggers
              (<[id := set_fire_times (Some newNextFire) (Some newNextFire) t]>
                 (triggers s)) s) in
        ret (Ok true)
      else ret (Ok false)
  end.

Definition mem_RecordTriggerFire (triggerID : uuid) (workflowID : string)
    (runID : option uuid) (fireErr : string) : M (res unit) :=
  let* id := uuidNew in
  let* now := timeNow in
  let* s := get_store in
  do* put_store (set_triggerFires
        (triggerFires s ++ [mkFire id triggerID workflowID now runID fireErr]) s) in
  ret (Ok tt).

#[export] Instance mem_Store : Store MemStore := {|
  GetWorkflowDefinition := mem_GetWorkflowDefinition;
  GetPublishedWorkflowByID := mem_GetPublishedWorkflowByID;
  UpsertWorkflowDefinition := mem_UpsertWorkflowDefinition;
  CreateRun := mem_CreateRun;
  GetRun := mem_GetRun;
  UpdateRunState := mem_UpdateRunState;
  CancelRun := mem_Cancel;
  MarkRunFailed := mem_MarkRunFailed;
  AppendEvent := mem_AppendEvent;
  ListEventsByRun := mem_ListEventsByRun;
  GetPublishedRuleByID := mem_GetPublishedRuleByID;
  UpdateRunVariables := mem_UpdateRunVariables;
  SetPausedWithWakeup := mem_SetPausedWithWakeup;
  SetPausedAwaitingSignal := mem_SetPausedAwaitingSignal;
  SetPausedAwaitingEventWithDeadline := mem_SetPausedAwaitingEventWithDeadline;
  ClearPause := mem_ClearPause;
  FindRunsByDueWakeup := mem_FindRunsByDueWakeup;
  FindRunsByAwaitedEvent := mem_FindRunsByAwaitedEvent;
  TryConsumeAwaitedSignal := mem_TryConsumeAwaitedSignal;
  AppendSignal := mem_AppendSignal;
  WakeFromExternal := mem_WakeFromExternal;
  SpawnChildRunAt := mem_SpawnChildRunAt;
  ListChildrenByParent := mem_ListChildrenByParent;
  PushTryCatch := mem_PushTryCatch;
  PopTryCatch := mem_PopTryCatch;
  CreateUserTask := mem_CreateUserTask;
  GetUserTask := mem_GetUserTask;
  SubmitUserTask := mem_SubmitUserTask;
  ListUserTasksByRun := mem_ListUserTasksByRun;
  ListActions := mem_ListActions;
  ListTriggers := mem_ListTriggers;
  ListDueCronTriggers := mem_ListDueCronTriggers;
  ClaimCronFire := mem_ClaimCronFire;
  RecordTriggerFire := mem_RecordTriggerFire;
  MarkAwaitingAction := mem_MarkAwaitingAction;
  CompleteAction := mem_CompleteAction;
  FailAction := mem_FailAction;
  ListWorkflowDefinitions := mem_ListWorkflowDefinitions;
  ListRuns := mem_ListRuns;
  CountRuns := mem_CountRuns;
  StatsForWorkflow := mem_StatsForWorkflow;
  GetEventByID := mem_GetEventByID;
  UpsertRuleDefinition := mem_UpsertRuleDefinition;
  UpsertActionRegistration := mem_UpsertActionRegistration;
  GetAction := mem_GetAction;
  UpsertTrigger := mem_UpsertTrigger;
  GetTrigger := mem_GetTrigger;
  DeleteTrigger := mem_DeleteTrigger
|}.
End MemStore.
