(* ===== verification/MemSpec.v ===== *)
(** The in-memory store implements the contract of the [Store] interface. *)
From S2P Require Import Prelude Values Domain World StoreApi Rows StoreSpec MemStore.

Definition mem_view (s : MemStore) : SView := mkView (runs s) (events s) (defs s).

Section MemSpec.
Context `{Env}.

Lemma upd_run_found (id : uuid) f (w : World MemStore) r :
  runs (w_store w) !! id = Some r →
  upd_run id f w = (Ok tt, set_store (set_runs (<[id := f r]> (runs (w_store w))) (w_store w)) w).
Proof. intros Hr. unfold upd_run, bind, get_store. by rewrite Hr. Qed.

Lemma upd_run_missing (id : uuid) f (w : World MemStore) :
  runs (w_store w) !! id = None → upd_run id f w = (Err (not_found_run id), w).
Proof. intros Hr. unfold upd_run, bind, get_store. by rewrite Hr. Qed.

Lemma mem_view_upd_run (id : uuid) f (w : World MemStore) :
  implements mem_view (upd_run id f) w (found id (mem_view (w_store w)) (λ _, tt))
    (alter_run f id (mem_view (w_store w))).
Proof.
  unfold implements. destruct (runs (w_store w) !! id) as [r|] eqn:Hr.
  - eexists. rewrite (upd_run_found _ _ _ _ Hr), (found_Some _ (mem_view (w_store w)) _ _ Hr).
    split_and!; [done|done|]. unfold mem_view, alter_run; simpl.
    by rewrite (alter_insert_lookup _ _ _ _ Hr).
  - eexists. rewrite (upd_run_missing _ _ _ Hr), found_None by done.
    split_and!; [done|done|]. unfold mem_view, alter_run; simpl. by rewrite alter_id_None.
Qed.

(** A read-only operation. *)
Lemma mem_read {A} (c : M (World MemStore) A) w a v :
  c w = (a, w) → mem_view (w_store w) = v → implements mem_view c w a v.
Proof. intros E1 E2. by exists w. Qed.

Lemma mem_ListChildren_spec id sid (w : World MemStore) `{!EnvLaws} :
  ∃ l, implements mem_view (mem_ListChildrenByParent id sid) w (Ok l) (mem_view (w_store w)) ∧
       l ≡ₚ filter (is_child_of id sid) (rows (mem_view (w_store w))).
Proof.
  eexists. split; [by apply mem_read|]. unfold rows; simpl.
  by rewrite range_map_perm.
Qed.

Lemma mem_PushTryCatch_spec id f (w : World MemStore) :
  match v_runs (mem_view (w_store w)) !! id with
  | Some r =>
      if decide (3 ≤ length (run_TryCatchStack r)) then
        ∃ e, implements mem_view (mem_PushTryCatch id f) w (Err e) (mem_view (w_store w))
      else implements mem_view (mem_PushTryCatch id f) w (Ok tt)
             (alter_run (λ r, set_run_TryCatchStack (run_TryCatchStack r ++ [f]) r) id
                (mem_view (w_store w)))
  | None => implements mem_view (mem_PushTryCatch id f) w (Err (not_found_run id))
              (mem_view (w_store w))
  end.
Proof.
  unfold implements, mem_PushTryCatch. rewrite !bind_get_store.
  cbn [v_runs mem_view].
  destruct (runs (w_store w) !! id) as [r|] eqn:Hr; unfold maxDepth.
  - case_decide.
    + eexists _, w. split_and!; done.
    + pose proof (mem_view_upd_run id
        (λ r, set_run_TryCatchStack (run_TryCatchStack r ++ [f]) r) w) as Hu.
      rewrite (found_Some _ (mem_view (w_store w)) _ _ Hr) in Hu. exact Hu.
  - exists w. done.
Qed.

Lemma mem_PopTryCatch_spec id (w : World MemStore) :
  implements mem_view (mem_PopTryCatch id) w
    (found id (mem_view (w_store w)) (λ r, last (run_TryCatchStack r)))
    (alter_run (λ r, set_run_TryCatchStack
                       (take (pred (length (run_TryCatchStack r))) (run_TryCatchStack r)) r)
       id (mem_view (w_store w))).
Proof.
  unfold implements, mem_PopTryCatch. rewrite !bind_get_store.
  destruct (runs (w_store w) !! id) as [r|] eqn:Hr.
  - rewrite (found_Some _ (mem_view (w_store w)) _ _ Hr). destruct (last (run_TryCatchStack r)) eqn:Hl.
    + erewrite bind_step by (by apply upd_run_found). eexists. split_and!; [done|done|].
      unfold mem_view, alter_run; simpl. by rewrite (alter_insert_lookup _ _ _ _ Hr).
    + exists w. split_and!; [done|done|]. apply last_None in Hl.
      unfold mem_view, alter_run; simpl. f_equal.
      rewrite (alter_insert_lookup _ _ _ _ Hr), Hl; simpl.
      rewrite <-(insert_id (runs (w_store w)) id r) at 1 by done.
      f_equal. destruct r; simpl in *; by subst.
  - rewrite found_None by done. exists w. split_and!; [done|done|].
    unfold mem_view, alter_run; simpl. by rewrite alter_id_None.
Qed.

Lemma mem_FailAction_spec id a code msg retryable (w : World MemStore) :
  match v_runs (mem_view (w_store w)) !! id with
  | Some r =>
      if decide (run_CurrentAttempt r = a) then
        ∃ e, implements mem_view (mem_FailAction id a code msg retryable) w (Ok tt)
               (add_event e (alter_run (row_FailAction (w_now w) msg) id (mem_view (w_store w)))) ∧
             ev_RunID e = id ∧ ev_EventType e = EventStepFailed ∧ ev_StepID e = run_CurrentStep r ∧
             ev_Actor e = "engine"
      else implements mem_view (mem_FailAction id a code msg retryable) w (Ok tt) (mem_view (w_store w))
  | None => implements mem_view (mem_FailAction id a code msg retryable) w (Err (not_found_run id))
              (mem_view (w_store w))
  end.
Proof.
  unfold implements, mem_FailAction. rewrite !bind_get_store. cbn [v_runs mem_view].
  destruct (runs (w_store w) !! id) as [r|] eqn:Hr; [|by exists w].
  case_decide as Ha.
  - rewrite decide_False by naive_solver. rewrite bind_timeNow, bind_put_store.
    assert (run_CurrentStep (row_FailAction (w_now w) msg r) = run_CurrentStep r) as Hc
      by (unfold row_FailAction; by case_decide).
    rewrite Hc. eexists (with_Metadata _ (mkEvent (uuid_New (w_ids w)) id (run_CurrentStep r) a
      EventStepFailed "engine" ∅ (w_now w))).
    split; [eexists; split_and!; [reflexivity|done|]|split_and!; reflexivity].
    unfold mem_view, add_event, alter_run; simpl. by rewrite (alter_insert_lookup _ _ _ _ Hr).
  - rewrite decide_True by done. by exists w.
Qed.

#[export] Instance mem_StoreSpec `{!EnvLaws} : StoreSpec MemStore.
Proof.
  refine {| view := mem_view |}; simpl; intros.
  - apply mem_read; [|done]. unfold mem_GetRun, bind, get_store, found; simpl.
    by destruct (runs (w_store w) !! id).
  - apply mem_read; [|done]. unfold mem_GetWorkflowDefinition, bind, get_store; simpl.
    by destruct (defs (w_store w) !! did).
  - apply mem_view_upd_run.
  - apply mem_view_upd_run.
  - eexists. unfold mem_AppendEvent, bind, get_store, put_store; simpl. by split_and!.
  - by apply mem_read.
  - apply mem_view_upd_run.
  - apply mem_view_upd_run.
  - apply mem_view_upd_run.
  - by apply mem_ListChildren_spec.
  - eexists. by apply mem_read.
  - apply mem_PushTryCatch_spec.
  - apply mem_PopTryCatch_spec.
  - apply mem_view_upd_run.
  - apply mem_view_upd_run.
  - apply mem_view_upd_run.
  - apply mem_view_upd_run.
  - apply (mem_view_upd_run id (Complete_row (w_now w) a result)).
  - apply mem_FailAction_spec.
Defined.
End MemSpec.
