(* ===== verification/Sorting.v ===== *)
(** The in-place insertion sort the in-memory store writes out, the byte-wise
    comparison of uuids and the pagination of its list queries. *)
From S2P Require Import Prelude Values Domain World Demo StoreApi Rows MemStore.

(** ** Insertion sort *)
Section sorting.
Context {A : Type} (before : A → A → bool).

(** [a] may stand left of [b]: [b] need not sink below it. *)
Definition in_order (a b : A) : Prop := before b a = false.

Lemma sink_perm x l : sink before x l ≡ₚ x :: l.
Proof.
  induction l as [|y l IH]; simpl; [done|]. case_match; [|done].
  rewrite IH. apply Permutation_swap.
Qed.

Lemma fold_sink_perm l acc : fold_left (λ acc x, sink before x acc) l acc ≡ₚ l ++ acc.
Proof.
  revert acc. induction l as [|x l IH]; intros acc; simpl; [done|].
  rewrite IH, sink_perm. by rewrite Permutation_middle.
Qed.

Lemma insertion_sort_perm l : insertion_sort before l ≡ₚ l.
Proof.
  unfold insertion_sort. rewrite Permutation_rev, rev_involutive, fold_sink_perm.
  by rewrite app_nil_r.
Qed.

Context (Hasym : ∀ a b, before a b = true → before b a = false).
Context (Htrans : ∀ a b c, before b a = false → before c b = false → before c a = false).

Lemma sink_sorted x l :
  StronglySorted (flip in_order) l → StronglySorted (flip in_order) (sink before x l).
Proof.
  unfold flip, in_order. induction 1 as [|y l Hl IH Hy]; simpl; [by repeat constructor|].
  destruct (before x y) eqn:Hxy; constructor; [done| |by constructor|].
  - rewrite sink_perm, Forall_cons. auto.
  - apply Forall_cons. split; [done|]. eapply Forall_impl; [exact Hy|]. intros z Hz. simpl in *. eauto.
Qed.

Lemma StronglySorted_rev (R : A → A → Prop) l :
  StronglySorted (flip R) l → StronglySorted R (rev l).
Proof.
  induction 1 as [|x l Hl IH Hx]; simpl; [constructor|].
  apply StronglySorted_app_2; [|done|by repeat constructor].
  intros a b Ha ->%list_elem_of_singleton. rewrite Forall_forall in Hx. apply Hx.
  by rewrite Permutation_rev.
Qed.

Lemma insertion_sort_sorted l : StronglySorted in_order (insertion_sort before l).
Proof.
  apply StronglySorted_rev. generalize (SSorted_nil (flip in_order)).
  generalize (@nil A). induction l as [|x l IH]; intros acc Hacc; simpl; [done|].
  apply IH. by apply sink_sorted.
Qed.
End sorting.

Lemma StronglySorted_impl {A} (R S : A → A → Prop) l :
  (∀ x y, R x y → S x y) → StronglySorted R l → StronglySorted S l.
Proof.
  intros HRS. induction 1; constructor; [done|]. eapply Forall_impl; [eassumption|]. auto.
Qed.

(** The sort asks about elements of the list only. *)
Lemma sink_ext {A} (f g : A → A → bool) x l :
  (∀ y, y ∈ l → f x y = g x y) → sink f x l = sink g x l.
Proof.
  induction l as [|y l IH]; intros Hfg; simpl; [done|].
  rewrite Hfg by left. case_match; [|done]. f_equal. apply IH. intros z Hz. apply Hfg. by right.
Qed.

Lemma insertion_sort_ext {A} (f g : A → A → bool) l :
  (∀ x y, x ∈ l → y ∈ l → f x y = g x y) → insertion_sort f l = insertion_sort g l.
Proof.
  unfold insertion_sort. intros Hfg. f_equal.
  assert (∀ acc, (∀ x y, x ∈ l ++ acc → y ∈ l ++ acc → f x y = g x y) →
    fold_left (λ acc x, sink f x acc) l acc = fold_left (λ acc x, sink g x acc) l acc) as Hgen;
    [|apply Hgen; by rewrite app_nil_r].
  clear Hfg. induction l as [|x l IH]; intros acc Hfg; simpl; [done|].
  rewrite (sink_ext f g) by (intros y Hy; apply Hfg; simpl; set_solver).
  apply IH. intros a b Ha Hb. rewrite sink_perm in Ha, Hb. apply Hfg; simpl; set_solver.
Qed.

(** A list strictly sorted by a key is the only arrangement sorted by it. *)
Lemma key_sorted_unique {A} (key : A → N) l k :
  l ≡ₚ k → StronglySorted (λ a b, (key a < key b)%N) l →
  StronglySorted (λ a b, (key a ≤ key b)%N) k → l = k.
Proof.
  intros Hp Hl Hk. apply (StronglySorted_unique_strong (λ a b, (key a ≤ key b)%N)); [| |done|done].
  2: { eapply StronglySorted_impl; [|exact Hl]. simpl; lia. }
  intros x y Hx Hy Hxy Hyx. rewrite <-Hp in Hy. clear Hp Hk.
  induction Hl as [|z l Hl IH Hz]; [by apply elem_of_nil in Hx|]. rewrite Forall_forall in Hz.
  apply elem_of_cons in Hx as [->|Hx], Hy as [->|Hy]; [done| | |by apply IH].
  - specialize (Hz _ Hy). lia.
  - specialize (Hz _ Hx). lia.
Qed.

(** ** Comparing uuids *)
Lemma uuid_byte_div u i :
  i < 16 →
  (u / 2 ^ (8 * N.of_nat (15 - i)) =
   256 * (u / 2 ^ (8 * N.of_nat (16 - i))) + uuid_byte u i)%N.
Proof.
  intros Hi. unfold uuid_byte. rewrite N.shiftr_div_pow2.
  change 255%N with (N.ones 8). rewrite N.land_ones. change (2 ^ 8)%N with 256%N.
  replace (2 ^ (8 * N.of_nat (16 - i)))%N with (2 ^ (8 * N.of_nat (15 - i)) * 256)%N.
  - rewrite <-N.Div0.div_div. apply N.div_mod'.
  - change 256%N with (2 ^ 8)%N. rewrite <-N.pow_add_r. f_equal. lia.
Qed.

Lemma uuid_byte_lt u i : (uuid_byte u i < 256)%N.
Proof.
  unfold uuid_byte. change 255%N with (N.ones 8). rewrite N.land_ones.
  apply N.mod_lt. done.
Qed.

Lemma uuidLess_from_spec fuel i a b :
  fuel + i = 16 →
  (a / 2 ^ (8 * N.of_nat (16 - i)) = b / 2 ^ (8 * N.of_nat (16 - i)))%N →
  uuidLess_from fuel i a b = (a <? b)%N.
Proof.
  revert i. induction fuel as [|fuel IH]; intros i Hi Hh; cbn [uuidLess_from].
  - replace (16 - i) with 0 in Hh by lia. change (2 ^ (8 * N.of_nat 0))%N with 1%N in Hh.
    rewrite !N.div_1_r in Hh. subst. by rewrite N.ltb_irrefl.
  - pose proof (uuid_byte_div a i ltac:(lia)) as Ha.
    pose proof (uuid_byte_div b i ltac:(lia)) as Hb. case_decide as Hbyte.
    + apply IH; [lia|]. replace (16 - S i) with (15 - i) by lia. congruence.
    + set (p := (2 ^ (8 * N.of_nat (15 - i)))%N) in *.
      assert (p ≠ 0)%N as Hp by (apply N.pow_nonzero; done).
      assert (Hmono : ∀ x y, (x ≤ y → x / p ≤ y / p)%N) by (intros; by apply N.Div0.div_le_mono).
      rewrite Hh in Ha. revert Ha Hb. pose proof (Hmono a b) as Hab. pose proof (Hmono b a) as Hba.
      revert Hab Hba. clear Hh Hmono IH. generalize (a / p)%N, (b / p)%N.
      generalize (b / 2 ^ (8 * N.of_nat (16 - i)))%N. intros h x y Hab Hba Hx Hy.
      apply eq_true_iff_eq. rewrite !N.ltb_lt. lia.
Qed.

(** The byte loop is the comparison of the 128-bit values. *)
Lemma uuidLess_ltb a b : (a < 2 ^ 128)%N → (b < 2 ^ 128)%N → uuidLess a b = (a <? b)%N.
Proof. intros Ha Hb. apply uuidLess_from_spec; [done|]. by rewrite !N.div_small. Qed.

(** ** Pages *)
Lemma slice_take_drop {A} a b (l : list A) :
  (0 ≤ a ≤ b)%Z → (b ≤ Z.of_nat (length l))%Z →
  slice a b l = Some (take (Z.to_nat (b - a)) (drop (Z.to_nat a) l)).
Proof. intros. unfold slice. by rewrite decide_True by lia. Qed.

(** With bounds that fit an int, a page is what the filter asks for; the limit
    defaults to 50 and is capped, a negative offset counts as 0. *)
Lemma paginate_page {A} limit offset cap (l : list A) :
  (limit ≤ MaxInt)%Z → (Z.max 0 offset + Z.max 50 limit ≤ MaxInt)%Z →
  match cap with Some c => (0 ≤ c)%Z | None => True end →
  let page := (if decide (limit ≤ 0) then 50 else limit)%Z in
  let page := match cap with Some c => Z.min page c | None => page end in
  paginate limit offset cap l = Ok (take (Z.to_nat page) (drop (Z.to_nat offset) l)).
Proof.
  intros Hl Ho Hc page. unfold paginate. fold page.
  set (page' := match cap with Some c => Z.min page c | None => page end).
  assert (0 ≤ page' ≤ Z.max 50 limit)%Z as Hp.
  { unfold page', page. destruct cap; case_decide; lia. }
  case_decide as Hn.
  - rewrite drop_ge by lia. by rewrite take_nil.
  - rewrite wrap64_id by (unfold in_int64, MinInt, MaxInt in *; lia).
    rewrite slice_take_drop by lia. f_equal.
    replace (Z.to_nat (Z.max offset 0)) with (Z.to_nat offset) by lia.
    destruct (Z.min_spec (Z.max offset 0 + page') (Z.of_nat (length l))) as [[? ->]|[? ->]].
    + f_equal. lia.
    + rewrite !take_ge by (rewrite length_drop; lia). done.
Qed.
