(* ===== verification/MemInv.v ===== *)
(** The in-memory store as a transition system, and the invariant its
    operations preserve. *)
From S2P Require Import Prelude Values Domain World Demo StoreApi Rows StoreSpec MemStore MemSpec.

(** The operations that change the store. *)
Inductive mem_op :=
| OpUpsertDefinition (d : WorkflowDefinition)
| OpCreateRun (r : SagaRun)
| OpUpdateRunState (id : uuid) (st : RunState) (cs : string)
| OpAppendEvent (e : SagaRunEvent)
| OpCancel (id : uuid) (reason : string)
| OpMarkRunFailed (id : uuid) (cs e : string)
| OpUpsertRule (r : RuleDefinition)
| OpUpdateVariables (id : uuid) (m : Vars)
| OpPauseWakeup (id : uuid) (t : Z)
| OpPauseSignal (id : uuid) (name : string) (deadline : option Z)
| OpPauseEvent (id : uuid) (topic : string) (h : gmap string string) (deadline : option Z)
| OpClearPause (id : uuid)
| OpConsumeSignal (id : uuid) (name : string)
| OpWake (id : uuid)
| OpAppendSignal (sg : SagaSignal)
| OpSpawn (id : uuid) (sid key : string) (d : WorkflowDefinition) (inputs : Vars) (start : string)
| OpPush (id : uuid) (f : TryCatchFrame)
| OpPop (id : uuid)
| OpCreateTask (t : UserTask)
| OpSubmitTask (id : uuid) (by_ : string) (result : Vars)
| OpUpsertAction (a : ActionRegistration)
| OpMarkAwaiting (id : uuid) (dispatch : string) (attempt : Z)
| OpCompleteAction (id : uuid) (attempt : Z) (result : Vars)
| OpFailAction (id : uuid) (attempt : Z) (code msg : string) (retryable : bool)
| OpUpsertTrigger (t : SagaTrigger)
| OpDeleteTrigger (id : uuid)
| OpClaimCron (id : uuid) (expected next : Z)
| OpRecordFire (id : uuid) (wf : string) (run : option uuid) (e : string).

Section MemInv.
Context `{Env}.
Implicit Types w : World MemStore.

Definition exec {A} (c : M (World MemStore) A) w : World MemStore := (c w).2.

Definition apply_op (op : mem_op) (w : World MemStore) : World MemStore :=
  match op with
  | OpUpsertDefinition d => exec (mem_UpsertWorkflowDefinition d) w
  | OpCreateRun r => exec (mem_CreateRun r) w
  | OpUpdateRunState id st cs => exec (mem_UpdateRunState id st cs) w
  | OpAppendEvent e => exec (mem_AppendEvent e) w
  | OpCancel id reason => exec (mem_Cancel id reason) w
  | OpMarkRunFailed id cs e => exec (mem_MarkRunFailed id cs e) w
  | OpUpsertRule r => exec (mem_UpsertRuleDefinition r) w
  | OpUpdateVariables id m => exec (mem_UpdateRunVariables id m) w
  | OpPauseWakeup id t => exec (mem_SetPausedWithWakeup id t) w
  | OpPauseSignal id n d => exec (mem_SetPausedAwaitingSignal id n d) w
  | OpPauseEvent id t h d => exec (mem_SetPausedAwaitingEventWithDeadline id t h d) w
  | OpClearPause id => exec (mem_ClearPause id) w
  | OpConsumeSignal id n => exec (mem_TryConsumeAwaitedSignal id n) w
  | OpWake id => exec (mem_WakeFromExternal id) w
  | OpAppendSignal sg => exec (mem_AppendSignal sg) w
  | OpSpawn id sid k d i s => exec (mem_SpawnChildRunAt id sid k d i s) w
  | OpPush id f => exec (mem_PushTryCatch id f) w
  | OpPop id => exec (mem_PopTryCatch id) w
  | OpCreateTask t => exec (mem_CreateUserTask t) w
  | OpSubmitTask id b r => exec (mem_SubmitUserTask id b r) w
  | OpUpsertAction a => exec (mem_UpsertActionRegistration a) w
  | OpMarkAwaiting id d a => exec (mem_MarkAwaitingAction id d a) w
  | OpCompleteAction id a r => exec (mem_CompleteAction id a r) w
  | OpFailAction id a c m r => exec (mem_FailAction id a c m r) w
  | OpUpsertTrigger t => exec (mem_UpsertTrigger t) w
  | OpDeleteTrigger id => exec (mem_DeleteTrigger id) w
  | OpClaimCron id e n => exec (mem_ClaimCronFire id e n) w
  | OpRecordFire id wf r e => exec (mem_RecordTriggerFire id wf r e) w
  end.

(** What the callers guarantee: a new run starts without try_catch frames. *)
Definition op_ok (op : mem_op) : Prop :=
  match op with OpCreateRun r => run_TryCatchStack r = [] | _ => True end.

(** The worlds a process can reach from an empty store; between two operations
    the rest of the process may do anything but return ids to the supply. *)
Inductive reachable : World MemStore → Prop :=
| reach_new w : w_store w = New → reachable w
| reach_op op w : reachable w → op_ok op → reachable (apply_op op w)
| reach_env w w' : reachable w → w_store w' = w_store w → w_ids w ≤ w_ids w' → reachable w'.

(** ** The invariant *)

(** Every id of the index under [name] is stored with that name, and the other
    way round: the index and the table agree. *)
Definition index_ok {A} (name : A → string) (table : gmap uuid A)
    (index : gmap string (list uuid)) : Prop :=
  (∀ n id, id ∈ default [] (index !! n) ↔ ∃ a, table !! id = Some a ∧ name a = n) ∧
  ∀ n, NoDup (default [] (index !! n)).

Definition drawn (k : nat) (id : uuid) : Prop := ∃ n, n < k ∧ id = uuid_New n.

Record mem_wf (k : nat) (s : MemStore) : Prop := {
  wf_runs : map_Forall (λ id r, run_ID r = id ∧ length (run_TryCatchStack r) ≤ maxDepth) (runs s);
  wf_defs : index_ok def_ID (defs s) (defsByName s);
  wf_defs_drawn : ∀ id, is_Some (defs s !! id) → drawn k id;
  wf_rules : index_ok rule_RuleID (rules s) (rulesByID s) ∧
             map_Forall (λ id r, rule_ID r = id) (rules s);
  wf_events : map_Forall (λ id l, Forall (λ e, ev_RunID e = id) l) (events s);
  wf_signals : map_Forall (λ id l, Forall (λ sg, sig_RunID sg = id) l) (signals s);
  wf_tasks : map_Forall (λ id t, task_ID t = id) (userTasks s);
  wf_actions : map_Forall (λ key m,
    map_Forall (λ v a, act_Service a +:+ "." +:+ act_ActionName a = key ∧ act_Version a = v) m)
    (actions s);
  wf_triggers : map_Forall (λ id t, trig_ID t = id) (triggers s)
}.

Lemma drawn_mono k k' id : k ≤ k' → drawn k id → drawn k' id.
Proof. intros Hk (n & Hn & ->). exists n. split; [lia|done]. Qed.

Lemma mem_wf_mono k k' s : k ≤ k' → mem_wf k s → mem_wf k' s.
Proof. intros Hk []. split; eauto using drawn_mono. Qed.

Lemma mem_wf_New k : mem_wf k New.
Proof.
  split; simpl; try apply map_Forall_empty.
  - split; [|intros n; rewrite lookup_empty; constructor].
    intros n id. rewrite lookup_empty. split; [by intros ?%elem_of_nil|].
    intros (a & Ha & _). by rewrite lookup_empty in Ha.
  - intros id [? Hd]. by rewrite lookup_empty in Hd.
  - split; [|apply map_Forall_empty]. split; [|intros n; rewrite lookup_empty; constructor].
    intros n id. rewrite lookup_empty. split; [by intros ?%elem_of_nil|].
    intros (a & Ha & _). by rewrite lookup_empty in Ha.
Qed.

(** ** Indexes *)
Lemma index_insert {A} (name : A → string) table index id a :
  index_ok name table index → table !! id = None →
  index_ok name (<[id := a]> table)
    (<[name a := default [] (index !! name a) ++ [id]]> index).
Proof.
  intros [Hi Hn] Hid. split.
  - intros n j. rewrite lookup_insert. destruct (decide (name a = n)) as [<-|Hne]; simpl.
    + rewrite elem_of_app, list_elem_of_singleton, Hi, lookup_insert. case_decide as Hj; subst.
      * split; [intros _; by exists a|by right].
      * split; [intros [?|?]; [done|by subst]|by left].
    + rewrite Hi, lookup_insert. case_decide as Hj; subst; [|done].
      split; [intros (b & Hb & _)|intros (b & Hb & Hnb)]; congruence.
  - intros n. rewrite lookup_insert. case_decide as Hne; simpl; [|apply Hn].
    apply NoDup_app. split_and!; [apply Hn| |apply NoDup_singleton].
    intros j Hj ->%list_elem_of_singleton. apply Hi in Hj as (b & Hb & _). congruence.
Qed.

Lemma index_delete {A} (name : A → string) table index id a :
  index_ok name table index → table !! id = Some a →
  index_ok name (delete id table)
    (<[name a := filter (λ j, j ≠ id) (default [] (index !! name a))]> index).
Proof.
  intros [Hi Hn] Hid. split.
  - intros n j. rewrite lookup_insert, lookup_delete.
    destruct (decide (name a = n)) as [<-|Hne]; simpl.
    + rewrite list_elem_of_filter, Hi. case_decide as Hj; subst; naive_solver.
    + rewrite Hi. case_decide as Hj; subst; [|done].
      split; [intros (b & Hb & Hnb)|intros (b & Hb & _)]; congruence.
  - intros n. rewrite lookup_insert. case_decide; simpl; [|apply Hn].
    apply NoDup_filter, Hn.
Qed.

(** Replacing an entry that may be filed under another name. *)
Lemma index_upsert {A} (name : A → string) table index id a :
  index_ok name table index →
  let index' := match table !! id with
                | Some b => <[name b := filter (λ j, j ≠ id) (default [] (index !! name b))]> index
                | None => index
                end in
  index_ok name (<[id := a]> table)
    (<[name a := default [] (index' !! name a) ++ [id]]> index').
Proof.
  intros Hi index'. unfold index'. destruct (table !! id) as [b|] eqn:Hb; [|by apply index_insert].
  rewrite <-insert_delete_eq. apply index_insert; [by apply index_delete|by rewrite lookup_delete_eq].
Qed.

(** ** Preservation *)
Definition Inv w : Prop := mem_wf (w_ids w) (w_store w).
Definition preserves {A} (c : M (World MemStore) A) : Prop := ∀ w, Inv w → Inv (exec c w).

(** A row function that keeps the key and the bound on the frames. *)
Definition keeps_row (f : SagaRun → SagaRun) (r : SagaRun) : Prop :=
  run_ID (f r) = run_ID r ∧
  (length (run_TryCatchStack r) ≤ maxDepth → length (run_TryCatchStack (f r)) ≤ maxDepth).

Lemma wf_set_runs k s id r :
  mem_wf k s → run_ID r = id → length (run_TryCatchStack r) ≤ maxDepth →
  mem_wf k (set_runs (<[id := r]> (runs s)) s).
Proof. intros [] Hid Hst. split; simpl; try done. by apply map_Forall_insert_2. Qed.

Lemma upd_run_preserves id f w :
  (∀ r, runs (w_store w) !! id = Some r → keeps_row f r) → Inv w → Inv (exec (upd_run id f) w).
Proof.
  intros Hf Hw. unfold exec, Inv. destruct (runs (w_store w) !! id) as [r|] eqn:Hr.
  - rewrite (upd_run_found _ _ _ _ Hr); simpl.
    destruct (wf_runs _ _ Hw _ _ Hr) as [Hid Hst], (Hf r eq_refl) as [Hid' Hst'].
    apply wf_set_runs; [done|congruence|auto].
  - by rewrite (upd_run_missing _ _ _ Hr).
Qed.

Lemma upd_run_keeps id f : (∀ r, keeps_row f r) → preserves (upd_run id f).
Proof. intros Hf w. apply upd_run_preserves. auto. Qed.

Lemma AppendEvent_preserves e : preserves (mem_AppendEvent e).
Proof.
  intros w Hw. unfold exec, Inv in *; simpl. destruct Hw. split; simpl; try done.
  apply map_Forall_insert_2; [|done]. apply Forall_app. split; [|by repeat constructor].
  destruct (events (w_store w) !! ev_RunID e) as [l|] eqn:Hl; simpl; [|constructor].
  by apply (wf_events0 _ _ Hl).
Qed.

(** Drawing ids only widens the invariant. *)
Lemma Inv_ids w w' : Inv w → w_store w' = w_store w → w_ids w ≤ w_ids w' → Inv w'.
Proof. unfold Inv. intros Hw -> ?. by eapply mem_wf_mono. Qed.

Lemma fresh_def `{!EnvLaws} k s : mem_wf k s → defs s !! uuid_New k = None.
Proof.
  intros Hw. destruct (defs s !! uuid_New k) eqn:Hd; [|done].
  destruct (wf_defs_drawn _ _ Hw (uuid_New k)) as (n & Hn & Heq); [by eexists|].
  apply uuid_New_inj in Heq. lia.
Qed.

Lemma wf_add_def `{!EnvLaws} k s d :
  mem_wf k s →
  mem_wf (S k) (set_defsByName
    (<[def_ID d := default [] (defsByName s !! def_ID d) ++ [uuid_New k]]> (defsByName s))
    (set_defs (<[uuid_New k := d]> (defs s)) s)).
Proof.
  intros Hw. pose proof (fresh_def _ _ Hw) as Hf. destruct Hw. split; simpl; try done.
  - by apply index_insert.
  - intros id. rewrite lookup_insert. case_decide as Hid.
    + intros _. exists k. split; [lia|done].
    + intros Hs. eapply drawn_mono; [|by apply wf_defs_drawn0]. lia.
Qed.

(** A row function made of setters keeps the row's key and frames. *)
Ltac keeps := intros ?; split; [by repeat case_match|by repeat case_match].

Lemma row_Cancel_keeps now reason r : keeps_row (row_Cancel now reason) r.
Proof. unfold keeps_row, row_Cancel. by case_decide. Qed.

Lemma row_failed_keeps now cs e r :
  keeps_row (λ r, if IsTerminal (run_State r) then r else row_MarkRunFailed now cs e r) r.
Proof. unfold keeps_row, row_MarkRunFailed. case_match; [done|]. by case_decide. Qed.

Lemma Upsert_preserves `{!EnvLaws} d : preserves (mem_UpsertWorkflowDefinition d).
Proof. intros w Hw. exact (wf_add_def _ _ d Hw). Qed.

Lemma CreateRun_preserves r :
  run_TryCatchStack r = [] → preserves (mem_CreateRun r).
Proof. intros Hr w Hw. apply wf_set_runs; [done|done|]. rewrite Hr; simpl; lia. Qed.

Lemma wf_set_tasks k s m :
  mem_wf k s → map_Forall (λ id t, task_ID t = id) m → mem_wf k (set_userTasks m s).
Proof. by intros [] Hm. Qed.

Lemma Cancel_preserves id reason : preserves (mem_Cancel id reason).
Proof.
  intros w Hw. unfold exec, mem_Cancel. rewrite bind_get_store.
  destruct (runs (w_store w) !! id) as [r|] eqn:Hr; [|done].
  destruct (IsTerminal (run_State r)); [done|].
  rewrite bind_timeNow. cbv zeta. rewrite bind_put_store. unfold NewEvent.
  rewrite !bind_assoc. unfold bind at 1, uuidNew. rewrite bind_assoc, bind_timeNow, bind_ret.
  set (w1 := mkWorld _ _ _ _ _ _ _). assert (Inv w1) as Hw1.
  { apply (mem_wf_mono (w_ids w)); [simpl; lia|]. apply wf_set_tasks.
    - destruct (row_Cancel_keeps (w_now w) reason r) as [Hid Hst], (wf_runs _ _ Hw _ _ Hr).
      apply wf_set_runs; [done|congruence|auto].
    - simpl. intros j t. rewrite lookup_fmap. intros (t' & Ht & ->)%fmap_Some.
      unfold close_task. case_decide; by apply (wf_tasks _ _ Hw) in Ht. }
  by apply AppendEvent_preserves.
Qed.

Lemma UpsertRule_preserves r : preserves (mem_UpsertRuleDefinition r).
Proof.
  intros w Hw. unfold exec, mem_UpsertRuleDefinition. rewrite bind_get_store.
  set (draw := if decide (rule_ID r = uuid_Nil) then uuidNew else ret (rule_ID r)).
  destruct (draw w) as [id w1] eqn:Ed. mstep Ed.
  assert (w_store w1 = w_store w ∧ w_ids w ≤ w_ids w1) as [Hs Hids].
  { unfold draw, uuidNew, ret in Ed. case_decide; simplify_eq; simpl; split; (done || lia). }
  cbv zeta. rewrite bind_put_store. unfold Inv; simpl.
  apply (mem_wf_mono (w_ids w)); [done|].
  destruct Hw as [? ? ? [Hi Hk] ? ? ? ? ?]. split; simpl; try done. split.
  - pose proof (index_upsert rule_RuleID _ _ id (set_rule_ID id r) Hi) as Hu; simpl in Hu.
    exact Hu.
  - by apply map_Forall_insert_2.
Qed.

Lemma Consume_preserves id name : preserves (mem_TryConsumeAwaitedSignal id name).
Proof.
  intros w Hw. unfold exec, mem_TryConsumeAwaitedSignal. rewrite bind_get_store.
  destruct (runs (w_store w) !! id) as [r|] eqn:Hr; [|done].
  case_decide; [|done]. rewrite bind_timeNow. cbv zeta. rewrite bind_put_store. unfold Inv; simpl.
  assert (mem_wf (w_ids w) (set_runs (<[id := row_clear_awaits r]> (runs (w_store w))) (w_store w))) as Hw1.
  { destruct (wf_runs _ _ Hw _ _ Hr). by apply wf_set_runs. }
  destruct (signals (w_store w) !! id) as [sigs|] eqn:Hs; [|done].
  destruct Hw1. split; simpl in *; try done. apply map_Forall_insert_2; [|done].
  pose proof (wf_signals0 _ _ Hs) as Hall. apply Forall_fmap. eapply Forall_impl; [exact Hall|].
  intros sg Hsg; simpl. unfold consume_signal. by case_decide.
Qed.

Lemma AppendSignal_preserves sg : preserves (mem_AppendSignal sg).
Proof.
  intros w Hw. unfold exec, Inv in *; simpl. destruct Hw. split; simpl; try done.
  apply map_Forall_insert_2; [|done]. apply Forall_app. split; [|by repeat constructor].
  destruct (signals (w_store w) !! sig_RunID sg) as [l|] eqn:Hl; simpl; [|constructor].
  by apply (wf_signals0 _ _ Hl).
Qed.

Lemma Spawn_preserves `{!EnvLaws} id sid key d inputs start :
  preserves (mem_SpawnChildRunAt id sid key d inputs start).
Proof.
  intros w Hw. unfold exec, mem_SpawnChildRunAt. rewrite bind_get_store.
  set (stored := match last (default [] (defsByName (w_store w) !! def_ID d)) with
    | Some id => _ | None => _ end). destruct (stored w) as [[did s1] w1] eqn:Es. mstep Es.
  assert (mem_wf (w_ids w1) s1) as Hs1.
  { unfold stored in Es. destruct (last _) as [j|] eqn:Hl; [by unfold ret in Es; simplify_eq|].
    unfold bind, uuidNew, ret in Es. simplify_eq; simpl.
    pose proof (wf_add_def (w_ids w) _ d Hw) as Ha. apply last_None in Hl. by rewrite Hl in Ha. }
  unfold bind at 1, uuidNew. rewrite bind_timeNow, bind_put_store. unfold Inv; simpl.
  apply (mem_wf_mono (w_ids w1)); [lia|]. apply wf_set_runs; [done| |]; case_decide; simpl; done || lia.
Qed.

Lemma Push_preserves id f : preserves (mem_PushTryCatch id f).
Proof.
  intros w Hw. unfold exec, mem_PushTryCatch. rewrite bind_get_store.
  destruct (runs (w_store w) !! id) as [r|] eqn:Hr; [|done].
  case_decide as Hd; [done|]. apply upd_run_preserves; [|done].
  intros r' Hr'. simplify_eq. split; [done|]. unfold maxDepth in *; simpl.
  rewrite length_app; simpl. lia.
Qed.

Lemma Pop_preserves id : preserves (mem_PopTryCatch id).
Proof.
  intros w Hw. unfold exec, mem_PopTryCatch. rewrite bind_get_store.
  destruct (runs (w_store w) !! id) as [r|] eqn:Hr; [|done].
  destruct (last _) as [top|]; [|done]. set (f := set_run_TryCatchStack _).
  assert (Inv (exec (upd_run id f) w)) as Hu.
  { apply upd_run_preserves; [|done]. intros r' Hr'. simplify_eq. split; [done|].
    unfold f; simpl. rewrite length_take. lia. }
  unfold exec in *. destruct (upd_run id f w) as [a w1] eqn:E. by mstep E.
Qed.

Lemma task_preserves id t w :
  Inv w → task_ID t = id → Inv (set_store (set_userTasks (<[id := t]> (userTasks (w_store w))) (w_store w)) w).
Proof.
  intros Hw Ht. apply (wf_set_tasks _ _ _ Hw).
  apply map_Forall_insert_2; [done|]. apply (wf_tasks _ _ Hw).
Qed.

Lemma SubmitTask_preserves id by_ result : preserves (mem_SubmitUserTask id by_ result).
Proof.
  intros w Hw. unfold exec, mem_SubmitUserTask. rewrite bind_get_store.
  destruct (userTasks (w_store w) !! id) as [t|] eqn:Ht; [|done].
  apply task_preserves; [done|]. by apply (wf_tasks _ _ Hw) in Ht.
Qed.

Lemma UpsertAction_preserves a : preserves (mem_UpsertActionRegistration a).
Proof.
  intros w Hw. unfold exec, mem_UpsertActionRegistration. rewrite bind_get_store.
  set (draw := if decide (act_ID a = uuid_Nil) then uuidNew else ret (act_ID a)).
  destruct (draw w) as [id w1] eqn:Ed. cbv zeta. mstep Ed.
  assert (w_store w1 = w_store w ∧ w_ids w ≤ w_ids w1) as [Hs Hids].
  { unfold draw, uuidNew, ret in Ed. case_decide; simplify_eq; simpl; split; (done || lia). }
  rewrite bind_timeNow. cbv zeta. rewrite bind_put_store. unfold Inv; simpl.
  apply (mem_wf_mono (w_ids w)); [done|]. destruct Hw. split; simpl; try done.
  apply map_Forall_insert_2; [|done]. apply map_Forall_insert_2; [done|].
  destruct (actions (w_store w) !! _) as [m|] eqn:Hm; simpl; [|apply map_Forall_empty].
  by apply (wf_actions0 _ _ Hm).
Qed.

Lemma wf_set_triggers k s m :
  mem_wf k s → map_Forall (λ id t, trig_ID t = id) m → mem_wf k (set_triggers m s).
Proof. by intros [] Hm. Qed.

Lemma UpsertTrigger_preserves t : preserves (mem_UpsertTrigger t).
Proof.
  intros w Hw. unfold exec, mem_UpsertTrigger. rewrite bind_get_store.
  set (draw := if decide (trig_ID t = uuid_Nil) then uuidNew else ret (trig_ID t)).
  destruct (draw w) as [id w1] eqn:Ed. mstep Ed.
  assert (w_ids w ≤ w_ids w1) as Hids.
  { unfold draw, uuidNew, ret in Ed. case_decide; simplify_eq; simpl; lia. }
  rewrite bind_timeNow. cbv zeta. rewrite bind_put_store. unfold Inv; simpl.
  apply (mem_wf_mono (w_ids w)); [done|]. apply wf_set_triggers; [done|].
  apply map_Forall_insert_2; [done|]. apply (wf_triggers _ _ Hw).
Qed.

Lemma DeleteTrigger_preserves id : preserves (mem_DeleteTrigger id).
Proof.
  intros w Hw. unfold exec, mem_DeleteTrigger. rewrite bind_get_store.
  destruct (triggers (w_store w) !! id); [|done]. apply wf_set_triggers; [done|].
  apply map_Forall_delete, (wf_triggers _ _ Hw).
Qed.

Lemma ClaimCron_preserves id e n : preserves (mem_ClaimCronFire id e n).
Proof.
  intros w Hw. unfold exec, mem_ClaimCronFire. rewrite bind_get_store.
  destruct (triggers (w_store w) !! id) as [t|] eqn:Ht; [|done].
  case_decide; [|done]. apply wf_set_triggers; [done|].
  apply map_Forall_insert_2; [|apply (wf_triggers _ _ Hw)].
  by apply (wf_triggers _ _ Hw) in Ht.
Qed.

Lemma RecordFire_preserves id wf r e : preserves (mem_RecordTriggerFire id wf r e).
Proof.
  intros w Hw. apply (mem_wf_mono (w_ids w)); [simpl; lia|]. by destruct Hw.
Qed.

Lemma FailAction_preserves id a code msg retry : preserves (mem_FailAction id a code msg retry).
Proof.
  intros w Hw. unfold exec, mem_FailAction. rewrite bind_get_store.
  destruct (runs (w_store w) !! id) as [r|] eqn:Hr; [|done].
  case_decide; [done|]. cbv zeta. rewrite bind_timeNow. cbv zeta. rewrite bind_put_store.
  unfold NewEvent. rewrite !bind_assoc. unfold bind at 1, uuidNew.
  rewrite bind_assoc, bind_timeNow, bind_ret.
  set (w1 := mkWorld _ _ _ _ _ _ _). assert (Inv w1) as Hw1.
  { apply (mem_wf_mono (w_ids w)); [simpl; lia|]. destruct (wf_runs _ _ Hw _ _ Hr).
    apply wf_set_runs; [done| |]; unfold row_FailAction; by case_decide. }
  by apply AppendEvent_preserves.
Qed.

Lemma apply_op_preserves `{!EnvLaws} op w : op_ok op → Inv w → Inv (apply_op op w).
Proof.
  intros Hok Hw. destruct op; simpl in *.
  - by apply Upsert_preserves.
  - by apply CreateRun_preserves.
  - apply upd_run_keeps; [keeps|done].
  - by apply AppendEvent_preserves.
  - by apply Cancel_preserves.
  - apply (upd_run_keeps id _ (row_failed_keeps (w_now w) cs e) w Hw).
  - by apply UpsertRule_preserves.
  - apply upd_run_keeps; [keeps|done].
  - apply upd_run_keeps; [keeps|done].
  - apply upd_run_keeps; [intros ?; destruct deadline; split; done|done].
  - apply upd_run_keeps; [keeps|done].
  - apply upd_run_keeps; [keeps|done].
  - by apply Consume_preserves.
  - apply upd_run_keeps; [keeps|done].
  - by apply AppendSignal_preserves.
  - by apply Spawn_preserves.
  - by apply Push_preserves.
  - by apply Pop_preserves.
  - by apply task_preserves.
  - by apply SubmitTask_preserves.
  - by apply UpsertAction_preserves.
  - apply upd_run_keeps; [|done]. intros r. unfold keeps_row, row_MarkAwaitingAction. by case_decide.
  - apply (upd_run_keeps id (λ r, if decide (run_CurrentAttempt r ≠ attempt) then r
             else row_CompleteAction (w_now w) result r)); [|done].
    intros r. unfold keeps_row. by case_decide.
  - by apply FailAction_preserves.
  - by apply UpsertTrigger_preserves.
  - by apply DeleteTrigger_preserves.
  - by apply ClaimCron_preserves.
  - by apply RecordFire_preserves.
Qed.

Lemma reachable_Inv `{!EnvLaws} w : reachable w → Inv w.
Proof.
  induction 1 as [w Hw|op w Hr IH Hok|w w' Hr IH Hs Hi].
  - unfold Inv. rewrite Hw. apply mem_wf_New.
  - by apply apply_op_preserves.
  - by eapply Inv_ids.
Qed.

(** C20: every store a process can reach is well formed: rows, tasks, triggers,
    events and signals are filed under their own ids, no run has more than three
    try_catch frames, and the name indexes of definitions and rules list exactly
    the stored rows of that name, each once (a rule upserted under a new name
    leaves its old list). *)
Theorem reachable_wf `{!EnvLaws} w : reachable w → mem_wf (w_ids w) (w_store w).
Proof. apply reachable_Inv. Qed.
End MemInv.

(** ** Witness *)
#[local] Existing Instance demo_env.
#[local] Existing Instance demo_laws.

Definition small_def (published : bool) (name : string) : WorkflowDefinition :=
  mkDef "wf" 1 None name "" "e" ∅ [end_step "e"] published 0 "".
Definition some_ops : list mem_op :=
  [OpUpsertDefinition (small_def true "old"); OpUpsertDefinition (small_def false "draft");
   OpCreateRun (NewSagaRun 7 0 "wf" 1000 None ∅); OpPush 7 (mkFrame "t" "e");
   OpPauseSignal 7 "go" None; OpCreateTask (mkTask 3 7 "u" "ann" None ∅ None "" ∅);
   OpCreateTask (mkTask 2 7 "u" "bob" None ∅ None "" ∅)].
Definition some_w : World MemStore :=
  fold_left (λ w op, apply_op op w) some_ops (demo_world New).

Lemma reachable_wf_witness : mem_wf 2 (w_store some_w).
Proof.
  apply (reachable_wf some_w). repeat (apply reach_op; [|done]). by apply reach_new.
Defined.
