(* ===== verification/MemProps.v ===== *)
(** Properties of the in-memory store: the publication of definitions, the
    listing queries and the operations that several callers race for. *)
From S2P Require Import Prelude Values Domain World Demo StoreApi Rows StoreSpec MemStore MemSpec.
From S2P Require Import Sorting MemInv.

(** ** Publication

    The abstract state is the list of the definitions stored so far, oldest
    first. *)
Definition def_history (h : list WorkflowDefinition) (op : mem_op) : list WorkflowDefinition :=
  match op with
  | OpUpsertDefinition d => h ++ [d]
  | OpSpawn _ _ _ d _ _ => if decide (Exists (λ d', def_ID d' = def_ID d) h) then h else h ++ [d]
  | _ => h
  end.

(** The newest published definition of a name, else the newest of the name. *)
Definition latest_def (name : string) (h : list WorkflowDefinition) : option WorkflowDefinition :=
  let l := filter (λ d, def_ID d = name) h in
  match last (filter (λ d, def_Published d = true) l) with
  | Some d => Some d
  | None => last l
  end.

Section MemProps.
Context `{EnvLaws}.
Implicit Types w : World MemStore.

(** A world reached from an empty store, with the history of its definitions. *)
Inductive reached : list WorkflowDefinition → World MemStore → Prop :=
| reached_new w : w_store w = New → reached [] w
| reached_op op h w : reached h w → op_ok op → reached (def_history h op) (apply_op op w)
| reached_env h w w' :
    reached h w → w_store w' = w_store w → w_ids w ≤ w_ids w' → reached h w'.

Lemma reached_Inv h w : reached h w → Inv w.
Proof.
  intros Hr. apply reachable_Inv. induction Hr; [by apply reach_new|by apply reach_op|].
  by eapply reach_env.
Qed.

Definition same_defs w w' : Prop :=
  defs (w_store w') = defs (w_store w) ∧ defsByName (w_store w') = defsByName (w_store w).

Lemma upd_run_same_defs id f w : same_defs w (exec (upd_run id f) w).
Proof.
  unfold same_defs, exec. destruct (runs (w_store w) !! id) as [r|] eqn:Hr.
  - by rewrite (upd_run_found _ _ _ _ Hr).
  - by rewrite (upd_run_missing _ _ _ Hr).
Qed.

Definition adds_def (op : mem_op) : bool :=
  match op with OpUpsertDefinition _ | OpSpawn _ _ _ _ _ _ => true | _ => false end.

Lemma apply_op_same_defs op w : adds_def op = false → same_defs w (apply_op op w).
Proof.
  destruct op; intros Ha; try discriminate Ha; simpl;
    try apply upd_run_same_defs; unfold exec; try done.
  - unfold mem_Cancel. rewrite bind_get_store. destruct (runs _ !! _); [|done].
    case_match; done.
  - unfold mem_UpsertRuleDefinition. rewrite bind_get_store. unfold bind at 1.
    case_decide; done.
  - unfold mem_TryConsumeAwaitedSignal. rewrite bind_get_store. destruct (runs _ !! _); [|done].
    case_decide; [|done]. rewrite bind_timeNow. cbv zeta. rewrite bind_put_store.
    unfold same_defs; simpl. by destruct (signals _ !! _).
  - unfold mem_PushTryCatch. rewrite bind_get_store. destruct (runs _ !! _); [|done].
    case_decide; [done|]. apply upd_run_same_defs.
  - unfold mem_PopTryCatch. rewrite bind_get_store. destruct (runs _ !! _); [|done].
    destruct (last _); [|done]. set (f := set_run_TryCatchStack _).
    pose proof (upd_run_same_defs id f w) as Hu. unfold exec in Hu.
    destruct (upd_run id f w) as [a w1] eqn:E. by mstep E.
  - unfold mem_SubmitUserTask. rewrite bind_get_store. by destruct (userTasks _ !! _).
  - unfold mem_UpsertActionRegistration. rewrite bind_get_store. cbv zeta. unfold bind at 1.
    case_decide; done.
  - unfold mem_FailAction. rewrite bind_get_store. destruct (runs _ !! _); [|done].
    case_decide; done.
  - unfold mem_UpsertTrigger. rewrite bind_get_store. unfold bind at 1. case_decide; done.
  - unfold mem_DeleteTrigger. rewrite bind_get_store. by destruct (triggers _ !! _).
  - unfold mem_ClaimCronFire. rewrite bind_get_store. destruct (triggers _ !! _); [|done].
    by case_decide.
Qed.

(** The index under each name lists the history of that name. *)
Definition tracks (h : list WorkflowDefinition) (s : MemStore) : Prop :=
  ∀ name, Some <$> filter (λ d, def_ID d = name) h =
          (λ id, defs s !! id) <$> default [] (defsByName s !! name).

Lemma tracks_add k s h d :
  mem_wf k s → tracks h s →
  tracks (h ++ [d]) (set_defsByName
    (<[def_ID d := default [] (defsByName s !! def_ID d) ++ [uuid_New k]]> (defsByName s))
    (set_defs (<[uuid_New k := d]> (defs s)) s)).
Proof.
  intros Hw Ht name; simpl. pose proof (fresh_def _ _ Hw) as Hf.
  assert ((λ id, <[uuid_New k := d]> (defs s) !! id) <$> default [] (defsByName s !! name) =
          (λ id, defs s !! id) <$> default [] (defsByName s !! name)) as Hold.
  { apply list_fmap_ext. intros i id Hi. apply list_elem_of_lookup_2 in Hi.
    rewrite lookup_insert_ne; [done|]. intros <-.
    apply (wf_defs _ _ Hw) in Hi as (a & Ha & _). congruence. }
  rewrite filter_app, fmap_app, Ht, lookup_insert. rewrite filter_cons, filter_nil.
  destruct (decide (def_ID d = name)) as [<-|Hne]; simpl.
  - by rewrite fmap_app, Hold; simpl; rewrite lookup_insert_eq.
  - by rewrite app_nil_r, Hold.
Qed.

Lemma tracks_nil_iff h s name :
  tracks h s → Exists (λ d, def_ID d = name) h ↔ default [] (defsByName s !! name) ≠ [].
Proof.
  intros Ht. specialize (Ht name). split.
  - intros (d & Hd & Hn)%Exists_exists Hnil. rewrite Hnil in Ht.
    apply fmap_nil_inv in Ht. apply (f_equal (λ l, d ∈ l)) in Ht.
    assert (d ∈ filter (λ d, def_ID d = name) h) as Hin by (by apply list_elem_of_filter).
    rewrite Ht in Hin. by apply elem_of_nil in Hin.
  - intros Hne. apply Exists_exists. destruct (filter _ h) as [|d l] eqn:Hf.
    + destruct (default [] _); [done|]. discriminate Ht.
    + exists d. assert (d ∈ filter (λ d, def_ID d = name) h) as Hin by (rewrite Hf; left).
      by apply list_elem_of_filter in Hin as [].
Qed.


Lemma Spawn_tracks id sid key d inputs start h w :
  Inv w → tracks h (w_store w) →
  tracks (def_history h (OpSpawn id sid key d inputs start))
    (w_store (exec (mem_SpawnChildRunAt id sid key d inputs start) w)).
Proof.
  intros Hw Ht. pose proof (tracks_nil_iff _ _ (def_ID d) Ht) as Hiff.
  unfold exec, mem_SpawnChildRunAt, def_history. rewrite bind_get_store.
  destruct (last (default [] (defsByName (w_store w) !! def_ID d))) as [j|] eqn:Hl.
  - rewrite decide_True; [done|]. rewrite Hiff. by intros Hn; rewrite Hn in Hl.
  - apply last_None in Hl. rewrite decide_False by naive_solver.
    pose proof (tracks_add (w_ids w) _ h d Hw Ht) as Ha. by rewrite Hl in Ha.
Qed.

Lemma reached_tracks h w : reached h w → tracks h (w_store w).
Proof.
  induction 1 as [w Hw|op h w Hr IH Hok|h w w' Hr IH Hs Hi].
  - intros name. by rewrite Hw; simpl; rewrite lookup_empty.
  - pose proof (reached_Inv _ _ Hr) as Hw. destruct (adds_def op) eqn:Ha.
    + destruct op; try discriminate Ha; [exact (tracks_add _ _ _ _ Hw IH)|by apply Spawn_tracks].
    + destruct (apply_op_same_defs op w Ha) as [Hd Hn].
      assert (def_history h op = h) as -> by (by destruct op).
      intros name. by rewrite Hd, Hn.
  - by rewrite Hs.
Qed.

Lemma newest_first_tracked (s : MemStore) ids l :
  Some <$> l = (λ id, defs s !! id) <$> ids →
  newest_first (λ id, if def_Published (default zero_def (defs s !! id))
                      then Some (default zero_def (defs s !! id)) else None) ids =
  last (filter (λ d, def_Published d = true) l).
Proof.
  unfold newest_first. revert l. induction ids as [|id ids IH] using rev_ind; intros l Hl.
  - by apply fmap_nil_inv in Hl as ->.
  - rewrite fmap_app in Hl. destruct l as [|d l _] using rev_ind.
    { symmetry in Hl. by apply app_eq_nil in Hl as []. }
    rewrite fmap_app in Hl. apply app_inj_tail in Hl as [Hl Hd]. simpl in Hd.
    rewrite rev_app_distr; simpl. rewrite <-Hd, filter_app, filter_cons, filter_nil; simpl.
    destruct (def_Published d); simpl; [by rewrite last_snoc|].
    rewrite app_nil_r. by apply IH.
Qed.

Lemma published_lookup h w name tenant :
  reached h w →
  mem_GetPublishedWorkflowByID name tenant w =
  (match latest_def name h with
   | Some d => Ok d
   | None => Err (ErrNotFound "workflow_definition" name)
   end, w).
Proof.
  intros Hr. pose proof (reached_tracks _ _ Hr name) as Ht.
  unfold mem_GetPublishedWorkflowByID, latest_def. rewrite bind_get_store. cbv zeta.
  rewrite (newest_first_tracked (w_store w) _ _ Ht).
  destruct (last (filter _ (filter _ h))) as [d|]; [done|].
  set (ids := default [] _) in *. destruct (filter (λ d, def_ID d = name) h) as [|d l _] using rev_ind.
  - symmetry in Ht. apply fmap_nil_inv in Ht. by rewrite Ht.
  - destruct ids as [|id ids _] using rev_ind.
    { rewrite fmap_app in Ht. by apply app_eq_nil in Ht as []. }
    rewrite !fmap_app in Ht. apply app_inj_tail in Ht as [_ Hd]. simpl in Hd.
    rewrite !last_snoc, <-Hd. done.
Qed.

(** C22: looking a workflow up by name refines the history of the definitions:
    whatever the process did before, [GetPublishedWorkflowByID] returns the newest
    published definition of the name, the newest one when none is published, and
    not-found exactly when none was ever stored (an ad-hoc child definition
    counts from the first time it is spawned). *)
Theorem published_refines_history h w name tenant :
  reached h w →
  mem_GetPublishedWorkflowByID name tenant w =
  (match latest_def name h with
   | Some d => Ok d
   | None => Err (ErrNotFound "workflow_definition" name)
   end, w).
Proof. apply published_lookup. Qed.

(** ** Listing *)

Lemma range_rows {K A} `{Countable K} (m : gmap K A) : (range_map m).*2 ≡ₚ (map_to_list m).*2.
Proof. by rewrite range_map_perm. Qed.

(** Listing runs: with bounds that fit an int, a page is the [Limit] runs
    (50 by default) after the first [Offset] ones of an arrangement of exactly the
    matching runs, newest first (ties in any order); [CountRuns] with the same
    filter returns how many there are. *)
Theorem ListRuns_pages f w :
  (rf_Limit f ≤ MaxInt)%Z → (Z.max 0 (rf_Offset f) + Z.max 50 (rf_Limit f) ≤ MaxInt)%Z →
  let matches r := run_matches f (buildTriggerTypeMap (w_store w)) r = true in
  ∃ all,
    all ≡ₚ filter matches (map_to_list (runs (w_store w))).*2 ∧
    StronglySorted (λ a b, (run_StartedAt b ≤ run_StartedAt a)%Z) all ∧
    mem_ListRuns f w =
      (Ok (take (Z.to_nat (if decide (rf_Limit f ≤ 0) then 50 else rf_Limit f)%Z)
             (drop (Z.to_nat (rf_Offset f)) all)), w) ∧
    mem_CountRuns f w = (Ok (Z.of_nat (length all)), w).
Proof.
  intros Hl Ho matches. exists (insertion_sort started_after (filterRuns f (w_store w))).
  split_and!.
  - rewrite insertion_sort_perm. unfold filterRuns. by rewrite range_rows.
  - apply (StronglySorted_impl (in_order started_after)); [|apply insertion_sort_sorted].
    + intros a b. unfold in_order, started_after. intros ?%Z.ltb_ge. done.
    + unfold started_after. intros a b. rewrite Z.ltb_lt, Z.ltb_ge. lia.
    + unfold started_after. intros a b c. rewrite !Z.ltb_ge. lia.
  - unfold mem_ListRuns. rewrite bind_get_store. cbv zeta.
    by rewrite (paginate_page _ _ None _ Hl Ho I).
  - unfold mem_CountRuns. rewrite bind_get_store. by rewrite insertion_sort_perm.
Qed.

(** Listing a run's user tasks gives all of them in the order of their
    128-bit ids, whatever order the map is visited in: any duplicate-free list of
    the run's tasks in that order is the one returned. *)
Theorem ListUserTasks_in_id_order runID w l :
  reachable w → (∀ id, is_Some (userTasks (w_store w) !! id) → (id < 2 ^ 128)%N) →
  l ≡ₚ filter (λ t, task_RunID t = runID) (map_to_list (userTasks (w_store w))).*2 →
  StronglySorted (λ a b, (task_ID a < task_ID b)%N) l →
  mem_ListUserTasksByRun runID w = (Ok l, w).
Proof.
  intros Hr Hb Hp Hs. pose proof (wf_tasks _ _ (reachable_Inv _ Hr)) as Hk.
  unfold mem_ListUserTasksByRun. rewrite bind_get_store. cbv zeta. do 2 f_equal.
  set (out := filter _ _). assert (out ≡ₚ l) as Hout by (unfold out; by rewrite Hp, range_rows).
  assert (∀ t, t ∈ out → (task_ID t < 2 ^ 128)%N) as Hbound.
  { intros t. rewrite Hout, Hp. intros [_ Ht]%list_elem_of_filter.
    apply list_elem_of_fmap in Ht as ([id t'] & -> & Ht%elem_of_map_to_list). simpl.
    rewrite (Hk _ _ Ht). apply Hb. by eexists. }
  rewrite (insertion_sort_ext _ (λ a b, task_ID a <? task_ID b)%N)
    by (intros a b Ha Hb'; by apply uuidLess_ltb; apply Hbound).
  symmetry. apply (key_sorted_unique task_ID); [by rewrite insertion_sort_perm|done|].
  apply (StronglySorted_impl (in_order (λ a b, task_ID a <? task_ID b)%N));
    [|apply insertion_sort_sorted].
  - intros a b. unfold in_order. by intros ?%N.ltb_ge.
  - intros a b. rewrite N.ltb_lt, N.ltb_ge. lia.
  - intros a b c. rewrite !N.ltb_ge. lia.
Qed.
End MemProps.

(** ** Recording a signal and handing it over

    The two operations the REST handlers and the embedded API make in a row. *)
Section Signals.
Context `{Env}.
Implicit Types w : World MemStore.

(** The run waits for the signal [name]. *)
Definition waits_for w (id : uuid) (name : string) : bool :=
  match runs (w_store w) !! id with
  | Some r => bool_decide (run_State r = RunStatePaused ∧ run_AwaitedSignal r = Some name)
  | None => false
  end.

(** The store after a signal [sg] was appended and, when awaited, consumed. *)
Definition signalled w (sg : SagaSignal) : MemStore :=
  let id := sig_RunID sg in
  let all := default [] (signals (w_store w) !! id) ++ [sg] in
  if waits_for w id (sig_SignalName sg) then
    set_runs (alter row_clear_awaits id (runs (w_store w)))
      (set_signals (<[id := consume_signal (w_now w) (sig_SignalName sg) <$> all]>
                      (<[id := all]> (signals (w_store w)))) (w_store w))
  else set_signals (<[id := all]> (signals (w_store w))) (w_store w).

Lemma append_and_consume sg w :
  let id := sig_RunID sg in
  ∃ w1, mem_AppendSignal sg w = (Ok tt, w1) ∧
    mem_TryConsumeAwaitedSignal id (sig_SignalName sg) w1 =
      (Ok (waits_for w id (sig_SignalName sg)), set_store (signalled w sg) w).
Proof.
  intros id. set (all := default [] (signals (w_store w) !! id) ++ [sg]).
  set (s1 := set_signals (<[id := all]> (signals (w_store w))) (w_store w)).
  exists (set_store s1 w).
  assert (signals s1 !! id = Some all) as Hall by apply lookup_insert_eq.
  assert (runs s1 = runs (w_store w)) as Hrun by done.
  unfold mem_TryConsumeAwaitedSignal, waits_for, signalled, waits_for.
  fold id. fold all. fold s1.
  unfold bind, get_store, timeNow, put_store, ret; cbn [w_store set_store fst snd].
  rewrite Hrun. destruct (runs (w_store w) !! id) as [r|] eqn:Hr; [|done].
  case_decide as Hw; [|by rewrite bool_decide_eq_false_2].
  rewrite bool_decide_eq_true_2, Hall by done. split; [done|].
  by rewrite (alter_insert_lookup _ _ r).
Qed.

Lemma waits_for_row w id name r :
  runs (w_store w) !! id = Some r → run_State r = RunStatePaused → run_AwaitedSignal r = Some name →
  waits_for w id name = true.
Proof. intros Hr Hp Hs. unfold waits_for. rewrite Hr. by apply bool_decide_eq_true_2. Qed.
End Signals.


(** ** Witnesses *)
#[local] Existing Instance demo_env.
#[local] Existing Instance demo_laws.

Lemma some_reached : reached [small_def true "old"; small_def false "draft"] some_w.
Proof.
  change (reached (fold_left def_history some_ops []) (fold_left (λ w op, apply_op op w) some_ops
    (demo_world New))).
  assert (Forall op_ok some_ops) as Hok by (repeat constructor).
  pose proof (reached_new (demo_world New) eq_refl) as Hr. revert Hr.
  generalize (demo_world New), (@nil WorkflowDefinition).
  induction Hok as [|op ops Hop Hops IH]; intros w h Hr; [done|]. simpl. apply IH.
  by apply reached_op.
Qed.

Lemma published_refines_history_witness :
  mem_GetPublishedWorkflowByID "wf" None some_w = (Ok (small_def true "old"), some_w).
Proof.
  apply (published_refines_history [small_def true "old"; small_def false "draft"] some_w "wf" None).
  apply some_reached.
Defined.

Lemma ListRuns_pages_witness :
  let f := mkRunFilter "wf" "paused" "" None None None 0 0 in
  ∃ all,
    all ≡ₚ filter (λ r, run_matches f (buildTriggerTypeMap (w_store some_w)) r = true)
             (map_to_list (runs (w_store some_w))).*2 ∧
    StronglySorted (λ a b, (run_StartedAt b ≤ run_StartedAt a)%Z) all ∧
    mem_ListRuns f some_w = (Ok (take 50 (drop 0 all)), some_w) ∧
    mem_CountRuns f some_w = (Ok (Z.of_nat (length all)), some_w).
Proof.
  intros f. apply (ListRuns_pages f some_w).
  - by vm_compute.
  - by vm_compute.
Defined.

Lemma ListUserTasks_in_id_order_witness :
  mem_ListUserTasksByRun 7 some_w =
  (Ok [mkTask 2 7 "u" "bob" None ∅ None "" ∅; mkTask 3 7 "u" "ann" None ∅ None "" ∅], some_w).
Proof.
  apply (ListUserTasks_in_id_order 7 some_w).
  - repeat (apply reach_op; [|done]). by apply reach_new.
  - intros id [t Ht]. apply elem_of_map_to_list in Ht.
    assert (map_to_list (userTasks (w_store some_w)) =
      [(3, mkTask 3 7 "u" "ann" None ∅ None "" ∅); (2, mkTask 2 7 "u" "bob" None ∅ None "" ∅)]%N
      ∨ map_to_list (userTasks (w_store some_w)) =
      [(2, mkTask 2 7 "u" "bob" None ∅ None "" ∅); (3, mkTask 3 7 "u" "ann" None ∅ None "" ∅)]%N) as Hl
      by (first [left; by vm_compute|right; by vm_compute]).
    destruct Hl as [Hl|Hl]; rewrite Hl in Ht; set_solver by lia.
  - first [by vm_compute|vm_compute; apply Permutation_swap].
  - repeat constructor.
Defined.
