(* ===== verification/MemRows.v ===== *)
(** What each operation of the in-memory store does to the run rows: it creates
    one row, or rewrites one row by a function of that row and the time, or leaves
    the rows alone. *)
From S2P Require Import Prelude Values Domain World StoreApi Rows StoreSpec MemStore MemSpec.
From S2P Require Import MemInv.

Section MemRows.
Context `{Env}.
Implicit Types w : World MemStore.

(** The run whose row the operation may rewrite. *)
Definition op_run (op : mem_op) : option uuid :=
  match op with
  | OpUpdateRunState id _ _ | OpCancel id _ | OpMarkRunFailed id _ _ | OpUpdateVariables id _
  | OpPauseWakeup id _ | OpPauseSignal id _ _ | OpPauseEvent id _ _ _ | OpClearPause id
  | OpConsumeSignal id _ | OpWake id | OpPush id _ | OpPop id | OpMarkAwaiting id _ _
  | OpCompleteAction id _ _ | OpFailAction id _ _ _ _ => Some id
  | _ => None
  end.

(** Neither a run's row nor a new run. *)
Definition no_row (op : mem_op) : bool :=
  match op, op_run op with
  | OpCreateRun _, _ | OpSpawn _ _ _ _ _ _, _ => false
  | _, Some _ => false
  | _, None => true
  end.

(** How it rewrites that row. *)
Definition op_row (now : Z) (op : mem_op) (r : SagaRun) : SagaRun :=
  match op with
  | OpUpdateRunState _ st cs => row_UpdateRunState st cs r
  | OpCancel _ reason => if IsTerminal (run_State r) then r else row_Cancel now reason r
  | OpMarkRunFailed _ cs e => MarkFailed_row now cs e r
  | OpUpdateVariables _ m => set_run_Variables (merge_entries (range_map m) (run_Variables r)) r
  | OpPauseWakeup _ t => set_run_WakeupAt (Some t) (set_run_State RunStatePaused r)
  | OpPauseSignal _ n d => row_SetPausedAwaitingSignal n d r
  | OpPauseEvent _ topic h d => row_SetPausedAwaitingEvent topic h d r
  | OpClearPause _ => row_ClearPause r
  | OpConsumeSignal _ n =>
      if decide (run_State r = RunStatePaused ∧ run_AwaitedSignal r = Some n)
      then row_clear_awaits r else r
  | OpWake _ => row_clear_awaits r
  | OpPush _ f =>
      if decide (maxDepth ≤ length (run_TryCatchStack r)) then r
      else set_run_TryCatchStack (run_TryCatchStack r ++ [f]) r
  | OpPop _ =>
      set_run_TryCatchStack
        (take (pred (length (run_TryCatchStack r))) (run_TryCatchStack r)) r
  | OpMarkAwaiting _ d a => row_MarkAwaitingAction d a r
  | OpCompleteAction _ a result => Complete_row now a result r
  | OpFailAction _ a _ msg _ =>
      if decide (run_CurrentAttempt r ≠ a) then r else row_FailAction now msg r
  | _ => r
  end.

(** The row [SpawnChildRunAt] inserts. *)
Definition child_row w (parent : uuid) (sid key : string) (d : WorkflowDefinition) (inputs : Vars)
    (start : string) : SagaRun :=
  let stored := last (default [] (defsByName (w_store w) !! def_ID d)) in
  let child := NewSagaRun (uuid_New (match stored with Some _ => w_ids w | None => S (w_ids w) end))
                 (w_now w) (def_ID d) (default (uuid_New (w_ids w)) stored) None inputs in
  set_run_ParentBranchID (Some key) (set_run_ParentStepID (Some sid)
    (set_run_ParentRunID (Some parent)
       (if decide (start = "") then child else set_run_CurrentStep start child))).

(** The row the operation creates. *)
Definition op_new w (op : mem_op) : option SagaRun :=
  match op with
  | OpCreateRun r => Some r
  | OpSpawn parent sid key d inputs start => Some (child_row w parent sid key d inputs start)
  | _ => None
  end.

Definition rows_after w (op : mem_op) : gmap uuid SagaRun :=
  match op_new w op with
  | Some r => <[run_ID r := r]> (runs (w_store w))
  | None =>
      match op_run op with
      | Some id => alter (op_row (w_now w) op) id (runs (w_store w))
      | None => runs (w_store w)
      end
  end.

Lemma upd_run_rows id f w :
  runs (w_store (upd_run id f w).2) = alter f id (runs (w_store w)).
Proof.
  destruct (runs (w_store w) !! id) as [r|] eqn:Hr.
  - rewrite (upd_run_found _ _ _ _ Hr), (alter_insert_lookup _ _ _ _ Hr). done.
  - by rewrite (upd_run_missing _ _ _ Hr), alter_id_None.
Qed.

(** A row rewritten to itself. *)
Lemma alter_same (id : uuid) (f : SagaRun → SagaRun) (m : gmap uuid SagaRun) r :
  m !! id = Some r → f r = r → alter f id m = m.
Proof. intros Hr Hf. rewrite (alter_insert_lookup _ _ _ _ Hr), Hf. by apply insert_id. Qed.

(** Rows after an operation that inspects the row [r] it finds. *)
Ltac row_op :=
  unfold exec; rewrite bind_get_store;
  let r := fresh "r" in let Hr := fresh "Hr" in
  destruct (runs _ !! _) as [r|] eqn:Hr; [|by rewrite alter_id_None].

Lemma spawn_rows w parent sid key d inputs start :
  runs (w_store (exec (mem_SpawnChildRunAt parent sid key d inputs start) w)) =
  rows_after w (OpSpawn parent sid key d inputs start).
Proof.
  unfold exec, mem_SpawnChildRunAt, rows_after, op_new, child_row. rewrite bind_get_store.
  destruct (last _) as [did|]; unfold bind, ret, uuidNew, timeNow, put_store; simpl;
    by case_decide.
Qed.

Lemma apply_op_rows op w : runs (w_store (apply_op op w)) = rows_after w op.
Proof.
  destruct op; try apply spawn_rows; unfold rows_after, op_new, op_run, op_row;
    cbn [apply_op]; try apply upd_run_rows; try reflexivity.
  - unfold mem_Cancel. row_op. rewrite (alter_insert_lookup _ _ _ _ Hr).
    destruct (IsTerminal (run_State r)); [by rewrite insert_id|]. done.
  - unfold exec, mem_UpsertRuleDefinition. rewrite bind_get_store. unfold bind at 1. by case_decide.
  - unfold mem_TryConsumeAwaitedSignal. row_op. rewrite (alter_insert_lookup _ _ _ _ Hr).
    case_decide; [|by rewrite insert_id]. rewrite bind_timeNow. cbv zeta. rewrite bind_put_store.
    simpl. by destruct (signals _ !! _).
  - unfold mem_PushTryCatch. row_op. rewrite (alter_insert_lookup _ _ _ _ Hr).
    case_decide; [by rewrite insert_id|]. by rewrite (upd_run_found _ _ _ _ Hr).
  - unfold mem_PopTryCatch. row_op. destruct (last _) eqn:Hl.
    + erewrite bind_step by (by apply upd_run_found). by rewrite (alter_insert_lookup _ _ _ _ Hr).
    + apply last_None in Hl. rewrite (alter_same _ _ _ r); [done|done|]. rewrite Hl.
      destruct r; simpl in *; by subst.
  - unfold exec, mem_SubmitUserTask. rewrite bind_get_store. by destruct (userTasks _ !! _).
  - unfold exec, mem_UpsertActionRegistration. rewrite bind_get_store. cbv zeta. unfold bind at 1.
    by case_decide.
  - unfold mem_FailAction. row_op. rewrite (alter_insert_lookup _ _ _ _ Hr).
    case_decide; [by rewrite insert_id|done].
  - unfold exec, mem_UpsertTrigger. rewrite bind_get_store. unfold bind at 1. by case_decide.
  - unfold exec, mem_DeleteTrigger. rewrite bind_get_store. by destruct (triggers _ !! _).
  - unfold exec, mem_ClaimCronFire. rewrite bind_get_store. destruct (triggers _ !! _); [|done].
    by case_decide.
Qed.
(** Every operation of the in-memory store acts on the run rows as an update of
    at most one row: creating operations insert the one row they build, the
    others rewrite the row of their run by a function of that row and the time,
    and every other run's row is left as it is. *)
Theorem mem_op_rows op w : runs (w_store (apply_op op w)) = rows_after w op.
Proof. apply apply_op_rows. Qed.

(** Every row after [w'] comes from a row of the same key by a step of [R], or from
    nothing by [N]. *)
Definition rows_step (R : uuid → SagaRun → SagaRun → Prop) (N : uuid → SagaRun → Prop) w w' : Prop :=
  ∀ id r', runs (w_store w') !! id = Some r' →
    (∃ r, runs (w_store w) !! id = Some r ∧ R id r r') ∨ N id r'.

(** To bound an operation's effect on the rows, look at its row function and at
    the row it creates. *)
Lemma rows_step_op R N op w :
  (∀ id r, R id r r) →
  (∀ id r, op_run op = Some id → runs (w_store w) !! id = Some r →
     R id r (op_row (w_now w) op r)) →
  (∀ r, op_new w op = Some r → N (run_ID r) r) →
  rows_step R N w (apply_op op w).
Proof.
  intros HR Hf HN id r'. rewrite apply_op_rows. unfold rows_after.
  destruct (op_new w op) as [r|] eqn:Hnew.
  - rewrite lookup_insert. case_decide as Hid; [|eauto]. intros [= <-]. subst id. auto.
  - destruct (op_run op) as [j|] eqn:Hrun; [|eauto]. rewrite lookup_alter. case_decide as Hid; [|eauto].
    subst j. intros (r & Hr & ->)%fmap_Some. left. eauto.
Qed.
End MemRows.
