(* ===== verification/MemRaces.v ===== *)
(** The operations of the in-memory store that several callers race for: one
    winner consumes an awaited signal, one dispatcher claims a cron fire, a run is
    cancelled once. *)
From S2P Require Import Prelude Values Domain World Demo StoreApi Rows StoreSpec MemStore MemSpec.
From S2P Require Import Sorting MemInv MemRows.

Section MemRaces.
Context `{Env}.
Implicit Types w : World MemStore.

(** ** Signals *)

(** The operation makes [id] wait for a signal. *)
Definition arms (id : uuid) (op : mem_op) : Prop :=
  match op with
  | OpPauseSignal id' _ _ => id' = id
  | OpCreateRun r => run_ID r = id ∧ run_AwaitedSignal r ≠ None
  | _ => False
  end.

(** No row [id] waits for a signal. *)
Definition unarmed (id : uuid) w : Prop :=
  ∀ r, runs (w_store w) !! id = Some r → run_AwaitedSignal r = None.

Definition keeps_signal (id : uuid) (j : uuid) (r r' : SagaRun) : Prop :=
  j = id → run_AwaitedSignal r = None → run_AwaitedSignal r' = None.
Definition no_signal (id : uuid) (j : uuid) (r : SagaRun) : Prop :=
  j = id → run_AwaitedSignal r = None.

Lemma apply_op_signal id op w :
  ¬ arms id op → rows_step (keeps_signal id) (no_signal id) w (apply_op op w).
Proof.
  intros Ha. apply rows_step_op; [by intros ???| |].
  - intros j r Hop _ -> Hs. destruct op; simplify_eq/=; try done;
      try (by destruct Ha); unfold MarkFailed_row, Complete_row, row_Cancel, row_MarkRunFailed,
        row_MarkAwaitingAction, row_FailAction; by repeat case_match.
  - intros r Hr Hid. destruct op; simplify_eq/=.
    + destruct (run_AwaitedSignal _) eqn:Hs; [|done]. naive_solver.
    + unfold child_row. cbv zeta. by case_decide.
Qed.

Lemma unarmed_ops id ops w :
  unarmed id w → Forall (λ op, ¬ arms id op) ops →
  unarmed id (fold_left (λ w op, apply_op op w) ops w).
Proof.
  revert w. induction ops as [|op ops IH]; intros w Hw Hops; simpl; [done|].
  apply Forall_cons in Hops as [Hop Hops]. apply IH; [|done]. intros r' Hr'.
  destruct (apply_op_signal id op w Hop id r' Hr') as [(r & Hr & Hk)|Hn]; [|by apply Hn].
  apply Hk; [done|by apply Hw].
Qed.

Lemma consume_unarmed id name w :
  unarmed id w → mem_TryConsumeAwaitedSignal id name w = (Ok false, w).
Proof.
  intros Hu. unfold mem_TryConsumeAwaitedSignal. rewrite bind_get_store.
  destruct (runs (w_store w) !! id) as [r|] eqn:Hr; [|done].
  rewrite decide_False; [done|]. rewrite (Hu _ Hr). naive_solver.
Qed.

(** An awaited signal is consumed by one caller: the call that gets [true]
    found the run paused on exactly that signal, wipes its await markers and marks
    the run's stored signals of that name consumed; from then on, whatever other
    operations interleave, every further attempt on the run gets [false] and
    changes nothing, until something pauses the run on a signal again. *)
Theorem signal_consumed_once id name w w' ops name' :
  mem_TryConsumeAwaitedSignal id name w = (Ok true, w') →
  Forall (λ op, ¬ arms id op) ops →
  (∃ r, runs (w_store w) !! id = Some r ∧ run_State r = RunStatePaused ∧
        run_AwaitedSignal r = Some name ∧
        runs (w_store w') = <[id := row_clear_awaits r]> (runs (w_store w))) ∧
  Forall (λ sg, sig_SignalName sg = name → sig_ConsumedAt sg ≠ None)
    (default [] (signals (w_store w') !! id)) ∧
  let w2 := fold_left (λ w op, apply_op op w) ops w' in
  mem_TryConsumeAwaitedSignal id name' w2 = (Ok false, w2).
Proof.
  intros E Hops. unfold mem_TryConsumeAwaitedSignal in E. rewrite bind_get_store in E.
  destruct (runs (w_store w) !! id) as [r|] eqn:Hr; [|done].
  case_decide as Hd; [|done]. rewrite bind_timeNow in E. cbv zeta in E. rewrite bind_put_store in E.
  assert (w' = set_store (set_runs (<[id := row_clear_awaits r]> (runs (w_store w)))
    (match signals (w_store w) !! id with
     | Some sigs => set_signals (<[id := consume_signal (w_now w) name <$> sigs]>
                      (signals (w_store w))) (w_store w)
     | None => w_store w end)) w) as ->
    by (destruct (signals (w_store w) !! id); unfold ret in E; by simplify_eq).
  clear E. split_and!.
  - exists r. destruct Hd. split_and!; try done.
  - simpl. destruct (signals (w_store w) !! id) as [sigs|] eqn:Hs; simpl; [|by rewrite Hs].
    rewrite lookup_insert_eq; simpl. apply Forall_fmap, Forall_true. intros sg; simpl.
    unfold consume_signal. case_decide; simpl; [done|]. naive_solver.
  - apply consume_unarmed, unarmed_ops; [|done]. intros r'. simpl. rewrite lookup_insert_eq.
    by intros [= <-].
Qed.

(** ** Cron fires *)

(** Dispatchers that all saw the fire time [expected], one after the other. *)
Fixpoint claims (id : uuid) (expected : Z) (nexts : list Z) : M (World MemStore) (list (res bool)) :=
  match nexts with
  | [] => ret []
  | n :: nexts =>
      let* r := mem_ClaimCronFire id expected n in
      let* rs := claims id expected nexts in ret (r :: rs)
  end.

Lemma claims_lost id expected nexts w t :
  triggers (w_store w) !! id = Some t → trig_NextFireAt t ≠ Some expected →
  claims id expected nexts w = (replicate (length nexts) (Ok false), w).
Proof.
  intros Ht Hne. induction nexts as [|n nexts IH]; simpl; [done|].
  assert (mem_ClaimCronFire id expected n w = (Ok false, w)) as E.
  { unfold mem_ClaimCronFire. rewrite bind_get_store, Ht. by rewrite decide_False. }
  mstep E. by mstep IH.
Qed.

(** A cron fire is claimed once: of any number of dispatchers that compare
    against the fire time the trigger has, the first wins and moves the fire time
    on (both markers), and every other one loses and changes nothing. *)
Theorem cron_claimed_once id expected next nexts w t :
  triggers (w_store w) !! id = Some t → trig_NextFireAt t = Some expected → next ≠ expected →
  claims id expected (next :: nexts) w =
  (Ok true :: replicate (length nexts) (Ok false),
   set_store (set_triggers
     (<[id := set_fire_times (Some next) (Some next) t]> (triggers (w_store w))) (w_store w)) w).
Proof.
  intros Ht He Hne. simpl.
  set (w1 := set_store (set_triggers (<[id := set_fire_times (Some next) (Some next) t]>
    (triggers (w_store w))) (w_store w)) w). assert (mem_ClaimCronFire id expected next w = (Ok true, w1)) as E.
  { unfold mem_ClaimCronFire. rewrite bind_get_store, Ht. by rewrite decide_True. }
  mstep E. assert (claims id expected nexts w1 = (replicate (length nexts) (Ok false), w1)) as El.
  { apply (claims_lost _ _ _ _ (set_fire_times (Some next) (Some next) t)).
    - unfold w1; simpl. by rewrite lookup_insert_eq.
    - simpl. congruence. }
  by mstep El.
Qed.

(** ** Cancellation *)

Lemma mem_Cancel_live id reason w r :
  runs (w_store w) !! id = Some r → IsTerminal (run_State r) = false →
  ∃ w' e, mem_Cancel id reason w = (Ok tt, w') ∧
    runs (w_store w') = <[id := row_Cancel (w_now w) reason r]> (runs (w_store w)) ∧
    userTasks (w_store w') = close_task (w_now w) id <$> userTasks (w_store w) ∧
    events (w_store w') = <[id := default [] (events (w_store w) !! id) ++ [e]]> (events (w_store w)) ∧
    defs (w_store w') = defs (w_store w) ∧
    ev_EventType e = EventRunCancelled ∧ ev_StepID e = run_CurrentStep r ∧ ev_Actor e = "engine" ∧
    ev_Metadata e = (if decide (reason = "") then ∅ else {["reason" := VStr reason]}).
Proof.
  intros Hr Ht. destruct (mem_Cancel id reason w) as [a w'] eqn:E. unfold mem_Cancel in E.
  rewrite bind_get_store, Hr, Ht, bind_timeNow in E. cbv zeta in E. rewrite bind_put_store in E.
  assert (run_CurrentStep (row_Cancel (w_now w) reason r) = run_CurrentStep r) as Hc
    by (unfold row_Cancel; by case_decide).
  rewrite Hc in E. unfold bind, NewEvent, uuidNew, timeNow in E. injection E as <- <-.
  case_decide; (do 2 eexists; split_and!; reflexivity).
Qed.

Lemma find_due_elem now limit l out id :
  id ∈ find_due now limit l out → id ∈ out ∨ ∃ r, (id, r) ∈ l ∧ due now r = true.
Proof.
  revert out. induction l as [|[j r] l IH]; intros out; simpl; [by left|].
  destruct (due now r) eqn:Hd; [case_decide|].
  - rewrite elem_of_app, list_elem_of_singleton. intros [?| ->]; [by left|right].
    exists r. split; [left|done].
  - intros [[?| ->%list_elem_of_singleton]%elem_of_app|(r' & ? & ?)]%IH; [by left|right..].
    + exists r. split; [left|done].
    + exists r'. split; [by right|done].
  - intros [?|(r' & ? & ?)]%IH; [by left|right]. exists r'. split; [by right|done].
Qed.

(** A row that is not paused is out of reach of everything that wakes runs. *)
Lemma unpaused_out_of_reach id r w :
  runs (w_store w) !! id = Some r → run_State r ≠ RunStatePaused →
  (∀ name, mem_TryConsumeAwaitedSignal id name w = (Ok false, w)) ∧
  (∀ topic, ∃ rs, mem_FindRunsByAwaitedEvent topic w = (Ok rs, w) ∧ r ∉ rs) ∧
  (range_map (runs (w_store w)) ≡ₚ map_to_list (runs (w_store w)) →
   ∀ now n, ∃ ids, mem_FindRunsByDueWakeup now n w = (Ok ids, w) ∧ id ∉ ids).
Proof.
  intros Hr Hs. split_and!.
  - intros name. unfold mem_TryConsumeAwaitedSignal. rewrite bind_get_store, Hr.
    rewrite decide_False by tauto. done.
  - intros topic. eexists. split; [reflexivity|]. rewrite list_elem_of_filter. by intros [[? _] _].
  - intros Hp now n. eexists. split; [reflexivity|].
    intros [?%not_elem_of_nil|(r' & Hin & Hd)]%find_due_elem; [done|].
    rewrite Hp, elem_of_map_to_list, Hr in Hin. injection Hin as <-. unfold due in Hd.
    by rewrite bool_decide_eq_false_2 in Hd.
Qed.

End MemRaces.

Section cancelled.
Context `{EnvLaws}.
Implicit Types w : World MemStore.

End cancelled.

(** ** Witnesses *)
#[local] Existing Instance demo_env.
#[local] Existing Instance demo_laws.

Lemma signal_consumed_once_witness :
  let w' := (mem_TryConsumeAwaitedSignal 7 "go" some_w).2 in
  let w2 := fold_left (λ w op, apply_op op w) [OpClearPause 7; OpUpdateRunState 7 RunStatePaused "w"] w' in
  mem_TryConsumeAwaitedSignal 7 "go" w2 = (Ok false, w2).
Proof.
  intros w'. refine (proj2 (proj2 (signal_consumed_once 7 "go" some_w w'
    [OpClearPause 7; OpUpdateRunState 7 RunStatePaused "w"] "go" _ _))).
  - by vm_compute.
  - repeat constructor; by intros [].
Defined.

Definition hourly : SagaTrigger :=
  mkTrigger 4 TriggerCron "wf" 1 ∅ true None None "" (Some 50%Z) None.
Definition cron_w : World MemStore := demo_world (mkMem ∅ ∅ ∅ ∅ ∅ ∅ ∅ ∅ ∅ {[4%N := hourly]} []).

Lemma cron_claimed_once_witness :
  (claims 4 50 [60; 61; 62]%Z cron_w).1 = [Ok true; Ok false; Ok false].
Proof.
  rewrite (cron_claimed_once 4 50 60 [61; 62]%Z cron_w hourly); [reflexivity|reflexivity|reflexivity|lia].
Defined.

