(* ===== verification/Json.v ===== *)
(** JSON as the Redis store uses it ([src/store/redis/store.go]): what [json.Marshal]
    makes of the dynamic values, and [unmarshalJSON] with its number conversion.

    A JSON text is its tree; a struct's text is represented by the struct it decodes to,
    so [json_run] and its like are "marshal, then [unmarshalJSON]".  Only the
    [map[string]any] fields change on the way, and empty maps and slices tagged
    [omitempty] come back nil. *)
From S2P Require Import Prelude Values Domain World.

(** A JSON value; a number literal is an integer or has a fraction or an exponent, and
    then denotes a float. *)
Inductive json :=
| JNull
| JBool (b : bool)
| JInt (z : Z)
| JDec (f : spec_float)
| JStr (s : string)
| JArr (l : list json)
| JObj (m : gmap string json).

(** [encoding/json] beyond the values above: the literal [strconv] prints for a finite
    float (an integer one has no fraction; [-0] is the integer literal of 0, as
    [json.Number.Int64] reads it), and the text of a value of another type. *)
Class JsonEnv := {
  float_lit : spec_float → json;
  other_json : string → option json
}.
(** The zeros print as integers, and the literal of another float parses back to it. *)
Class JsonLaws `{JsonEnv} := {
  float_lit_zero b : float_lit (S754_zero b) = JInt 0;
  float_lit_back f : (∀ b, f ≠ S754_zero b) →
    match float_lit f with JInt z => f_of_Z z = f | JDec g => g = f | _ => False end
}.

(** The error of [json.Marshal]. *)
Definition json_err : err := EMsg "json: unsupported value".

Definition is_finite (f : spec_float) : bool :=
  match f with S754_zero _ | S754_finite _ _ _ => true | _ => false end.

(** Every entry, or none. *)
Definition all_entries {A} (m : gmap string (option A)) : option (gmap string A) :=
  if decide (map_Forall (λ _ o, is_Some o) m) then Some (omap id m) else None.

Section Json.
Context `{JsonEnv}.

(** [json.Marshal]; [None] is its error. *)
Fixpoint marshal (v : Val) : option json :=
  match v with
  | VNil => Some JNull
  | VBool b => Some (JBool b)
  | VInt z | VInt32 z | VInt64 z | VUint64 z => Some (JInt z)
  | VFloat f => if is_finite f then Some (float_lit f) else None
  | VStr s => Some (JStr s)
  | VList l => JArr <$> mapM marshal l
  | VMap m => JObj <$> all_entries (marshal <$> m)
  | VStrs l => Some (JArr (JStr <$> l))
  | VStrMap m => Some (JObj (JStr <$> m))
  | VOther ty => other_json ty
  end.

(** [convertJSONNumber]: an int when the literal is one, else a float, else its text. *)
Definition convertJSONNumber (j : json) : option Val :=
  match j with
  | JInt z =>
      Some (if decide (in_int64 z) then VInt z
            else match f_of_Z z with
                 | S754_infinity _ => VStr (itoa z)
                 | f => VFloat f
                 end)
  | JDec f => Some (VFloat f)
  | _ => None
  end.

(** [walkAndConvert] over the decoded value. *)
Fixpoint walkAndConvert (j : json) : Val :=
  match j with
  | JNull => VNil
  | JBool b => VBool b
  | JStr s => VStr s
  | JArr l => VList (walkAndConvert <$> l)
  | JObj m => VMap (walkAndConvert <$> m)
  | JInt _ | JDec _ => default VNil (convertJSONNumber j)
  end.

(** Written and read back. *)
Definition json_val (v : Val) : option Val := walkAndConvert <$> marshal v.
Definition json_vars (m : Vars) : option Vars := all_entries (json_val <$> m).

(** [json.Unmarshal] without [UseNumber]: every number is a float. *)
Fixpoint plain_val (v : Val) : Val :=
  match v with
  | VInt z => VFloat (f_of_Z z)
  | VList l => VList (plain_val <$> l)
  | VMap m => VMap (plain_val <$> m)
  | v => v
  end.
(** What it decodes: no number is out of the range of the floats. *)
Fixpoint decodable (v : Val) : bool :=
  match v with
  | VNil | VBool _ | VStr _ => true
  | VInt z => is_finite (f_of_Z z)
  | VFloat f => is_finite f
  | VList l => forallb decodable l
  | VMap m => map_fold (λ _ v b, decodable v && b) true m
  | _ => false
  end.

(** ** Structs *)
Definition with_run_any (inputs vars : Vars) (r : SagaRun) : SagaRun :=
  mkRun (run_ID r) (run_WorkflowID r) (run_DefinitionID r) (run_TenantID r) (run_State r)
    (run_CurrentStep r) inputs vars (run_StartedAt r) (run_LastEventAt r) (run_TerminalAt r)
    (run_RequiresManualReview r) (run_TriggerID r) (run_ParentRunID r) (run_ParentStepID r)
    (run_ParentBranchID r) (run_TryCatchStack r) (run_DryRun r) (run_WakeupAt r)
    (run_AwaitedSignal r) (run_AwaitedEventTopic r) (run_AwaitedEventHeaders r)
    (run_FeatureOverrides r) (run_AwaitedActionDispatch r) (run_CurrentAttempt r)
    (run_LastError r).
(** A run: the fields of static types come back as they were written, the [map[string]any] ones
    through the number conversion. *)
Definition json_run (r : SagaRun) : option SagaRun :=
  inputs ← json_vars (run_Inputs r);
  vars ← json_vars (run_Variables r);
  Some (with_run_any inputs vars r).
Definition json_event (e : SagaRunEvent) : option SagaRunEvent :=
  md ← json_vars (ev_Metadata e); Some (with_Metadata md e).
Definition json_signal (s : SagaSignal) : option SagaSignal :=
  p ← json_vars (sig_Payload s);
  Some (mkSignal (sig_ID s) (sig_RunID s) (sig_SignalName s) p (sig_ReceivedAt s)
          (sig_ConsumedAt s)).
Definition json_comp (c : Compensation) : option Compensation :=
  i ← json_vars (comp_Inputs c); Some (mkComp (comp_Action c) i).
Definition json_step (st : Step) : option Step :=
  i ← json_vars (step_Inputs st);
  c ← match step_Compensation st with
      | None => Some None
      | Some c => Some <$> json_comp c
      end;
  Some (mkStep (step_ID st) (step_Type st) (step_Next st) (step_Action st) i c
          (step_Retry st) (step_Branches st)).
Definition json_def (d : WorkflowDefinition) : option WorkflowDefinition :=
  steps ← mapM json_step (def_Steps d);
  Some (mkDef (def_ID d) (def_Version d) (def_TenantID d) (def_Name d) (def_Description d)
          (def_Start d) (def_Entrypoints d) steps (def_Published d) (def_CreatedAt d)
          (def_CreatedBy d)).
Definition json_row (r : DecisionTableRow) : option DecisionTableRow :=
  t ← json_vars (row_Then r); Some (mkRow (row_When r) t).
(** [default_output] is [omitempty]: an empty default is not written. *)
Definition json_rule (r : RuleDefinition) : option RuleDefinition :=
  rows ← mapM json_row (Rows (rule_Spec r));
  out ← match DefaultOutput (rule_Spec r) with
        | None => Some None
        | Some m => if decide (m = ∅) then Some None else Some <$> json_vars m
        end;
  Some (mkRule (rule_ID r) (rule_RuleID r) (rule_Version r) (rule_TenantID r) (rule_Name r)
          (rule_RuleType r) (mkSpec (HitPolicy (rule_Spec r)) rows out) (rule_Published r)
          (rule_CreatedAt r) (rule_CreatedBy r)).
Definition json_task (t : UserTask) : option UserTask :=
  fs ← json_vars (task_FormSchema t);
  res ← json_vars (task_Result t);
  Some (mkTask (task_ID t) (task_RunID t) (task_StepID t) (task_Assignee t) (task_DueAt t)
          fs (task_SubmittedAt t) (task_SubmittedBy t) res).
Definition json_action (a : ActionRegistration) : option ActionRegistration :=
  i ← json_vars (act_InputSchema a);
  o ← json_vars (act_OutputSchema a);
  Some (mkAction (act_ID a) (act_Service a) (act_ActionName a) (act_Version a)
          (act_Description a) (act_Category a) (act_Compensable a) i o (act_ErrorCodes a)
          (act_DefaultRetry a) (act_DefaultTimeoutMS a) (act_Deprecated a)
          (act_RegisteredAt a) (act_ServiceVersion a) (act_DryRunSupported a)
          (act_LicenseGroup a) (act_Transport a) (act_Address a)).
Definition json_trigger (t : SagaTrigger) : option SagaTrigger :=
  c ← json_vars (trig_Config t);
  Some (mkTrigger (trig_ID t) (trig_TriggerType t) (trig_WorkflowID t) (trig_Version t) c
          (trig_Enabled t) (trig_TenantID t) (trig_CreatedAt t) (trig_CreatedBy t)
          (trig_NextFireAt t) (trig_LastFiredAt t)).
End Json.
