(* ===== verification/RedisDB.v ===== *)
(** Redis as [src/store/redis] uses it: the keys, the commands the store sends, the server
    as an interface with the documented effect of each command on what it answers, and the
    optimistic transactions of [store.go] (WATCH, MULTI, EXEC), with other clients acting
    between the read and the EXEC. *)
From S2P Require Import Prelude Values Domain World Rows Json.

(** ** Keys *)

(** The keys of the layout; an argument is a member string, a name or a topic. *)
Inductive rkey :=
| KRun (id : string) | KRuns | KByWorkflow (wf : string)
| KEvents (run : string) | KEvent (id : string)
| KSignals (run : string) | KWakeup | KAwait (topic : string)
| KChildren (parent step : string)
| KDef (id : string) | KDefByName (wf : string) | KDefs
| KRule (id : string) | KRuleByID (rule : string)
| KTask (id : string) | KTasks (run : string)
| KAction (ak : string) | KActions
| KTrigger (id : string) | KTriggers.

#[export] Instance rkey_eq_dec : EqDecision rkey.
Proof. solve_decision. Defined.

(** The arguments the code passes to [key]. *)
Definition key_parts (k : rkey) : list string :=
  match k with
  | KRun id => ["run"; id]
  | KRuns => ["idx"; "runs"]
  | KByWorkflow wf => ["idx"; "runs"; "byworkflow"; wf]
  | KEvents run => ["events"; run]
  | KEvent id => ["event"; id]
  | KSignals run => ["signals"; run]
  | KWakeup => ["idx"; "wakeup"]
  | KAwait topic => ["idx"; "awaitevent"; topic]
  | KChildren parent step => ["idx"; "children"; parent; step]
  | KDef id => ["def"; id]
  | KDefByName wf => ["def"; "byname"; wf]
  | KDefs => ["idx"; "defs"]
  | KRule id => ["rule"; id]
  | KRuleByID rule => ["rule"; "byid"; rule]
  | KTask id => ["usertask"; id]
  | KTasks run => ["idx"; "usertasks"; "byrun"; run]
  | KAction ak => ["action"; ak]
  | KActions => ["idx"; "actions"]
  | KTrigger id => ["trigger"; id]
  | KTriggers => ["idx"; "triggers"]
  end.

(** [Store.key]: the prefix, then the parts with a colon between them. *)
Fixpoint key_loop (i : nat) (k : string) (ps : list string) : string :=
  match ps with
  | [] => k
  | p :: ps => key_loop (S i) ((if decide (0 < i) then k +:+ ":" else k) +:+ p) ps
  end.
Definition key (prefix : string) (parts : list string) : string := key_loop 0 prefix parts.

#[export] Instance rkey_countable : Countable rkey.
Proof.
  refine (inj_countable' (λ k, match k with
    | KDefByName wf => ["defs"; wf]
    | KRuleByID rule => ["rules"; rule]
    | _ => key_parts k
    end) (λ ps, match ps with
    | ["run"; id] => KRun id
    | ["idx"; "runs"] => KRuns
    | ["idx"; "runs"; "byworkflow"; wf] => KByWorkflow wf
    | ["events"; run] => KEvents run
    | ["event"; id] => KEvent id
    | ["signals"; run] => KSignals run
    | ["idx"; "wakeup"] => KWakeup
    | ["idx"; "awaitevent"; topic] => KAwait topic
    | ["idx"; "children"; parent; step] => KChildren parent step
    | ["def"; id] => KDef id
    | ["defs"; wf] => KDefByName wf
    | ["idx"; "defs"] => KDefs
    | ["rule"; id] => KRule id
    | ["rules"; rule] => KRuleByID rule
    | ["usertask"; id] => KTask id
    | ["idx"; "usertasks"; "byrun"; run] => KTasks run
    | ["action"; ak] => KAction ak
    | ["idx"; "actions"] => KActions
    | ["trigger"; id] => KTrigger id
    | _ => KTriggers
    end) _). by intros [].
Defined.

(** ** The data *)

(** A text: a struct, or a plain string. *)
Inductive blob :=
| BRun (r : SagaRun) | BEvent (e : SagaRunEvent) | BSignal (s : SagaSignal)
| BDef (d : WorkflowDefinition) | BRule (r : RuleDefinition) | BTask (t : UserTask)
| BAction (a : ActionRegistration) | BTrigger (t : SagaTrigger) | BText (s : string).

(** ** Commands *)
Inductive cmd :=
| CSet (k : rkey) (b : blob) (keepTTL : bool)
| CDel (k : rkey)
| CRPush (k : rkey) (b : blob)
| CLRem (k : rkey) (s : string)
| CSAdd (k : rkey) (m : string)
| CSRem (k : rkey) (m : string)
| CZAdd (k : rkey) (score : spec_float) (m : string)
| CZRem (k : rkey) (m : string)
| CExpire (k : rkey) (ttl : Z).

Definition cmd_key (c : cmd) : rkey :=
  match c with
  | CSet k _ _ | CDel k | CRPush k _ | CLRem k _ | CSAdd k _ | CSRem k _
  | CZAdd k _ _ | CZRem k _ | CExpire k _ => k
  end.

Definition is_text (s : string) (b : blob) : bool :=
  match b with BText t => bool_decide (t = s) | _ => false end.

(** ** The server *)

(** The databases, what a command makes of one, and what the server answers of a key: its
    text, list, set or sorted set, absent and empty being the same; ZRANGE answers the
    members of a sorted set with their scores, in order. *)
Class RedisServer := {
  DB : Type;
  empty_db : DB;
  apply_cmd : cmd → DB → DB;
  get_text : DB → rkey → option blob;
  get_list : DB → rkey → list blob;
  get_set : DB → rkey → gset string;
  get_zset : DB → rkey → gmap string spec_float;   (* member, score *)
  zset_members : gmap string spec_float → list (string * spec_float)
}.

(** The documented effect of a command on each answer. *)
Definition cmd_text (c : cmd) (k : rkey) (old : option blob) : option blob :=
  if decide (cmd_key c = k) then
    match c with CSet _ b _ => Some b | CDel _ => None | _ => old end
  else old.
Definition cmd_list (c : cmd) (k : rkey) (old : list blob) : list blob :=
  if decide (cmd_key c = k) then
    match c with
    | CRPush _ b => old ++ [b]
    | CLRem _ m => filter (λ b, is_text m b = false) old
    | CDel _ => []
    | _ => old
    end
  else old.
Definition cmd_set (c : cmd) (k : rkey) (old : gset string) : gset string :=
  if decide (cmd_key c = k) then
    match c with
    | CSAdd _ m => {[m]} ∪ old
    | CSRem _ m => old ∖ {[m]}
    | CDel _ => ∅
    | _ => old
    end
  else old.
Definition cmd_zset (c : cmd) (k : rkey) (old : gmap string spec_float)
    : gmap string spec_float :=
  if decide (cmd_key c = k) then
    match c with
    | CZAdd _ sc m => <[m := sc]> old
    | CZRem _ m => delete m old
    | CDel _ => ∅
    | _ => old
    end
  else old.

(** A key is used with the commands of one type only.  Time to live runs out in no law. *)
Class RedisLaws `{RedisServer} := {
  text_cmd c d k : get_text (apply_cmd c d) k = cmd_text c k (get_text d k);
  list_cmd c d k : get_list (apply_cmd c d) k = cmd_list c k (get_list d k);
  set_cmd c d k : get_set (apply_cmd c d) k = cmd_set c k (get_set d k);
  zset_cmd c d k : get_zset (apply_cmd c d) k = cmd_zset c k (get_zset d k);
  text_empty k : get_text empty_db k = None;
  list_empty k : get_list empty_db k = [];
  set_empty k : get_set empty_db k = ∅;
  zset_empty k : get_zset empty_db k = ∅;
  zset_members_perm z : zset_members z ≡ₚ map_to_list z
}.

Section Server.
Context `{RedisServer}.

Definition apply_cmds (cs : list cmd) (d : DB) : DB := fold_left (λ d c, apply_cmd c d) cs d.

(** EXISTS. *)
Definition has_key (d : DB) (k : rkey) : Prop :=
  is_Some (get_text d k) ∨ get_list d k ≠ [] ∨ get_set d k ≠ ∅ ∨ get_zset d k ≠ ∅.
#[export] Instance has_key_dec d k : Decision (has_key d k).
Proof. unfold has_key. apply _. Defined.

(** A write to a watched key fails the transaction, also one that changes nothing (where the
    server would let it pass, so this model retries at least as often). *)
Definition touches (cs : list cmd) (k : rkey) : bool := existsb (λ c, bool_decide (cmd_key c = k)) cs.

(** ** The client *)

(** The server, what the other clients send between the read and the EXEC of each of this
    client's coming transactions, and the option [runTTL]. *)
Record Redis := mkRedis { db : DB; others : list (list cmd); runTTL : Z }.

Definition set_db (d : DB) (s : Redis) : Redis := mkRedis d (others s) (runTTL s).
End Server.
#[global] Arguments set_db {_} d s /.

(** What the function given to WATCH comes to: a result without an EXEC, or commands. *)
Inductive attempt A := Done (a : A) | Exec (cmds : list cmd) (a : A).
Arguments Done {A} a.
Arguments Exec {A} cmds a.

Section Client.
Context `{Env} `{JsonEnv} `{RedisServer}.
Abbreviation M := (M (World Redis)).

(** Commands sent in one pipeline. *)
Definition pipeline (cs : list cmd) : M unit := λ w,
  (tt, set_store (set_db (apply_cmds cs (db (w_store w))) (w_store w)) w).

(** [for i := 0; i < n; i++ { Watch(...) }] with [continue] on [TxFailedErr]; [None] when
    the budget runs out.  The variables [b] of the enclosing function, which the attempt
    assigns, keep their value from one attempt to the next. *)
Fixpoint watch {A B} (n : nat) (k : rkey) (body : DB → B → attempt A * B) (b : B)
    : M (option A * B) :=
  match n with
  | O => ret (None, b)
  | S n =>
      let* s := get_store in
      match body (db s) b with
      | (Done a, b) => ret (Some a, b)
      | (Exec cmds a, b) =>
          let o := default [] (head (others s)) in
          let d := apply_cmds o (db s) in
          if touches o k then
            do* put_store (mkRedis d (tail (others s)) (runTTL s)) in watch n k body b
          else
            do* put_store (mkRedis (apply_cmds cmds d) (tail (others s)) (runTTL s)) in
            ret (Some a, b)
      end
  end.

Definition txMaxRetries : nat := 50.

(** [getJSON]: absent, or decoded, or a text of another shape. *)
Definition getJSON {T} (as_ : blob → option T) (k : rkey) (d : DB) : res (option T) :=
  match get_text d k with
  | None => Ok None
  | Some b => match as_ b with Some t => Ok (Some t) | None => Err (EMsg "json: cannot unmarshal") end
  end.
Definition as_run b := match b with BRun r => Some r | _ => None end.
Definition as_event b := match b with BEvent e => Some e | _ => None end.
Definition as_def b := match b with BDef d => Some d | _ => None end.
Definition as_rule b := match b with BRule r => Some r | _ => None end.
Definition as_task b := match b with BTask t => Some t | _ => None end.
Definition as_action b := match b with BAction a => Some a | _ => None end.
Definition as_trigger b := match b with BTrigger t => Some t | _ => None end.
Definition as_text b := match b with BText s => Some s | _ => None end.

(** What [mutate] comes to: [errAbortNoWrite], another error, or the changed run and the
    commands it queued. *)
Inductive mutation := Abort | Failed (e : err) | Write (r : SagaRun) (cmds : list cmd).

(** The function [txRun] gives to WATCH. *)
Definition tx_attempt {B} (runID : uuid) (mutate : DB → SagaRun → B → mutation * B)
    (d : DB) (b : B) : attempt (res unit) * B :=
  let rk := KRun (uuid_string runID) in
  match getJSON as_run rk d with
  | Err e => (Done (Err e), b)
  | Ok None => (Done (Err (not_found_run runID)), b)
  | Ok (Some r) =>
      let '(m, b) := mutate d r b in
      (match m with
       | Abort => Done (Ok tt)
       | Failed e => Done (Err e)
       | Write r' cmds =>
           match json_run r' with
           | None => Done (Err json_err)
           | Some j => Exec (cmds ++ [CSet rk (BRun j) true]) (Ok tt)
           end
       end, b)
  end.

Definition txRun {B} (runID : uuid) (mutate : DB → SagaRun → B → mutation * B) (b : B)
    : M (res unit * B) :=
  let* o := watch txMaxRetries (KRun (uuid_string runID)) (tx_attempt runID mutate) b in
  ret (default (Err (EMsg ("redis: tx retry budget exhausted for run " +:+
                           uuid_string runID))) o.1, o.2).

(** A [mutate] that only looks at the run. *)
Definition txRun_pure (runID : uuid) (f : SagaRun → mutation) : M (res unit) :=
  let* o := txRun runID (λ _ r (_ : unit), (f r, tt)) tt in ret o.1.
End Client.
