(* ===== verification/Redis.v ===== *)
(** The Redis store: the operations of [src/store/redis], file by file, and its [Store]
    instance.  Commands of one pipeline are applied together; [RedisDB.watch] is where
    other clients come in. *)
From S2P Require Import Prelude Values Domain World StoreApi Rows MemStore Json RedisDB.

Section Redis.
Context `{Env} `{JsonEnv} `{RedisServer}.
Abbreviation M := (M (World Redis)).

(** Answers of the server. *)
Definition read {A} (f : DB → A) : M A := λ w, (f (db (w_store w)), w).
(** SMEMBERS: in any order. *)
Definition SMembers (k : rkey) : M (list string) :=
  read (λ d, (range_map (gset_to_gmap tt (get_set d k))).*1).
Definition LRange (k : rkey) : M (list blob) := read (λ d, get_list d k).
Definition MGet (ks : list rkey) : M (list (option blob)) := read (λ d, (λ k, get_text d k) <$> ks).
Definition ZRange (k : rkey) : M (list string) := read (λ d, (zset_members (get_zset d k)).*1).
Definition ZRangeByScore (k : rkey) (max : spec_float) : M (list string) :=
  read (λ d, (filter (λ ms, f_leb ms.2 max = true) (zset_members (get_zset d k))).*1).

(** Decode what MGET answered: absent keys are skipped, another text is an error. *)
Fixpoint decode_all {T} (as_ : blob → option T) (vs : list (option blob)) : res (list T) :=
  match vs with
  | [] => Ok []
  | None :: vs => decode_all as_ vs
  | Some b :: vs =>
      match as_ b with
      | None => Err (EMsg "json: cannot unmarshal")
      | Some t => match decode_all as_ vs with Ok ts => Ok (t :: ts) | Err e => Err e end
      end
  end.
Definition get {T} (as_ : blob → option T) (k : rkey) : M (res (option T)) := read (getJSON as_ k).

(** ** ttl.go *)
Definition applyTerminalTTL (ttl : Z) (runID : uuid) : list cmd :=
  if decide (ttl ≤ 0)%Z then []
  else
    let id := uuid_string runID in
    [CExpire (KRun id) ttl; CExpire (KEvents id) ttl; CExpire (KSignals id) ttl;
     CExpire (KTasks id) ttl].

(** ** runs.go *)
Definition redis_CreateRun (run : SagaRun) : M (res unit) :=
  match json_run run with
  | None => ret (Err json_err)
  | Some j =>
      let id := uuid_string (run_ID run) in
      do* pipeline [CSet (KRun id) (BRun j) false; CZAdd KRuns (f_of_Z (run_StartedAt run)) id;
                    CSAdd (KByWorkflow (run_WorkflowID run)) id] in
      ret (Ok tt)
  end.

Definition redis_GetRun (id : uuid) : M (res SagaRun) :=
  let* r := get as_run (KRun (uuid_string id)) in
  ret (match r with
       | Err e => Err e
       | Ok None => Err (not_found_run id)
       | Ok (Some r) => Ok r
       end).

(** [if r.AwaitedEventTopic != nil { p.SRem(idx:awaitevent:topic, id) }]. *)
Definition srem_topic (id : string) (r : SagaRun) : list cmd :=
  match run_AwaitedEventTopic r with Some t => [CSRem (KAwait t) id] | None => [] end.
(** The same after [p.ZRem(idx:wakeup, id)]. *)
Definition drop_indexes (id : string) (r : SagaRun) : list cmd :=
  CZRem KWakeup id :: srem_topic id r.

Definition redis_UpdateRunState (id : uuid) (st : RunState) (currentStep : string)
    : M (res unit) :=
  let* s := get_store in
  txRun_pure id (λ r,
    Write (row_UpdateRunState st currentStep r)
      (if IsTerminal st then drop_indexes (uuid_string id) r ++ applyTerminalTTL (runTTL s) id
       else [])).

(** *** User tasks (usertasks.go), which Cancel uses *)
Definition redis_ListUserTasksByRun (runID : uuid) : M (res (list UserTask)) :=
  let* members := SMembers (KTasks (uuid_string runID)) in
  let* vals := MGet (KTask <$> members) in
  ret (match decode_all as_task vals with
       | Err e => Err e
       | Ok out => Ok (insertion_sort (λ a b, uuidLess (task_ID a) (task_ID b)) out)
       end).

Definition redis_CreateUserTask (task : UserTask) : M (res unit) :=
  match json_task task with
  | None => ret (Err json_err)
  | Some j =>
      let id := uuid_string (task_ID task) in
      do* pipeline [CSet (KTask id) (BTask j) false;
                    CSAdd (KTasks (uuid_string (task_RunID task))) id] in
      ret (Ok tt)
  end.

Definition redis_GetUserTask (taskID : uuid) : M (res UserTask) :=
  let* t := get as_task (KTask (uuid_string taskID)) in
  ret (match t with
       | Err e => Err e
       | Ok None => Err (ErrNotFound "user_task" (uuid_string taskID))
       | Ok (Some t) => Ok t
       end).

Definition redis_SubmitUserTask (taskID : uuid) (submittedBy : string) (result : Vars)
    : M (res unit) :=
  let* t := get as_task (KTask (uuid_string taskID)) in
  match t with
  | Err e => ret (Err e)
  | Ok None => ret (Err (ErrNotFound "user_task" (uuid_string taskID)))
  | Ok (Some t) =>
      let* now := timeNow in
      match json_task (set_task_Result result (set_submitted (Some now) submittedBy t)) with
      | None => ret (Err json_err)
      | Some j => do* pipeline [CSet (KTask (uuid_string taskID)) (BTask j) false] in ret (Ok tt)
      end
  end.

(** *** Events (events.go) *)
Definition redis_AppendEvent (evt : SagaRunEvent) : M (res unit) :=
  match json_event evt with
  | None => ret (Err json_err)
  | Some j =>
      do* pipeline [CRPush (KEvents (uuid_string (ev_RunID evt))) (BEvent j);
                    CSet (KEvent (uuid_string (ev_ID evt))) (BEvent j) false] in
      ret (Ok tt)
  end.
(** [json.Unmarshal]: the numbers of the metadata are floats. *)
Definition plain_event (e : SagaRunEvent) : SagaRunEvent :=
  with_Metadata (plain_val <$> ev_Metadata e) e.
Definition redis_ListEventsByRun (runID : uuid) : M (res (list SagaRunEvent)) :=
  let* items := LRange (KEvents (uuid_string runID)) in
  ret (decode_all (λ b, plain_event <$> as_event b) (Some <$> items)).
Definition redis_GetEventByID (id : uuid) : M (res SagaRunEvent) :=
  let* e := get as_event (KEvent (uuid_string id)) in
  ret (match e with
       | Err e => Err e
       | Ok None => Err (ErrNotFound "saga_run_event" (uuid_string id))
       | Ok (Some e) => Ok e
       end).

(** *** Cancel and failure *)
(** The loop that closes the open user tasks. *)
Fixpoint close_tasks (now : Z) (tasks : list UserTask) : M (res unit) :=
  match tasks with
  | [] => ret (Ok tt)
  | t :: tasks =>
      if SubmittedAt_nil t then
        match json_task (set_submitted (Some now) "system:run-cancelled" t) with
        | None => ret (Err json_err)
        | Some j =>
            do* pipeline [CSet (KTask (uuid_string (task_ID t))) (BTask j) false] in
            close_tasks now tasks
        end
      else close_tasks now tasks
  end.

(** The function [Cancel] gives to [txRun]; it assigns [cancelled] and [step]. *)
Definition cancel_mutate (ttl now : Z) (runID : uuid) (reason : string) (_ : DB) (r : SagaRun)
    (b : bool * string) : mutation * (bool * string) :=
  if IsTerminal (run_State r) then (Write r [], b)
  else (Write (row_Cancel now reason r)
          (drop_indexes (uuid_string runID) r ++ applyTerminalTTL ttl runID),
        (true, run_CurrentStep r)).

Definition redis_Cancel (runID : uuid) (reason : string) : M (res unit) :=
  let* s := get_store in
  let* now := timeNow in
  let* o := txRun runID (cancel_mutate (runTTL s) now runID reason) (false, "") in
  let '(err, (cancelled, step)) := o in
  try* _ := ret err else id in
  if cancelled : bool then
    try* tasks := redis_ListUserTasksByRun runID else id in
    let* now := timeNow in
    try* _ := close_tasks now tasks else id in
    let* evt := NewEvent runID step 0 EventRunCancelled "engine" in
    redis_AppendEvent (if decide (reason = "") then evt
                       else with_Metadata {["reason" := VStr reason]} evt)
  else ret (Ok tt).

Definition redis_MarkRunFailed (runID : uuid) (currentStep lastError : string) : M (res unit) :=
  let* s := get_store in
  let* now := timeNow in
  txRun_pure runID (λ r,
    if IsTerminal (run_State r) then Write r []
    else Write (row_MarkRunFailed now currentStep lastError r)
           (drop_indexes (uuid_string runID) r ++ applyTerminalTTL (runTTL s) runID)).

Definition redis_UpdateRunVariables (id : uuid) (merge : Vars) : M (res unit) :=
  txRun_pure id (λ r,
    Write (set_run_Variables (merge_entries (range_map merge) (run_Variables r)) r) []).

(** ** pause.go *)
Definition zadd_wakeup (id : string) (deadline : option Z) : list cmd :=
  match deadline with Some d => [CZAdd KWakeup (f_of_Z d) id] | None => [] end.

Definition redis_SetPausedWithWakeup (runID : uuid) (wakeupAt : Z) : M (res unit) :=
  txRun_pure runID (λ r,
    Write (set_run_WakeupAt (Some wakeupAt) (set_run_State RunStatePaused r))
      (zadd_wakeup (uuid_string runID) (Some wakeupAt))).

Definition redis_SetPausedAwaitingSignal (runID : uuid) (signalName : string)
    (deadline : option Z) : M (res unit) :=
  txRun_pure runID (λ r,
    Write (row_SetPausedAwaitingSignal signalName deadline r)
      (zadd_wakeup (uuid_string runID) deadline)).

Definition redis_SetPausedAwaitingEventWithDeadline (runID : uuid) (topic : string)
    (headers : gmap string string) (deadline : option Z) : M (res unit) :=
  txRun_pure runID (λ r,
    Write (row_SetPausedAwaitingEvent topic headers deadline r)
      (CSAdd (KAwait topic) (uuid_string runID) :: zadd_wakeup (uuid_string runID) deadline)).

Definition redis_ClearPause (runID : uuid) : M (res unit) :=
  txRun_pure runID (λ r,
    Write (row_ClearPause r)
      (srem_topic (uuid_string runID) r ++ [CZRem KWakeup (uuid_string runID)])).

Definition redis_WakeFromExternal (runID : uuid) : M (res unit) :=
  txRun_pure runID (λ r,
    Write (row_clear_awaits r)
      (srem_topic (uuid_string runID) r ++ [CZRem KWakeup (uuid_string runID)])).

(** The paused runs among the members, in their order.  A member that is no uuid
    leaves the zero uuid and the empty key. *)
Definition paused_of (mv : string * option blob) : option uuid :=
  match mv.2 ≫= as_run with
  | Some r => if decide (run_State r = RunStatePaused)
              then match uuid_parse mv.1 with Ok u => Some u | Err _ => None end
              else None
  | None => None
  end.
Definition redis_FindRunsByDueWakeup (now : Z) (limit : nat) : M (res (list uuid)) :=
  let* members := ZRangeByScore KWakeup (f_of_Z now) in
  let* vals := MGet (KRun <$> members) in
  ret (Ok (take limit (omap paused_of (zip members vals)))).

Definition plain_run (r : SagaRun) : SagaRun :=
  with_run_any (plain_val <$> run_Inputs r) (plain_val <$> run_Variables r) r.
Definition redis_FindRunsByAwaitedEvent (topic : string) : M (res (list SagaRun)) :=
  let* members := SMembers (KAwait topic) in
  let* vals := MGet (KRun <$> members) in
  ret (Ok (filter (awaits_topic topic) (plain_run <$> omap (λ v, v ≫= as_run) vals))).

(** A signal decoded by [json.Unmarshal], as its next text has it. *)
Definition as_plain_signal (b : blob) : option SagaSignal :=
  match b with
  | BSignal s =>
      if decodable (VMap (sig_Payload s)) then
        p ← json_vars (plain_val <$> sig_Payload s);
        Some (mkSignal (sig_ID s) (sig_RunID s) (sig_SignalName s) p (sig_ReceivedAt s)
                (sig_ConsumedAt s))
      else None
  | _ => None
  end.

(** The function [TryConsumeAwaitedSignal] gives to [txRun]; it assigns [consumed].  The
    signals are read outside the transaction. *)
Definition consume_mutate (now : Z) (runID : uuid) (signalName : string) (d : DB)
    (r : SagaRun) (consumed : bool) : mutation * bool :=
  if decide (run_State r = RunStatePaused ∧ run_AwaitedSignal r = Some signalName) then
    let id := uuid_string runID in
    let drops := srem_topic id r ++ [CZRem KWakeup id] in
    let raw := get_list d (KSignals id) in
    match decode_all as_plain_signal (Some <$> raw) with
    | Err e => (Failed e, consumed)
    | Ok sigs =>
        let rewrite :=
          match sigs with
          | [] => []
          | _ => CDel (KSignals id) ::
                 ((λ sg, CRPush (KSignals id) (BSignal (consume_signal now signalName sg)))
                    <$> sigs)
          end in
        (Write (row_clear_awaits r) (drops ++ rewrite), true)
    end
  else (Abort, consumed).

Definition redis_TryConsumeAwaitedSignal (runID : uuid) (signalName : string)
    : M (res bool) :=
  let* now := timeNow in
  let* o := txRun runID (consume_mutate now runID signalName) false in
  ret (match o.1 with Err e => Err e | Ok _ => Ok o.2 end).

Definition redis_AppendSignal (sg : SagaSignal) : M (res unit) :=
  match json_signal sg with
  | None => ret (Err json_err)
  | Some j =>
      do* pipeline [CRPush (KSignals (uuid_string (sig_RunID sg))) (BSignal j)] in ret (Ok tt)
  end.

(** ** children.go *)
Definition spawn_cmds (parentID : uuid) (parentStepID : string) (wf : string) (child : SagaRun)
    : list cmd :=
  let id := uuid_string (run_ID child) in
  [CSet (KRun id) (BRun child) false; CZAdd KRuns (f_of_Z (run_StartedAt child)) id;
   CSAdd (KByWorkflow wf) id; CSAdd (KChildren (uuid_string parentID) parentStepID) id].

(** The function given to WATCH: the newest stored definition of that name, or the one
    handed over under a new id. *)
Definition spawn_attempt (parentID : uuid) (parentStepID : string) (def : WorkflowDefinition)
    (newDefID : uuid) (child : uuid → SagaRun) (d : DB) (_ : unit) : attempt (res uuid) * unit :=
  let byNameKey := KDefByName (def_ID def) in
  let spawn (defStoredID : uuid) (pre : list cmd) :=
    match json_run (child defStoredID) with
    | None => Done (Err json_err)
    | Some j => Exec (pre ++ spawn_cmds parentID parentStepID (def_ID def) j) (Ok (run_ID j))
    end in
  (match last (get_list d byNameKey) with
   | Some b =>
       match as_text b with
       | None => Done (Err (EMsg "invalid UUID"))
       | Some s => match uuid_parse s with Err e => Done (Err e) | Ok u => spawn u [] end
       end
   | None =>
       match json_def def with
       | None => Done (Err json_err)
       | Some defJ =>
           spawn newDefID [CSet (KDef (uuid_string newDefID)) (BDef defJ) false;
                           CRPush byNameKey (BText (uuid_string newDefID))]
       end
   end, tt).

Definition redis_SpawnChildRunAt (parentID : uuid) (parentStepID branchKey : string)
    (def : WorkflowDefinition) (inputs : Vars) (startStep : string) : M (res uuid) :=
  let* newDefID := uuidNew in
  let* childID := uuidNew in
  match json_def def with
  | None => ret (Err json_err)
  | Some _ =>
      let* _ := uuidNew in   (* the id [NewSagaRun] draws, replaced by [childID] *)
      let* now := timeNow in
      let child did :=
        let child := NewSagaRun childID now (def_ID def) did None inputs in
        let child := if decide (startStep = "") then child
                     else set_run_CurrentStep startStep child in
        set_run_ParentBranchID (Some branchKey)
          (set_run_ParentStepID (Some parentStepID)
            (set_run_ParentRunID (Some parentID) child)) in
      let* o := watch txMaxRetries (KDefByName (def_ID def))
                  (spawn_attempt parentID parentStepID def newDefID child) tt in
      ret (default (Err (EMsg ("redis: tx retry budget exhausted for child spawn under parent "
                               +:+ uuid_string parentID))) o.1)
  end.

Definition redis_ListChildrenByParent (parentID : uuid) (parentStepID : string)
    : M (res (list SagaRun)) :=
  let* members := SMembers (KChildren (uuid_string parentID) parentStepID) in
  let* vals := MGet (KRun <$> members) in
  ret (decode_all as_run vals).

Definition redis_PushTryCatch (runID : uuid) (frame : TryCatchFrame) : M (res unit) :=
  txRun_pure runID (λ r,
    if decide (maxDepth ≤ length (run_TryCatchStack r)) then
      Failed (EMsg ("try_catch max nesting depth 3 exceeded for run " +:+ uuid_string runID))
    else Write (set_run_TryCatchStack (run_TryCatchStack r ++ [frame]) r) []).

(** The function [PopTryCatch] gives to [txRun]; it assigns [popped] and [found]. *)
Definition pop_mutate (_ : DB) (r : SagaRun) (popped : option TryCatchFrame)
    : mutation * option TryCatchFrame :=
  match last (run_TryCatchStack r) with
  | None => (Abort, popped)
  | Some top =>
      (Write (set_run_TryCatchStack
                (take (pred (length (run_TryCatchStack r))) (run_TryCatchStack r)) r) [],
       Some top)
  end.
Definition redis_PopTryCatch (runID : uuid) : M (res (option TryCatchFrame)) :=
  let* o := txRun runID pop_mutate None in
  ret (match o.1 with Err e => Err e | Ok _ => Ok o.2 end).

(** ** definitions.go *)
Definition redis_UpsertWorkflowDefinition (def : WorkflowDefinition) : M (res uuid) :=
  let* id := uuidNew in
  match json_def def with
  | None => ret (Err json_err)
  | Some j =>
      do* pipeline [CSet (KDef (uuid_string id)) (BDef j) false;
                    CRPush (KDefByName (def_ID def)) (BText (uuid_string id));
                    CSAdd KDefs (uuid_string id)] in
      ret (Ok id)
  end.

Definition redis_ListWorkflowDefinitions (f : DefinitionFilter)
    : M (res (list WorkflowDefinition)) :=
  let* members := SMembers KDefs in
  let* vals := MGet (KDef <$> members) in
  ret (match decode_all as_def vals with
       | Err e => Err e
       | Ok ds => paginate (df_Limit f) (df_Offset f) (Some 500%Z)
                    (insertion_sort def_less (filter (λ d, def_matches f d = true) ds))
       end).

Definition redis_GetWorkflowDefinition (id : uuid) : M (res WorkflowDefinition) :=
  let* d := get as_def (KDef (uuid_string id)) in
  ret (match d with
       | Err e => Err e
       | Ok None => Err (ErrNotFound "workflow_definition" (uuid_string id))
       | Ok (Some d) => Ok d
       end).

(** [for i := len(ids)-1; i >= 0; i--]: the first published one, else the first there is;
    [ids] newest first. *)
Fixpoint newest_published {T} (load : string → res (option T)) (published : T → bool)
    (ids : list blob) (fallback : option T) : res (option T) :=
  match ids with
  | [] => Ok fallback
  | b :: ids =>
      match load (default "" (as_text b)) with
      | Err e => Err e
      | Ok None => newest_published load published ids fallback
      | Ok (Some t) =>
          if published t then Ok (Some t)
          else newest_published load published ids
                 (match fallback with None => Some t | f => f end)
      end
  end.

Definition redis_GetPublishedWorkflowByID (workflowID : string) (_ : option uuid)
    : M (res WorkflowDefinition) :=
  let* ids := LRange (KDefByName workflowID) in
  let* d := read (λ d, newest_published (λ id, getJSON as_def (KDef id) d) def_Published
                         (rev ids) None) in
  ret (match d with
       | Err e => Err e
       | Ok None => Err (ErrNotFound "workflow_definition" workflowID)
       | Ok (Some d) => Ok d
       end).

(** ** rules.go *)
Definition rule_attempt (rk : rkey) (j : RuleDefinition) (id : uuid) (d : DB) (_ : unit)
    : attempt (res unit) * unit :=
  (match getJSON as_rule rk d with
   | Err e => Done (Err e)
   | Ok o =>
       Exec (match o with
             | Some existing => [CLRem (KRuleByID (rule_RuleID existing)) (uuid_string id)]
             | None => []
             end ++
             [CSet rk (BRule j) false;
              CRPush (KRuleByID (rule_RuleID j)) (BText (uuid_string id))]) (Ok tt)
   end, tt).
Definition redis_UpsertRuleDefinition (def : RuleDefinition) : M (res uuid) :=
  let* id := (if decide (rule_ID def = uuid_Nil) then uuidNew else ret (rule_ID def)) in
  match json_rule (set_rule_ID id def) with
  | None => ret (Err json_err)
  | Some j =>
      let rk := KRule (uuid_string id) in
      let* o := watch txMaxRetries rk (rule_attempt rk j id) tt in
      ret (match o.1 with
           | None => Err (EMsg ("redis: tx retry budget exhausted for rule " +:+ uuid_string id))
           | Some (Err e) => Err e
           | Some (Ok _) => Ok id
           end)
  end.

Definition redis_GetPublishedRuleByID (ruleID : string) (_ : option uuid)
    : M (res RuleDefinition) :=
  let* ids := LRange (KRuleByID ruleID) in
  let* r := read (λ d, newest_published (λ id, getJSON as_rule (KRule id) d) rule_Published
                         (rev ids) None) in
  ret (match r with
       | Err e => Err e
       | Ok None => Err (ErrNotFound "rule_definition" ruleID)
       | Ok (Some r) => Ok r
       end).

(** ** registry.go *)
Definition actionKey (service actionName : string) (version : Z) : string :=
  service +:+ "." +:+ actionName +:+ ":" +:+ itoa version.

Definition redis_UpsertActionRegistration (reg : ActionRegistration) : M (res unit) :=
  let* id := (if decide (act_ID reg = uuid_Nil) then uuidNew else ret (act_ID reg)) in
  let* now := timeNow in
  let at_ := match act_RegisteredAt reg with None => Some now | t => t end in
  let ak := actionKey (act_Service reg) (act_ActionName reg) (act_Version reg) in
  match json_action (with_act_ids id at_ reg) with
  | None => ret (Err json_err)
  | Some j => do* pipeline [CSet (KAction ak) (BAction j) false; CSAdd KActions ak] in ret (Ok tt)
  end.

Definition redis_GetAction (service name : string) (version : Z)
    : M (res ActionRegistration) :=
  let ak := actionKey service name version in
  let* a := get as_action (KAction ak) in
  ret (match a with
       | Err e => Err e
       | Ok None => Err (ErrNotFound "action_registration" ak)
       | Ok (Some a) => Ok a
       end).

Definition redis_ListActions (f : ActionFilter) : M (res (list ActionRegistration)) :=
  let* members := SMembers KActions in
  let* vals := MGet (KAction <$> members) in
  ret (match decode_all as_action vals with
       | Err e => Err e
       | Ok l => Ok (filter (λ a, act_matches f a = true) l)
       end).

Definition redis_MarkAwaitingAction (runID : uuid) (dispatch : string) (attempt : Z)
    : M (res unit) :=
  txRun_pure runID (λ r,
    if decide (run_CurrentAttempt r = attempt ∧ run_AwaitedActionDispatch r = Some dispatch)
    then Abort
    else Write (set_run_CurrentAttempt attempt (set_run_AwaitedActionDispatch (Some dispatch)
                  (set_run_State RunStatePaused r))) []).

(** The clock is read once: it does not move while the transaction is retried. *)
Definition redis_CompleteAction (runID : uuid) (attempt : Z) (result : Vars)
    : M (res unit) :=
  let* now := timeNow in
  txRun_pure runID (λ r,
    if decide (run_CurrentAttempt r ≠ attempt) then Abort
    else Write (row_CompleteAction now result r) (zadd_wakeup (uuid_string runID) (Some now))).

(** The function [FailAction] gives to [txRun]; it assigns [dispatch] and [currentStep]. *)
Definition fail_mutate (ttl : Z) (runID : uuid) (attempt : Z) (_ : DB) (r : SagaRun)
    (b : string * string) : mutation * (string * string) :=
  if decide (run_CurrentAttempt r ≠ attempt) then (Abort, b)
  else
    (Write (set_run_State RunStateFailed (set_run_AwaitedActionDispatch None r))
       (drop_indexes (uuid_string runID) r ++ applyTerminalTTL ttl runID),
     (default b.1 (run_AwaitedActionDispatch r), run_CurrentStep r)).

Definition redis_FailAction (runID : uuid) (attempt : Z) (code message : string)
    (retryable : bool) : M (res unit) :=
  let* s := get_store in
  let* o := txRun runID (fail_mutate (runTTL s) runID attempt) ("", "") in
  let '(err, (dispatch, currentStep)) := o in
  try* _ := ret err else id in
  let* evt := NewEvent runID currentStep attempt EventStepFailed "engine" in
  redis_AppendEvent (with_Metadata
    (list_to_map [("code", VStr code); ("message", VStr message);
                  ("retryable", VBool retryable); ("action", VStr dispatch)]) evt).

(** ** triggers.go, trigger_fires.go *)
Definition redis_UpsertTrigger (trigger : SagaTrigger) : M (res uuid) :=
  let* id := (if decide (trig_ID trigger = uuid_Nil) then uuidNew else ret (trig_ID trigger)) in
  let* now := timeNow in
  let at_ := match trig_CreatedAt trigger with None => Some now | t => t end in
  let t := mkTrigger id (trig_TriggerType trigger) (trig_WorkflowID trigger)
             (trig_Version trigger) (trig_Config trigger) (trig_Enabled trigger)
             (trig_TenantID trigger) at_ (trig_CreatedBy trigger)
             (trig_NextFireAt trigger) (trig_LastFiredAt trigger) in
  match json_trigger t with
  | None => ret (Err json_err)
  | Some j =>
      do* pipeline [CSet (KTrigger (uuid_string id)) (BTrigger j) false;
                    CSAdd KTriggers (uuid_string id)] in
      ret (Ok id)
  end.

Definition redis_GetTrigger (id : uuid) : M (res SagaTrigger) :=
  let* t := get as_trigger (KTrigger (uuid_string id)) in
  ret (match t with
       | Err e => Err e
       | Ok None => Err (ErrNotFound "saga_trigger" (uuid_string id))
       | Ok (Some t) => Ok t
       end).

Definition load_triggers : M (res (list SagaTrigger)) :=
  let* members := SMembers KTriggers in
  let* vals := MGet (KTrigger <$> members) in
  ret (decode_all as_trigger vals).

Definition redis_ListTriggers (f : TriggerFilter) : M (res (list SagaTrigger)) :=
  let* l := load_triggers in
  ret (match l with
       | Err e => Err e
       | Ok l => Ok (filter (λ t, trig_matches f t = true) l)
       end).

Definition redis_DeleteTrigger (id : uuid) : M (res unit) :=
  let* exists_ := read (λ d, bool_decide (has_key d (KTrigger (uuid_string id)))) in
  if exists_ : bool then
    do* pipeline [CDel (KTrigger (uuid_string id)); CSRem KTriggers (uuid_string id)] in
    ret (Ok tt)
  else ret (Err (ErrNotFound "saga_trigger" (uuid_string id))).

Definition redis_ListDueCronTriggers (now limit : Z) : M (res (list SagaTrigger)) :=
  let* l := load_triggers in
  ret (match l with
       | Err e => Err e
       | Ok l =>
           let out := insertion_sort fires_before (filter (λ t, cron_due now t = true) l) in
           Ok (if decide (0 < limit ∧ limit < Z.of_nat (length out))%Z
               then take (Z.to_nat limit) out else out)
       end).

(** The function given to WATCH; [won] is local to an attempt. *)
Definition claim_attempt (k : rkey) (now expectedNextFire newNextFire : Z) (d : DB) (_ : unit)
    : attempt (res bool) * unit :=
  (match getJSON as_trigger k d with
   | Err e => Done (Err e)
   | Ok None => Done (Ok false)
   | Ok (Some t) =>
       if decide (trig_NextFireAt t = Some expectedNextFire) then
         match json_trigger (set_fire_times (Some newNextFire) (Some now) t) with
         | None => Done (Err json_err)
         | Some j => Exec [CSet k (BTrigger j) true] (Ok true)
         end
       else Done (Ok false)
   end, tt).
Definition redis_ClaimCronFire (id : uuid) (expectedNextFire newNextFire : Z)
    : M (res bool) :=
  let k := KTrigger (uuid_string id) in
  let* now := timeNow in
  let* o := watch txMaxRetries k (claim_attempt k now expectedNextFire newNextFire) tt in
  ret (default (Err (EMsg ("redis: ClaimCronFire tx retry budget exhausted for " +:+
                           uuid_string id))) o.1).

Definition redis_RecordTriggerFire (_ : uuid) (_ : string) (_ : option uuid) (_ : string)
    : M (res unit) := ret (Ok tt).

(** ** query.go *)
Definition loadCandidates (workflowID : string) : M (res (list SagaRun)) :=
  let* members := (if decide (workflowID = "") then ZRange KRuns
                   else SMembers (KByWorkflow workflowID)) in
  let* vals := MGet (KRun <$> members) in
  ret (decode_all as_run vals).

(** The map is keyed by the text of the id, which determines it. *)
Definition redis_buildTriggerTypeMap : M (gmap uuid string) :=
  let* members := SMembers KTriggers in
  let* vals := MGet (KTrigger <$> members) in
  ret (list_to_map (rev ((λ t, (trig_ID t, trig_TriggerType t))
                           <$> omap (λ v, v ≫= as_trigger) vals))).

Definition redis_filterRuns (rs : list SagaRun) (f : RunFilter) (types : gmap uuid string)
    : list SagaRun :=
  insertion_sort started_after (filter (λ r, run_matches f types r = true) rs).

Definition redis_ListRuns (f : RunFilter) : M (res (list SagaRun)) :=
  try* candidates := loadCandidates (rf_WorkflowID f) else id in
  let* types := redis_buildTriggerTypeMap in
  ret (paginate (rf_Limit f) (rf_Offset f) None (redis_filterRuns candidates f types)).

Definition redis_CountRuns (f : RunFilter) : M (res Z) :=
  try* candidates := loadCandidates (rf_WorkflowID f) else id in
  let* types := redis_buildTriggerTypeMap in
  ret (Ok (Z.of_nat (length (redis_filterRuns candidates f types)))).

(** One round of the loop: the row so far, and the (succeeded, failed) counts. *)
Definition redis_stats_step (window : Z) (acc : WorkflowStats * (Z * Z)) (r : SagaRun)
    : WorkflowStats * (Z * Z) :=
  let '(st, (ok, ko)) := acc in
  let last := match st_LastRunAt st with
              | Some t => if (t <? run_StartedAt r)%Z then Some (run_StartedAt r) else Some t
              | None => Some (run_StartedAt r)
              end in
  let inflight := (st_InFlight st + if IsTerminal (run_State r) then 0 else 1)%Z in
  let st := mkStats (st_WorkflowID st) (st_SuccessRate24h st) last inflight in
  if (run_StartedAt r <? window)%Z then (st, (ok, ko))
  else match run_State r with
       | RunStateSucceeded => (st, (ok + 1, ko)%Z)
       | RunStateFailed => (st, (ok, ko + 1)%Z)
       | _ => (st, (ok, ko))
       end.
Definition redis_StatsForWorkflow (workflowID : string) : M (res WorkflowStats) :=
  let* members := SMembers (KByWorkflow workflowID) in
  let* vals := MGet (KRun <$> members) in
  let* now := timeNow in
  let '(st, (ok, ko)) :=
    fold_left (redis_stats_step (now - day_ns)) (omap (λ v, v ≫= as_run) vals)
      (mkStats workflowID None None 0, (0, 0)%Z) in
  let total := (ok + ko)%Z in
  ret (Ok (if decide (0 < total)%Z
           then mkStats (st_WorkflowID st) (Some (ok, total)) (st_LastRunAt st) (st_InFlight st)
           else st)).

#[export] Instance redis_Store : Store Redis := {|
  GetWorkflowDefinition := redis_GetWorkflowDefinition;
  GetPublishedWorkflowByID := redis_GetPublishedWorkflowByID;
  UpsertWorkflowDefinition := redis_UpsertWorkflowDefinition;
  CreateRun := redis_CreateRun;
  GetRun := redis_GetRun;
  UpdateRunState := redis_UpdateRunState;
  CancelRun := redis_Cancel;
  MarkRunFailed := redis_MarkRunFailed;
  AppendEvent := redis_AppendEvent;
  ListEventsByRun := redis_ListEventsByRun;
  GetPublishedRuleByID := redis_GetPublishedRuleByID;
  UpdateRunVariables := redis_UpdateRunVariables;
  SetPausedWithWakeup := redis_SetPausedWithWakeup;
  SetPausedAwaitingSignal := redis_SetPausedAwaitingSignal;
  SetPausedAwaitingEventWithDeadline := redis_SetPausedAwaitingEventWithDeadline;
  ClearPause := redis_ClearPause;
  FindRunsByDueWakeup := redis_FindRunsByDueWakeup;
  FindRunsByAwaitedEvent := redis_FindRunsByAwaitedEvent;
  TryConsumeAwaitedSignal := redis_TryConsumeAwaitedSignal;
  AppendSignal := redis_AppendSignal;
  WakeFromExternal := redis_WakeFromExternal;
  SpawnChildRunAt := redis_SpawnChildRunAt;
  ListChildrenByParent := redis_ListChildrenByParent;
  PushTryCatch := redis_PushTryCatch;
  PopTryCatch := redis_PopTryCatch;
  CreateUserTask := redis_CreateUserTask;
  GetUserTask := redis_GetUserTask;
  SubmitUserTask := redis_SubmitUserTask;
  ListUserTasksByRun := redis_ListUserTasksByRun;
  ListActions := redis_ListActions;
  ListTriggers := redis_ListTriggers;
  ListDueCronTriggers := redis_ListDueCronTriggers;
  ClaimCronFire := redis_ClaimCronFire;
  RecordTriggerFire := redis_RecordTriggerFire;
  MarkAwaitingAction := redis_MarkAwaitingAction;
  CompleteAction := redis_CompleteAction;
  FailAction := redis_FailAction;
  ListWorkflowDefinitions := redis_ListWorkflowDefinitions;
  ListRuns := redis_ListRuns;
  CountRuns := redis_CountRuns;
  StatsForWorkflow := redis_StatsForWorkflow;
  GetEventByID := redis_GetEventByID;
  UpsertRuleDefinition := redis_UpsertRuleDefinition;
  UpsertActionRegistration := redis_UpsertActionRegistration;
  GetAction := redis_GetAction;
  UpsertTrigger := redis_UpsertTrigger;
  GetTrigger := redis_GetTrigger;
  DeleteTrigger := redis_DeleteTrigger
|}.
End Redis.
