(* ===== verification/JsonProps.v ===== *)
(** What a value that went through JSON looks like: values in normal form read back
    unchanged, and whatever is read back is in normal form. *)
From S2P Require Import Prelude Values Domain World Rows Json.

(** ** Collecting the entries of a map *)
Lemma all_entries_Some {A} (m : gmap string (option A)) m' :
  all_entries m = Some m' ↔ ∀ k, m !! k = Some <$> m' !! k.
Proof.
  unfold all_entries. case_decide as Hd; split.
  - intros [= <-] k. rewrite lookup_omap. destruct (m !! k) as [o|] eqn:E; [|done].
    destruct (Hd _ _ E) as [a ->]. done.
  - intros Hk. f_equal. apply map_eq. intros k. rewrite lookup_omap, Hk.
    by destruct (m' !! k).
  - done.
  - intros Hk. destruct Hd. intros k o E. rewrite Hk in E.
    apply fmap_Some in E as (a & _ & ->). eauto.
Qed.
Lemma all_entries_fmap {A B} (f : A → B) (m : gmap string (option A)) :
  all_entries (fmap (M := gmap string) (fmap (M := option) f) m) =
  fmap (M := option) (fmap (M := gmap string) f) (all_entries m).
Proof.
  destruct (all_entries m) as [m'|] eqn:E; simpl.
  - apply all_entries_Some. intros k. rewrite lookup_fmap, lookup_fmap.
    rewrite (proj1 (all_entries_Some _ _) E k). by destruct (m' !! k).
  - destruct (all_entries (fmap (M := gmap string) (fmap (M := option) f) m)) as [m'|] eqn:E'; [|done]. exfalso.
    unfold all_entries in E. case_decide as Hd; [done|]. apply Hd. intros k o Hk.
    pose proof (proj1 (all_entries_Some _ _) E' k) as Hl. rewrite lookup_fmap, Hk in Hl.
    destruct o; [eauto|]. simpl in Hl. by destruct (m' !! k).
Qed.

Section JsonProps.
Context `{JsonEnv}.

Lemma json_val_list l : json_val (VList l) = VList <$> mapM json_val l.
Proof.
  assert (mapM json_val l = (λ js, walkAndConvert <$> js) <$> mapM marshal l) as ->.
  { induction l as [|v l IH]; [done|]; simpl.
    change (json_val v) with (walkAndConvert <$> marshal v).
    destruct (marshal v); simpl; [|done]. rewrite IH. by destruct (mapM marshal l). }
  unfold json_val; simpl. by destruct (mapM marshal l).
Qed.
Lemma json_val_map m : json_val (VMap m) = VMap <$> json_vars m.
Proof.
  unfold json_vars.
  assert (json_val <$> m = fmap (M := gmap string) (fmap (M := option) walkAndConvert)
            (marshal <$> m)) as ->
    by (by rewrite <- map_fmap_compose).
  rewrite all_entries_fmap. unfold json_val; simpl. by destruct (all_entries _).
Qed.

(** ** Values a round trip leaves as they are

    [json_normal] below says by its structure which values these are. *)
Definition normal (v : Val) : Prop := json_val v = Some v.
Definition normal_vars (m : Vars) : Prop := map_Forall (λ _, normal) m.

Lemma json_vars_spec m m' :
  json_vars m = Some m' ↔ ∀ k, (json_val <$> m !! k) = Some <$> m' !! k.
Proof.
  unfold json_vars. rewrite all_entries_Some. split; intros Hk k; specialize (Hk k);
    by rewrite lookup_fmap in *.
Qed.
Lemma json_vars_normal m : json_vars m = Some m ↔ normal_vars m.
Proof.
  rewrite json_vars_spec. split.
  - intros Hk k v E. specialize (Hk k). rewrite E in Hk. by injection Hk.
  - intros Hn k. destruct (m !! k) as [v|] eqn:E; [|done]. simpl. f_equal. by apply (Hn k).
Qed.
Lemma normal_map m : normal (VMap m) ↔ normal_vars m.
Proof.
  unfold normal. rewrite json_val_map, <- json_vars_normal.
  destruct (json_vars m); simpl; split; congruence.
Qed.
Lemma normal_list l : normal (VList l) ↔ Forall normal l.
Proof.
  unfold normal. rewrite json_val_list. split.
  - intros E. destruct (mapM json_val l) as [l'|] eqn:E'; simplify_eq/=.
    apply mapM_Some in E'. apply Forall_lookup. intros i x Hi.
    by apply (Forall2_lookup_lr _ _ _ _ _ _ E' Hi Hi).
  - intros HF. assert (mapM json_val l = Some l) as ->; [|done].
    by apply mapM_Some, Forall_Forall2_diag.
Qed.

(** Scalars in normal form: a number is an int in range, or a float whose literal is not
    one. *)
Lemma normal_scalars :
  normal VNil ∧ (∀ b, normal (VBool b)) ∧ (∀ s, normal (VStr s)) ∧
  (∀ z, in_int64 z → normal (VInt z)).
Proof.
  split_and!; try done. intros z Hz. unfold normal, json_val; simpl.
  by rewrite decide_True.
Qed.

(** ** What a value reads back as *)

Fixpoint size (v : Val) : nat :=
  match v with
  | VList l => S (sum_list (size <$> l))
  | VMap m => S (map_fold (λ _ v n, size v + n) 0 m)
  | _ => 1
  end.

(** Values the program makes: ints of 64 bits, finite floats, no other Go types. *)
Fixpoint storable (v : Val) : bool :=
  match v with
  | VInt z | VInt32 z | VInt64 z | VUint64 z => bool_decide (in_int64 z)
  | VFloat f => is_finite f
  | VList l => forallb storable l
  | VMap m => map_fold (λ _ v b, storable v && b) true m
  | VOther _ => false
  | _ => true
  end.
Definition storable_vars (m : Vars) : Prop := map_Forall (λ _ v, storable v = true) m.
(** The float's literal is a 64-bit integer. *)
Definition prints_as_int (f : spec_float) : bool :=
  match float_lit f with JInt z => bool_decide (in_int64 z) | _ => false end.
(** The Go values that are read back as they are: [nil], booleans, strings, ints, floats that
    do not print as ints, and [[]any] and [map[string]any] of these. *)
Fixpoint json_normal (v : Val) : bool :=
  match v with
  | VNil | VBool _ | VStr _ => true
  | VInt z => bool_decide (in_int64 z)
  | VFloat f => is_finite f && negb (prints_as_int f)
  | VList l => forallb json_normal l
  | VMap m => map_fold (λ _ v b, json_normal v && b) true m
  | _ => false
  end.
Definition json_normal_vars (m : Vars) : Prop := map_Forall (λ _ v, json_normal v = true) m.
(** What the others are read back as: an int of any width as an [int], and so a float that
    prints as one; [[]string] as [[]any], [map[string]string] as [map[string]any]. *)
Fixpoint json_image (v : Val) : Val :=
  match v with
  | VInt32 z | VInt64 z | VUint64 z => VInt z
  | VFloat f =>
      match float_lit f with
      | JInt z => if decide (in_int64 z) then VInt z else VFloat f
      | _ => VFloat f
      end
  | VList l => VList (json_image <$> l)
  | VMap m => VMap (json_image <$> m)
  | VStrs l => VList (VStr <$> l)
  | VStrMap m => VMap (VStr <$> m)
  | v => v
  end.
Definition image_vars (m : Vars) : Vars := json_image <$> m.

Lemma size_list l v : v ∈ l → size v < size (VList l).
Proof.
  simpl. induction l as [|u l IH]; [by intros ?%elem_of_nil|].
  intros [->|Hin]%elem_of_cons; [simpl; lia|]. specialize (IH Hin).
  change (size v < S (size u + sum_list (size <$> l))). lia.
Qed.
Lemma size_map m k v : m !! k = Some v → size v < size (VMap m).
Proof.
  intros E. simpl. rewrite (map_fold_delete_L _ 0 k v m); [simpl; lia| |done]. intros. simpl. lia.
Qed.
(** A test of every entry. *)
Lemma map_fold_andb (p : Val → bool) (m : Vars) :
  map_fold (λ _ v b, p v && b) true m = true ↔ map_Forall (λ _ v, p v = true) m.
Proof.
  induction m as [|k v m E IH] using map_ind.
  { rewrite map_fold_empty. split; [intros _; apply map_Forall_empty|done]. }
  rewrite map_fold_insert_L; [|intros; destruct (p _), (p _); done|done].
  rewrite andb_true_iff, IH, map_Forall_insert by done. done.
Qed.
Lemma forallb_elem (p : Val → bool) l : forallb p l = true ↔ ∀ v, v ∈ l → p v = true.
Proof. rewrite forallb_forall. by setoid_rewrite list_elem_of_In. Qed.

Lemma decide_zero (f : spec_float) : (∃ b, f = S754_zero b) ∨ (∀ b, f ≠ S754_zero b).
Proof. destruct f; eauto. Qed.
Lemma image_float `{!JsonLaws} f :
  is_finite f = true → json_val (VFloat f) = Some (json_image (VFloat f)).
Proof.
  intros Hf. unfold json_val; simpl. rewrite Hf; simpl.
  destruct (decide_zero f) as [[b ->]|Hb%float_lit_back]; [by rewrite float_lit_zero|].
  destruct (float_lit f) as [| |z|g| | |]; try done; simpl; [|by subst].
  case_decide; [done|]. rewrite Hb. by destruct f.
Qed.
(** A storable value is written, and read back as its image. *)
Lemma json_val_image `{!JsonLaws} v : storable v = true → json_val v = Some (json_image v).
Proof.
  remember (size v) as n eqn:En. assert (size v ≤ n) as Hn by lia. clear En.
  revert v Hn. induction n as [|n IH]; intros v Hn Hp; [destruct v; simpl in Hn; lia|].
  destruct v as [| | | | | |f| |l|m|l|m|ty]; try done.
  1-4: simpl in Hp; apply bool_decide_eq_true in Hp; unfold json_val; simpl; by rewrite decide_True.
  - by apply image_float.
  - simpl in Hp. rewrite json_val_list. assert (mapM json_val l = Some (json_image <$> l)) as ->; [|done].
    apply mapM_Some, Forall2_fmap_r, Forall_Forall2_diag, Forall_forall. intros u Hu.
    pose proof (size_list _ _ Hu). apply IH; [lia|].
    exact (proj1 (forallb_elem _ _) Hp u Hu).
  - simpl in Hp. rewrite json_val_map. assert (json_vars m = Some (json_image <$> m)) as ->; [|done].
    apply json_vars_spec. intros k. rewrite lookup_fmap. destruct (m !! k) as [u|] eqn:Hu; [|done].
    simpl. f_equal. pose proof (size_map _ _ _ Hu). apply IH; [lia|].
    exact (proj1 (map_fold_andb _ _) Hp k u Hu).
  - unfold json_val; simpl. by rewrite <- list_fmap_compose.
  - unfold json_val; simpl. by rewrite <- map_fmap_compose.
Qed.
(** The image of a normal value is the value, and normal values can be stored. *)
Lemma normal_image v : json_normal v = true → json_image v = v ∧ storable v = true.
Proof.
  remember (size v) as n eqn:En. assert (size v ≤ n) as Hn by lia. clear En.
  revert v Hn. induction n as [|n IH]; intros v Hn Hp; [destruct v; simpl in Hn; lia|].
  destruct v as [| | | | | |f| |l|m|l|m|ty]; try done.
  - simpl in *. apply andb_true_iff in Hp as [Hf Hi]. unfold prints_as_int in Hi. split; [|done].
    destruct (float_lit f); try done. apply negb_true_iff, bool_decide_eq_false in Hi. by rewrite decide_False.
  - cbn [json_normal] in Hp. rewrite forallb_elem in Hp. split; cbn [json_image storable].
    + f_equal. rewrite <- (list_fmap_id l) at 2. apply list_fmap_ext. intros i u Hu%list_elem_of_lookup_2.
      pose proof (size_list _ _ Hu). destruct (IH u) as [-> _]; [lia|by apply Hp|done].
    + apply forallb_elem. intros u Hu. pose proof (size_list _ _ Hu). apply IH; [lia|by apply Hp].
  - simpl in Hp. rewrite map_fold_andb in Hp. simpl. rewrite map_fold_andb. split.
    + f_equal. rewrite <- (map_fmap_id m) at 2. apply map_fmap_ext. intros k u Hu.
      pose proof (size_map _ _ _ Hu). destruct (IH u) as [-> _]; [lia|by apply (Hp k)|done].
    + intros k u Hu. pose proof (size_map _ _ _ Hu). apply IH; [lia|by apply (Hp k)].
Qed.
Lemma json_normal_normal `{!JsonLaws} v : json_normal v = true → normal v.
Proof. intros [E Hs]%normal_image. apply json_val_image in Hs. unfold normal. congruence. Qed.
(** What was read back is normal. *)
Lemma image_normal `{!JsonLaws} v : storable v = true → json_normal (json_image v) = true.
Proof.
  remember (size v) as n eqn:En. assert (size v ≤ n) as Hn by lia. clear En.
  revert v Hn. induction n as [|n IH]; intros v Hn Hp; [destruct v; simpl in Hn; lia|].
  destruct v as [| | | | | |f| |l|m|l|m|ty]; try done.
  - simpl in *. destruct (float_lit f) as [| |z| | | |] eqn:El; simpl; rewrite ?Hp; simpl;
      unfold prints_as_int; rewrite ?El; try done.
    case_decide; simpl; [by apply bool_decide_eq_true|].
    rewrite Hp. simpl. unfold prints_as_int. rewrite El. by rewrite bool_decide_false.
  - cbn [storable] in Hp. rewrite forallb_elem in Hp. cbn [json_image json_normal].
    apply forallb_elem. intros u (x & -> & Hx)%list_elem_of_fmap.
    pose proof (size_list _ _ Hx). apply IH; [lia|by apply Hp].
  - simpl in Hp. rewrite map_fold_andb in Hp. simpl. rewrite map_fold_andb. intros k u.
    rewrite lookup_fmap. intros (x & Hx & ->)%fmap_Some.
    pose proof (size_map _ _ _ Hx). apply IH; [lia|by apply (Hp k)].
  - simpl. apply forallb_elem. by intros u (x & -> & _)%list_elem_of_fmap.
  - simpl. apply map_fold_andb. intros k u. rewrite lookup_fmap. by intros (x & _ & ->)%fmap_Some.
Qed.
Lemma json_vars_image `{!JsonLaws} m : storable_vars m → json_vars m = Some (image_vars m).
Proof.
  intros Hm. apply json_vars_spec. intros k. unfold image_vars. rewrite lookup_fmap.
  destruct (m !! k) as [v|] eqn:Hv; [|done]. simpl. f_equal. apply json_val_image. by apply (Hm k).
Qed.
Lemma image_vars_normal `{!JsonLaws} m : storable_vars m → json_normal_vars (image_vars m).
Proof.
  intros Hm k v. unfold image_vars. rewrite lookup_fmap. intros (x & Hx & ->)%fmap_Some.
  apply image_normal. by apply (Hm k).
Qed.
Lemma normal_vars_image m : json_normal_vars m → image_vars m = m ∧ storable_vars m.
Proof.
  intros Hm. split.
  - unfold image_vars. rewrite <- (map_fmap_id m) at 2. apply map_fmap_ext. intros k v Hv.
    by apply normal_image, (Hm k).
  - intros k v Hv. by apply normal_image, (Hm k).
Qed.

(** ** What [json.Unmarshal] decodes once it decodes again *)

Definition decodable_vars (m : Vars) : Prop := map_Forall (λ _ v, decodable v = true) m.
Lemma decodable_map m : decodable (VMap m) = true ↔ decodable_vars m.
Proof. apply map_fold_andb. Qed.
Lemma decodable_list l : decodable (VList l) = true ↔ Forall (λ v, decodable v = true) l.
Proof. simpl. rewrite forallb_forall, Forall_forall. by setoid_rewrite list_elem_of_In. Qed.

Definition comes_back (v : Val) : Prop :=
  ∃ v', json_val (plain_val v) = Some v' ∧ decodable v' = true.
Lemma comes_back_list l :
  Forall comes_back l →
  ∃ l', mapM json_val (plain_val <$> l) = Some l' ∧ Forall (λ v, decodable v = true) l'.
Proof.
  induction 1 as [|v l (v' & Ev & Hv) _ (l' & El & Hl)]; [by exists []|].
  exists (v' :: l'). rewrite fmap_cons. split; [|by constructor].
  apply mapM_Some. constructor; [done|]. by apply mapM_Some.
Qed.
Lemma comes_back_vars m :
  map_Forall (λ _, comes_back) m →
  ∃ m', json_vars (plain_val <$> m) = Some m' ∧ decodable_vars m'.
Proof.
  intros Hm. exists (omap (λ v, json_val (plain_val v)) m). split.
  - apply json_vars_spec. intros k. rewrite lookup_fmap, lookup_omap.
    destruct (m !! k) as [v|] eqn:E; [|done]. destruct (Hm k v E) as (v' & Ev & _).
    simpl. by rewrite Ev.
  - intros k v'. rewrite lookup_omap. destruct (m !! k) as [v|] eqn:E; [|done].
    destruct (Hm k v E) as (v'' & Ev & Hv). simpl. rewrite Ev. by intros [= <-].
Qed.
Lemma float_comes_back `{!JsonLaws} f : is_finite f = true → comes_back (VFloat f).
Proof.
  intros Hf. unfold comes_back, json_val; simpl. rewrite Hf. destruct (decide_zero f) as [[b ->]|Hb%float_lit_back].
  { rewrite float_lit_zero. eexists. split; [reflexivity|done]. }
  destruct (float_lit f) as [| |z|g| | |] eqn:El; try done; simpl.
  - case_decide; [|rewrite Hb; by destruct f; eauto]. eexists. split; [done|]. simpl. by rewrite Hb.
  - subst g. eauto.
Qed.
Lemma decodable_back `{!JsonLaws} v : decodable v = true → comes_back v.
Proof.
  remember (size v) as n eqn:En. assert (size v ≤ n) as Hn by lia. clear En.
  revert v Hn. induction n as [|n IH]; intros v Hn Hd; [destruct v; simpl in Hn; lia|].
  destruct v as [|b|z|z|z|z|f|s|l|m|l|m|ty]; try done.
  1-2,5: by eexists.
  - exact (float_comes_back (f_of_Z z) Hd).
  - exact (float_comes_back f Hd).
  - apply decodable_list in Hd. destruct (comes_back_list l) as (l' & El & Hl).
    { apply Forall_forall. intros u Hu. apply IH; [pose proof (size_list _ _ Hu); lia|].
      by eapply Forall_forall in Hd. }
    exists (VList l'). split; [|by apply decodable_list]. simpl plain_val.
    by rewrite json_val_list, El.
  - apply decodable_map in Hd. destruct (comes_back_vars m) as (m' & Em & Hm).
    { intros k u Hu. apply IH; [pose proof (size_map _ _ _ Hu); lia|by eapply Hd]. }
    exists (VMap m'). split; [|by apply decodable_map]. simpl plain_val.
    by rewrite json_val_map, Em.
Qed.
Lemma decodable_vars_back `{!JsonLaws} m :
  decodable_vars m → ∃ m', json_vars (plain_val <$> m) = Some m' ∧ decodable_vars m'.
Proof. intros Hm. apply comes_back_vars. intros k v Hv. by eapply decodable_back, Hm. Qed.

(** ** Writes keep normal forms *)
Lemma normal_apply_path ps v t :
  normal v → normal_vars t → normal_vars (apply_path ps v t).
Proof.
  revert t. induction ps as [|p [|q ps] IH]; intros t Hv Ht; [done|..].
  - by apply map_Forall_insert_2.
  - change (normal_vars (<[p := VMap (apply_path (q :: ps) v (default ∅ (as_map (t !! p))))]> t)).
    apply map_Forall_insert_2; [|done]. apply normal_map, IH; [done|].
    destruct (t !! p) as [u|] eqn:E; [|by apply map_Forall_empty].
    destruct u; try by apply map_Forall_empty. simpl. by apply normal_map, (Ht p).
Qed.
Lemma normal_merge l t :
  Forall (λ kv, normal kv.2) l → normal_vars t → normal_vars (merge_entries l t).
Proof.
  revert t. induction l as [|[k v] l IH]; intros t; [done|]. intros [Hv Hl]%Forall_cons Ht.
  unfold merge_entries; simpl. apply IH; [done|]. by apply normal_apply_path.
Qed.
Lemma normal_list_to_map (l : list (string * Val)) :
  Forall (λ kv, normal kv.2) l → normal_vars (list_to_map l).
Proof.
  induction 1 as [|[k v] l Hv _ IH]; [apply map_Forall_empty|].
  by apply map_Forall_insert_2.
Qed.
Lemma normal_union m t : normal_vars m → normal_vars t → normal_vars (m ∪ t).
Proof. intros. by apply map_Forall_union_2. Qed.

(** A run in normal form. *)
Definition normal_run (r : SagaRun) : Prop :=
  normal_vars (run_Inputs r) ∧ normal_vars (run_Variables r).
Lemma json_run_normal r : normal_run r → json_run r = Some r.
Proof.
  intros [Hi Hv]. unfold json_run. apply json_vars_normal in Hi as ->, Hv as ->. simpl.
  by destruct r.
Qed.
End JsonProps.
