(* ===== verification/RedisProps.v ===== *)
(** The Redis store's transactions: commits are atomic whatever the other clients do, the
    rows move as those of the in-memory store, and what the variables that outlive a
    failed attempt break. *)
From S2P Require Import Prelude Values Domain World Demo StoreApi Rows StoreSpec MemStore Json.
From S2P Require Import JsonProps RedisDB Redis.

(** ** Commands and keys *)
Section Commands.
Context `{RedisLaws}.

Lemma apply_cmds_app cs1 cs2 d : apply_cmds (cs1 ++ cs2) d = apply_cmds cs2 (apply_cmds cs1 d).
Proof. apply fold_left_app. Qed.

Lemma touches_app cs1 cs2 k : touches (cs1 ++ cs2) k = touches cs1 k || touches cs2 k.
Proof. apply existsb_app. Qed.
Lemma touches_cons c cs k : touches (c :: cs) k = bool_decide (cmd_key c = k) || touches cs k.
Proof. done. Qed.

(** A key no command names keeps its data. *)
Lemma apply_cmd_other c d k :
  cmd_key c ≠ k →
  get_text (apply_cmd c d) k = get_text d k ∧ get_list (apply_cmd c d) k = get_list d k ∧
  get_set (apply_cmd c d) k = get_set d k ∧ get_zset (apply_cmd c d) k = get_zset d k.
Proof.
  intros Hk. rewrite text_cmd, list_cmd, set_cmd, zset_cmd.
  unfold cmd_text, cmd_list, cmd_set, cmd_zset. by rewrite !decide_False.
Qed.
Lemma apply_cmds_other cs d k :
  touches cs k = false →
  get_text (apply_cmds cs d) k = get_text d k ∧ get_list (apply_cmds cs d) k = get_list d k ∧
  get_set (apply_cmds cs d) k = get_set d k ∧ get_zset (apply_cmds cs d) k = get_zset d k.
Proof.
  revert d. induction cs as [|c cs IH]; intros d; [intros _; by split_and!|].
  rewrite touches_cons, orb_false_iff. intros [Hc Hcs]. apply bool_decide_eq_false in Hc.
  change (apply_cmds (c :: cs) d) with (apply_cmds cs (apply_cmd c d)).
  destruct (IH (apply_cmd c d) Hcs) as (-> & -> & -> & ->).
  by apply apply_cmd_other.
Qed.
Lemma cmd_text_set k b keep j old :
  cmd_text (CSet k b keep) j old = if decide (k = j) then Some b else old.
Proof. done. Qed.
Lemma cmd_text_other c k old : cmd_key c ≠ k → cmd_text c k old = old.
Proof. intros Hk. unfold cmd_text. by rewrite decide_False. Qed.
End Commands.

(** ** Transactions *)
Section Tx.
Context `{Env} `{JsonEnv} `{RedisLaws}.
Implicit Types w : World Redis.

Definition rdb w : DB := db (w_store w).

(** The world after the others' first [j] batches. *)
Definition after_others (j : nat) w : DB := apply_cmds (concat (take j (others (w_store w)))) (rdb w).

(** The attempts the others made fail. *)
Inductive contended {A B} (k : rkey) (body : DB → B → attempt A * B)
    : nat → B → Redis → B → Redis → Prop :=
| contended_0 b s : contended k body 0 b s b s
| contended_S n b s cmds a b1 b2 s2 :
    body (db s) b = (Exec cmds a, b1) →
    touches (default [] (head (others s))) k = true →
    contended k body n b1
      (mkRedis (apply_cmds (default [] (head (others s))) (db s)) (tail (others s)) (runTTL s))
      b2 s2 →
    contended k body (S n) b s b2 s2.

Lemma take_S_concat {T} j (l : list (list T)) :
  concat (take (S j) l) = default [] (head l) ++ concat (take j (tail l)).
Proof. destruct l; simpl; by rewrite ?take_nil. Qed.
Lemma concat_take_S {T} i (l : list (list T)) :
  concat (take (S i) l) = concat (take i l) ++ default [] (head (drop i l)).
Proof.
  revert i. induction l as [|o os IH]; intros [|i]; simpl; [done..|by rewrite app_nil_r|].
  rewrite <- app_assoc. f_equal. apply IH.
Qed.
Lemma tail_drop {T} i (l : list T) : tail (drop i l) = drop (S i) l.
Proof.
  revert i. induction l as [|o os IH]; intros [|i]; simpl; [done..|]. rewrite IH. by destruct os.
Qed.
Lemma contended_db {A B} k (body : DB → B → attempt A * B) n b s b' s' :
  contended k body n b s b' s' →
  db s' = apply_cmds (concat (take n (others s))) (db s) ∧
  others s' = drop n (others s) ∧ runTTL s' = runTTL s.
Proof.
  induction 1 as [b s|n b s cmds a b1 b2 s2 _ _ _ (IH1 & IH2 & IH3)]; [by split_and!|].
  simpl in *. rewrite IH1, IH2, IH3, take_S_concat, apply_cmds_app.
  split_and!; [done| |done]. destruct (others s); simpl; by rewrite ?drop_nil.
Qed.

Definition set_redis (s : Redis) w : World Redis := set_store s w.

(** What a WATCH loop comes to: some attempts fail, then one ends without EXEC, or commits
    behind a batch that leaves the key alone; or the budget is spent on failures. *)
Lemma watch_result {A B} n k (body : DB → B → attempt A * B) b w :
  ∃ i b1 s1, contended k body i b (w_store w) b1 s1 ∧
    let o := default [] (head (others s1)) in
    (i = n ∧ watch n k body b w = ((None, b1), set_redis s1 w) ∨
     i < n ∧ (∃ a b2, body (db s1) b1 = (Done a, b2) ∧
                watch n k body b w = ((Some a, b2), set_redis s1 w)) ∨
     i < n ∧ (∃ cmds a b2, body (db s1) b1 = (Exec cmds a, b2) ∧ touches o k = false ∧
                watch n k body b w =
                  ((Some a, b2),
                   set_redis (mkRedis (apply_cmds cmds (apply_cmds o (db s1))) (tail (others s1))
                                (runTTL s1)) w))).
Proof.
  revert b w. induction n as [|n IH]; intros b w.
  { exists 0, b, (w_store w). split; [constructor|]. left. split; [done|]. by destruct w. }
  destruct (body (db (w_store w)) b) as [[a|cmds a] b2] eqn:Eb.
  - exists 0, b, (w_store w). split; [constructor|]. right; left. split; [lia|].
    exists a, b2. split; [done|]. simpl. rewrite bind_get_store, Eb. by destruct w.
  - destruct (touches (default [] (head (others (w_store w)))) k) eqn:Et.
    + set (s' := mkRedis (apply_cmds (default [] (head (others (w_store w)))) (db (w_store w)))
                   (tail (others (w_store w))) (runTTL (w_store w))).
      destruct (IH b2 (set_store s' w)) as (i & b1 & s1 & Hc & Hres).
      exists (S i), b1, s1. split; [by econstructor|].
      assert (watch (S n) k body b w = watch n k body b2 (set_store s' w)) as ->
        by (simpl; rewrite bind_get_store, Eb, Et, bind_put_store; done).
      destruct Hres as [[-> ?]|[[? Hd]|[? He]]]; [left|right; left|right; right];
        (split; [lia|done]).
    + exists 0, b, (w_store w). split; [constructor|]. right; right. split; [lia|].
      exists cmds, a, b2. split_and!; [done|done|].
      simpl. rewrite bind_get_store, Eb, Et, bind_put_store. by destruct w.
Qed.

(** ** Atomicity *)

(** The operation as one atomic step on a database. *)
Definition tx_spec (id : uuid) (f : SagaRun → mutation) (d : DB) : res unit * DB :=
  match getJSON as_run (KRun (uuid_string id)) d with
  | Err e => (Err e, d)
  | Ok None => (Err (not_found_run id), d)
  | Ok (Some r) =>
      match f r with
      | Abort => (Ok tt, d)
      | Failed e => (Err e, d)
      | Write r' cmds =>
          match json_run r' with
          | None => (Err json_err, d)
          | Some j => (Ok tt, apply_cmds (cmds ++ [CSet (KRun (uuid_string id)) (BRun j) true]) d)
          end
      end
  end.

Lemma tx_spec_attempt id f d :
  (tx_attempt id (λ _ r (_ : unit), (f r, tt)) d tt).1 =
  match getJSON as_run (KRun (uuid_string id)) d with
  | Ok (Some r) =>
      match f r with
      | Write r' cmds =>
          match json_run r' with
          | Some j => Exec (cmds ++ [CSet (KRun (uuid_string id)) (BRun j) true]) (Ok tt)
          | None => Done (Err json_err)
          end
      | _ => Done (tx_spec id f d).1
      end
  | _ => Done (tx_spec id f d).1
  end.
Proof.
  unfold tx_attempt, tx_spec. destruct (getJSON _ _ _) as [[r|]|e]; [|done..].
  destruct (f r) as [|e|r' cmds]; [done..|]. by destruct (json_run r').
Qed.

Lemma tx_spec_done id f d a :
  (tx_attempt id (λ _ r (_ : unit), (f r, tt)) d tt).1 = Done a → tx_spec id f d = (a, d).
Proof.
  rewrite tx_spec_attempt. unfold tx_spec. destruct (getJSON _ _ _) as [[r|]|e].
  - destruct (f r) as [|e|r' cmds]; [by intros [= <-]..|].
    destruct (json_run r'); [done|by intros [= <-]].
  - by intros [= <-].
  - by intros [= <-].
Qed.
Lemma tx_spec_exec id f d cmds a o :
  touches o (KRun (uuid_string id)) = false →
  (tx_attempt id (λ _ r (_ : unit), (f r, tt)) d tt).1 = Exec cmds a →
  tx_spec id f (apply_cmds o d) = (a, apply_cmds cmds (apply_cmds o d)).
Proof.
  intros Ho. rewrite tx_spec_attempt. unfold tx_spec, getJSON.
  destruct (apply_cmds_other o d _ Ho) as (-> & _).
  destruct (get_text d _) as [b|]; [|done]. destruct (as_run b) as [r|]; [|done].
  destruct (f r) as [|e|r' cs]; [done..|]. destruct (json_run r'); [|done].
  by intros [= <- <-].
Qed.

(** Every batch of the others' first [j] touches [k]. *)
Definition all_touch (j : nat) (k : rkey) w : Prop :=
  Forall (λ o, touches o k = true) (take j (others (w_store w))).

Lemma contended_touch {A B} k (body : DB → B → attempt A * B) n b s b' s' :
  contended k body n b s b' s' →
  Forall (λ o, touches o k = true) (take n (others s)) ∧ n ≤ length (others s).
Proof.
  induction 1 as [b s|n b s cmds a b1 b2 s2 _ Ht _ (IH1 & IH2)]; [split; [constructor|lia]|].
  simpl in *. destruct (others s) as [|o os]; [done|]. simpl in *. split; [by constructor|lia].
Qed.

(** C10: A transaction on a run is atomic and loses no update.  Whatever the other clients
    send between the reads and the EXECs, the operation does, at one point between their
    batches, what it does alone on the database of that point: it changes the run as it
    is there, not as some earlier attempt read it, and an error leaves the database as the
    others made it.  Only when fifty attempts in a row were overtaken by writes to the run
    does it give up, having written nothing. *)
Theorem txRun_atomic id f w :
  let k := KRun (uuid_string id) in
  (∃ j, j ≤ txMaxRetries ∧
     let d := after_others j w in
     txRun_pure id f w =
       ((tx_spec id f d).1,
        set_redis (mkRedis (tx_spec id f d).2 (drop j (others (w_store w)))
                     (runTTL (w_store w))) w)) ∨
  (all_touch txMaxRetries k w ∧ length (others (w_store w)) ≥ txMaxRetries ∧
   txRun_pure id f w =
     (Err (EMsg ("redis: tx retry budget exhausted for run " +:+ uuid_string id)),
      set_redis (mkRedis (after_others txMaxRetries w)
                   (drop txMaxRetries (others (w_store w))) (runTTL (w_store w))) w)).
Proof.
  set (body := tx_attempt id (λ _ r (_ : unit), (f r, tt))).
  destruct (watch_result txMaxRetries (KRun (uuid_string id)) body tt w)
    as (i & [] & s1 & Hc & Hres).
  destruct (contended_db _ _ _ _ _ _ _ Hc) as (Hdb & Hot & Httl).
  destruct (contended_touch _ _ _ _ _ _ _ Hc) as (Ht & Hlen).
  unfold txRun_pure, txRun. fold body.
  destruct Hres as [[-> E]|[(Hi & a & [] & Hb & E)|(Hi & cmds & a & [] & Hb & Ho & E)]].
  - right. split_and!; [exact Ht|lia|]. rewrite !bind_assoc.
    unfold bind. rewrite E; simpl. unfold set_redis. f_equal. f_equal.
    destruct s1; simpl in *; by subst.
  - left. exists i. split; [lia|]. unfold after_others, rdb. rewrite <- Hdb.
    rewrite (tx_spec_done id f (db s1) a) by (fold body; by rewrite Hb).
    unfold bind. rewrite E; simpl. unfold set_redis. f_equal. f_equal.
    destruct s1; simpl in *; by subst.
  - left. exists (S i). split; [lia|]. unfold after_others, rdb.
    assert (apply_cmds (concat (take (S i) (others (w_store w)))) (db (w_store w)) =
            apply_cmds (default [] (head (others s1))) (db s1)) as ->.
    { by rewrite Hdb, Hot, <- apply_cmds_app, <- concat_take_S. }
    rewrite (tx_spec_exec id f (db s1) cmds a) by (done || (fold body; by rewrite Hb)).
    unfold bind. rewrite E; simpl. unfold set_redis. f_equal. f_equal. f_equal; [|done].
    by rewrite Hot, tail_drop.
Qed.
End Tx.
