(* ===== verification/RedisRaces.v ===== *)
(** What goes wrong in the Redis store when an attempt of a transaction fails: the
    variables the closure assigns keep what the failed attempt wrote, and the code after
    the transaction believes them. *)
From S2P Require Import Prelude Values Domain World Demo StoreApi Rows StoreSpec MemStore Json.
From S2P Require Import JsonProps RedisDB Redis RedisProps.

Section Races.
Context `{EnvLaws} `{JsonEnv} `{RedisLaws}.
Implicit Types w : World Redis.

(** The store of [w], with [o] as what the others send during the next transaction. *)
Definition overtaken (o : list cmd) w : World Redis :=
  set_redis (mkRedis (rdb w) [o] (runTTL (w_store w))) w.
Lemma rdb_set s w : rdb (set_redis s w) = db s.
Proof. done. Qed.
Definition quiet w : Prop := others (w_store w) = [].

Lemma watch_done {A B} n k (body : DB → B → attempt A * B) b w a b' :
  body (rdb w) b = (Done a, b') → watch (S n) k body b w = ((Some a, b'), w).
Proof. intros E. simpl. rewrite bind_get_store. unfold rdb in E. by rewrite E. Qed.
Lemma watch_commit {A B} n k (body : DB → B → attempt A * B) b w cmds a b' :
  quiet w → body (rdb w) b = (Exec cmds a, b') →
  watch (S n) k body b w =
    ((Some a, b'), set_redis (mkRedis (apply_cmds cmds (rdb w)) [] (runTTL (w_store w))) w).
Proof.
  intros Hq E. simpl. rewrite bind_get_store. unfold rdb in E. rewrite E, Hq. done.
Qed.
Lemma watch_retry {A B} n k (body : DB → B → attempt A * B) b w cmds a b' o :
  body (rdb w) b = (Exec cmds a, b') → touches o k = true →
  watch (S n) k body b (overtaken o w) =
  watch n k body b' (set_redis (mkRedis (apply_cmds o (rdb w)) [] (runTTL (w_store w))) w).
Proof.
  intros E Ho. simpl. rewrite bind_get_store. unfold overtaken, set_redis, rdb in *; simpl.
  rewrite E, Ho. done.
Qed.

(** A transaction's first attempt on the run it finds. *)
Lemma tx_attempt_run {B} id (mutate : DB → SagaRun → B → mutation * B) d b r :
  get_text d (KRun (uuid_string id)) = Some (BRun r) →
  tx_attempt id mutate d b =
  let '(m, b') := mutate d r b in
  (match m with
   | Abort => Done (Ok tt)
   | Failed e => Done (Err e)
   | Write r' cmds =>
       match json_run r' with
       | None => Done (Err json_err)
       | Some j => Exec (cmds ++ [CSet (KRun (uuid_string id)) (BRun j) true]) (Ok tt)
       end
   end, b').
Proof. intros E. unfold tx_attempt, getJSON. by rewrite E. Qed.

Lemma set_touches cs k b keep : touches (cs ++ [CSet k b keep]) k = true.
Proof. rewrite touches_app, touches_cons, bool_decide_eq_true_2 by done. by rewrite orb_true_r. Qed.

Lemma apply_set d cs k b keep :
  get_text (apply_cmds (cs ++ [CSet k b keep]) d) k = Some b.
Proof.
  rewrite apply_cmds_app; cbn. rewrite text_cmd. rewrite cmd_text_set. by rewrite decide_True.
Qed.

(** *** A signal consumed twice *)

(** From the WATCH loop to the operation. *)
Lemma txRun_watch {B} id (mutate : DB → SagaRun → B → mutation * B) b w a b' w' :
  watch txMaxRetries (KRun (uuid_string id)) (tx_attempt id mutate) b w = ((Some a, b'), w') →
  txRun id mutate b w = ((a, b'), w').
Proof. intros E. unfold txRun, bind. by rewrite E. Qed.

Lemma consume_tx id name w a b' w' :
  txRun id (consume_mutate (w_now w) id name) false w = ((Ok a, b'), w') →
  redis_TryConsumeAwaitedSignal id name w = (Ok b', w').
Proof. intros E. unfold redis_TryConsumeAwaitedSignal. rewrite bind_timeNow. unfold bind. by rewrite E. Qed.

(** C24: Two clients consume the same awaited signal.  The one that comes second reads the
    run before the first commits, loses the race for the EXEC, finds on its second
    attempt that there is nothing left to consume, and reports success all the same:
    [consumed] still holds what the failed attempt assigned. *)
Theorem signal_consumed_twice id name w r sigs :
  quiet w → get_text (rdb w) (KRun (uuid_string id)) = Some (BRun r) → normal_run r →
  run_State r = RunStatePaused → run_AwaitedSignal r = Some name →
  decode_all as_plain_signal (Some <$> get_list (rdb w) (KSignals (uuid_string id))) = Ok sigs →
  ∃ cmds, (redis_TryConsumeAwaitedSignal id name w).1 = Ok true ∧
    rdb (redis_TryConsumeAwaitedSignal id name w).2 = apply_cmds cmds (rdb w) ∧
    (redis_TryConsumeAwaitedSignal id name (overtaken cmds w)).1 = Ok true ∧
    rdb (redis_TryConsumeAwaitedSignal id name (overtaken cmds w)).2 = apply_cmds cmds (rdb w).
Proof.
  intros Hq Hr Hn Hs Ha Hd.
  set (now := w_now w). set (body := tx_attempt id (consume_mutate now id name)).
  assert (normal_run (row_clear_awaits r)) as Hn' by exact Hn.
  assert (∃ cs, body (rdb w) false =
            (Exec (cs ++ [CSet (KRun (uuid_string id)) (BRun (row_clear_awaits r)) true]) (Ok tt), true))
    as (cs & Hb).
  { unfold body. rewrite (tx_attempt_run _ _ _ _ _ Hr). unfold consume_mutate.
    rewrite decide_True, Hd by done. rewrite (json_run_normal _ Hn'). eauto. }
  set (cmds := cs ++ _) in Hb. exists cmds.
  set (w' := set_redis (mkRedis (apply_cmds cmds (rdb w)) [] (runTTL (w_store w))) w).
  assert (redis_TryConsumeAwaitedSignal id name w = (Ok true, w')) as ->.
  { eapply consume_tx, txRun_watch. fold now body. exact (watch_commit _ _ _ _ _ _ _ _ Hq Hb). }
  assert (redis_TryConsumeAwaitedSignal id name (overtaken cmds w) = (Ok true, w')) as ->;
    [|by split_and!].
  eapply consume_tx, txRun_watch. change (w_now (overtaken cmds w)) with now. fold body.
  unfold txMaxRetries. rewrite (watch_retry _ _ _ _ _ _ _ _ cmds Hb) by apply set_touches.
  apply watch_done. unfold body, rdb; simpl.
  rewrite (tx_attempt_run _ _ _ _ (row_clear_awaits r)) by apply apply_set.
  unfold consume_mutate. by rewrite decide_False by naive_solver.
Qed.

(** *** A finished run recorded as cancelled *)

Lemma SMembers_empty k w : get_set (rdb w) k = ∅ → SMembers k w = ([], w).
Proof.
  intros E. unfold SMembers, read. fold (rdb w). rewrite E. f_equal.
  assert (range_map (gset_to_gmap tt (∅ : gset string)) = []) as ->; [|done].
  apply Permutation_nil. rewrite range_map_perm. by rewrite gset_to_gmap_empty, map_to_list_empty.
Qed.

(** Appending an event. *)
Lemma AppendEvent_run e e' w :
  json_event e = Some e' →
  redis_AppendEvent e w =
    (Ok tt, set_redis (set_db (apply_cmds
       [CRPush (KEvents (uuid_string (ev_RunID e))) (BEvent e');
        CSet (KEvent (uuid_string (ev_ID e))) (BEvent e') false] (rdb w)) (w_store w)) w).
Proof. intros E. unfold redis_AppendEvent. by rewrite E. Qed.

Lemma push_event d k k' b b' :
  let d' := apply_cmds [CRPush (KEvents k) b; CSet (KEvent k') b' false] d in
  get_list d' (KEvents k) = get_list d (KEvents k) ++ [b] ∧
  ∀ id, get_text d' (KRun id) = get_text d (KRun id).
Proof.
  cbn. rewrite !list_cmd. split; [unfold cmd_list; cbn [cmd_key]; by rewrite decide_False, decide_True|].
  intros. by rewrite !text_cmd.
Qed.

Lemma normal_strings (m : gmap string string) : normal_vars (VStr <$> m).
Proof. intros k v. rewrite lookup_fmap. by destruct (m !! k); intros [= <-]. Qed.
Lemma json_event_normal e : normal_vars (ev_Metadata e) → json_event e = Some e.
Proof.
  intros Hn. unfold json_event. apply json_vars_normal in Hn as ->. simpl. by destruct e.
Qed.

(** The transaction of a cancel that is overtaken by the end of the run: it rewrites the
    run as it is, and hands on what the first attempt assigned. *)
Lemma cancel_tx id reason w r r' cs :
  get_text (rdb w) (KRun (uuid_string id)) = Some (BRun r) → normal_run r →
  IsTerminal (run_State r) = false → normal_run r' → IsTerminal (run_State r') = true →
  let o := cs ++ [CSet (KRun (uuid_string id)) (BRun r') true] in
  txRun id (cancel_mutate (runTTL (w_store w)) (w_now w) id reason) (false, "") (overtaken o w) =
  ((Ok tt, (true, run_CurrentStep r)),
   set_redis (mkRedis (apply_cmds (o ++ [CSet (KRun (uuid_string id)) (BRun r') true]) (rdb w)) []
                (runTTL (w_store w))) w).
Proof.
  intros Hr Hn Ht Hn' Ht' o. set (k := KRun (uuid_string id)) in *.
  set (mut := cancel_mutate (runTTL (w_store w)) (w_now w) id reason).
  assert (normal_run (row_Cancel (w_now w) reason r)) as Hc
    by (unfold row_Cancel; by case_decide).
  set (w1 := set_redis (mkRedis (apply_cmds o (rdb w)) [] (runTTL (w_store w))) w).
  assert (∃ cmds, tx_attempt id mut (rdb w) (false, "") =
            (Exec cmds (Ok tt), (true, run_CurrentStep r))) as (cmds & Hb).
  { rewrite (tx_attempt_run _ _ _ _ _ Hr). unfold mut, cancel_mutate. rewrite Ht.
    rewrite (json_run_normal _ Hc). eauto. }
  assert (tx_attempt id mut (rdb w1) (true, run_CurrentStep r) =
            (Exec [CSet k (BRun r') true] (Ok tt), (true, run_CurrentStep r))) as Hb1.
  { rewrite (tx_attempt_run _ _ _ _ r') by exact (apply_set _ _ _ _ _).
    unfold mut, cancel_mutate. by rewrite Ht', (json_run_normal _ Hn'). }
  rewrite apply_cmds_app. apply txRun_watch. unfold txMaxRetries.
  rewrite (watch_retry _ _ _ _ _ _ _ _ o Hb) by apply set_touches.
  exact (watch_commit 48 k _ _ w1 _ _ _ eq_refl Hb1).
Qed.

(** What follows the transaction when [cancelled] is set and the run has no tasks. *)
Lemma cancel_records id reason w st w' :
  txRun id (cancel_mutate (runTTL (w_store w)) (w_now w) id reason) (false, "") w =
    ((Ok tt, (true, st)), w') →
  get_set (rdb w') (KTasks (uuid_string id)) = ∅ →
  ∃ w'' e, redis_Cancel id reason w = (Ok tt, w'') ∧
    (∀ j, get_text (rdb w'') (KRun j) = get_text (rdb w') (KRun j)) ∧
    get_list (rdb w'') (KEvents (uuid_string id)) =
      get_list (rdb w') (KEvents (uuid_string id)) ++ [BEvent e] ∧
    ev_EventType e = EventRunCancelled ∧ ev_StepID e = st.
Proof.
  intros Htx Hs. unfold redis_Cancel. rewrite bind_get_store, bind_timeNow, (bind_step _ _ _ _ _ Htx).
  assert (redis_ListUserTasksByRun id w' = (Ok [], w')) as Hl.
  { unfold redis_ListUserTasksByRun, bind. by rewrite (SMembers_empty _ w' Hs). }
  set (md := if decide (reason = "") then ∅
             else VStr <$> ({["reason" := reason]} : gmap string string)).
  set (e := mkEvent (uuid_New (w_ids w')) id st 0 EventRunCancelled "engine" md (w_now w')).
  set (w3 := mkWorld (w_store w') (w_now w') (w_clk w') (S (w_ids w')) (w_polls w') (w_rands w')
               (w_out w')).
  assert (json_event e = Some e) as Hj.
  { apply json_event_normal. unfold e, md; simpl.
    case_decide; [apply map_Forall_empty|apply normal_strings]. }
  eexists _, e. split.
  { unfold bind at 1, ret at 1. rewrite (bind_step _ _ _ _ _ Hl). simpl.
    refine (eq_trans _ (AppendEvent_run e e w3 Hj)).
    unfold e, md, NewEvent, bind, uuidNew, timeNow, ret; simpl.
    case_decide; [done|]. by rewrite map_fmap_singleton. }
  destruct (push_event (rdb w') (uuid_string id) (uuid_string (uuid_New (w_ids w'))) (BEvent e)
              (BEvent e)) as (Hp & Ho). done.
Qed.

(** A cancel overtaken by the end of the run changes nothing on its second attempt, but
    [cancelled] is still set from the first: the audit trail of the finished run, a
    success perhaps, gets a [run_cancelled]. *)
Theorem cancel_recorded_after_end id reason w r r' cs :
  get_text (rdb w) (KRun (uuid_string id)) = Some (BRun r) → normal_run r →
  IsTerminal (run_State r) = false → normal_run r' → IsTerminal (run_State r') = true →
  let o := cs ++ [CSet (KRun (uuid_string id)) (BRun r') true] in
  get_set (apply_cmds o (rdb w)) (KTasks (uuid_string id)) = ∅ →
  ∃ w' e, redis_Cancel id reason (overtaken o w) = (Ok tt, w') ∧
    get_text (rdb w') (KRun (uuid_string id)) = Some (BRun r') ∧
    get_list (rdb w') (KEvents (uuid_string id)) =
      get_list (apply_cmds o (rdb w)) (KEvents (uuid_string id)) ++ [BEvent e] ∧
    ev_EventType e = EventRunCancelled ∧ ev_StepID e = run_CurrentStep r.
Proof.
  intros Hr Hn Ht Hn' Ht' o Hts.
  set (again := [CSet (KRun (uuid_string id)) (BRun r') true]).
  pose proof (cancel_tx id reason w r r' cs Hr Hn Ht Hn' Ht') as Htx. fold o again in Htx.
  destruct (cancel_records id reason (overtaken o w) _ _ Htx) as (w' & e & E & HR & HL & ? & ?).
  { rewrite rdb_set; cbn [db]. rewrite apply_cmds_app.
    by destruct (apply_cmds_other again (apply_cmds o (rdb w)) (KTasks (uuid_string id)) eq_refl)
      as (_ & _ & -> & _). }
  exists w', e. split_and!; [done| | |done|done].
  - rewrite HR. rewrite rdb_set; cbn [db]. rewrite apply_cmds_app. apply (apply_set _ []).
  - rewrite HL. rewrite rdb_set; cbn [db]. rewrite apply_cmds_app. f_equal.
    by destruct (apply_cmds_other again (apply_cmds o (rdb w)) (KEvents (uuid_string id)) eq_refl)
      as (_ & -> & _).
Qed.

(** *** Late failures *)

(** A failure report for another attempt than the current one changes no run, but its
    audit event is appended all the same, without step and action. *)
Theorem late_failure_recorded id a code msg retryable w r :
  get_text (rdb w) (KRun (uuid_string id)) = Some (BRun r) → run_CurrentAttempt r ≠ a →
  ∃ w' e, redis_FailAction id a code msg retryable w = (Ok tt, w') ∧
    (∀ j, get_text (rdb w') (KRun j) = get_text (rdb w) (KRun j)) ∧
    get_list (rdb w') (KEvents (uuid_string id)) =
      get_list (rdb w) (KEvents (uuid_string id)) ++ [BEvent e] ∧
    ev_EventType e = EventStepFailed ∧ ev_StepID e = "".
Proof.
  intros Hr Ha. set (mut := fail_mutate (runTTL (w_store w)) id a).
  assert (txRun id mut ("", "") w = ((Ok tt, ("", "")), w)) as Htx.
  { apply txRun_watch, watch_done. rewrite (tx_attempt_run _ _ _ _ _ Hr).
    unfold mut, fail_mutate. by rewrite decide_True. }
  unfold redis_FailAction. rewrite bind_get_store. fold mut. rewrite (bind_step _ _ _ _ _ Htx).
  set (md := list_to_map [("code", VStr code); ("message", VStr msg);
                          ("retryable", VBool retryable); ("action", VStr "")] : Vars).
  set (e := mkEvent (uuid_New (w_ids w)) id "" a EventStepFailed "engine" md (w_now w)).
  set (w3 := mkWorld (w_store w) (w_now w) (w_clk w) (S (w_ids w)) (w_polls w) (w_rands w)
               (w_out w)).
  assert (json_event e = Some e) as Hj.
  { apply json_event_normal, normal_list_to_map. by repeat constructor. }
  eexists _, e. split; [exact (AppendEvent_run e e w3 Hj)|].
  destruct (push_event (rdb w) (uuid_string id) (uuid_string (uuid_New (w_ids w))) (BEvent e)
              (BEvent e)) as (Hp & Ho).
  split; [exact Ho|]. split; [exact Hp|]. by split.
Qed.
End Races.
