(* ===== verification/RedisRows.v ===== *)
(** The Redis store moves the run rows as the in-memory store does: a simulation between
    the two, for values that JSON keeps. *)
From S2P Require Import Prelude Values Domain World Demo StoreApi Rows StoreSpec MemStore MemInv.
From S2P Require Import MemRows Json JsonProps RedisDB Redis RedisProps RedisRaces.

Create HintDb redis.

(** ** Commands that leave the runs alone *)
Definition keeps_runs (c : cmd) : bool :=
  match c with CSet (KRun _) _ _ | CDel (KRun _) => false | _ => true end.

Lemma keeps_runs_text `{RedisLaws} cs d j :
  forallb keeps_runs cs = true → get_text (apply_cmds cs d) (KRun j) = get_text d (KRun j).
Proof.
  revert d. induction cs as [|c cs IH]; intros d; simpl; [done|].
  rewrite andb_true_iff. intros [Hc Hcs]. change (apply_cmds (c :: cs) d)
    with (apply_cmds cs (apply_cmd c d)). rewrite IH by done.
  rewrite text_cmd. unfold cmd_text. case_decide as E; [|done].
  destruct c; simpl in E; subst; done.
Qed.

Section Rows.
Context `{EnvLaws} `{JsonEnv} `{RedisLaws}.

(** A computation all of whose commands satisfy [P]. *)
Definition sends {A} (P : cmd → bool) (c : M (World Redis) A) : Prop :=
  ∀ w, quiet w → quiet (c w).2 ∧
    ∃ cs, forallb P cs = true ∧ rdb (c w).2 = apply_cmds cs (rdb w).

Section Sends.
Context (P : cmd → bool).

Lemma sends_ret {A} (a : A) : sends P (ret a).
Proof. intros w Hq. split; [done|]. by exists []. Qed.
Lemma sends_bind {A B} (c : M (World Redis) A) (f : A → M (World Redis) B) :
  sends P c → (∀ a, sends P (f a)) → sends P (bind c f).
Proof.
  intros Hc Hf w Hq. unfold bind. specialize (Hc w Hq) as (Hq' & cs & Hcs & E).
  destruct (c w) as [a w']; simpl in *. destruct (Hf a w' Hq') as (Hq'' & cs' & Hcs' & E').
  split; [done|]. exists (cs ++ cs').
  by rewrite forallb_app, Hcs, Hcs', E', E, apply_cmds_app.
Qed.
Lemma sends_read {A} (f : DB → A) : sends P (read f).
Proof. intros w Hq. split; [done|]. by exists []. Qed.
Lemma sends_uuid : sends P uuidNew.
Proof. intros w Hq. split; [done|]. by exists []. Qed.
Lemma sends_now : sends P timeNow.
Proof. intros w Hq. split; [done|]. by exists []. Qed.
Lemma sends_get_store : sends P get_store.
Proof. intros w Hq. split; [done|]. by exists []. Qed.
Lemma sends_pipeline cs : forallb P cs = true → sends P (pipeline cs).
Proof. intros Hc w Hq. split; [done|]. by exists cs. Qed.
Lemma sends_watch {A B} n k (body : DB → B → attempt A * B) b :
  (∀ d b cmds a b', body d b = (Exec cmds a, b') → forallb P cmds = true) →
  sends P (watch (S n) k body b).
Proof.
  intros Hb w Hq. destruct (body (rdb w) b) as [[a|cmds a] b'] eqn:E.
  - rewrite (watch_done _ _ _ _ _ _ _ E). split; [done|]. by exists [].
  - rewrite (watch_commit _ _ _ _ _ _ _ _ Hq E). split; [done|]. exists cmds.
    split; [by eapply Hb|done].
Qed.
Lemma sends_txRun {B} id (mutate : DB → SagaRun → B → mutation * B) b :
  (∀ r, P (CSet (KRun (uuid_string id)) (BRun r) true) = true) →
  (∀ d r b r' cmds, (mutate d r b).1 = Write r' cmds → forallb P cmds = true) →
  sends P (txRun id mutate b).
Proof.
  intros Hset Hm. apply sends_bind; [|intros; apply sends_ret]. apply sends_watch.
  intros d b1 cmds a b'. unfold tx_attempt. destruct (getJSON _ _ _) as [[r|]|e]; [|done..].
  specialize (Hm d r b1). destruct (mutate d r b1) as [mu b2]. destruct mu as [|e|r' cs]; [done..|].
  destruct (json_run r'); [|done]. intros [= <- _ _].
  rewrite forallb_app, (Hm _ _ eq_refl); simpl. by rewrite Hset.
Qed.
End Sends.

Lemma sends_pure P id f :
  (∀ r, P (CSet (KRun (uuid_string id)) (BRun r) true) = true) →
  (∀ r r' cmds, f r = Write r' cmds → forallb P cmds = true) → sends P (txRun_pure id f).
Proof.
  intros Hset Hf. apply sends_bind; [|intros; apply sends_ret].
  apply sends_txRun; [done|]. intros d r [] r' cmds. apply Hf.
Qed.

End Rows.

(** Walk through a computation, leaving the commands it sends. *)
Ltac sends :=
  repeat match goal with
    | |- sends _ (ret _) => apply sends_ret
    | |- sends _ (read _) => apply sends_read
    | |- sends _ uuidNew => apply sends_uuid
    | |- sends _ timeNow => apply sends_now
    | |- sends _ get_store => apply sends_get_store
    | |- sends _ (pipeline _) => apply sends_pipeline
    | |- sends _ (bind _ _) => apply sends_bind; [|intros]
    | |- sends _ (txRun_pure _ _) => apply sends_pure; [done|]
    | |- sends _ (txRun _ _ _) => apply sends_txRun; [done|]
    | |- sends _ (watch _ _ _ _) => apply sends_watch
    | |- sends _ (match ?x with _ => _ end) => destruct x eqn:?
    end.

Section Rows.
Context `{EnvLaws} `{JsonEnv} `{RedisLaws}.

Lemma quiet_txRun {B} id (mutate : DB → SagaRun → B → mutation * B) b w :
  quiet w → quiet (txRun id mutate b w).2.
Proof.
  intros Hq. apply (sends_txRun (λ _, true)); [done| |done].
  intros. by apply forallb_forall.
Qed.

(** Leaving the runs alone. *)
Definition keeps {A} (c : M (World Redis) A) : Prop := sends keeps_runs c.
Lemma keeps_texts {A} (c : M (World Redis) A) w j :
  keeps c → quiet w → get_text (rdb (c w).2) (KRun j) = get_text (rdb w) (KRun j).
Proof. intros Hc Hq. destruct (Hc w Hq) as (_ & cs & Hcs & ->). by apply keeps_runs_text. Qed.

Lemma sends_AppendEvent P e :
  (∀ k b, P (CRPush (KEvents k) b) = true) → (∀ k b, P (CSet (KEvent k) b false) = true) →
  sends P (redis_AppendEvent e).
Proof. intros Hp1 Hp2. unfold redis_AppendEvent. sends. simpl. by rewrite Hp1, Hp2. Qed.
Lemma sends_close P now ts :
  (∀ k b, P (CSet (KTask k) b false) = true) → sends P (close_tasks now ts).
Proof.
  intros Hp1. induction ts as [|t ts IH]; simpl; [apply sends_ret|]. sends; [|done..].
  simpl. by rewrite Hp1.
Qed.
Lemma sends_ListTasks P id : sends P (redis_ListUserTasksByRun id).
Proof. unfold redis_ListUserTasksByRun, SMembers, MGet. sends. Qed.

Lemma uuid_string_inj u v : uuid_string u = uuid_string v → u = v.
Proof.
  intros E. pose proof (uuid_parse_string u) as Hu. rewrite E, uuid_parse_string in Hu.
  by injection Hu.
Qed.

(** ** The simulation *)

(** [m], the runs of the in-memory store, are the ones in the database, and JSON keeps
    their values. *)
Record rows_sim (m : gmap uuid SagaRun) (d : DB) : Prop := {
  sim_rows id : get_text d (KRun (uuid_string id)) = BRun <$> m !! id;
  sim_normal : map_Forall (λ _, normal_run) m
}.

Lemma rows_sim_keeps m d d' :
  (∀ j, get_text d' (KRun j) = get_text d (KRun j)) → rows_sim m d → rows_sim m d'.
Proof. intros E []. split; [|done]. intros id. by rewrite E. Qed.

(** [mutate] turns the run into [g] of it, or leaves it when that is no change. *)
Definition mut_row {B} (mutate : DB → SagaRun → B → mutation * B) (g : SagaRun → SagaRun)
    (d : DB) : Prop :=
  ∀ r b, match (mutate d r b).1 with
         | Abort | Failed _ => g r = r
         | Write r' cmds => r' = g r ∧ forallb keeps_runs cmds = true
         end.

Lemma rows_sim_write m d id r cmds :
  rows_sim m d → normal_run r → forallb keeps_runs cmds = true →
  rows_sim (<[id := r]> m) (apply_cmds (cmds ++ [CSet (KRun (uuid_string id)) (BRun r) true]) d).
Proof.
  intros [Hr Hn] Hnr Hc. split; [|by apply map_Forall_insert_2]. intros j.
  rewrite apply_cmds_app. set (d1 := apply_cmds cmds d).
  cbn. rewrite text_cmd, cmd_text_set. destruct (decide (j = id)) as [->|Hj].
  - by rewrite lookup_insert_eq, decide_True.
  - rewrite lookup_insert_ne, decide_False by
      (congruence || (intros [= E%uuid_string_inj]; congruence)).
    unfold d1. by rewrite keeps_runs_text, Hr.
Qed.

(** A transaction moves the row of its run by [g]. *)
Lemma txRun_row {B} id (mutate : DB → SagaRun → B → mutation * B) b g m w :
  quiet w → rows_sim m (rdb w) → mut_row mutate g (rdb w) →
  (∀ r, m !! id = Some r → normal_run (g r)) →
  rows_sim (alter g id m) (rdb (txRun id mutate b w).2).
Proof.
  intros Hq Hs Hm Hg. destruct (m !! id) as [r|] eqn:Er.
  - assert (get_text (rdb w) (KRun (uuid_string id)) = Some (BRun r)) as Ht
      by (by rewrite (sim_rows _ _ Hs), Er).
    rewrite (alter_insert_lookup _ _ _ _ Er). specialize (Hm r b). specialize (Hg r eq_refl).
    pose proof (tx_attempt_run id mutate (rdb w) b r Ht) as Ha.
    destruct (mutate (rdb w) r b) as [mu b'] eqn:Emu. simpl in Hm.
    destruct mu as [|e|r' cmds].
    + rewrite (txRun_watch _ _ _ _ _ _ _ (watch_done 49 _ _ _ _ _ _ Ha)); simpl.
      by rewrite Hm, insert_id.
    + rewrite (txRun_watch _ _ _ _ _ _ _ (watch_done 49 _ _ _ _ _ _ Ha)); simpl.
      by rewrite Hm, insert_id.
    + destruct Hm as [-> Hc]. rewrite (json_run_normal _ Hg) in Ha.
      rewrite (txRun_watch _ _ _ _ _ _ _ (watch_commit 49 _ _ _ _ _ _ _ Hq Ha)); simpl.
      by apply rows_sim_write.
  - rewrite alter_id_None by done.
    assert (tx_attempt id mutate (rdb w) b = (Done (Err (not_found_run id)), b)) as Ha.
    { unfold tx_attempt, getJSON. by rewrite (sim_rows _ _ Hs), Er. }
    by rewrite (txRun_watch _ _ _ _ _ _ _ (watch_done 49 _ _ _ _ _ _ Ha)).
Qed.
Lemma txRun_pure_row id f g m w :
  quiet w → rows_sim m (rdb w) → mut_row (λ _ r (_ : unit), (f r, tt)) g (rdb w) →
  (∀ r, m !! id = Some r → normal_run (g r)) →
  rows_sim (alter g id m) (rdb (txRun_pure id f w).2).
Proof.
  intros Hq Hs Hm Hg. pose proof (txRun_row id _ tt g m w Hq Hs Hm Hg) as Hx.
  unfold txRun_pure, bind. by destruct (txRun _ _ _ _) as [[] ?].
Qed.

(** ** The operations *)

(** The Redis store under the labels of the in-memory store's transition system. *)
Definition redis_op (op : mem_op) (w : World Redis) : World Redis :=
  match op with
  | OpUpsertDefinition d => (redis_UpsertWorkflowDefinition d w).2
  | OpCreateRun r => (redis_CreateRun r w).2
  | OpUpdateRunState id st cs => (redis_UpdateRunState id st cs w).2
  | OpAppendEvent e => (redis_AppendEvent e w).2
  | OpCancel id reason => (redis_Cancel id reason w).2
  | OpMarkRunFailed id cs e => (redis_MarkRunFailed id cs e w).2
  | OpUpsertRule r => (redis_UpsertRuleDefinition r w).2
  | OpUpdateVariables id m => (redis_UpdateRunVariables id m w).2
  | OpPauseWakeup id t => (redis_SetPausedWithWakeup id t w).2
  | OpPauseSignal id n d => (redis_SetPausedAwaitingSignal id n d w).2
  | OpPauseEvent id t h d => (redis_SetPausedAwaitingEventWithDeadline id t h d w).2
  | OpClearPause id => (redis_ClearPause id w).2
  | OpConsumeSignal id n => (redis_TryConsumeAwaitedSignal id n w).2
  | OpWake id => (redis_WakeFromExternal id w).2
  | OpAppendSignal sg => (redis_AppendSignal sg w).2
  | OpSpawn id sid k d i s => (redis_SpawnChildRunAt id sid k d i s w).2
  | OpPush id f => (redis_PushTryCatch id f w).2
  | OpPop id => (redis_PopTryCatch id w).2
  | OpCreateTask t => (redis_CreateUserTask t w).2
  | OpSubmitTask id b r => (redis_SubmitUserTask id b r w).2
  | OpUpsertAction a => (redis_UpsertActionRegistration a w).2
  | OpMarkAwaiting id d a => (redis_MarkAwaitingAction id d a w).2
  | OpCompleteAction id a r => (redis_CompleteAction id a r w).2
  | OpFailAction id a c m r => (redis_FailAction id a c m r w).2
  | OpUpsertTrigger t => (redis_UpsertTrigger t w).2
  | OpDeleteTrigger id => (redis_DeleteTrigger id w).2
  | OpClaimCron id e n => (redis_ClaimCronFire id e n w).2
  | OpRecordFire id wf r e => (redis_RecordTriggerFire id wf r e w).2
  end.

(** The values an operation writes are ones JSON keeps. *)
Definition op_normal (op : mem_op) : Prop :=
  match op with
  | OpCreateRun r => normal_run r
  | OpUpdateVariables _ m | OpCompleteAction _ _ m => normal_vars m
  | OpAppendSignal sg => normal_vars (sig_Payload sg) ∧ decodable_vars (sig_Payload sg)
  | _ => True
  end.
(** The stored signals of the run can be decoded. *)
Definition signals_ok (op : mem_op) (d : DB) : Prop :=
  match op with
  | OpConsumeSignal id _ =>
      ∃ sigs, decode_all as_plain_signal (Some <$> get_list d (KSignals (uuid_string id))) = Ok sigs
  | _ => True
  end.

(** What an operation does to its run's row in Redis: what it does in memory, but a
    reported failure is neither stamped nor kept. *)
Definition redis_row (now : Z) (op : mem_op) (r : SagaRun) : SagaRun :=
  match op with
  | OpFailAction _ a _ _ _ =>
      if decide (run_CurrentAttempt r ≠ a) then r
      else set_run_State RunStateFailed (set_run_AwaitedActionDispatch None r)
  | _ => op_row now op r
  end.

Lemma op_row_normal now op r :
  op_normal op → normal_run r → normal_run (redis_row now op r).
Proof.
  intros Hop [Hi Hv].
  destruct op; simpl; try done; try (repeat case_match; done).
  - unfold row_Cancel. repeat case_match; done.
  - unfold MarkFailed_row, row_MarkRunFailed. repeat case_match; done.
  - split; [done|]. apply normal_merge; [|done]. apply Forall_forall. intros [k v] Hin.
    rewrite range_map_perm in Hin. apply elem_of_map_to_list in Hin. by apply (Hop k).
  - unfold row_SetPausedAwaitingSignal. repeat case_match; done.
  - unfold row_MarkAwaitingAction. repeat case_match; done.
  - unfold Complete_row. case_match; [done|]. split; [done|]. by apply normal_union.
Qed.

Lemma drop_keeps id r : forallb keeps_runs (drop_indexes id r) = true.
Proof. unfold drop_indexes, srem_topic. by destruct (run_AwaitedEventTopic r). Qed.
Lemma srem_keeps id r : forallb keeps_runs (srem_topic id r) = true.
Proof. unfold srem_topic. by destruct (run_AwaitedEventTopic r). Qed.
Lemma zadd_keeps id d : forallb keeps_runs (zadd_wakeup id d) = true.
Proof. by destruct d. Qed.
Lemma ttl_keeps ttl id : forallb keeps_runs (applyTerminalTTL ttl id) = true.
Proof. unfold applyTerminalTTL. by case_decide. Qed.
Lemma app_keeps cs1 cs2 :
  forallb keeps_runs cs1 = true → forallb keeps_runs cs2 = true →
  forallb keeps_runs (cs1 ++ cs2) = true.
Proof. intros Hc1 Hc2. by rewrite forallb_app, Hc1, Hc2. Qed.
#[local] Hint Resolve drop_keeps srem_keeps zadd_keeps ttl_keeps app_keeps : redis.

Lemma signals_keep id now name (sigs : list SagaSignal) :
  forallb keeps_runs
    ((λ sg, CRPush (KSignals id) (BSignal (consume_signal now name sg))) <$> sigs) = true.
Proof. induction sigs; done. Qed.
#[local] Hint Resolve signals_keep : redis.

(** *** The bodies of the transactions *)
Lemma cancel_row ttl now id reason d :
  mut_row (cancel_mutate ttl now id reason) (redis_row now (OpCancel id reason)) d.
Proof.
  intros r b. unfold cancel_mutate; cbn [redis_row op_row]. destruct (IsTerminal (run_State r)); [done|].
  split; [done|]. auto with redis.
Qed.
Lemma pop_row now id d : mut_row pop_mutate (redis_row now (OpPop id)) d.
Proof.
  intros r b. unfold pop_mutate; simpl. destruct (last (run_TryCatchStack r)) eqn:El; [done|].
  apply last_None in El. rewrite El. destruct r; simpl in *; by subst.
Qed.
Lemma fail_row now ttl id a code msg re d :
  mut_row (fail_mutate ttl id a) (redis_row now (OpFailAction id a code msg re)) d.
Proof.
  intros r b. unfold fail_mutate; cbn [redis_row]. case_decide; [done|]. split; [done|]. auto with redis.
Qed.
Lemma consume_row now id name d :
  signals_ok (OpConsumeSignal id name) d →
  mut_row (consume_mutate now id name) (redis_row now (OpConsumeSignal id name)) d.
Proof.
  intros [sigs Hs] r b. unfold consume_mutate; simpl. case_decide; [|done].
  rewrite Hs. split; [done|]. apply app_keeps; [auto with redis|].
  destruct sigs as [|sg sigs]; [done|]. exact (signals_keep _ now name (sg :: sigs)).
Qed.

(** Run a transaction, then code that leaves the runs alone. *)
Lemma keeps_after {A B} (c : M (World Redis) A) (f : A → M (World Redis) B) m w :
  quiet (c w).2 → (∀ a, keeps (f a)) → rows_sim m (rdb (c w).2) → rows_sim m (rdb (bind c f w).2).
Proof.
  intros Hq Hf Hs. unfold bind. destruct (c w) as [a w'].
  eapply rows_sim_keeps; [|exact Hs]. intros j. by apply keeps_texts.
Qed.

(** The rest of [Cancel] and of [FailAction] after the transaction. *)
Lemma sends_cancel_rest P (runID : uuid) reason (o : res unit * (bool * string)) :
  (∀ k b, P (CRPush (KEvents k) b) = true) → (∀ k b, P (CSet (KEvent k) b false) = true) →
  (∀ k b, P (CSet (KTask k) b false) = true) →
  sends P (let '(err, (cancelled, step)) := o in
    try* _ := ret err else id in
    if cancelled : bool then
      try* tasks := redis_ListUserTasksByRun runID else id in
      let* now := timeNow in
      try* _ := close_tasks now tasks else id in
      let* evt := NewEvent runID step 0 EventRunCancelled "engine" in
      redis_AppendEvent (if decide (reason = "") then evt
                         else with_Metadata {["reason" := VStr reason]} evt)
    else ret (Ok tt)).
Proof.
  intros. destruct o as [err [c st]]. unfold NewEvent.
  sends; auto using sends_ListTasks, sends_close, sends_AppendEvent.
Qed.

(** An operation on one run moves that row as [redis_row] says. *)
Lemma redis_op_row op id m w :
  op_run op = Some id → op_normal op → signals_ok op (rdb w) → quiet w → rows_sim m (rdb w) →
  rows_sim (alter (redis_row (w_now w) op) id m) (rdb (redis_op op w)).
Proof.
  intros Hid Hn Hsig Hq Hs.
  assert (∀ r, m !! id = Some r → normal_run (redis_row (w_now w) op r)) as Hg.
  { intros r Hr. apply op_row_normal; [done|]. by apply (sim_normal _ _ Hs id). }
  destruct op; simpl in Hid; simplify_eq; cbn [redis_op];
    unfold redis_UpdateRunState, redis_Cancel, redis_MarkRunFailed, redis_FailAction,
      redis_CompleteAction, redis_TryConsumeAwaitedSignal, redis_PopTryCatch;
    rewrite ?bind_get_store, ?bind_timeNow.
  2: { apply keeps_after; [by apply quiet_txRun|intros; by apply sends_cancel_rest|].
       apply txRun_row; auto using cancel_row. }
  all: try (apply txRun_pure_row; [done|done| |done]; intros r [];
            cbn [redis_row op_row fst]; unfold MarkFailed_row, row_MarkAwaitingAction, Complete_row).
  all: try (try destruct (IsTerminal _); repeat case_decide; try done; (split; [done|]); cbn [forallb keeps_runs andb];
            by auto with redis).
  - apply keeps_after; [by apply quiet_txRun|intros; apply sends_ret|].
    apply txRun_row; auto using consume_row.
  - apply keeps_after; [by apply quiet_txRun|intros; apply sends_ret|].
    apply txRun_row; auto using pop_row.
  - apply keeps_after; [by apply quiet_txRun| |apply txRun_row; eauto using fail_row].
    intros [err [d st]]. unfold NewEvent, keeps. sends. by apply sends_AppendEvent.
Qed.

(** *** The commands of the operations *)

(** Only signals that decode are pushed to the lists of signals. *)
Definition sig_ok (c : cmd) : bool :=
  match c with
  | CRPush (KSignals _) b => match as_plain_signal b with Some _ => true | None => false end
  | _ => true
  end.
Definition sig_inv (d : DB) : Prop :=
  ∀ k, ∃ sigs, decode_all as_plain_signal (Some <$> get_list d (KSignals k)) = Ok sigs.

Lemma decode_signals l :
  (∃ sigs, decode_all as_plain_signal (Some <$> l) = Ok sigs) ↔ Forall (λ b, is_Some (as_plain_signal b)) l.
Proof.
  split.
  - intros [sigs E]. revert sigs E. induction l as [|b l IH]; intros sigs; [constructor|]; simpl.
    destruct (as_plain_signal b) eqn:Eb; [|done].
    destruct (decode_all as_plain_signal (list_fmap _ _ Some l)) eqn:E; [|done]. intros _.
    constructor; [by rewrite Eb|]. by eapply IH.
  - induction 1 as [|b l [sg Hb] _ [sigs IH]]; simpl; [eauto|]. rewrite Hb. unfold fmap in IH.
    rewrite IH. eauto.
Qed.
Lemma sig_ok_inv cs d : forallb sig_ok cs = true → sig_inv d → sig_inv (apply_cmds cs d).
Proof.
  revert d. induction cs as [|c cs IH]; intros d; simpl; [done|].
  rewrite andb_true_iff. intros [Hc Hcs] Hd. change (apply_cmds (c :: cs) d)
    with (apply_cmds cs (apply_cmd c d)). apply IH; [done|]. intros k. apply decode_signals.
  specialize (Hd k). apply decode_signals in Hd.
  destruct (decide (cmd_key c = KSignals k)) as [E|E];
    [|by destruct (apply_cmd_other c d _ E) as (_ & -> & _)].
  rewrite list_cmd. unfold cmd_list. rewrite decide_True by done.
  destruct c; simpl in *; subst; try done.
  - apply Forall_app. split; [done|].
    destruct (as_plain_signal b) eqn:Eb; [|done]. constructor; [by rewrite Eb|constructor].
  - apply Forall_forall. intros b [_ Hb]%list_elem_of_filter.
    by eapply Forall_forall in Hd.
Qed.

Lemma drop_sig id r : forallb sig_ok (drop_indexes id r) = true.
Proof. unfold drop_indexes, srem_topic. by destruct (run_AwaitedEventTopic r). Qed.
Lemma srem_sig id r : forallb sig_ok (srem_topic id r) = true.
Proof. unfold srem_topic. by destruct (run_AwaitedEventTopic r). Qed.
Lemma zadd_sig id d : forallb sig_ok (zadd_wakeup id d) = true.
Proof. by destruct d. Qed.
Lemma ttl_sig ttl id : forallb sig_ok (applyTerminalTTL ttl id) = true.
Proof. unfold applyTerminalTTL. by case_decide. Qed.
Lemma app_sig cs1 cs2 :
  forallb sig_ok cs1 = true → forallb sig_ok cs2 = true → forallb sig_ok (cs1 ++ cs2) = true.
Proof. intros Hc1 Hc2. by rewrite forallb_app, Hc1, Hc2. Qed.
Lemma consumed_decodes `{!JsonLaws} now name sg :
  decodable_vars (sig_Payload sg) →
  is_Some (as_plain_signal (BSignal (consume_signal now name sg))).
Proof.
  intros Hd. assert (sig_Payload (consume_signal now name sg) = sig_Payload sg) as E
    by (unfold consume_signal; by case_decide).
  unfold as_plain_signal. rewrite E. apply decodable_map in Hd as Hm. rewrite Hm.
  destruct (decodable_vars_back _ Hd) as (m' & -> & _). by eexists.
Qed.
Lemma decoded_signals `{!JsonLaws} l sigs :
  decode_all as_plain_signal (Some <$> l) = Ok sigs →
  Forall (λ sg, decodable_vars (sig_Payload sg)) sigs.
Proof.
  revert sigs. induction l as [|b l IH]; intros sigs; simpl; [by intros [= <-]|].
  destruct (as_plain_signal b) as [sg|] eqn:Eb; [|done].
  destruct (decode_all as_plain_signal (list_fmap _ _ Some l)) as [sgs|] eqn:E; [|done].
  intros [= <-]. constructor; [|by apply IH].
  destruct b; try done. unfold as_plain_signal in Eb.
  destruct (decodable _) eqn:Ed; [|done]. apply decodable_map in Ed.
  destruct (decodable_vars_back _ Ed) as (m' & Em & Hm). rewrite Em in Eb. by injection Eb as <-.
Qed.
Lemma push_sig `{!JsonLaws} id now name l sigs :
  decode_all as_plain_signal (Some <$> l) = Ok sigs →
  forallb sig_ok
    ((λ sg, CRPush (KSignals id) (BSignal (consume_signal now name sg))) <$> sigs) = true.
Proof.
  intros Hs%decoded_signals. induction Hs as [|sg sigs Hd _ IH]; [done|].
  rewrite fmap_cons. cbn [forallb]. apply andb_true_iff. split; [|exact IH].
  unfold sig_ok. by destruct (consumed_decodes now name sg Hd) as [? ->].
Qed.
#[local] Hint Resolve drop_sig srem_sig zadd_sig ttl_sig app_sig push_sig : redis.

End Rows.
#[export] Hint Resolve drop_keeps srem_keeps zadd_keeps ttl_keeps app_keeps : redis.
#[export] Hint Resolve signals_keep : redis.
#[export] Hint Resolve drop_sig srem_sig zadd_sig ttl_sig app_sig push_sig : redis.

(** The commands of a transaction's body, case by case. *)
Ltac unfold_op :=
  unfold redis_UpdateRunState, redis_Cancel, redis_MarkRunFailed, redis_FailAction,
    redis_CompleteAction, redis_TryConsumeAwaitedSignal, redis_PopTryCatch, NewEvent,
    redis_UpsertWorkflowDefinition, redis_CreateRun, redis_UpsertRuleDefinition,
    redis_UpdateRunVariables, redis_SetPausedWithWakeup, redis_SetPausedAwaitingSignal,
    redis_SetPausedAwaitingEventWithDeadline, redis_ClearPause, redis_WakeFromExternal,
    redis_AppendSignal, redis_SpawnChildRunAt, redis_PushTryCatch, redis_CreateUserTask,
    redis_SubmitUserTask, redis_UpsertActionRegistration, redis_MarkAwaitingAction,
    redis_UpsertTrigger, redis_DeleteTrigger, redis_ClaimCronFire, redis_RecordTriggerFire,
    get.
Ltac body_cmds :=
  intros *; unfold cancel_mutate, consume_mutate, pop_mutate, fail_mutate, rule_attempt,
    spawn_attempt, claim_attempt, spawn_cmds; cbn [fst];
  repeat first [destruct (IsTerminal _)|case_decide|case_match]; intros; cbn [fst] in *;
  simplify_eq; unfold drop_indexes; rewrite ?forallb_app; cbn [forallb app];
  rewrite ?forallb_app, ?andb_true_iff; split_and?; eauto with redis.

Section Rows.
Context `{EnvLaws} `{JsonEnv} `{RedisLaws}.

Lemma op_quiet op w : quiet w → quiet (redis_op op w).
Proof.
  intros Hq. destruct op; cbn [redis_op];
    match goal with |- quiet (?c w).2 =>
      cut (sends (λ _, true) c); [intros Hc; exact (proj1 (Hc w Hq))|] end;
    unfold_op.
  all: sends; try done; try by apply sends_AppendEvent.
  all: try by apply sends_ListTasks. all: try by apply sends_close.
  all: intros; by apply forallb_forall.
Qed.
Lemma op_sends_sig `{!JsonLaws} op w :
  op_normal op → quiet w →
  ∃ cs, forallb sig_ok cs = true ∧ rdb (redis_op op w) = apply_cmds cs (rdb w).
Proof.
  intros Hn Hq. destruct op; cbn [redis_op];
    match goal with |- ∃ _, _ ∧ rdb (?c w).2 = _ =>
      cut (sends sig_ok c); [intros Hc; exact (proj2 (Hc w Hq))|] end;
    unfold_op.
  all: sends; try done; try by apply sends_AppendEvent.
  all: try by apply sends_ListTasks. all: try by apply sends_close.
  all: body_cmds.
  1-2: match goal with Hd : decode_all _ _ = Ok (_ :: _) |- _ =>
         pose proof (push_sig (uuid_string id) a name _ _ Hd) as Hp;
         rewrite fmap_cons in Hp; cbn [forallb] in Hp; by apply andb_true_iff in Hp as [] end.
  destruct Hn as [Hn%json_vars_normal Hd]. unfold json_signal in *. rewrite Hn in *. simplify_eq/=.
  apply decodable_map in Hd as Hm. simpl in Hm. rewrite Hm.
  by destruct (decodable_vars_back _ Hd) as (? & -> & _).
Qed.

Lemma op_keeps op w j :
  no_row op = true → quiet w → get_text (rdb (redis_op op w)) (KRun j) = get_text (rdb w) (KRun j).
Proof.
  intros Hop Hq. destruct op; try done; cbn [redis_op];
    match goal with |- get_text (rdb (?c w).2) _ = _ =>
      cut (keeps c); [intros Hc; exact (keeps_texts c w j Hc Hq)|] end;
    unfold keeps, redis_UpsertWorkflowDefinition, redis_UpsertRuleDefinition, redis_AppendEvent,
      redis_AppendSignal, redis_CreateUserTask, redis_SubmitUserTask,
      redis_UpsertActionRegistration, redis_UpsertTrigger, redis_DeleteTrigger,
      redis_ClaimCronFire, redis_RecordTriggerFire, get.
  all: sends; try done.
  all: body_cmds.
Qed.

Lemma create_row r m w :
  normal_run r → rows_sim m (rdb w) → rows_sim (<[run_ID r := r]> m) (rdb (redis_op (OpCreateRun r) w)).
Proof.
  intros Hn [Hr Hm]. simpl. unfold redis_CreateRun. rewrite (json_run_normal _ Hn).
  split; [|by apply map_Forall_insert_2]. intros j. unfold bind, pipeline, rdb in *; simpl.
  rewrite !text_cmd, 2!cmd_text_other, cmd_text_set by done.
  destruct (decide (j = run_ID r)) as [->|Hj].
  - by rewrite lookup_insert_eq, !decide_True.
  - rewrite lookup_insert_ne, decide_False by
      (congruence || (intros [= E%uuid_string_inj]; congruence)). apply Hr.
Qed.

(** ** One history, two stores *)

(** A reported failure of the current attempt is where the stores differ, and spawned
    children get other ids. *)
Definition agreed (op : mem_op) (m : gmap uuid SagaRun) : Prop :=
  match op with
  | OpFailAction id a _ _ _ => ∀ r, m !! id = Some r → run_CurrentAttempt r ≠ a
  | OpSpawn _ _ _ _ _ _ => False
  | _ => True
  end.

(** Both stores, started empty, after the same operations at the same times; in between
    the rest of the two processes may do anything. *)
Inductive same_history : World MemStore → World Redis → Prop :=
| hist_new wm wr :
    w_store wm = New → rdb wr = empty_db → quiet wr → same_history wm wr
| hist_op op wm wr :
    same_history wm wr → w_now wm = w_now wr → op_normal op → agreed op (runs (w_store wm)) →
    same_history (apply_op op wm) (redis_op op wr)
| hist_env wm wr wm' wr' :
    same_history wm wr → w_store wm' = w_store wm → w_store wr' = w_store wr →
    same_history wm' wr'.

Lemma agreed_row op now m :
  agreed op m → ∀ id r, op_run op = Some id → m !! id = Some r → redis_row now op r = op_row now op r.
Proof.
  intros Ha id r Hid Hr. destruct op; try done. simpl in *. simplify_eq.
  specialize (Ha r Hr). by rewrite !decide_True.
Qed.

Lemma history_sim `{!JsonLaws} wm wr :
  same_history wm wr →
  rows_sim (runs (w_store wm)) (rdb wr) ∧ quiet wr ∧ sig_inv (rdb wr).
Proof.
  induction 1 as [wm wr Em Er Hq|op wm wr Hh (Hs & Hq & Hsig) Hnow Hn Ha
                 |wm wr wm' wr' Hh (Hs & Hq & Hsig) Em Er].
  - rewrite Em, Er. split_and!; [|done|intros k; rewrite list_empty; by eexists].
    split; [intros id; by rewrite text_empty|apply map_Forall_empty].
  - pose proof (op_quiet op wr Hq) as Hq'. destruct (op_sends_sig op wr Hn Hq) as (cs & Hcs & E).
    split_and!; [|done|rewrite E; by apply sig_ok_inv].
    rewrite apply_op_rows. unfold rows_after.
    assert (signals_ok op (rdb wr)) as Hso by (destruct op; try done; apply Hsig).
    destruct (no_row op) eqn:Hno.
    + assert (op_new wm op = None ∧ op_run op = None) as [-> ->] by (by destruct op).
      eapply rows_sim_keeps; [|exact Hs]. intros j. by apply op_keeps.
    + destruct (op_run op) as [id|] eqn:Hid.
      * assert (op_new wm op = None) as -> by (by destruct op).
        pose proof (redis_op_row op id _ wr Hid Hn Hso Hq Hs) as Hrow. rewrite Hnow.
        replace (alter (op_row (w_now wr) op) id (runs (w_store wm)))
          with (alter (redis_row (w_now wr) op) id (runs (w_store wm))); [done|].
        destruct (runs (w_store wm) !! id) as [r|] eqn:Er; [|by rewrite !alter_id_None].
        rewrite !(alter_insert_lookup _ _ _ _ Er). by rewrite (agreed_row _ _ _ Ha id r Hid Er).
      * destruct op; try done. by apply create_row.
  - rewrite Em. unfold rdb, quiet in *. by rewrite Er.
Qed.

(** C12: On one history of operations the Redis store and the in-memory store answer
    [GetRun] alike, run by run, errors included.  The history may hold every operation
    but the two on which the stores differ, the spawning of children (their ids are drawn
    in another order) and the failure of the current attempt (which Redis does not
    stamp); the values are ones that JSON keeps. *)
Theorem redis_refines_memory `{!JsonLaws} wm wr id :
  same_history wm wr → (redis_GetRun id wr).1 = (mem_GetRun id wm).1.
Proof.
  intros (Hs & _ & _)%history_sim.
  unfold redis_GetRun, mem_GetRun, bind, get, read, getJSON, get_store, ret; simpl.
  fold (rdb wr). rewrite (sim_rows _ _ Hs). by destruct (runs (w_store wm) !! id).
Qed.
End Rows.
