(* ===== verification/RedisIndex.v ===== *)
(** The wait indexes of the Redis store ([idx:awaitevent:*] and [idx:wakeup]): every
    waiting run is in them, so the event subscriber and the timer find it. *)
From S2P Require Import Prelude Values Domain World Demo StoreApi Rows StoreSpec MemStore Sorting.
From S2P Require Import MemInv MemRows Json JsonProps RedisDB Redis RedisProps RedisRaces.
From S2P Require Import RedisRows.

Section Entries.
Context `{RedisLaws}.

Definition live (r : SagaRun) : Prop := IsTerminal (run_State r) = false.

(** The run's entries: the topic it awaits and its wakeup, while it is not over. *)
Definition indexed (m : string) (r : SagaRun) (d : DB) : Prop :=
  live r →
  (∀ t, run_AwaitedEventTopic r = Some t → m ∈ get_set d (KAwait t)) ∧
  (∀ z, run_WakeupAt r = Some z → get_zset d KWakeup !! m = Some (f_of_Z z)).

(** ** The commands on the indexes *)

(** [c] moves no other member of the indexes than [m], and no run. *)
Definition own (m : string) (c : cmd) : bool :=
  match c with
  | CSAdd (KAwait _) x | CSRem (KAwait _) x => bool_decide (x = m)
  | CZAdd KWakeup _ x | CZRem KWakeup x => bool_decide (x = m)
  | CDel (KAwait _) | CDel KWakeup => false
  | c => keeps_runs c
  end.
(** [c] has nothing to do with the indexes and the runs. *)
Definition no_idx (c : cmd) : bool :=
  match cmd_key c with KAwait _ | KWakeup => false | _ => keeps_runs c end.

Lemma no_idx_own m c : no_idx c = true → own m c = true.
Proof. by destruct c as [[]| [] | | |[]|[]|[]|[]|]. Qed.
Lemma no_idx_all m cs : forallb no_idx cs = true → forallb (own m) cs = true.
Proof.
  rewrite !forallb_forall. intros Hc c Hin. by apply no_idx_own, Hc.
Qed.
Lemma own_runs m cs : forallb (own m) cs = true → forallb keeps_runs cs = true.
Proof.
  rewrite !forallb_forall. intros Hc c Hin. specialize (Hc c Hin).
  by destruct c as [[]| [] | | |[]|[]|[]|[]|].
Qed.

Lemma own_other m m' c r d :
  own m c = true → m' ≠ m → indexed m' r d → indexed m' r (apply_cmd c d).
Proof.
  intros Hc Hm Hi Hl. destruct (Hi Hl) as [Ht Hz]. clear Hi Hl.
  split.
  - intros t Et. specialize (Ht t Et).
    destruct (decide (cmd_key c = KAwait t)) as [Ek|Ek];
      [|by destruct (apply_cmd_other c d _ Ek) as (_&_&->&_)].
    rewrite set_cmd. unfold cmd_set. rewrite decide_True by done.
    destruct c; cbn [cmd_key] in Ek; subst; simpl in Hc; try done;
      apply bool_decide_eq_true in Hc; subst; set_solver.
  - intros z Ez. specialize (Hz z Ez).
    destruct (decide (cmd_key c = KWakeup)) as [Ek|Ek];
      [|by destruct (apply_cmd_other c d _ Ek) as (_&_&_&->)].
    rewrite zset_cmd. unfold cmd_zset. rewrite decide_True by done.
    destruct c; cbn [cmd_key] in Ek; subst; simpl in Hc; try done;
      apply bool_decide_eq_true in Hc; subst; by rewrite ?lookup_insert_ne, ?lookup_delete_ne.
Qed.
Lemma own_others m m' cs r d :
  forallb (own m) cs = true → m' ≠ m → indexed m' r d → indexed m' r (apply_cmds cs d).
Proof.
  revert d. induction cs as [|c cs IH]; intros d; simpl; [done|].
  rewrite andb_true_iff. intros [Hc Hcs] Hm Hi.
  change (apply_cmds (c :: cs) d) with (apply_cmds cs (apply_cmd c d)).
  apply IH; [done..|]. by eapply own_other.
Qed.
Lemma no_idx_touches cs k :
  forallb no_idx cs = true → match k with KAwait _ | KWakeup => True | _ => False end →
  touches cs k = false.
Proof.
  intros Hcs Hk. induction cs as [|c cs IH]; [done|].
  simpl in Hcs. apply andb_true_iff in Hcs as [Hc Hcs]. rewrite touches_cons, IH by done.
  rewrite orb_false_r. apply bool_decide_eq_false. intros E. unfold no_idx in Hc.
  rewrite E in Hc. by destruct k.
Qed.
Lemma no_idx_same cs d :
  forallb no_idx cs = true →
  (∀ t, get_set (apply_cmds cs d) (KAwait t) = get_set d (KAwait t)) ∧
  get_zset (apply_cmds cs d) KWakeup = get_zset d KWakeup.
Proof.
  intros Hcs. split; [intros t|].
  - by destruct (apply_cmds_other cs d _ (no_idx_touches _ (KAwait t) Hcs I)) as (_&_&->&_).
  - by destruct (apply_cmds_other cs d _ (no_idx_touches _ KWakeup Hcs I)) as (_&_&_&->).
Qed.
Lemma indexed_views m r d d' :
  (∀ t, get_set d' (KAwait t) = get_set d (KAwait t)) →
  get_zset d' KWakeup = get_zset d KWakeup → indexed m r d → indexed m r d'.
Proof.
  intros E1 E2 Hi Hl. destruct (Hi Hl) as [Ht Hz]. split; intros; [rewrite E1|rewrite E2]; auto.
Qed.
Lemma indexed_no_idx m cs r d :
  forallb no_idx cs = true → indexed m r d → indexed m r (apply_cmds cs d).
Proof. intros Hcs. destruct (no_idx_same cs d Hcs) as [E1 E2]. by apply indexed_views. Qed.

End Entries.

(** ** The invariant *)
Section Index.
Context `{EnvLaws} `{JsonEnv} `{RedisLaws}.
Implicit Types w : World Redis.

Record idx_inv (d : DB) : Prop := {
  idx_runs k b : get_text d (KRun k) = Some b → ∃ id r, k = uuid_string id ∧ b = BRun r;
  idx_indexed k r : get_text d (KRun k) = Some (BRun r) → indexed k r d
}.

(** What JSON leaves of a run, as far as the indexes go. *)
Lemma json_run_waits r j :
  json_run r = Some j →
  run_State j = run_State r ∧ run_AwaitedEventTopic j = run_AwaitedEventTopic r ∧
  run_WakeupAt j = run_WakeupAt r ∧ run_ID j = run_ID r.
Proof.
  unfold json_run. destruct (json_vars (run_Inputs r)); simpl; [|done].
  destruct (json_vars (run_Variables r)); simpl; [|done]. by intros [= <-].
Qed.
Lemma indexed_json m r j d : json_run r = Some j → indexed m r d → indexed m j d.
Proof.
  intros (E1 & E2 & E3 & _)%json_run_waits Hi. unfold indexed, live in *. by rewrite E1, E2, E3.
Qed.

(** Commands on the member [k] alone, then the new text of the run [k]. *)
Lemma idx_write d id r j cmds keep :
  idx_inv d → forallb (own (uuid_string id)) cmds = true → json_run r = Some j →
  indexed (uuid_string id) r (apply_cmds cmds d) →
  idx_inv (apply_cmds (cmds ++ [CSet (KRun (uuid_string id)) (BRun j) keep]) d).
Proof.
  intros [Hr Hi] Hc Hj Hx. rewrite apply_cmds_app. set (k := uuid_string id) in *.
  set (d1 := apply_cmds cmds d) in *.
  assert (∀ m, get_text (apply_cmds [CSet (KRun k) (BRun j) keep] d1) (KRun m) =
               if decide (m = k) then Some (BRun j) else get_text d1 (KRun m)) as Et.
  { intros m. cbn. rewrite text_cmd, cmd_text_set. by repeat case_decide; simplify_eq. }
  assert (∀ m x, indexed m x d1 → indexed m x (apply_cmds [CSet (KRun k) (BRun j) keep] d1))
    as Hs.
  { intros m x. change (apply_cmds [?c] d1) with (apply_cmd c d1). apply indexed_views.
    - intros t. by destruct (apply_cmd_other (CSet (KRun k) (BRun j) keep) d1 (KAwait t))
        as (_ & _ & -> & _).
    - by destruct (apply_cmd_other (CSet (KRun k) (BRun j) keep) d1 KWakeup)
        as (_ & _ & _ & ->). }
  assert (∀ m, get_text d1 (KRun m) = get_text d (KRun m)) as Ed
    by (intros; by apply keeps_runs_text, own_runs with k).
  split; intros m x; rewrite Et.
  - destruct (decide (m = k)) as [->|Hm].
    + intros [= <-]. eauto.
    + rewrite Ed. apply Hr.
  - destruct (decide (m = k)) as [->|Hm].
    + intros [= <-]. apply Hs. by eapply indexed_json.
    + rewrite Ed. intros Hx'. apply Hs.
      eapply own_others; [exact Hc|done|by apply Hi].
Qed.

(** A transaction keeps the invariant when, on the run it finds, its body does. *)
Definition body_ok {B} id (mutate : DB → SagaRun → B → mutation * B) (d : DB) : Prop :=
  ∀ r b r' cmds, get_text d (KRun (uuid_string id)) = Some (BRun r) →
    (mutate d r b).1 = Write r' cmds →
    forallb (own (uuid_string id)) cmds = true ∧
    (indexed (uuid_string id) r d → indexed (uuid_string id) r' (apply_cmds cmds d)).
Lemma idx_txRun {B} id (mutate : DB → SagaRun → B → mutation * B) b w :
  quiet w → idx_inv (rdb w) → body_ok id mutate (rdb w) →
  idx_inv (rdb (txRun id mutate b w).2).
Proof.
  intros Hq Hi Hb.
  destruct (get_text (rdb w) (KRun (uuid_string id))) as [t|] eqn:Et.
  - destruct (idx_runs _ Hi _ _ Et) as (_ & r & _ & ->).
    pose proof (tx_attempt_run id mutate (rdb w) b r Et) as Ha.
    specialize (Hb r b). destruct (mutate (rdb w) r b) as [mu b'].
    destruct mu as [|e|r' cmds].
    1-2: by rewrite (txRun_watch _ _ _ _ _ _ _ (watch_done 49 _ _ _ _ _ _ Ha)).
    destruct (Hb r' cmds Et eq_refl) as [Hc Hx]. destruct (json_run r') as [j|] eqn:Ej.
    + rewrite (txRun_watch _ _ _ _ _ _ _ (watch_commit 49 _ _ _ _ _ _ _ Hq Ha)).
      eapply idx_write; [done|done|exact Ej|]. by apply Hx, (idx_indexed _ Hi).
    + by rewrite (txRun_watch _ _ _ _ _ _ _ (watch_done 49 _ _ _ _ _ _ Ha)).
  - assert (tx_attempt id mutate (rdb w) b = (Done (Err (not_found_run id)), b)) as Ha
      by (unfold tx_attempt, getJSON; by rewrite Et).
    by rewrite (txRun_watch _ _ _ _ _ _ _ (watch_done 49 _ _ _ _ _ _ Ha)).
Qed.
Lemma idx_no_idx cs d : forallb no_idx cs = true → idx_inv d → idx_inv (apply_cmds cs d).
Proof.
  intros Hc [Hr Hi]. split; intros k x;
    rewrite keeps_runs_text by (by eapply own_runs, (no_idx_all "")); [apply Hr|].
  intros Hx. by apply indexed_no_idx, Hi.
Qed.
Lemma idx_after {A B} (c : M (World Redis) A) (f : A → M (World Redis) B) w :
  quiet (c w).2 → (∀ a, sends no_idx (f a)) → idx_inv (rdb (c w).2) → idx_inv (rdb (bind c f w).2).
Proof.
  intros Hq Hf Hi. unfold bind. destruct (c w) as [a w'].
  destruct (Hf a w' Hq) as (_ & cs & Hcs & ->). by apply idx_no_idx.
Qed.

(** ** The operations *)

(** No operation pauses or restarts a run that is over, and new runs wait for nothing. *)
Definition op_live (op : mem_op) (d : DB) : Prop :=
  match op with
  | OpCreateRun r => run_AwaitedEventTopic r = None ∧ run_WakeupAt r = None
  | OpPauseWakeup id _ | OpPauseSignal id _ _ | OpPauseEvent id _ _ _ | OpMarkAwaiting id _ _ =>
      ∀ r, get_text d (KRun (uuid_string id)) = Some (BRun r) → live r
  | OpUpdateRunState id st _ =>
      IsTerminal st = false →
      ∀ r, get_text d (KRun (uuid_string id)) = Some (BRun r) → live r
  | _ => True
  end.

Lemma indexed_same m r r' d :
  (live r' → live r) → run_AwaitedEventTopic r' = run_AwaitedEventTopic r →
  run_WakeupAt r' = run_WakeupAt r → indexed m r d → indexed m r' d.
Proof. intros Hl Et Ez Hi Hl'. rewrite Et, Ez. by apply Hi, Hl. Qed.
Lemma indexed_over m r d : IsTerminal (run_State r) = true → indexed m r d.
Proof. intros Ht Hl. unfold live in Hl. congruence. Qed.
Lemma indexed_idle m r d :
  run_AwaitedEventTopic r = None → run_WakeupAt r = None → indexed m r d.
Proof. intros Et Ez _. split; [by rewrite Et|by rewrite Ez]. Qed.

Lemma zadd_db m dl d :
  let d' := apply_cmds (zadd_wakeup m dl) d in
  (∀ t, get_set d' (KAwait t) = get_set d (KAwait t)) ∧
  get_zset d' KWakeup =
    match dl with Some z => <[m := f_of_Z z]> (get_zset d KWakeup) | None => get_zset d KWakeup end.
Proof.
  destruct dl as [z|]; [|done]. cbn. split; [intros t; by rewrite set_cmd|].
  rewrite zset_cmd. unfold cmd_zset. by rewrite decide_True.
Qed.
Lemma indexed_zadd m r r' dl d :
  (live r' → live r) → run_AwaitedEventTopic r' = run_AwaitedEventTopic r →
  match dl with Some z => run_WakeupAt r' = Some z | None => run_WakeupAt r' = run_WakeupAt r end →
  indexed m r d → indexed m r' (apply_cmds (zadd_wakeup m dl) d).
Proof.
  intros Hl Et Ez Hi Hl'. destruct (zadd_db m dl d) as [E1 E2]. destruct (Hi (Hl Hl')) as [Ht Hz].
  split; intros x; [rewrite E1, Et; apply Ht|rewrite E2].
  destruct dl as [z|]; rewrite Ez; [|apply Hz]. intros [= ->]. apply lookup_insert_eq.
Qed.
Lemma indexed_await m topic dl h r d :
  indexed m (row_SetPausedAwaitingEvent topic h dl r)
    (apply_cmds (CSAdd (KAwait topic) m :: zadd_wakeup m dl) d).
Proof.
  intros _. change (apply_cmds (CSAdd (KAwait topic) m :: zadd_wakeup m dl) d)
    with (apply_cmds (zadd_wakeup m dl) (apply_cmd (CSAdd (KAwait topic) m) d)).
  destruct (zadd_db m dl (apply_cmd (CSAdd (KAwait topic) m) d)) as [E1 E2].
  split; intros x Hx; simpl in Hx; simplify_eq.
  - rewrite E1, set_cmd. unfold cmd_set. rewrite decide_True by done. set_solver.
  - rewrite E2. apply lookup_insert_eq.
Qed.

Lemma own_drop m r : forallb (own m) (drop_indexes m r) = true.
Proof.
  unfold drop_indexes, srem_topic; simpl. rewrite bool_decide_eq_true_2 by done.
  destruct (run_AwaitedEventTopic r); simpl; [|done]. by rewrite bool_decide_eq_true_2.
Qed.
Lemma own_srem m r : forallb (own m) (srem_topic m r) = true.
Proof.
  unfold srem_topic. destruct (run_AwaitedEventTopic r); simpl; [|done].
  by rewrite bool_decide_eq_true_2.
Qed.
Lemma own_zrem m cs :
  forallb (own m) cs = true → forallb (own m) (CZRem KWakeup m :: cs) = true.
Proof. intros Hc. simpl. by rewrite bool_decide_eq_true_2. Qed.
Lemma own_zadd m dl : forallb (own m) (zadd_wakeup m dl) = true.
Proof. destruct dl; simpl; [|done]. by rewrite bool_decide_eq_true_2. Qed.
Lemma own_zadd1 m x cs :
  forallb (own m) cs = true → forallb (own m) (CZAdd KWakeup x m :: cs) = true.
Proof. intros Hc. simpl. by rewrite bool_decide_eq_true_2. Qed.
Lemma own_sadd m t cs :
  forallb (own m) cs = true → forallb (own m) (CSAdd (KAwait t) m :: cs) = true.
Proof. intros Hc. simpl. by rewrite bool_decide_eq_true_2. Qed.
Lemma own_ttl m ttl id : forallb (own m) (applyTerminalTTL ttl id) = true.
Proof. unfold applyTerminalTTL. by case_decide. Qed.
Lemma own_app m cs1 cs2 :
  forallb (own m) cs1 = true → forallb (own m) cs2 = true → forallb (own m) (cs1 ++ cs2) = true.
Proof. intros Hc1 Hc2. by rewrite forallb_app, Hc1, Hc2. Qed.
Lemma own_push m id now name (sigs : list SagaSignal) :
  forallb (own m)
    ((λ sg, CRPush (KSignals id) (BSignal (consume_signal now name sg))) <$> sigs) = true.
Proof. induction sigs; done. Qed.
#[local] Hint Resolve own_drop own_srem own_zrem own_zadd own_zadd1 own_sadd own_ttl own_app own_push : redis.

Lemma idx_pure id f w :
  quiet w → idx_inv (rdb w) → body_ok id (λ _ r (_ : unit), (f r, tt)) (rdb w) →
  idx_inv (rdb (txRun_pure id f w).2).
Proof.
  intros Hq Hi Hb. apply idx_after; [by apply quiet_txRun|intros; apply sends_ret|].
  by apply idx_txRun.
Qed.

(** A new run that waits for nothing. *)
Lemma idx_new d r j cs :
  json_run r = Some j → run_AwaitedEventTopic r = None → run_WakeupAt r = None →
  forallb no_idx cs = true → idx_inv d →
  idx_inv (apply_cmds (CSet (KRun (uuid_string (run_ID j))) (BRun j) false :: cs) d).
Proof.
  intros Hj Et Ez Hcs Hi.
  change (apply_cmds (?c :: cs) d) with (apply_cmds cs (apply_cmds ([] ++ [c]) d)).
  apply idx_no_idx; [done|]. eapply idx_write; [done|done|exact Hj|]. by apply indexed_idle.
Qed.

Lemma idx_create r w :
  op_live (OpCreateRun r) (rdb w) → idx_inv (rdb w) → idx_inv (rdb (redis_op (OpCreateRun r) w)).
Proof.
  intros [Et Ez] Hi. simpl. unfold redis_CreateRun. destruct (json_run r) as [j|] eqn:Ej; [|done].
  pose proof (json_run_waits _ _ Ej) as (_ & _ & _ & <-). by apply (idx_new (rdb w) r j).
Qed.
Lemma idx_spawn id sid key d i st w :
  quiet w → idx_inv (rdb w) → idx_inv (rdb (redis_op (OpSpawn id sid key d i st) w)).
Proof.
  intros Hq Hi. simpl. unfold redis_SpawnChildRunAt, bind at 1 2, uuidNew.
  destruct (json_def d) as [dj|] eqn:Edj; [|done]. unfold bind at 1, uuidNew. rewrite bind_timeNow.
  cbv zeta. set (child := λ did : uuid, _). set (newDef := uuid_New (w_ids w)).
  set (w1 := mkWorld _ _ _ _ _ _ _). set (body := spawn_attempt id sid d newDef child).
  assert (∀ did, run_AwaitedEventTopic (child did) = None ∧ run_WakeupAt (child did) = None) as Hc
    by (intros; unfold child; by case_decide).
  apply (idx_after (watch txMaxRetries (KDefByName (def_ID d)) body tt));
    [|intros; apply sends_ret|].
  { apply (sends_watch (λ _, true)); [|done]. intros. by apply forallb_forall. }
  destruct (body (rdb w1) tt) as [[a|cmds a] []] eqn:Eb.
  { unfold txMaxRetries. by rewrite (watch_done _ _ _ _ _ _ _ Eb). }
  unfold txMaxRetries. rewrite (watch_commit _ _ _ _ _ _ _ _ (Hq : quiet w1) Eb).
  cbn [snd]. rewrite rdb_set; cbn [db]. change (rdb w1) with (rdb w) in *.
  assert (∃ did j pre, json_run (child did) = Some j ∧ forallb no_idx pre = true ∧
            cmds = pre ++ spawn_cmds id sid (def_ID d) j) as (did & j & pre & Hj & Hp & ->).
  { unfold body, spawn_attempt in Eb. rewrite Edj in Eb. destruct (last _) as [b|].
    - destruct (as_text b) as [t|]; [|done]. destruct (uuid_parse t) as [u|]; [|done].
      destruct (json_run (child u)) as [j|] eqn:Ej; [|done].
      exists u, j, []. by injection Eb as <- _.
    - destruct (json_run (child newDef)) as [j|] eqn:Ej; [|done].
      eexists newDef, j, [_; _]. injection Eb as <- _.
      split; [exact Ej|]. by split; [|reflexivity]. }
  rewrite apply_cmds_app. destruct (Hc did). eapply idx_new; [exact Hj|done..|].
  by apply idx_no_idx.
Qed.

(** An operation that touches neither runs nor indexes. *)
Lemma op_no_idx op w :
  no_row op = true → quiet w →
  ∃ cs, forallb no_idx cs = true ∧ rdb (redis_op op w) = apply_cmds cs (rdb w).
Proof.
  intros Hop Hq. destruct op; try done; cbn [redis_op];
    match goal with |- ∃ _, _ ∧ rdb (?c w).2 = _ =>
      cut (sends no_idx c); [intros Hc; exact (proj2 (Hc w Hq))|] end;
    unfold redis_UpsertWorkflowDefinition, redis_UpsertRuleDefinition, redis_AppendEvent,
      redis_AppendSignal, redis_CreateUserTask, redis_SubmitUserTask,
      redis_UpsertActionRegistration, redis_UpsertTrigger, redis_DeleteTrigger,
      redis_ClaimCronFire, redis_RecordTriggerFire, get.
  all: sends; try done.
  all: body_cmds.
Qed.

(** The bodies of the transactions that assign variables. *)
Lemma cancel_body ttl now id reason d : body_ok id (cancel_mutate ttl now id reason) d.
Proof.
  intros r b r' cmds _. unfold cancel_mutate. destruct (IsTerminal (run_State r)) eqn:Et;
    cbn [fst]; intros [= <- <-]; (split; [auto with redis|]); [done|].
  intros _. apply indexed_over. unfold row_Cancel. by case_decide.
Qed.
Lemma fail_body ttl id a d : body_ok id (fail_mutate ttl id a) d.
Proof.
  intros r b r' cmds _. unfold fail_mutate. case_decide; cbn [fst]; [done|].
  intros [= <- <-]. split; [auto with redis|]. intros _. by apply indexed_over.
Qed.
Lemma pop_body id d : body_ok id pop_mutate d.
Proof.
  intros r b r' cmds _. unfold pop_mutate. destruct (last _); cbn [fst]; [|done].
  intros [= <- <-]. split; [done|]. by apply indexed_same.
Qed.
Lemma consume_body now id name d : body_ok id (consume_mutate now id name) d.
Proof.
  intros r b r' cmds _. unfold consume_mutate. case_decide; cbn [fst]; [|done].
  destruct (decode_all _ _) as [sigs|]; cbn [fst]; [|done]. intros [= <- <-]. split.
  - apply own_app; [auto with redis|]. destruct sigs as [|sg sigs]; [done|].
    exact (own_push _ _ now name (sg :: sigs)).
  - intros _. by apply indexed_idle.
Qed.

Lemma idx_op op w :
  quiet w → op_live op (rdb w) → idx_inv (rdb w) → idx_inv (rdb (redis_op op w)).
Proof.
  intros Hq Hl Hi. destruct (no_row op) eqn:Hno.
  { destruct (op_no_idx op w Hno Hq) as (cs & Hcs & ->). by apply idx_no_idx. }
  destruct op; try done; try (by apply idx_create); try (by apply idx_spawn); cbn [redis_op];
    unfold redis_UpdateRunState, redis_Cancel, redis_MarkRunFailed, redis_FailAction,
      redis_CompleteAction, redis_TryConsumeAwaitedSignal, redis_PopTryCatch;
    rewrite ?bind_get_store, ?bind_timeNow.
  all: match goal with
       | |- idx_inv (rdb (txRun_pure _ _ _).2) =>
           apply idx_pure; [done|done|]; intros r [] r' cmds Hr; cbn [fst]
       | |- _ => apply idx_after; [by apply quiet_txRun|intros|apply idx_txRun; [done|done|]]
       end.
  all: eauto using cancel_body, fail_body, pop_body, consume_body, sends_ret, sends_cancel_rest.
  all: try (intros r [] r' cmds Hr; cbn [fst]).
  all: lazymatch goal with
       | |- sends _ _ => idtac
       | |- _ => repeat case_match; intros [= <- <-]; (split; [auto with redis|intros Hx])
       end.
  all: auto with redis.
  all: try (by apply indexed_over).
  all: try (by apply indexed_idle).
  all: try (by apply indexed_await).
  all: try (by eapply indexed_same; [| | |exact Hx]).
  - eapply indexed_same; [| | |exact Hx]; try done. by intros _; apply Hl.
  - apply indexed_over. unfold row_MarkRunFailed. by case_decide.
  - apply (indexed_zadd _ r _ (Some t)); [|done..]. by intros _; apply Hl.
  - eapply (indexed_zadd _ r); [|by destruct deadline..|done]. by intros _; apply Hl.
  - eapply indexed_same; [| | |exact Hx]; try done. by intros _; apply Hl.
  - by apply (indexed_zadd _ r _ (Some (w_now w))).
  - sends. all: try by apply sends_uuid. all: try by apply sends_AppendEvent.
Qed.

(** ** Who waits is found *)

(** The store, started empty, after any operations that pause only live runs; in between
    the rest of the process may do anything. *)
Inductive redis_history : World Redis → Prop :=
| redis_new w : rdb w = empty_db → quiet w → redis_history w
| redis_does op w : redis_history w → op_live op (rdb w) → redis_history (redis_op op w)
| redis_env w w' : redis_history w → w_store w' = w_store w → redis_history w'.

Lemma history_inv w : redis_history w → quiet w ∧ idx_inv (rdb w).
Proof.
  induction 1 as [w E Hq|op w _ [Hq Hi] Hl|w w' _ [Hq Hi] E].
  - split; [done|]. rewrite E. split; intros k b; by rewrite text_empty.
  - split; [by apply op_quiet|by apply idx_op].
  - unfold quiet, rdb in *. by rewrite E.
Qed.

Lemma elem_of_SMembers k m w : m ∈ (SMembers k w).1 ↔ m ∈ get_set (rdb w) k.
Proof.
  unfold SMembers, read; simpl. rewrite range_map_perm. fold (rdb w).
  rewrite list_elem_of_fmap. split.
  - intros ([m' []] & -> & Hm%elem_of_map_to_list). by apply lookup_gset_to_gmap_Some in Hm as [].
  - intros Hm. exists (m, tt). split; [done|]. apply elem_of_map_to_list.
    by apply lookup_gset_to_gmap_Some.
Qed.
Lemma elem_of_ZRangeByScore k max m x w :
  get_zset (rdb w) k !! m = Some x → f_leb x max = true → m ∈ (ZRangeByScore k max w).1.
Proof.
  intros Hm Hx. unfold ZRangeByScore, read; simpl. apply list_elem_of_fmap. exists (m, x).
  split; [done|]. apply list_elem_of_filter. split; [done|].
  rewrite zset_members_perm. by apply elem_of_map_to_list.
Qed.
Lemma length_ZRangeByScore k max w :
  length (ZRangeByScore k max w).1 ≤ base.size (get_zset (rdb w) k).
Proof.
  unfold ZRangeByScore, read; simpl. rewrite length_fmap, length_filter.
  by rewrite zset_members_perm, length_map_to_list.
Qed.

Lemma omap_length {A B} (f : A → option B) l : length (omap f l) ≤ length l.
Proof. induction l as [|x l IH]; csimpl; [done|]. destruct (f x); csimpl; lia. Qed.

(** C19: Every run that waits is found by what it waits for. *)
Theorem waiting_runs_found w id r topic z now limit :
  redis_history w → (redis_GetRun id w).1 = Ok r → run_State r = RunStatePaused →
  (run_AwaitedEventTopic r = Some topic →
   ∃ rs, (redis_FindRunsByAwaitedEvent topic w).1 = Ok rs ∧ plain_run r ∈ rs) ∧
  (run_WakeupAt r = Some z → f_leb (f_of_Z z) (f_of_Z now) = true →
   base.size (get_zset (rdb w) KWakeup) ≤ limit →
   ∃ ids, (redis_FindRunsByDueWakeup now limit w).1 = Ok ids ∧ id ∈ ids).
Proof.
  intros [_ [Hr Hi]]%history_inv Hg Hp.
  assert (get_text (rdb w) (KRun (uuid_string id)) = Some (BRun r)) as Et.
  { revert Hg. unfold redis_GetRun, bind, get, read, getJSON, ret; simpl. fold (rdb w).
    destruct (get_text (rdb w) _) as [b|] eqn:E; simpl; [|done].
    destruct (Hr _ _ E) as (_ & r' & _ & ->). simpl. by intros [= ->]. }
  destruct (Hi _ _ Et) as [Ht Hz]; [by unfold live; rewrite Hp|]. split.
  - intros Hw. eexists. split; [done|]. apply list_elem_of_filter. split; [done|].
    apply list_elem_of_fmap. exists r. split; [done|]. apply list_elem_of_omap.
    exists (Some (BRun r)). split; [|done]. apply list_elem_of_fmap.
    exists (KRun (uuid_string id)). split; [done|]. apply list_elem_of_fmap.
    exists (uuid_string id). split; [done|]. by apply elem_of_SMembers, Ht.
  - intros Hw Hd Hn. eexists. split; [done|]. cbn [fst]. rewrite take_ge.
    + apply list_elem_of_omap. exists (uuid_string id, Some (BRun r)).
      split; [|unfold paused_of; simpl; by rewrite decide_True, uuid_parse_string].
      pose proof (elem_of_ZRangeByScore KWakeup _ _ _ w (Hz _ Hw) Hd) as Hm.
      revert Hm. unfold MGet, read, ZRangeByScore; simpl.
      induction (filter _ _) as [|[m s] ms IH]; simpl; [by intros ?%elem_of_nil|].
      intros [<-|?]%elem_of_cons; apply elem_of_cons; [left|by right; apply IH].
      change (db (w_store w)) with (rdb w). by rewrite Et.
    + etrans; [|exact Hn]. etrans; [|apply (length_ZRangeByScore KWakeup (f_of_Z now))].
      etrans; [apply omap_length|]. unfold MGet, read; simpl.
      rewrite length_zip_with, !length_fmap. apply Nat.le_min_l.
Qed.
End Index.
#[export] Hint Resolve own_drop own_srem own_zrem own_zadd own_zadd1 own_sadd own_ttl own_app
  own_push : redis.
