(* ===== verification/PgSchema.v ===== *)
(** PostgreSQL as [src/store/postgres] uses it: the tables of the migrations, what a column
    type makes of a parameter, and statements and transactions over the tables.

    The statements of the store are SQL, a language like Go; [Pg.v] reads each one as a
    function on the tables.  A JSONB column is represented by what [json.Unmarshal] makes of
    it, a NULL text column that is always read with [COALESCE(c, '')] by the empty string.
    What SQL leaves open is a parameter: the order rows are scanned in, the collation, and
    the input syntax of the type [uuid]. *)
From S2P Require Import Prelude Values Domain World Rows MemStore Json.

(** ** Column types *)

(** TIMESTAMPTZ counts microseconds; pgx drops what is below. *)
Definition us (t : Z) : Z := (t / 1000 * 1000)%Z.
(** INT. *)
Definition int4_ok (z : Z) : bool := bool_decide (- 2 ^ 31 ≤ z < 2 ^ 31)%Z.

(** The server's encoding is UTF-8: the well-formed sequences, byte by byte. *)
Definition byte_in (lo hi : N) (c : ascii) : bool := (lo <=? N_of_ascii c)%N && (N_of_ascii c <=? hi)%N.
Definition continuation : ascii → bool := byte_in 128 191.
Fixpoint utf8_valid (s : string) : bool :=
  match s with
  | EmptyString => true
  | String c s =>
      let n := N_of_ascii c in
      if (n <? 128)%N then utf8_valid s
      else if byte_in 194 223 c then
        match s with String c1 s => continuation c1 && utf8_valid s | _ => false end
      else if byte_in 224 239 c then
        match s with
        | String c1 (String c2 s) =>
            byte_in (if (n =? 224)%N then 160 else 128) (if (n =? 237)%N then 159 else 191) c1 &&
            continuation c2 && utf8_valid s
        | _ => false
        end
      else if byte_in 240 244 c then
        match s with
        | String c1 (String c2 (String c3 s)) =>
            byte_in (if (n =? 240)%N then 144 else 128) (if (n =? 244)%N then 143 else 191) c1 &&
            continuation c2 && continuation c3 && utf8_valid s
        | _ => false
        end
      else false
  end.
(** TEXT has no zero byte; nor has a string of a JSONB. *)
Fixpoint nul_free (s : string) : bool :=
  match s with
  | EmptyString => true
  | String c s => negb (N_of_ascii c =? 0)%N && nul_free s
  end.
Definition text_ok (s : string) : bool := nul_free s && utf8_valid s.

(** A JSON text the server accepts and Go can decode again. *)
Fixpoint jsonb_ok (v : Val) : bool :=
  match v with
  | VNil | VBool _ => true
  | VStr s => nul_free s
  | VInt z => is_finite (f_of_Z z)
  | VFloat f => is_finite f
  | VList l => forallb jsonb_ok l
  | VMap m => map_fold (λ k v b, nul_free k && jsonb_ok v && b) true m
  | _ => false
  end.
(** What is read back of it: numbers are floats, and [numeric] has one zero. *)
Definition one_zero (f : spec_float) : spec_float :=
  match f with S754_zero _ => S754_zero false | f => f end.
Fixpoint jsonb_norm (v : Val) : Val :=
  match v with
  | VInt z => VFloat (one_zero (f_of_Z z))
  | VFloat f => VFloat (one_zero f)
  | VList l => VList (jsonb_norm <$> l)
  | VMap m => VMap (jsonb_norm <$> m)
  | v => v
  end.
Definition jsonb_vars (m : Vars) : Vars := jsonb_norm <$> m.

(** A parameter of a statement, as far as it can be refused. *)
Inductive arg :=
| AText (s : string)
| AInt4 (z : Z)
| AJson (v : Val)
| AJsonTexts (l : list string).   (* a marshalled struct, by the strings in it *)
Definition arg_ok (a : arg) : bool :=
  match a with
  | AText s => text_ok s
  | AInt4 z => int4_ok z
  | AJson v => jsonb_ok v
  | AJsonTexts l => forallb nul_free l
  end.
Definition AOText (o : option string) : list arg := match o with Some s => [AText s] | None => [] end.

(** ** LIKE *)

(** The character at the front is dropped: a byte and its continuation bytes. *)
Fixpoint drop_cont (s : string) : string :=
  match s with String c s' => if continuation c then drop_cont s' else s | _ => s end.
Fixpoint tails (s : string) : list string :=
  s :: match s with EmptyString => [] | String _ s => tails s end.
(** [s LIKE p]: [%] any sequence, [_] one character, [\] takes the next one literally. *)
Fixpoint like (p s : string) : bool :=
  match p with
  | EmptyString => match s with EmptyString => true | _ => false end
  | String c p' =>
      if decide (c = "%"%char) then existsb (like p') (tails s)
      else if decide (c = "_"%char) then
        match s with String _ s => like p' (drop_cont s) | _ => false end
      else if decide (c = "\"%char) then
        match p' with
        | String d p'' =>
            match s with String e s => bool_decide (d = e) && like p'' s | _ => false end
        | EmptyString => false
        end
      else match s with String e s => bool_decide (c = e) && like p' s | _ => false end
  end.
Definition ilike (p s : string) : bool := like (strings_ToLower p) (strings_ToLower s).

(** ** Three-valued conditions *)
Abbreviation tv := (option bool).
Definition is_true (t : tv) : bool := default false t.
Definition sql_not (t : tv) : tv := negb <$> t.
Definition sql_and (a b : tv) : tv :=
  match a, b with
  | Some false, _ | _, Some false => Some false
  | Some true, Some true => Some true
  | _, _ => None
  end.
Definition sql_or (a b : tv) : tv := sql_not (sql_and (sql_not a) (sql_not b)).
(** [x = y], either side NULL. *)
Definition sql_eq {A} `{EqDecision A} (x y : option A) : tv :=
  match x, y with Some x, Some y => Some (bool_decide (x = y)) | _, _ => None end.
Definition is_null {A} (x : option A) : tv := Some (match x with None => true | Some _ => false end).
Definition sql_le (x y : option Z) : tv :=
  match x, y with Some x, Some y => Some (x <=? y)%Z | _, _ => None end.

(** ** The tables *)

(** [definitions.workflow_definitions]. *)
Record DefRow := mkDefRow {
  dr_ID : uuid;
  dr_WorkflowID : string;
  dr_Version : Z;
  dr_TenantID : option uuid;
  dr_Name : string;
  dr_Description : string;
  dr_Spec : WorkflowDefinition;
  dr_Published : bool;
  dr_CreatedAt : Z;
  dr_CreatedBy : string
}.
(** [definitions.rule_definitions]: the rule and its column [tenant_id]. *)
Record RuleRow := mkRuleRow { rr_TenantID : option uuid; rr_Rule : RuleDefinition }.
(** [audit.saga_run_events]: the event and its column [step_id]. *)
Record EventRow := mkEventRow { er_StepID : option string; er_Event : SagaRunEvent }.

(** The tables.  A jsonb column of a map is the map: a JSON null, which a nil map would leave
    there, is not represented. *)
Record Tables := mkTables {
  workflow_definitions : gmap uuid DefRow;
  rule_definitions : gmap uuid RuleRow;
  action_registry : gmap uuid ActionRegistration;
  saga_runs : gmap uuid SagaRun;
  saga_run_events : gmap uuid EventRow;
  saga_trigger_fires : gmap uuid TriggerFireRow;
  saga_signals : gmap uuid SagaSignal;
  saga_user_tasks : gmap uuid UserTask;
  saga_triggers : gmap uuid SagaTrigger
}.
Definition no_rows : Tables := mkTables ∅ ∅ ∅ ∅ ∅ ∅ ∅ ∅ ∅.

Definition with_defs x d := mkTables x (rule_definitions d) (action_registry d) (saga_runs d)
  (saga_run_events d) (saga_trigger_fires d) (saga_signals d) (saga_user_tasks d) (saga_triggers d).
Definition with_rules x d := mkTables (workflow_definitions d) x (action_registry d) (saga_runs d)
  (saga_run_events d) (saga_trigger_fires d) (saga_signals d) (saga_user_tasks d) (saga_triggers d).
Definition with_actions x d := mkTables (workflow_definitions d) (rule_definitions d) x (saga_runs d)
  (saga_run_events d) (saga_trigger_fires d) (saga_signals d) (saga_user_tasks d) (saga_triggers d).
Definition with_runs x d := mkTables (workflow_definitions d) (rule_definitions d) (action_registry d) x
  (saga_run_events d) (saga_trigger_fires d) (saga_signals d) (saga_user_tasks d) (saga_triggers d).
Definition with_events x d := mkTables (workflow_definitions d) (rule_definitions d) (action_registry d)
  (saga_runs d) x (saga_trigger_fires d) (saga_signals d) (saga_user_tasks d) (saga_triggers d).
Definition with_fires x d := mkTables (workflow_definitions d) (rule_definitions d) (action_registry d)
  (saga_runs d) (saga_run_events d) x (saga_signals d) (saga_user_tasks d) (saga_triggers d).
Definition with_signals x d := mkTables (workflow_definitions d) (rule_definitions d) (action_registry d)
  (saga_runs d) (saga_run_events d) (saga_trigger_fires d) x (saga_user_tasks d) (saga_triggers d).
Definition with_tasks x d := mkTables (workflow_definitions d) (rule_definitions d) (action_registry d)
  (saga_runs d) (saga_run_events d) (saga_trigger_fires d) (saga_signals d) x (saga_triggers d).
Definition with_triggers x d := mkTables (workflow_definitions d) (rule_definitions d) (action_registry d)
  (saga_runs d) (saga_run_events d) (saga_trigger_fires d) (saga_signals d) (saga_user_tasks d) x.
#[global] Arguments with_defs x d /.
#[global] Arguments with_rules x d /.
#[global] Arguments with_actions x d /.
#[global] Arguments with_runs x d /.
#[global] Arguments with_events x d /.
#[global] Arguments with_fires x d /.
#[global] Arguments with_signals x d /.
#[global] Arguments with_tasks x d /.
#[global] Arguments with_triggers x d /.

(** What SQL leaves open. *)
Class PgEnv := {
  scan_order : ∀ {A}, gmap uuid A → list (uuid * A);
  collate_lt : string → string → bool;
  uuid_in : string → option uuid
}.
Class PgLaws `{Env} `{PgEnv} := {
  scan_order_perm {A} (t : gmap uuid A) : scan_order t ≡ₚ map_to_list t;
  uuid_in_string u : uuid_in (uuid_string u) = Some u
}.

(** ** Statements and transactions *)

(** The errors the server reports. *)
Definition bad_argument : err := EMsg "ERROR: invalid input value".
Definition unique_violation (constraint_ : string) : err :=
  EMsg ("ERROR: duplicate key value violates unique constraint " +:+ constraint_).
Definition fk_violation (constraint_ : string) : err :=
  EMsg ("ERROR: insert or update violates foreign key constraint " +:+ constraint_).
Definition not_null_violation (column : string) : err :=
  EMsg ("ERROR: null value in column " +:+ column +:+ " violates not-null constraint").

(** A transaction: at its [now()], on the tables; an error leaves them as they were. *)
Definition Tx (A : Type) : Type := Z → Tables → res (A * Tables).
Definition tx_ret {A} (a : A) : Tx A := λ _ d, Ok (a, d).
Definition tx_err {A} (e : err) : Tx A := λ _ _, Err e.
Definition tx_bind {A B} (c : Tx A) (f : A → Tx B) : Tx B := λ now d,
  match c now d with Err e => Err e | Ok (a, d) => f a now d end.
Notation "'tx*' x := c 'in' k" := (tx_bind c (λ x, k))
  (at level 10, x pattern, c at level 100, k at level 200) : saga_scope.
(** [if err != nil { return fmt.Errorf("p: %w", err) }]. *)
Definition wrapping {A} (p : string) (c : Tx A) : Tx A := λ now d, map_err_res (EWrap p) (c now d).

(** The rows a statement locks until its transaction ends. *)
Record RowLocks := mkRowLocks { lk_runs : gset uuid; lk_signals : gset uuid }.
Definition no_locks : RowLocks := mkRowLocks ∅ ∅.
(** A transaction statement by statement, as the client sends it: a statement, the rows it
    locks in the tables it sees, and what the client sends for its answer; at the end COMMIT,
    or a return without one, which the deferred ROLLBACK undoes. *)
Inductive Prog (A : Type) : Type :=
| Statement {B : Set} (locks : Tables → RowLocks) (stmt : Tx B) (k : B → Prog A)
| Commit (a : A)
| Rollback (a : A).
Arguments Statement {A B} locks stmt k.
Arguments Commit {A} a.
Arguments Rollback {A} a.
(** The transaction when nothing of another client comes in between. *)
Fixpoint alone_from {A} (d0 : Tables) (p : Prog A) : Tx A :=
  match p with
  | Statement _ stmt k => tx_bind stmt (λ b, alone_from d0 (k b))
  | Commit a => tx_ret a
  | Rollback a => λ _ _, Ok (a, d0)
  end.
Definition alone {A} (p : Prog A) : Tx A := λ now d, alone_from d p now d.

(** One statement with its parameters. *)
Definition sql {A} (args : list arg) (stmt : Tx A) : Tx A :=
  if forallb arg_ok args then stmt else tx_err bad_argument.
Definition select {A} (f : Tables → res A) : Tx A := λ _ d,
  match f d with Err e => Err e | Ok a => Ok (a, d) end.
Definition sql_query {A} (f : Tables → A) : Tx A := λ _ d, Ok (f d, d).
Definition now_ : Tx Z := λ now d, Ok (now, d).

(** INSERT, with the primary key. *)
Definition insert_row {A} (pkey : string) (id : uuid) (x : A) (t : gmap uuid A)
    : res (gmap uuid A) :=
  match t !! id with Some _ => Err (unique_violation pkey) | None => Ok (<[id := x]> t) end.

(** The database, and how far its clock is ahead of the process's. *)
Record Postgres := mkPostgres { tables : Tables; clock_skew : Z }.

Section Statements.
Context `{PgEnv}.

(** The rows that satisfy a condition, in scan order. *)
Definition where_ {A} (c : A → tv) (t : gmap uuid A) : list A :=
  filter (λ x, is_true (c x) = true) ((scan_order t).*2).
(** ORDER BY; the sort is stable, so that ties keep the scan order. *)
Definition order_by {A} (before : A → A → bool) (l : list A) : list A := insertion_sort before l.
(** LIMIT and OFFSET. *)
Definition limit_ {A} (n : Z) (l : list A) : list A := take (Z.to_nat (Z.min n (Z.of_nat (length l)))) l.
Definition offset_ {A} (n : Z) (l : list A) : list A := drop (Z.to_nat (Z.min n (Z.of_nat (length l)))) l.

(** [UPDATE runtime.saga_runs SET ... WHERE id = $1 AND ...]: whether the row was affected. *)
Definition update_run (args : list arg) (id : uuid) (c : SagaRun → tv)
    (set : Z → SagaRun → SagaRun) : Tx bool :=
  sql args (λ now d,
    match saga_runs d !! id with
    | Some r => if is_true (c r) then Ok (true, with_runs (<[id := set now r]> (saga_runs d)) d)
                else Ok (false, d)
    | None => Ok (false, d)
    end).
Definition any_row : SagaRun → tv := λ _, Some true.
(** [SELECT EXISTS(SELECT 1 FROM runtime.saga_runs WHERE id=$1)]. *)
Definition run_exists (id : uuid) : Tx bool := sql_query (λ d, bool_decide (is_Some (saga_runs d !! id))).

Context {E : Env}.

(** Run as one transaction; a single statement is one too. *)
Definition transaction {A} (t : Tx A) : M (World Postgres) (res A) := λ w,
  let s := w_store w in
  match t (us (w_now w + clock_skew s)) (tables s) with
  | Err e => (Err e, w)
  | Ok (a, d) => (Ok a, set_store (mkPostgres d (clock_skew s)) w)
  end.
End Statements.
