(* ===== verification/Pg.v ===== *)
(** The PostgreSQL store: the operations of [src/store/postgres], file by file, and its
    [Store] instance.  A statement is read as a function on the tables; the statements
    between [Begin] and [Commit] are one transaction, undone when it returns an error.

    [MarkRunFailed] and [CompleteAction] send an UPDATE and, when it touched no row, a query
    for the row's existence, each on its own; here they are one transaction.  No operation
    deletes a run, so the two differ only when the run is created in between: then the code
    reports success where the transaction reports the run missing. *)
From S2P Require Import Prelude Values Domain World StoreApi Rows MemStore Json PgSchema.

Section Pg.
Context `{Env} `{JsonEnv} `{PgEnv}.
Abbreviation M := (M (World Postgres)).

(** ** runs.go *)

(** The strings a marshalled [try_catch_stack] holds. *)
Definition stack_texts (l : list TryCatchFrame) : list string :=
  l ≫= λ f, [frame_StepID f; frame_CatchStep f].
Definition map_keys {A} (m : gmap string A) : list string := (map_to_list m).*1.

(** The row INSERT leaves: the columns it does not name take their defaults. *)
Definition inserted_run (run : SagaRun) (inputs vars : Vars) : SagaRun :=
  mkRun (run_ID run) (run_WorkflowID run) (run_DefinitionID run) (run_TenantID run)
    (run_State run) (run_CurrentStep run) (jsonb_vars inputs) (jsonb_vars vars)
    (us (run_StartedAt run)) (us (run_LastEventAt run)) None (run_RequiresManualReview run)
    (run_TriggerID run) (run_ParentRunID run) (run_ParentStepID run) (run_ParentBranchID run)
    (run_TryCatchStack run) (run_DryRun run) None None None ∅ (run_FeatureOverrides run)
    None 0 None.
Definition insert_saga_run (run : SagaRun) (inputs vars : Vars) : Tx unit :=
  sql ([AText (run_WorkflowID run); AText (run_CurrentStep run); AJson (VMap inputs);
        AJson (VMap vars); AJsonTexts (stack_texts (run_TryCatchStack run));
        AJsonTexts (map_keys (run_FeatureOverrides run))] ++
       AOText (run_ParentStepID run) ++ AOText (run_ParentBranchID run)) (λ _ d,
    match insert_row "saga_runs_pkey" (run_ID run) (inserted_run run inputs vars) (saga_runs d) with
    | Err e => Err e
    | Ok t =>
        match workflow_definitions d !! run_DefinitionID run with
        | None => Err (fk_violation "saga_runs_definition_id_fkey")
        | Some _ => Ok (tt, with_runs t d)
        end
    end).
Definition pg_CreateRun (run : SagaRun) : M (res unit) :=
  match json_vars (run_Inputs run), json_vars (run_Variables run) with
  | Some inputs, Some vars => transaction (insert_saga_run run inputs vars)
  | _, _ => ret (Err json_err)
  end.

(** A row by its id, or [ErrNotFound]. *)
Definition row_of {A} (entity : string) (t : Tables → gmap uuid A) (id : uuid) : Tx A :=
  select (λ d, match t d !! id with
               | Some x => Ok x
               | None => Err (ErrNotFound entity (uuid_string id))
               end).
Definition pg_GetRun (id : uuid) : M (res SagaRun) := transaction (row_of "saga_run" saga_runs id).

(** [if ct.RowsAffected() == 0 { return ErrNotFound }]. *)
Definition affected_or_missing (id : uuid) (affected : bool) : Tx unit :=
  if affected then tx_ret tt else tx_err (not_found_run id).
(** [last_event_at = now()]. *)
Definition touch_row : Z → SagaRun → SagaRun := set_run_LastEventAt.

Definition pg_UpdateRunState (id : uuid) (st : RunState) (currentStep : string) : M (res unit) :=
  transaction (
    tx* n := wrapping "update run state"
      (update_run [AText currentStep] id any_row (λ now r,
         let r := touch_row now (row_UpdateRunState st currentStep r) in
         if IsTerminal st then set_run_TerminalAt (Some now) r else r)) in
    affected_or_missing id n).

(** [state NOT IN ('succeeded', 'failed', 'cancelled')]. *)
Definition not_terminal (r : SagaRun) : tv := Some (negb (IsTerminal (run_State r))).
(** [COALESCE(NULLIF($n, ''), last_error)]. *)
Definition coalesce_error (msg : string) (r : SagaRun) : SagaRun :=
  if decide (msg = "") then r else set_run_LastError (Some msg) r.

(** The existence check after an UPDATE that touched no row. *)
Definition missing_or_skipped (p : string) (id : uuid) : Tx unit :=
  tx* exists_ := wrapping p (run_exists id) in
  if exists_ : bool then tx_ret tt else tx_err (not_found_run id).

(** *** The audit trail (events.go) *)

(** Equal under UNIQUE (run_id, step_id, attempt, event_type): NULL equals nothing. *)
Definition same_event_key (a b : EventRow) : bool :=
  bool_decide (ev_RunID (er_Event a) = ev_RunID (er_Event b) ∧
               ev_Attempt (er_Event a) = ev_Attempt (er_Event b) ∧
               ev_EventType (er_Event a) = ev_EventType (er_Event b)) &&
  is_true (sql_eq (er_StepID a) (er_StepID b)).
Definition event_recorded (e : EventRow) (t : gmap uuid EventRow) : bool :=
  negb (bool_decide (map_Forall (λ _ e', same_event_key e' e = false) t)).
Definition insert_event (do_nothing : bool) (e : EventRow) : Tx unit := λ _ d,
  let t := saga_run_events d in
  if do_nothing && event_recorded e t then Ok (tt, d)
  else
    match insert_row "saga_run_events_pkey" (ev_ID (er_Event e)) e t with
    | Err err => Err err
    | Ok t' =>
        if event_recorded e t then
          Err (unique_violation "saga_run_events_run_id_step_id_attempt_event_type_key")
        else
          match saga_runs d !! ev_RunID (er_Event e) with
          | None => Err (fk_violation "saga_run_events_run_id_fkey")
          | Some _ => Ok (tt, with_events t' d)
          end
    end.
(** [NULLIF(s, '')]. *)
Definition nullif_empty (s : string) : option string := if decide (s = "") then None else Some s.

Definition pg_AppendEvent (evt : SagaRunEvent) : M (res unit) :=
  match json_vars (ev_Metadata evt) with
  | None => ret (Err json_err)
  | Some meta =>
      transaction (sql [AText (ev_StepID evt); AInt4 (ev_Attempt evt); AText (ev_Actor evt);
                        AJson (VMap meta)]
        (insert_event true
           (mkEventRow (nullif_empty (ev_StepID evt))
              (mkEvent (ev_ID evt) (ev_RunID evt) (ev_StepID evt) (ev_Attempt evt)
                 (ev_EventType evt) (ev_Actor evt) (jsonb_vars meta) (us (ev_RecordedAt evt))))))
  end.

Definition event_before (a b : EventRow) : bool :=
  (ev_RecordedAt (er_Event a) <? ev_RecordedAt (er_Event b))%Z.
Definition pg_ListEventsByRun (runID : uuid) : M (res (list SagaRunEvent)) :=
  transaction (sql_query (λ d,
    er_Event <$> order_by event_before
      (where_ (λ e, Some (bool_decide (ev_RunID (er_Event e) = runID))) (saga_run_events d)))).
Definition pg_GetEventByID (id : uuid) : M (res SagaRunEvent) :=
  let* e := transaction (row_of "saga_run_event" saga_run_events id) in
  ret (match e with Ok e => Ok (er_Event e) | Err e => Err e end).

(** *** Cancel and failure *)

(** The event Cancel and FailAction insert: its [step_id] is the text given, even an empty
    one, and a second one for the same step and attempt is an error. *)
Definition engine_event (evid : uuid) (runID : uuid) (step : string) (attempt : Z)
    (ty : EventType) (meta : Vars) : Tx unit :=
  sql [AText step; AInt4 attempt; AJson (VMap meta)]
    (tx* now := now_ in
     insert_event false
       (mkEventRow (Some step) (mkEvent evid runID step attempt ty "engine" (jsonb_vars meta) now))).

Definition cancel_run_row (reason : string) (now : Z) (r : SagaRun) : SagaRun :=
  let r := touch_row now (set_run_TerminalAt (Some now) (set_run_State RunStateCancelled r)) in
  set_run_AwaitedActionDispatch None (row_clear_awaits (coalesce_error reason r)).
Definition cancel_transaction (evid runID : uuid) (reason : string) : Tx unit :=
  tx* n := wrapping "cancel: update run"
             (update_run [AText reason] runID not_terminal (cancel_run_row reason)) in
  if n : bool then
    tx* step := wrapping "cancel: read step"
      (sql_query (λ d, default "" (run_CurrentStep <$> saga_runs d !! runID))) in
    tx* _ := wrapping "cancel: close user tasks" (λ now d,
      Ok (tt, with_tasks (close_task now runID <$> saga_user_tasks d) d)) in
    wrapping "cancel: append event"
      (engine_event evid runID step 0 EventRunCancelled {["reason" := VStr reason]})
  else missing_or_skipped "cancel: existence check" runID.
(** [gen_random_uuid()] is a fresh id, as [uuid.New()] is. *)
Definition pg_Cancel (runID : uuid) (reason : string) : M (res unit) :=
  let* evid := uuidNew in transaction (cancel_transaction evid runID reason).

Definition pg_MarkRunFailed (runID : uuid) (currentStep lastError : string) : M (res unit) :=
  transaction (
    tx* n := wrapping "mark run failed"
      (update_run [AText currentStep; AText lastError] runID not_terminal (λ now r,
         coalesce_error lastError
           (touch_row now (set_run_TerminalAt (Some now)
             (set_run_CurrentStep currentStep (set_run_State RunStateFailed r)))))) in
    if n : bool then tx_ret tt
    else missing_or_skipped "mark run failed: existence check" runID).

(** *** Pauses.  These UPDATEs do not look at the rows affected. *)
Definition exec_update (p : string) (args : list arg) (id : uuid)
    (set : Z → SagaRun → SagaRun) : M (res unit) :=
  transaction (tx* _ := wrapping p (update_run args id any_row set) in tx_ret tt).

Definition pg_SetPausedWithWakeup (runID : uuid) (wakeupAt : Z) : M (res unit) :=
  exec_update "set paused with wakeup" [] runID (λ now r,
    touch_row now (set_run_WakeupAt (Some (us wakeupAt)) (set_run_State RunStatePaused r))).

Definition pg_SetPausedAwaitingSignal (runID : uuid) (signalName : string)
    (deadline : option Z) : M (res unit) :=
  exec_update "set paused awaiting signal" [AText signalName] runID (λ now r,
    touch_row now (set_run_WakeupAt (us <$> deadline)
      (set_run_AwaitedSignal (Some signalName) (set_run_State RunStatePaused r)))).

Definition pg_SetPausedAwaitingEventWithDeadline (runID : uuid) (topic : string)
    (headers : gmap string string) (deadline : option Z) : M (res unit) :=
  exec_update "set paused awaiting event"
    [AText topic; AJsonTexts (map_keys headers ++ (map_to_list headers).*2)] runID (λ now r,
    touch_row now (row_SetPausedAwaitingEvent topic headers (us <$> deadline) r)).

Definition pg_ClearPause (runID : uuid) : M (res unit) :=
  transaction (
    tx* n := wrapping "clear pause"
      (update_run [] runID any_row (λ now r, touch_row now (row_ClearPause r))) in
    affected_or_missing runID n).

Definition wakes_before (a b : SagaRun) : bool :=
  match run_WakeupAt a, run_WakeupAt b with Some x, Some y => (x <? y)%Z | _, _ => false end.
Definition paused_sql (r : SagaRun) : tv := Some (bool_decide (run_State r = RunStatePaused)).
Definition pg_FindRunsByDueWakeup (now : Z) (limit : nat) : M (res (list uuid)) :=
  transaction (sql_query (λ d,
    run_ID <$> limit_ (Z.of_nat limit) (order_by wakes_before
      (where_ (λ r, sql_and (paused_sql r)
                 (sql_and (sql_not (is_null (run_WakeupAt r)))
                    (sql_le (run_WakeupAt r) (Some (us now))))) (saga_runs d))))).

(** The columns a SELECT leaves out are zero in the run it returns. *)
Definition select_child (r : SagaRun) : SagaRun :=
  mkRun (run_ID r) (run_WorkflowID r) (run_DefinitionID r) (run_TenantID r) (run_State r)
    (run_CurrentStep r) (run_Inputs r) (run_Variables r) (run_StartedAt r) (run_LastEventAt r)
    (run_TerminalAt r) (run_RequiresManualReview r) (run_TriggerID r) (run_ParentRunID r)
    None None [] (run_DryRun r) None None None ∅ ∅ None 0 None.
Definition select_awaiting (r : SagaRun) : SagaRun :=
  set_run_AwaitedEventHeaders (run_AwaitedEventHeaders r)
    (set_run_AwaitedEventTopic (run_AwaitedEventTopic r)
      (set_run_AwaitedSignal (run_AwaitedSignal r)
        (set_run_WakeupAt (run_WakeupAt r) (select_child r)))).
Definition scanRunRow (r : SagaRun) : SagaRun :=
  set_run_FeatureOverrides (run_FeatureOverrides r) (select_child r).

Definition pg_FindRunsByAwaitedEvent (topic : string) : M (res (list SagaRun)) :=
  transaction (wrapping "find runs by awaited event" (sql [AText topic] (sql_query (λ d,
    select_awaiting <$>
      where_ (λ r, sql_and (paused_sql r) (sql_eq (run_AwaitedEventTopic r) (Some topic)))
        (saga_runs d))))).

(** *** Signals *)
Definition consume_signal_row (now : Z) (runID : uuid) (signalName : string) (sg : SagaSignal)
    : SagaSignal :=
  if decide (sig_RunID sg = runID ∧ sig_SignalName sg = signalName ∧ sig_ConsumedAt sg = None)
  then set_ConsumedAt (Some now) sg else sg.
(** The rows the statements lock: [FOR UPDATE] the row it returns, an UPDATE those it changes. *)
Definition paused_row (runID : uuid) (d : Tables) : option SagaRun :=
  match saga_runs d !! runID with
  | Some r => if decide (run_State r = RunStatePaused) then Some r else None
  | None => None
  end.
Definition for_update (runID : uuid) (d : Tables) : RowLocks :=
  match paused_row runID d with Some _ => mkRowLocks {[runID]} ∅ | None => no_locks end.
Definition updated_run (runID : uuid) (d : Tables) : RowLocks :=
  match saga_runs d !! runID with Some _ => mkRowLocks {[runID]} ∅ | None => no_locks end.
Definition updated_signals (runID : uuid) (signalName : string) (d : Tables) : RowLocks :=
  mkRowLocks ∅ (dom (filter (λ x : uuid * SagaSignal, sig_RunID x.2 = runID ∧
    sig_SignalName x.2 = signalName ∧ sig_ConsumedAt x.2 = None) (saga_signals d))).

Definition consume_signals (runID : uuid) (signalName : string) : Prog bool :=
  Statement (updated_signals runID signalName) (wrapping "consume signal rows"
    (sql [AText signalName] (λ now d, Ok (tt, with_signals
       (consume_signal_row now runID signalName <$> saga_signals d) d)))) (λ _,
  Commit true).
Definition clear_and_consume (runID : uuid) (signalName : string) : Prog bool :=
  Statement (updated_run runID) (wrapping "clear awaited signal"
    (update_run [] runID any_row (λ now r, touch_row now (row_clear_awaits r)))) (λ _,
  consume_signals runID signalName).
Definition consume_program (runID : uuid) (signalName : string) : Prog bool :=
  Statement (B := option (option string)) (for_update runID)
    (sql_query (λ d, run_AwaitedSignal <$> paused_row runID d)) (λ awaited,
  if decide (awaited = Some (Some signalName)) then clear_and_consume runID signalName
  else Rollback false).
Definition consume_transaction (runID : uuid) (signalName : string) : Tx bool :=
  alone (consume_program runID signalName).
Definition pg_TryConsumeAwaitedSignal (runID : uuid) (signalName : string) : M (res bool) :=
  transaction (consume_transaction runID signalName).

Definition pg_WakeFromExternal (runID : uuid) : M (res unit) :=
  transaction (
    tx* n := wrapping "wake from external"
      (update_run [] runID any_row (λ now r, touch_row now (row_clear_awaits r))) in
    affected_or_missing runID n).

Definition pg_AppendSignal (sg : SagaSignal) : M (res unit) :=
  match json_vars (sig_Payload sg) with
  | None => ret (Err (EWrap "marshal signal payload" json_err))
  | Some payload =>
      transaction (wrapping "append signal"
        (sql [AText (sig_SignalName sg); AJson (VMap payload)] (λ _ d,
           match insert_row "saga_signals_pkey" (sig_ID sg)
                   (mkSignal (sig_ID sg) (sig_RunID sg) (sig_SignalName sg) (jsonb_vars payload)
                      (us (sig_ReceivedAt sg)) None) (saga_signals d) with
           | Err e => Err e
           | Ok t =>
               match saga_runs d !! sig_RunID sg with
               | None => Err (fk_violation "saga_signals_run_id_fkey")
               | Some _ => Ok (tt, with_signals t d)
               end
           end)))
  end.

(** *** Child runs *)

(** [SELECT id ... WHERE workflow_id=$1 AND version=$2]: the pair is unique. *)
Definition def_by_version (workflowID : string) (version : Z) : Tx (option uuid) :=
  sql [AText workflowID; AInt4 version] (sql_query (λ d,
    dr_ID <$> head (where_ (λ r, Some (bool_decide (dr_WorkflowID r = workflowID ∧
                                                   dr_Version r = version)))
                     (workflow_definitions d)))).
Definition pg_SpawnChildRunAt (parentID : uuid) (parentStepID branchKey : string)
    (def : WorkflowDefinition) (inputs : Vars) (startStep : string) : M (res uuid) :=
  try* found := transaction (def_by_version (def_ID def) (def_Version def))
    else EWrap "spawn child: resolve definition" in
  match found with
  | None =>
      ret (Err (EWrap ("spawn child: resolve definition " +:+ def_ID def +:+ " v" +:+
                       itoa (def_Version def)) (ErrNotFound "workflow_definition" (def_ID def))))
  | Some defID =>
      let* cid := uuidNew in
      let* now := timeNow in
      let child := NewSagaRun cid now (def_ID def) defID None inputs in
      let child := if decide (startStep = "") then child
                   else set_run_CurrentStep startStep child in
      let child := set_run_ParentBranchID (Some branchKey)
                     (set_run_ParentStepID (Some parentStepID)
                       (set_run_ParentRunID (Some parentID) child)) in
      try* _ := pg_CreateRun child else EWrap "spawn child: create" in
      ret (Ok cid)
  end.

Definition pg_ListChildrenByParent (parentID : uuid) (parentStepID : string)
    : M (res (list SagaRun)) :=
  transaction (wrapping "list children by parent" (sql [AText parentStepID] (sql_query (λ d,
    select_child <$>
      where_ (λ r, sql_and (sql_eq (run_ParentRunID r) (Some parentID))
                     (sql_eq (run_ParentStepID r) (Some parentStepID))) (saga_runs d))))).

(** *** try_catch *)
Definition set_stack (l : list TryCatchFrame) (p : string) (runID : uuid) : Tx unit :=
  tx* _ := wrapping p (update_run [AJsonTexts (stack_texts l)] runID any_row
             (λ now r, touch_row now (set_run_TryCatchStack l r))) in
  tx_ret tt.
(** [SELECT ... FOR UPDATE]: the row, locked to the end of the transaction. *)
Definition locked_run (runID : uuid) : Tx SagaRun := row_of "saga_run" saga_runs runID.

Definition pg_PushTryCatch (runID : uuid) (frame : TryCatchFrame) : M (res unit) :=
  transaction (
    tx* r := locked_run runID in
    let stack := run_TryCatchStack r in
    if decide (maxDepth ≤ length stack) then
      tx_err (EMsg ("try_catch max nesting depth 3 exceeded for run " +:+ uuid_string runID))
    else set_stack (stack ++ [frame]) "push try_catch: update" runID).

Definition pg_PopTryCatch (runID : uuid) : M (res (option TryCatchFrame)) :=
  transaction (
    tx* r := locked_run runID in
    let stack := run_TryCatchStack r in
    match last stack with
    | None => tx_ret None
    | Some top =>
        tx* _ := set_stack (take (pred (length stack)) stack) "pop try_catch: update" runID in
        tx_ret (Some top)
    end).

(** *** Variables *)

(** [variables #> path], through objects. *)
Fixpoint jsonb_at (path : list string) (v : Val) : option Val :=
  match path with
  | [] => Some v
  | p :: ps => match v with VMap m => m !! p ≫= jsonb_at ps | _ => None end
  end.
(** [jsonb_set(variables, path, new, true)] through objects: only the last element is
    created, and without its parent nothing changes. *)
Fixpoint jsonb_set (path : list string) (new : Val) (t : Vars) : Vars :=
  match path with
  | [] => t
  | p :: ps =>
      match ps with
      | [] => <[p := new]> t
      | _ => match t !! p with
             | Some (VMap m) => <[p := VMap (jsonb_set ps new m)]> t
             | _ => t
             end
      end
  end.
(** The statement that makes a parent an object, [CASE WHEN jsonb_typeof(...) = 'object']. *)
Definition make_object (path : list string) (t : Vars) : Vars :=
  jsonb_set path (match jsonb_at path (VMap t) with Some (VMap m) => VMap m | _ => VMap ∅ end) t.
(** [for i := 1; i < len(parts); i++]: [parts[:i]]. *)
Definition parents (parts : list string) : list (list string) :=
  (λ i, take i parts) <$> seq 1 (pred (length parts)).

Definition set_vars (f : Vars → Vars) (r : SagaRun) : SagaRun :=
  set_run_Variables (f (run_Variables r)) r.
Fixpoint make_parents (runID : uuid) (ps : list (list string)) : Tx unit :=
  match ps with
  | [] => tx_ret tt
  | p :: ps =>
      tx* _ := update_run (AText <$> p) runID any_row (λ _, set_vars (make_object p)) in
      make_parents runID ps
  end.
(** [%v] of a [[]string]. *)
Definition show_parts (parts : list string) : string :=
  "[" +:+ strings_join " " parts +:+ "]".
(** The loop over the dotted keys, in visiting order. *)
Fixpoint write_dotted (runID : uuid) (dotted : list (list string * Val)) : Tx unit :=
  match dotted with
  | [] => tx_ret tt
  | (parts, value) :: dotted =>
      match json_val value with
      | None => tx_err (EWrap "marshal dotted value" json_err)
      | Some v =>
          tx* _ := wrapping ("merge dotted " +:+ show_parts parts +:+ ": create parent")
                    (make_parents runID (parents parts)) in
          tx* _ := wrapping ("merge dotted " +:+ show_parts parts)
            (update_run ((AText <$> parts) ++ [AJson v]) runID any_row (λ now r,
               touch_row now (set_vars (jsonb_set parts (jsonb_norm v)) r))) in
          write_dotted runID dotted
      end
  end.
(** The first loop: keys of one component and keys of several. *)
Definition split_merge (entries : list (string * Val)) : Vars * list (list string * Val) :=
  fold_left (λ '(flat, dotted) '(k, v),
    match key_path k with
    | [p] => (<[p := v]> flat, dotted)
    | parts => (flat, dotted ++ [(parts, v)])
    end) entries (∅, []).
Definition update_variables_tx (runID : uuid) (merge : Vars) : Tx unit :=
  let '(flat, dotted) := split_merge (range_map merge) in
  tx* _ := locked_run runID in
  tx* _ :=
    (if decide (flat = ∅) then tx_ret tt
     else match json_vars flat with
          | None => tx_err (EWrap "marshal flat merge" json_err)
          | Some j =>
              tx* _ := wrapping "merge flat"
                (update_run [AJson (VMap j)] runID any_row (λ now r,
                   touch_row now (set_vars (λ t, jsonb_vars j ∪ t) r))) in
              tx_ret tt
          end) in
  write_dotted runID dotted.
Definition pg_UpdateRunVariables (runID : uuid) (merge : Vars) : M (res unit) :=
  if decide (merge = ∅) then ret (Ok tt) else transaction (update_variables_tx runID merge).

(** *** Queries *)

(** The conditions [buildListRunsQuery] collects, on a run and the trigger joined to it. *)
Definition run_wheres (f : RunFilter) : list (SagaRun → option SagaTrigger → tv) :=
  (if decide (rf_WorkflowID f = "") then []
   else [λ r _, Some (bool_decide (run_WorkflowID r = rf_WorkflowID f))]) ++
  (if decide (rf_State f = "") then []
   else [λ r _, Some (bool_decide (RunState_string (run_State r) = rf_State f))]) ++
  match rf_Since f with
  | Some t => [λ r _, Some (us t <=? run_StartedAt r)%Z]
  | None => []
  end ++
  match rf_HasError f with
  | Some true => [λ r _, Some (bool_decide (run_State r = RunStateFailed))]
  | Some false => [λ r _, Some (negb (bool_decide (run_State r = RunStateFailed)))]
  | None => []
  end ++
  match rf_RequiresReview f with
  | Some b => [λ r _, Some (bool_decide (run_RequiresManualReview r = b))]
  | None => []
  end ++
  (if decide (rf_TriggerType f = "") then []
   else [λ _ t, sql_eq (trig_TriggerType <$> t) (Some (rf_TriggerType f))]).
Definition run_filter_args (f : RunFilter) : list arg :=
  [AText (rf_WorkflowID f); AText (rf_State f); AText (rf_TriggerType f)].
(** [FROM runtime.saga_runs r LEFT JOIN runtime.saga_triggers t ON r.trigger_id = t.id]. *)
Definition joined_trigger (d : Tables) (r : SagaRun) : option SagaTrigger :=
  run_TriggerID r ≫= λ id, saga_triggers d !! id.
Definition matching_runs (f : RunFilter) (d : Tables) : list SagaRun :=
  where_ (λ r, foldr (λ c t, sql_and (c r (joined_trigger d r)) t) (Some true) (run_wheres f))
    (saga_runs d).

Definition started_later (a b : SagaRun) : bool := (run_StartedAt b <? run_StartedAt a)%Z.
Definition pg_ListRuns (f : RunFilter) : M (res (list SagaRun)) :=
  transaction (wrapping "list runs" (sql (run_filter_args f) (sql_query (λ d,
    let limit := if decide (rf_Limit f ≤ 0)%Z then 50%Z else rf_Limit f in
    scanRunRow <$> limit_ limit (offset_ (Z.max 0 (rf_Offset f))
      (order_by started_later (matching_runs f d))))))).
Definition pg_CountRuns (f : RunFilter) : M (res Z) :=
  transaction (wrapping "count runs" (sql (run_filter_args f) (sql_query (λ d,
    Z.of_nat (length (matching_runs f d)))))).

(** [max], NULL without rows. *)
Definition sql_max (l : list Z) : option Z :=
  match l with [] => None | x :: l => Some (fold_left Z.max l x) end.
Definition count_ {A} (c : A → bool) (l : list A) : Z := Z.of_nat (length (filter (λ x, c x = true) l)).
Definition pg_StatsForWorkflow (workflowID : string) : M (res WorkflowStats) :=
  transaction (
    let rows d := where_ (λ r, Some (bool_decide (run_WorkflowID r = workflowID))) (saga_runs d) in
    tx* now := now_ in
    let in_window st r := bool_decide (run_State r = st) && (now - day_ns <=? run_StartedAt r)%Z in
    tx* q := wrapping "stats query" (sql [AText workflowID] (sql_query (λ d,
      (sql_max (run_StartedAt <$> rows d),
       (count_ (in_window RunStateSucceeded) (rows d),
        count_ (in_window RunStateFailed) (rows d)))))) in
    let '(lastRunAt, (succeeded, failed)) := q in
    let total24h := (succeeded + failed)%Z in
    tx* inflight := wrapping "stats in_flight query" (sql [AText workflowID] (sql_query (λ d,
      count_ (λ r, negb (IsTerminal (run_State r))) (rows d)))) in
    tx_ret (mkStats workflowID
              (if decide (0 < total24h)%Z then Some (succeeded, total24h) else None)
              lastRunAt inflight)).

(** *** Awaited actions *)

(** The condition is NULL, and the row not updated, when no action is awaited and the
    attempt is the current one. *)
Definition mark_where (dispatch : string) (attempt : Z) (r : SagaRun) : tv :=
  sql_not (sql_and (sql_eq (Some (run_CurrentAttempt r)) (Some attempt))
             (sql_eq (run_AwaitedActionDispatch r) (Some dispatch))).
Definition pg_MarkAwaitingAction (runID : uuid) (dispatch : string) (attempt : Z)
    : M (res unit) :=
  transaction (
    tx* _ := wrapping "mark awaiting action"
      (update_run [AText dispatch; AInt4 attempt] runID (mark_where dispatch attempt) (λ now r,
         touch_row now (set_run_CurrentAttempt attempt
           (set_run_AwaitedActionDispatch (Some dispatch) (set_run_State RunStatePaused r))))) in
    tx_ret tt).

Definition notFoundUnlessRunExists (affected : bool) (runID : uuid) : Tx unit :=
  if affected then tx_ret tt else missing_or_skipped "run existence check" runID.
Definition attempt_matches (attempt : Z) (r : SagaRun) : tv :=
  Some (bool_decide (run_CurrentAttempt r = attempt)).
Definition complete_run_row (now : Z) (r : SagaRun) : SagaRun :=
  touch_row now (set_run_WakeupAt (Some now) (set_run_AwaitedActionDispatch None r)).
Definition pg_CompleteAction (runID : uuid) (attempt : Z) (result : Vars) : M (res unit) :=
  if decide (result = ∅) then
    transaction (
      tx* n := wrapping "complete action (no result)"
        (update_run [AInt4 attempt] runID (attempt_matches attempt) complete_run_row) in
      notFoundUnlessRunExists n runID)
  else
    match json_vars result with
    | None => ret (Err (EWrap "complete action: marshal result" json_err))
    | Some j =>
        transaction (
          tx* n := wrapping "complete action"
            (update_run [AInt4 attempt; AJson (VMap j)] runID (attempt_matches attempt)
               (λ now r, complete_run_row now (set_vars (λ t, jsonb_vars j ∪ t) r))) in
          notFoundUnlessRunExists n runID)
    end.

Definition fail_run_row (message : string) (now : Z) (r : SagaRun) : SagaRun :=
  set_run_LastError (nullif_empty message)
    (touch_row now (set_run_TerminalAt (Some now)
      (set_run_AwaitedActionDispatch None (set_run_State RunStateFailed r)))).
Definition fail_transaction (evid runID : uuid) (attempt : Z) (code message : string) (retryable : bool)
    : Tx unit :=
  tx* r := locked_run runID in
  if decide (run_CurrentAttempt r ≠ attempt) then tx_ret tt
  else
    let dispatch := default "" (run_AwaitedActionDispatch r) in
    tx* _ := wrapping "fail action: update run"
      (update_run [AText message] runID any_row (fail_run_row message)) in
    wrapping "fail action: append event"
      (engine_event evid runID (run_CurrentStep r) attempt EventStepFailed
         (list_to_map [("code", VStr code); ("message", VStr message);
                       ("retryable", VBool retryable); ("action", VStr dispatch)])).
Definition pg_FailAction (runID : uuid) (attempt : Z) (code message : string)
    (retryable : bool) : M (res unit) :=
  let* evid := uuidNew in transaction (fail_transaction evid runID attempt code message retryable).
End Pg.
