(* ===== verification/PgData.v ===== *)
(** The rest of the PostgreSQL store: definitions, rules, the action registry, triggers and
    user tasks, and the [Store] instance. *)
From S2P Require Import Prelude Values Domain World StoreApi Rows MemStore Json PgSchema Pg.

Section PgData.
Context `{Env} `{JsonEnv} `{PgEnv}.
Abbreviation M := (M (World Postgres)).

(** ** definitions.go *)

(** The parts of a marshalled definition the server can refuse. *)
Definition step_args (st : Step) : list arg :=
  [AJsonTexts ([step_ID st; step_Type st; step_Next st; step_Action st] ++
               match step_Compensation st with Some c => [comp_Action c] | None => [] end ++
               map_keys (step_Branches st) ++ (br_Next <$> (map_to_list (step_Branches st)).*2));
   AJson (VMap (step_Inputs st))] ++
  match step_Compensation st with Some c => [AJson (VMap (comp_Inputs c))] | None => [] end.
Definition spec_args (d : WorkflowDefinition) : list arg :=
  AJsonTexts ([def_ID d; def_Name d; def_Description d; def_Start d; def_CreatedBy d] ++
              match def_TenantID d with Some t => [t] | None => [] end ++
              map_keys (def_Entrypoints d) ++ (map_to_list (def_Entrypoints d)).*2) ::
  (def_Steps d ≫= step_args).
(** The definition read back from the column [spec]. *)
Definition spec_step (st : Step) : Step :=
  mkStep (step_ID st) (step_Type st) (step_Next st) (step_Action st) (jsonb_vars (step_Inputs st))
    ((λ c, mkComp (comp_Action c) (jsonb_vars (comp_Inputs c))) <$> step_Compensation st)
    (step_Retry st) (step_Branches st).
Definition spec_def (d : WorkflowDefinition) : WorkflowDefinition :=
  mkDef (def_ID d) (def_Version d) (def_TenantID d) (def_Name d) (def_Description d)
    (def_Start d) (def_Entrypoints d) (spec_step <$> def_Steps d) (def_Published d)
    (def_CreatedAt d) (def_CreatedBy d).

(** A uuid column given a text. *)
Definition uuid_arg (s : option string) : res (option uuid) :=
  match s with
  | None => Ok None
  | Some s => match uuid_in s with Some u => Ok (Some u) | None => Err bad_argument end
  end.
(** [time.Time{}]. *)
Definition zero_time : Z := -62135596800 * 1000000000.

Definition same_version (wf : string) (v : Z) (r : DefRow) : tv :=
  Some (bool_decide (dr_WorkflowID r = wf ∧ dr_Version r = v)).
Definition update_def_row (new old : DefRow) : DefRow :=
  mkDefRow (dr_ID old) (dr_WorkflowID old) (dr_Version old) (dr_TenantID old) (dr_Name new)
    (dr_Description new) (dr_Spec new) (dr_Published new) (dr_CreatedAt old) (dr_CreatedBy old).
(** [INSERT ... ON CONFLICT (workflow_id, version) DO UPDATE ... RETURNING id]. *)
Definition upsert_def_row (new : DefRow) : Tx uuid := λ _ d,
  match head (where_ (same_version (dr_WorkflowID new) (dr_Version new)) (workflow_definitions d)) with
  | Some old =>
      Ok (dr_ID old,
          with_defs (<[dr_ID old := update_def_row new old]> (workflow_definitions d)) d)
  | None =>
      match insert_row "workflow_definitions_pkey" (dr_ID new) new (workflow_definitions d) with
      | Err e => Err e
      | Ok t => Ok (dr_ID new, with_defs t d)
      end
  end.
Definition pg_UpsertWorkflowDefinition (def : WorkflowDefinition) : M (res uuid) :=
  let* id := uuidNew in
  match json_def def with
  | None => ret (Err json_err)
  | Some spec =>
      let* now := timeNow in
      let createdAt := if decide (def_CreatedAt def = zero_time) then now else def_CreatedAt def in
      let createdBy := if decide (def_CreatedBy def = "") then "system" else def_CreatedBy def in
      match uuid_arg (def_TenantID def) with
      | Err e => ret (Err e)
      | Ok tenant =>
          transaction (sql ([AText (def_ID def); AInt4 (def_Version def); AText (def_Name def);
                             AText (def_Description def); AText createdBy] ++ spec_args spec)
            (upsert_def_row (mkDefRow id (def_ID def) (def_Version def) tenant (def_Name def)
               (def_Description def) (spec_def spec) (def_Published def) (us createdAt) createdBy)))
      end
  end.

Definition pg_GetWorkflowDefinition (id : uuid) : M (res WorkflowDefinition) :=
  let* r := transaction (row_of "workflow_definition" workflow_definitions id) in
  ret (match r with Ok r => Ok (dr_Spec r) | Err e => Err e end).

Definition newest_def (a b : DefRow) : bool :=
  if decide (dr_CreatedAt a = dr_CreatedAt b) then (dr_Version b <? dr_Version a)%Z
  else (dr_CreatedAt b <? dr_CreatedAt a)%Z.
Definition def_wheres (f : DefinitionFilter) (r : DefRow) : tv :=
  let pattern := "%" +:+ df_Search f +:+ "%" in
  sql_and
    (match df_Published f with Some b => Some (bool_decide (dr_Published r = b)) | None => Some true end)
    (if decide (df_Search f = "") then Some true
     else Some (ilike pattern (dr_WorkflowID r) || ilike pattern (dr_Name r))).
Definition pg_ListWorkflowDefinitions (f : DefinitionFilter)
    : M (res (list WorkflowDefinition)) :=
  transaction (wrapping "list workflow definitions" (sql [AText (df_Search f)] (sql_query (λ d,
    let limit := if decide (df_Limit f ≤ 0)%Z then 50%Z else df_Limit f in
    let limit := Z.min limit 500 in
    dr_Spec <$> limit_ limit (offset_ (Z.max 0 (df_Offset f))
      (order_by newest_def (where_ (def_wheres f) (workflow_definitions d)))))))).

(** [ORDER BY version DESC LIMIT 1]. *)
Definition pg_GetPublishedWorkflowByID (workflowID : string) (tenantID : option uuid)
    : M (res WorkflowDefinition) :=
  transaction (sql [AText workflowID] (select (λ d,
    match head (order_by (λ a b, dr_Version b <? dr_Version a)%Z
            (where_ (λ r, sql_and (Some (bool_decide (dr_WorkflowID r = workflowID)))
               (sql_and (sql_or (sql_and (is_null tenantID) (is_null (dr_TenantID r)))
                           (sql_eq (dr_TenantID r) tenantID))
                  (Some (dr_Published r)))) (workflow_definitions d))) with
    | Some r => Ok (dr_Spec r)
    | None => Err (ErrNotFound "workflow_definition" workflowID)
    end))).

(** ** rules.go *)
Definition rule_args (r : RuleDefinition) : list arg :=
  let spec := rule_Spec r in
  [AText (rule_RuleID r); AInt4 (rule_Version r); AText (rule_Name r); AText (rule_RuleType r);
   AText (rule_CreatedBy r);
   AJsonTexts (HitPolicy spec :: (row_When <$> Rows spec))] ++
  ((λ row, AJson (VMap (row_Then row))) <$> Rows spec) ++
  match DefaultOutput spec with Some m => [AJson (VMap m)] | None => [] end.
Definition spec_rule (s : RuleSpec) : RuleSpec :=
  mkSpec (HitPolicy s) ((λ row, mkRow (row_When row) (jsonb_vars (row_Then row))) <$> Rows s)
    (jsonb_vars <$> DefaultOutput s).
Definition same_rule_version (ruleID : string) (v : Z) (r : RuleRow) : tv :=
  Some (bool_decide (rule_RuleID (rr_Rule r) = ruleID ∧ rule_Version (rr_Rule r) = v)).
Definition update_rule_row (new old : RuleRow) : RuleRow :=
  let n := rr_Rule new in
  let o := rr_Rule old in
  mkRuleRow (rr_TenantID old)
    (mkRule (rule_ID o) (rule_RuleID o) (rule_Version o) (rule_TenantID o) (rule_Name n)
       (rule_RuleType o) (rule_Spec n) (rule_Published n) (rule_CreatedAt o) (rule_CreatedBy o)).
(** [INSERT ... ON CONFLICT (rule_id, version) DO UPDATE], without RETURNING. *)
Definition upsert_rule_row (new : RuleRow) : Tx unit := λ _ d,
  let n := rr_Rule new in
  match head (where_ (same_rule_version (rule_RuleID n) (rule_Version n)) (rule_definitions d)) with
  | Some old =>
      Ok (tt, with_rules (<[rule_ID (rr_Rule old) := update_rule_row new old]> (rule_definitions d)) d)
  | None =>
      match insert_row "rule_definitions_pkey" (rule_ID n) new (rule_definitions d) with
      | Err e => Err e
      | Ok t => Ok (tt, with_rules t d)
      end
  end.
Definition pg_UpsertRuleDefinition (def : RuleDefinition) : M (res uuid) :=
  match json_rule def with
  | None => ret (Err (EWrap "marshal rule spec" json_err))
  | Some j =>
      let* id := (if decide (rule_ID def = uuid_Nil) then uuidNew else ret (rule_ID def)) in
      match uuid_arg (rule_TenantID def) with
      | Err e => ret (Err (EWrap "upsert rule" e))
      | Ok tenant =>
          transaction (
            tx* _ := wrapping "upsert rule" (sql (rule_args j)
              (tx* now := now_ in
               upsert_rule_row (mkRuleRow tenant
                 (mkRule id (rule_RuleID def) (rule_Version def) (uuid_string <$> tenant)
                    (rule_Name def) (rule_RuleType def) (spec_rule (rule_Spec j))
                    (rule_Published def) now (rule_CreatedBy def))))) in
            tx_ret id)
      end
  end.

Definition pg_GetPublishedRuleByID (ruleID : string) (tenantID : option uuid)
    : M (res RuleDefinition) :=
  transaction (sql [AText ruleID] (select (λ d,
    match head (order_by (λ a b, rule_Version (rr_Rule b) <? rule_Version (rr_Rule a))%Z
            (where_ (λ r, sql_and (Some (bool_decide (rule_RuleID (rr_Rule r) = ruleID)))
               (sql_and (Some (rule_Published (rr_Rule r)))
                  (sql_or (is_null tenantID)
                     (sql_or (is_null (rr_TenantID r)) (sql_eq (rr_TenantID r) tenantID)))))
               (rule_definitions d))) with
    | Some r => Ok (rr_Rule r)
    | None => Err (ErrNotFound "rule_definition" ruleID)
    end))).

(** ** registry.go *)

(** [json.Marshal] of the default retry policy, its error ignored: NULL. *)
Definition jsonb_retry (p : RetryPolicy) : option RetryPolicy :=
  match Multiplier p with
  | S754_zero _ =>
      Some (mkRetry (MaxAttempts p) (InitialBackoffMS p) (MaxBackoffMS p) f_zero (Jitter p))
  | S754_finite _ _ _ => Some p
  | _ => None
  end.
Definition same_action (a b : ActionRegistration) : tv :=
  Some (bool_decide (act_Service a = act_Service b ∧ act_ActionName a = act_ActionName b ∧
                     act_Version a = act_Version b)).
(** [INSERT ... ON CONFLICT (service, action_name, version) DO UPDATE]. *)
Definition upsert_action_row (new : ActionRegistration) : Tx unit := λ _ d,
  match head (where_ (same_action new) (action_registry d)) with
  | Some old =>
      Ok (tt, with_actions (<[act_ID old := with_act_ids (act_ID old) (act_RegisteredAt old) new]>
                              (action_registry d)) d)
  | None =>
      match insert_row "action_registry_pkey" (act_ID new) new (action_registry d) with
      | Err e => Err e
      | Ok t => Ok (tt, with_actions t d)
      end
  end.
Definition action_row (reg : ActionRegistration) (id : uuid) (now : Z) (ins outs : Vars)
    : ActionRegistration :=
  mkAction id (act_Service reg) (act_ActionName reg) (act_Version reg) (act_Description reg)
    (act_Category reg) (act_Compensable reg) (jsonb_vars ins) (jsonb_vars outs)
    (act_ErrorCodes reg) (act_DefaultRetry reg ≫= jsonb_retry) (act_DefaultTimeoutMS reg)
    (act_Deprecated reg) (Some now) (act_ServiceVersion reg) (act_DryRunSupported reg)
    (act_LicenseGroup reg) (act_Transport reg) (act_Address reg).
Definition action_args (reg : ActionRegistration) : list arg :=
  (AText <$> [act_Service reg; act_ActionName reg; act_Description reg; act_Category reg;
              act_ServiceVersion reg; act_LicenseGroup reg; act_Transport reg; act_Address reg] ++
             act_ErrorCodes reg) ++
  [AInt4 (act_Version reg); AInt4 (act_DefaultTimeoutMS reg)].
(** A schema that cannot be marshalled is NULL, which its column refuses. *)
Definition pg_UpsertActionRegistration (reg : ActionRegistration) : M (res unit) :=
  let* id := (if decide (act_ID reg = uuid_Nil) then uuidNew else ret (act_ID reg)) in
  transaction (wrapping "upsert action" (
    match json_vars (act_InputSchema reg), json_vars (act_OutputSchema reg) with
    | Some ins, Some outs =>
        sql (action_args reg ++ [AJson (VMap ins); AJson (VMap outs)])
          (tx* now := now_ in upsert_action_row (action_row reg id now ins outs))
    | None, _ => sql (action_args reg) (tx_err (not_null_violation "input_schema"))
    | _, None => sql (action_args reg) (tx_err (not_null_violation "output_schema"))
    end)).

Definition action_wheres (f : ActionFilter) (a : ActionRegistration) : tv :=
  let if_set s c := if decide (s = "") then Some true else Some c in
  sql_and (if_set (af_Service f) (bool_decide (act_Service a = af_Service f)))
    (sql_and (if_set (af_Category f) (bool_decide (act_Category a = af_Category f)))
       (if_set (af_Search f) (like ("%" +:+ af_Search f +:+ "%") (act_ActionName a)))).
(** [ORDER BY service, action_name, version]. *)
Definition action_before (a b : ActionRegistration) : bool :=
  if decide (act_Service a = act_Service b) then
    if decide (act_ActionName a = act_ActionName b) then (act_Version a <? act_Version b)%Z
    else collate_lt (act_ActionName a) (act_ActionName b)
  else collate_lt (act_Service a) (act_Service b).
Definition pg_ListActions (f : ActionFilter) : M (res (list ActionRegistration)) :=
  transaction (wrapping "list actions"
    (sql (AText <$> [af_Service f; af_Category f; af_Search f]) (sql_query (λ d,
       order_by action_before (where_ (action_wheres f) (action_registry d)))))).

Definition pg_GetAction (service name : string) (version : Z) : M (res ActionRegistration) :=
  try* r := transaction (sql [AText service; AText name; AInt4 version] (sql_query (λ d,
    head (where_ (λ a, Some (bool_decide (act_Service a = service ∧ act_ActionName a = name ∧
                                          act_Version a = version))) (action_registry d)))))
    else EWrap "get action" in
  ret (match r with
       | Some a => Ok a
       | None => Err (ErrNotFound "action_registration" (service +:+ "." +:+ name))
       end).

(** ** triggers.go, trigger_fires.go *)
(** [ON CONFLICT (id) DO UPDATE] keeps [created_at] and [created_by]. *)
Definition update_trigger_row (new old : SagaTrigger) : SagaTrigger :=
  mkTrigger (trig_ID new) (trig_TriggerType new) (trig_WorkflowID new) (trig_Version new)
    (trig_Config new) (trig_Enabled new) (trig_TenantID new) (trig_CreatedAt old)
    (trig_CreatedBy old) (trig_NextFireAt new) (trig_LastFiredAt new).
Definition upsert_trigger_row (new : SagaTrigger) : Tx unit := λ _ d,
  let row := match saga_triggers d !! trig_ID new with
             | Some old => update_trigger_row new old
             | None => new
             end in
  Ok (tt, with_triggers (<[trig_ID new := row]> (saga_triggers d)) d).
Definition pg_UpsertTrigger (trigger : SagaTrigger) : M (res uuid) :=
  let* id := (if decide (trig_ID trigger = uuid_Nil) then uuidNew else ret (trig_ID trigger)) in
  let* now := timeNow in
  let createdAt := match trig_CreatedAt trigger with None => now | Some t => t end in
  match json_vars (trig_Config trigger) with
  | None => ret (Err (EWrap "marshal trigger config" json_err))
  | Some config =>
      transaction (
        tx* _ := wrapping "upsert trigger"
          (sql [AText (trig_TriggerType trigger); AText (trig_WorkflowID trigger);
                AInt4 (trig_Version trigger); AJson (VMap config); AText (trig_CreatedBy trigger)]
             (upsert_trigger_row
                (mkTrigger id (trig_TriggerType trigger) (trig_WorkflowID trigger)
                   (trig_Version trigger) (jsonb_vars config) (trig_Enabled trigger)
                   (trig_TenantID trigger) (Some (us createdAt)) (trig_CreatedBy trigger)
                   (us <$> trig_NextFireAt trigger) (us <$> trig_LastFiredAt trigger)))) in
        tx_ret id)
  end.

Definition pg_GetTrigger (id : uuid) : M (res SagaTrigger) :=
  transaction (row_of "saga_trigger" saga_triggers id).

Definition trigger_wheres (f : TriggerFilter) (t : SagaTrigger) : tv :=
  sql_and (if decide (tf_Type f = "") then Some true
           else Some (bool_decide (trig_TriggerType t = tf_Type f)))
    (sql_and (match tf_Enabled f with
              | Some b => Some (bool_decide (trig_Enabled t = b))
              | None => Some true
              end)
       (match tf_TenantID f with
        | Some u => sql_eq (trig_TenantID t) (Some u)
        | None => Some true
        end)).
Definition created_before (a b : SagaTrigger) : bool :=
  match trig_CreatedAt a, trig_CreatedAt b with Some x, Some y => (x <? y)%Z | _, _ => false end.
Definition pg_ListTriggers (f : TriggerFilter) : M (res (list SagaTrigger)) :=
  transaction (wrapping "list triggers" (sql [AText (tf_Type f)] (sql_query (λ d,
    order_by created_before (where_ (trigger_wheres f) (saga_triggers d)))))).

Definition pg_DeleteTrigger (id : uuid) : M (res unit) :=
  transaction (λ _ d,
    match saga_triggers d !! id with
    | None => Err (ErrNotFound "saga_trigger" (uuid_string id))
    | Some _ => Ok (tt, with_triggers (delete id (saga_triggers d)) d)
    end).

Definition pg_ListDueCronTriggers (now limit : Z) : M (res (list SagaTrigger)) :=
  transaction (wrapping "list due cron triggers" (
    if decide (limit < 0)%Z then tx_err (EMsg "ERROR: LIMIT must not be negative")
    else sql_query (λ d,
      limit_ limit (order_by fires_before
        (where_ (λ t, sql_and (Some (bool_decide (trig_TriggerType t = TriggerCron)))
                   (sql_and (Some (trig_Enabled t))
                      (sql_and (sql_not (is_null (trig_NextFireAt t)))
                         (sql_le (trig_NextFireAt t) (Some (us now)))))) (saga_triggers d)))))).

(** [UPDATE ... WHERE id = $1 AND next_fire_at = $2 RETURNING id]. *)
Definition pg_ClaimCronFire (id : uuid) (expectedNextFire newNextFire : Z) : M (res bool) :=
  transaction (wrapping "claim cron fire" (λ now d,
    match saga_triggers d !! id with
    | Some t =>
        if is_true (sql_eq (trig_NextFireAt t) (Some (us expectedNextFire))) then
          Ok (true, with_triggers (<[id := set_fire_times (Some (us newNextFire)) (Some now) t]>
                                     (saga_triggers d)) d)
        else Ok (false, d)
    | None => Ok (false, d)
    end)).

Definition pg_RecordTriggerFire (triggerID : uuid) (workflowID : string) (runID : option uuid)
    (fireErr : string) : M (res unit) :=
  let* id := uuidNew in
  transaction (wrapping "record trigger fire" (sql [AText workflowID; AText fireErr] (λ now d,
    match insert_row "saga_trigger_fires_pkey" id
            (mkFire id triggerID workflowID now runID fireErr) (saga_trigger_fires d) with
    | Err e => Err e
    | Ok t => Ok (tt, with_fires t d)
    end))).

(** ** user_tasks.go *)
Definition pg_CreateUserTask (task : UserTask) : M (res unit) :=
  match json_vars (task_FormSchema task) with
  | None => ret (Err (EWrap "create user task: marshal form_schema" json_err))
  | Some form =>
      transaction (wrapping "create user task"
        (sql [AText (task_StepID task); AText (task_Assignee task); AJson (VMap form)] (λ _ d,
           match insert_row "saga_user_tasks_pkey" (task_ID task)
                   (mkTask (task_ID task) (task_RunID task) (task_StepID task)
                      (task_Assignee task) (us <$> task_DueAt task) (jsonb_vars form) None "" ∅)
                   (saga_user_tasks d) with
           | Err e => Err e
           | Ok t =>
               match saga_runs d !! task_RunID task with
               | None => Err (fk_violation "saga_user_tasks_run_id_fkey")
               | Some _ => Ok (tt, with_tasks t d)
               end
           end)))
  end.

Definition pg_GetUserTask (taskID : uuid) : M (res UserTask) :=
  transaction (row_of "user_task" saga_user_tasks taskID).

(** [ORDER BY id]: uuids compare byte by byte. *)
Definition pg_ListUserTasksByRun (runID : uuid) : M (res (list UserTask)) :=
  transaction (sql_query (λ d,
    order_by (λ a b, uuidLess (task_ID a) (task_ID b))
      (where_ (λ t, Some (bool_decide (task_RunID t = runID))) (saga_user_tasks d)))).

Definition pg_SubmitUserTask (taskID : uuid) (submittedBy : string) (result : Vars)
    : M (res unit) :=
  match json_vars result with
  | None => ret (Err (EWrap "submit user task: marshal result" json_err))
  | Some j =>
      transaction (
        tx* n := wrapping "submit user task"
          (sql [AText submittedBy; AJson (VMap j)] (λ now d,
             match saga_user_tasks d !! taskID with
             | Some t =>
                 Ok (true, with_tasks (<[taskID :=
                       set_task_Result (jsonb_vars j) (set_submitted (Some now) submittedBy t)]>
                       (saga_user_tasks d)) d)
             | None => Ok (false, d)
             end)) in
        if n : bool then tx_ret tt
        else tx_err (ErrNotFound "user_task" (uuid_string taskID)))
  end.

#[export] Instance pg_Store : Store Postgres := {|
  GetWorkflowDefinition := pg_GetWorkflowDefinition;
  GetPublishedWorkflowByID := pg_GetPublishedWorkflowByID;
  UpsertWorkflowDefinition := pg_UpsertWorkflowDefinition;
  CreateRun := pg_CreateRun;
  GetRun := pg_GetRun;
  UpdateRunState := pg_UpdateRunState;
  CancelRun := pg_Cancel;
  MarkRunFailed := pg_MarkRunFailed;
  AppendEvent := pg_AppendEvent;
  ListEventsByRun := pg_ListEventsByRun;
  GetPublishedRuleByID := pg_GetPublishedRuleByID;
  UpdateRunVariables := pg_UpdateRunVariables;
  SetPausedWithWakeup := pg_SetPausedWithWakeup;
  SetPausedAwaitingSignal := pg_SetPausedAwaitingSignal;
  SetPausedAwaitingEventWithDeadline := pg_SetPausedAwaitingEventWithDeadline;
  ClearPause := pg_ClearPause;
  FindRunsByDueWakeup := pg_FindRunsByDueWakeup;
  FindRunsByAwaitedEvent := pg_FindRunsByAwaitedEvent;
  TryConsumeAwaitedSignal := pg_TryConsumeAwaitedSignal;
  AppendSignal := pg_AppendSignal;
  WakeFromExternal := pg_WakeFromExternal;
  SpawnChildRunAt := pg_SpawnChildRunAt;
  ListChildrenByParent := pg_ListChildrenByParent;
  PushTryCatch := pg_PushTryCatch;
  PopTryCatch := pg_PopTryCatch;
  CreateUserTask := pg_CreateUserTask;
  GetUserTask := pg_GetUserTask;
  SubmitUserTask := pg_SubmitUserTask;
  ListUserTasksByRun := pg_ListUserTasksByRun;
  ListActions := pg_ListActions;
  ListTriggers := pg_ListTriggers;
  ListDueCronTriggers := pg_ListDueCronTriggers;
  ClaimCronFire := pg_ClaimCronFire;
  RecordTriggerFire := pg_RecordTriggerFire;
  MarkAwaitingAction := pg_MarkAwaitingAction;
  CompleteAction := pg_CompleteAction;
  FailAction := pg_FailAction;
  ListWorkflowDefinitions := pg_ListWorkflowDefinitions;
  ListRuns := pg_ListRuns;
  CountRuns := pg_CountRuns;
  StatsForWorkflow := pg_StatsForWorkflow;
  GetEventByID := pg_GetEventByID;
  UpsertRuleDefinition := pg_UpsertRuleDefinition;
  UpsertActionRegistration := pg_UpsertActionRegistration;
  GetAction := pg_GetAction;
  UpsertTrigger := pg_UpsertTrigger;
  GetTrigger := pg_GetTrigger;
  DeleteTrigger := pg_DeleteTrigger
|}.
End PgData.
