(* ===== verification/PgVars.v ===== *)
(** Variables in PostgreSQL: the statements of [UpdateRunVariables] write what the dotted-key
    merge of the in-memory store writes, plain keys first. *)
From S2P Require Import Prelude Values Domain World Demo StoreApi Rows StoreSpec MemStore Json.
From S2P Require Import JsonProps PgSchema Pg.

(** ** The statements of one dotted key *)
Lemma parents_cons p q ps : parents (p :: q :: ps) = [p] :: (cons p <$> parents (q :: ps)).
Proof.
  unfold parents. cbn [length pred]. change (seq 1 (S (length ps))) with (1 :: seq 2 (length ps)).
  rewrite fmap_cons. f_equal. rewrite <- (fmap_S_seq 1 (length ps)), <- !list_fmap_compose. done.
Qed.
Lemma parents_one p : parents [p] = [].
Proof. done. Qed.
Lemma parents_nonnil parts : Forall (λ p, p ≠ []) (parents parts).
Proof.
  apply Forall_fmap, Forall_forall. intros i Hi%elem_of_seq. simpl.
  destruct parts; simpl in Hi; [lia|]. by destruct i; [lia|].
Qed.

Lemma jsonb_set_under p path new m t :
  path ≠ [] → t !! p = Some (VMap m) →
  jsonb_set (p :: path) new t = <[p := VMap (jsonb_set path new m)]> t.
Proof. intros Hp Ht. destruct path; [done|]. cbn [jsonb_set]. by rewrite Ht. Qed.
Lemma make_object_under p path m t :
  path ≠ [] → t !! p = Some (VMap m) →
  make_object (p :: path) t = <[p := VMap (make_object path m)]> t.
Proof.
  intros Hp Ht. unfold make_object. rewrite (jsonb_set_under _ _ _ _ _ Hp Ht).
  cbn [jsonb_at]. by rewrite Ht.
Qed.
Lemma make_object_one p t :
  make_object [p] t = <[p := VMap (default ∅ (as_map (t !! p)))]> t.
Proof. unfold make_object; simpl. destruct (t !! p) as [v|]; [|done]. by destruct v. Qed.

Lemma make_objects_under p paths m t :
  Forall (λ p, p ≠ []) paths → t !! p = Some (VMap m) →
  fold_left (λ t path, make_object path t) (cons p <$> paths) t =
  <[p := VMap (fold_left (λ t path, make_object path t) paths m)]> t.
Proof.
  revert m t. induction paths as [|path paths IH]; intros m t Hp Ht; simpl.
  - by rewrite insert_id.
  - apply Forall_cons in Hp as [Hp Hps]. rewrite (make_object_under _ _ _ _ Hp Ht).
    rewrite (IH (make_object path m)); [|done|by rewrite lookup_insert_eq].
    by rewrite insert_insert_eq.
Qed.

(** Parents first, then the leaf. *)
Definition write_path (parts : list string) (v : Val) (t : Vars) : Vars :=
  jsonb_set parts v (fold_left (λ t path, make_object path t) (parents parts) t).
Lemma write_path_apply parts v t : write_path parts v t = apply_path parts v t.
Proof.
  revert t. induction parts as [|p [|q ps] IH]; intros t; [done|done|].
  rewrite apply_path_cons, <- IH. unfold write_path. rewrite parents_cons. cbn [fold_left].
  rewrite make_object_one.
  rewrite (make_objects_under _ _ (default ∅ (as_map (t !! p))));
    [|apply parents_nonnil|by rewrite lookup_insert_eq].
  erewrite jsonb_set_under; [|done|by rewrite lookup_insert_eq].
  by rewrite !insert_insert_eq.
Qed.

(** ** On the row *)
Section Vars.
Context `{EnvLaws} `{JsonEnv}.
Implicit Types (d : Tables) (r : SagaRun).

Lemma with_runs_same d : with_runs (saga_runs d) d = d.
Proof. by destruct d. Qed.
Lemma text_args (l : list string) : forallb arg_ok (AText <$> l) = forallb text_ok l.
Proof. induction l as [|s l IH]; [done|]. rewrite fmap_cons. simpl. by rewrite IH. Qed.
Lemma set_vars_same r : set_vars (λ t, t) r = r.
Proof. by destruct r. Qed.
Lemma touch_same r : touch_row (run_LastEventAt r) r = r.
Proof. by destruct r. Qed.
Lemma update_run_found args id c set now d r :
  forallb arg_ok args = true → saga_runs d !! id = Some r → is_true (c r) = true →
  update_run args id c set now d = Ok (true, with_runs (<[id := set now r]> (saga_runs d)) d).
Proof. intros Ha Hr Hc. unfold update_run, sql. by rewrite Ha, Hr, Hc. Qed.

Lemma make_parents_run id ps now d r :
  forallb (λ p, forallb text_ok p) ps = true → saga_runs d !! id = Some r →
  make_parents id ps now d =
  Ok (tt, with_runs (<[id := set_vars (λ t, fold_left (λ t p, make_object p t) ps t) r]>
                       (saga_runs d)) d).
Proof.
  revert d r. induction ps as [|p ps IH]; intros d r Hok Hr; cbn [make_parents fold_left].
  - by rewrite set_vars_same, insert_id, with_runs_same by done.
  - simpl in Hok. apply andb_true_iff in Hok as [Hp Hps]. unfold tx_bind.
    rewrite (update_run_found _ _ _ _ _ _ r) by (by rewrite ?text_args).
    erewrite IH by (done || apply lookup_insert_eq). simpl. by rewrite insert_insert_eq.
Qed.
Lemma text_prefixes parts :
  forallb text_ok parts = true → forallb (λ p, forallb text_ok p) (parents parts) = true.
Proof.
  intros Hok. apply forallb_forall. intros p Hp%list_elem_of_In.
  apply list_elem_of_fmap in Hp as (i & -> & _). apply forallb_forall. intros s Hs%list_elem_of_In.
  rewrite forallb_forall in Hok. apply Hok, list_elem_of_In. eapply elem_of_take in Hs as (? & ? & _).
  by eapply list_elem_of_lookup_2.
Qed.

(** What is read back of a value. *)
Definition stored_val (v : Val) : Val := default VNil (jsonb_norm <$> json_val v).
(** The server takes the value. *)
Definition storable (v : Val) : Prop := ∃ v', json_val v = Some v' ∧ jsonb_ok v' = true.

Definition write_all (dotted : list (list string * Val)) (t : Vars) : Vars :=
  fold_left (λ t '(parts, v), apply_path parts (stored_val v) t) dotted t.
Lemma write_dotted_run id dotted now d r :
  Forall (λ '(parts, v), forallb text_ok parts = true ∧ storable v) dotted →
  saga_runs d !! id = Some r → dotted ≠ [] ∨ run_LastEventAt r = now →
  write_dotted id dotted now d =
  Ok (tt, with_runs (<[id := touch_row now (set_vars (write_all dotted) r)]> (saga_runs d)) d).
Proof.
  revert d r. induction dotted as [|[parts v] dotted IH]; intros d r Hok Hr Hnow;
    cbn [write_dotted].
  - destruct Hnow as [?|<-]; [done|]. unfold write_all; cbn [fold_left].
    by rewrite set_vars_same, touch_same, insert_id, with_runs_same by done.
  - apply Forall_cons in Hok as [[Hp (v' & Hv & Hj)] Hok]. rewrite Hv. unfold tx_bind, wrapping.
    rewrite (make_parents_run _ _ _ _ _ (text_prefixes _ Hp) Hr). simpl.
    erewrite update_run_found; [|by rewrite forallb_app, text_args; simpl; rewrite Hp, Hj
                                |apply lookup_insert_eq|done]; simpl.
    erewrite IH; [|done|apply lookup_insert_eq|by right]; simpl.
    rewrite !insert_insert_eq. do 4 f_equal. unfold touch_row, set_vars.
    unfold set_run_Variables, set_run_LastEventAt; simpl. f_equal.
    fold (write_path parts (jsonb_norm v') (run_Variables r)). rewrite write_path_apply.
    unfold stored_val. by rewrite Hv.
Qed.

(** *** The whole call *)
Lemma jsonb_ok_map m :
  jsonb_ok (VMap m) = true ↔ map_Forall (λ k v, nul_free k = true ∧ jsonb_ok v = true) m.
Proof.
  simpl. induction m as [|k v m E IH] using map_ind.
  { rewrite map_fold_empty. split; [intros _; apply map_Forall_empty|done]. }
  rewrite map_fold_insert_L;
    [|intros; by destruct (nul_free _), (jsonb_ok _), (nul_free _), (jsonb_ok _)|done].
  rewrite !andb_true_iff, IH, map_Forall_insert by done. done.
Qed.

Definition single (k : string) : bool := match key_path k with [_] => true | _ => false end.
Definition plain_keys (l : list (string * Val)) := filter (λ kv, single kv.1 = true) l.
Definition dotted_keys (l : list (string * Val)) := filter (λ kv, single kv.1 = false) l.
Definition flat_map_of (l : list (string * Val)) (t : Vars) : Vars :=
  fold_left (λ t kv, <[default "" (head (key_path kv.1)) := kv.2]> t) l t.

Lemma split_merge_parts l :
  split_merge l = (flat_map_of (plain_keys l) ∅, prod_map key_path id <$> dotted_keys l).
Proof.
  unfold split_merge.
  assert (∀ flat dotted,
    fold_left (λ '(flat, dotted) '(k, v),
      match key_path k with
      | [p] => (<[p := v]> flat, dotted)
      | parts => (flat, dotted ++ [(parts, v)])
      end) l (flat, dotted) =
    (flat_map_of (plain_keys l) flat, dotted ++ (prod_map key_path id <$> dotted_keys l))) as Hgo.
  { induction l as [|[k v] l IH]; intros flat dotted; cbn [fold_left]; [by rewrite app_nil_r|].
    unfold plain_keys, dotted_keys in *. rewrite !filter_cons. cbn [fst].
    destruct (key_path k) as [|p [|q ps]] eqn:Ek.
    - by destruct (key_path_nonnil k).
    - assert (single k = true) as -> by (unfold single; by rewrite Ek).
      rewrite decide_True, decide_False by done. rewrite IH. unfold flat_map_of at 2; simpl.
      by rewrite Ek.
    - assert (single k = false) as -> by (unfold single; by rewrite Ek).
      rewrite decide_False, decide_True by done. rewrite IH, <- app_assoc. do 2 f_equal.
      rewrite fmap_cons. unfold prod_map at 2; simpl. by rewrite Ek. }
  apply Hgo.
Qed.
Lemma flat_map_merge l t :
  Forall (λ kv, single kv.1 = true) l → flat_map_of l t = merge_entries l t.
Proof.
  revert t. induction l as [|[k v] l IH]; intros t Hl; [done|].
  apply Forall_cons in Hl as [Hk Hl]. unfold flat_map_of, merge_entries in *; simpl. rewrite IH by done.
  f_equal. unfold applyDottedKey. unfold single in Hk. simpl in Hk.
  destruct (key_path k) as [|p [|q ps]]; done.
Qed.
Lemma flat_map_union l t u : flat_map_of l (t ∪ u) = flat_map_of l t ∪ u.
Proof.
  revert t. induction l as [|[k v] l IH]; intros t; [done|]. unfold flat_map_of in *; simpl.
  by rewrite insert_union_l, IH.
Qed.
Lemma flat_map_fmap (f : Val → Val) l t :
  f <$> flat_map_of l t = flat_map_of (prod_map id f <$> l) (f <$> t).
Proof.
  revert t. induction l as [|[k v] l IH]; intros t; [done|]. unfold flat_map_of in *; simpl.
  by rewrite IH, fmap_insert.
Qed.
Lemma write_all_merge l t :
  write_all (prod_map key_path id <$> l) t = merge_entries (prod_map id stored_val <$> l) t.
Proof. revert t. induction l as [|[k v] l IH]; intros t; [done|]. apply IH. Qed.

(** The keys are texts and JSONB takes the values. *)
Definition updatable (merge : Vars) : Prop :=
  map_Forall (λ k v, forallb text_ok (key_path k) = true ∧ storable v) merge.

Lemma json_vars_storable m :
  map_Forall (λ k v, nul_free k = true ∧ storable v) m →
  ∃ j, json_vars m = Some j ∧ jsonb_ok (VMap j) = true ∧ jsonb_vars j = stored_val <$> m.
Proof.
  intros Hm. destruct (json_vars m) as [j|] eqn:E.
  - exists j. split; [done|]. rewrite json_vars_spec in E. split.
    + apply jsonb_ok_map. intros k v' Hk. specialize (E k). rewrite Hk in E.
      destruct (m !! k) as [v|] eqn:Em; [|done]. injection E as E.
      destruct (Hm _ _ Em) as [Hn (v'' & Ev & Hj)]. split; [done|congruence].
    + apply map_eq. intros k. unfold jsonb_vars. rewrite !lookup_fmap. specialize (E k).
      destruct (m !! k) as [v|] eqn:Em, (j !! k) as [v'|]; try done. injection E as E; simpl.
      f_equal. unfold stored_val. by rewrite E.
  - exfalso. unfold json_vars, all_entries in E. case_decide as Hd; [done|]. apply Hd.
    intros k o Hk. rewrite lookup_fmap in Hk. destruct (m !! k) as [v|] eqn:Em; [|done].
    injection Hk as <-. destruct (Hm _ _ Em) as [_ (v' & -> & _)]. eauto.
Qed.
Lemma text_nul_free s : text_ok s = true → nul_free s = true.
Proof. unfold text_ok. by intros [? _]%andb_true_iff. Qed.
Lemma flat_map_storable l :
  Forall (λ kv, forallb text_ok (key_path kv.1) = true ∧ storable kv.2) l →
  Forall (λ kv, single kv.1 = true) l →
  ∀ t, map_Forall (λ k v, nul_free k = true ∧ storable v) t →
  map_Forall (λ k v, nul_free k = true ∧ storable v) (flat_map_of l t).
Proof.
  induction l as [|[k v] l IH]; intros Hl Hs t Ht; [done|].
  apply Forall_cons in Hl as [[Hk Hv] Hl], Hs as [Hs1 Hs].
  apply (IH Hl Hs). apply map_Forall_insert_2; [|done]. split; [|done].
  unfold single in Hs1. simpl in *. destruct (key_path k) as [|p [|q ps]]; try done.
  simpl in *. apply andb_true_iff in Hk as [Hk _]. by apply text_nul_free.
Qed.

Context `{PgEnv}.
Implicit Types w : World Postgres.
(** The runs, and the time of the server's clock. *)
Definition pg_runs w : gmap uuid SagaRun := saga_runs (tables (w_store w)).
Definition pg_now w : Z := us (w_now w + clock_skew (w_store w)).
Definition set_tables (d : Tables) w : World Postgres :=
  set_store (mkPostgres d (clock_skew (w_store w))) w.
Lemma transaction_ok {A} (t : Tx A) w a d :
  t (pg_now w) (tables (w_store w)) = Ok (a, d) → transaction t w = (Ok a, set_tables d w).
Proof. unfold transaction, pg_now. by intros ->. Qed.
Lemma transaction_err {A} (t : Tx A) w e :
  t (pg_now w) (tables (w_store w)) = Err e → transaction t w = (Err e, w).
Proof. unfold transaction, pg_now. by intros ->. Qed.

(** The entries as the statements write them: plain keys, then dotted ones. *)
Definition sql_entries (l : list (string * Val)) : list (string * Val) :=
  prod_map id stored_val <$> (plain_keys l ++ dotted_keys l).
Lemma plain_keys_single l : Forall (λ kv, single kv.1 = true) (plain_keys l).
Proof. apply Forall_forall. intros kv Hk. by apply list_elem_of_filter in Hk as [? _]. Qed.
Lemma updatable_entries merge :
  updatable merge →
  Forall (λ kv, forallb text_ok (key_path kv.1) = true ∧ storable kv.2) (range_map merge).
Proof.
  intros Hu. apply Forall_forall. intros [k v] Hin. rewrite (range_map_perm merge) in Hin.
  apply elem_of_map_to_list in Hin. by apply Hu.
Qed.
Lemma flat_map_empty l : plain_keys l ≠ [] → flat_map_of (plain_keys l) ∅ ≠ ∅.
Proof.
  destruct (plain_keys l) as [|[k v] l'] eqn:E; [done|]. intros _. clear E.
  assert (∀ l (t : Vars), t ≠ ∅ → flat_map_of l t ≠ ∅) as Hne.
  { clear. intros l. induction l as [|[k v] l IH]; intros t Ht; [done|]. apply IH.
    apply insert_non_empty. }
  unfold flat_map_of; simpl. apply (Hne l'). apply insert_non_empty.
Qed.

Lemma update_variables_ok runID merge now d r :
  saga_runs d !! runID = Some r → updatable merge → merge ≠ ∅ →
  update_variables_tx runID merge now d =
  Ok (tt, with_runs (<[runID := touch_row now
            (set_vars (merge_entries (sql_entries (range_map merge))) r)]> (saga_runs d)) d).
Proof.
  intros Hr Hu Hne. unfold update_variables_tx. rewrite split_merge_parts.
  pose proof (updatable_entries _ Hu) as Hl. set (l := range_map merge) in *.
  assert (l ≠ []) as Hl0.
  { subst l. intros E. apply Hne. apply map_to_list_empty_iff.
    apply Permutation_nil. by rewrite <- (range_map_perm merge), E. }
  assert (Forall (λ '(parts, v), forallb text_ok parts = true ∧ storable v)
            (prod_map key_path id <$> dotted_keys l)) as Hd.
  { apply Forall_fmap, Forall_forall. intros [k v] Hk. apply list_elem_of_filter in Hk as [_ Hk].
    rewrite Forall_forall in Hl. exact (Hl _ Hk). }
  unfold tx_bind, locked_run, row_of, select. rewrite Hr.
  unfold sql_entries. rewrite fmap_app. unfold merge_entries at 1. 
  case_decide as Hflat.
  - assert (plain_keys l = []) as Ep.
    { destruct (plain_keys l) eqn:E; [done|]. exfalso. apply (flat_map_empty l); by rewrite E. }
    unfold tx_ret. rewrite (write_dotted_run _ _ _ _ r Hd Hr).
    + rewrite Ep; simpl. do 5 f_equal. unfold set_vars. f_equal. apply write_all_merge.
    + left. intros E%fmap_nil_inv. apply Hl0. unfold dotted_keys, plain_keys in *.
      clear -Ep E. induction l as [|[k v] l IH]; [done|]. rewrite filter_cons in Ep, E; simpl in *.
      by destruct (single k).
  - destruct (json_vars_storable (flat_map_of (plain_keys l) ∅)) as (j & Ej & Hj & Es).
    { apply flat_map_storable; [|apply plain_keys_single|apply map_Forall_empty].
      apply Forall_forall. intros kv [_ Hk]%list_elem_of_filter. rewrite Forall_forall in Hl. auto. }
    rewrite Ej. unfold wrapping. rewrite (update_run_found _ _ _ _ _ _ r); [|by simpl in *; rewrite Hj|done..].
    simpl. unfold tx_ret.
    erewrite write_dotted_run; [|exact Hd|apply lookup_insert_eq|by right]. simpl.
    rewrite insert_insert_eq. do 4 f_equal. unfold touch_row, set_vars.
    unfold set_run_Variables, set_run_LastEventAt; simpl. f_equal.
    rewrite write_all_merge, Es, flat_map_fmap, fmap_empty, <- flat_map_union, (left_id_L ∅ (∪)).
    rewrite fold_left_app. unfold merge_entries. f_equal. apply flat_map_merge.
    apply Forall_fmap. eapply Forall_impl; [apply plain_keys_single|done].
Qed.

Lemma sql_entries_perm l : sql_entries l ≡ₚ prod_map id stored_val <$> l.
Proof.
  unfold sql_entries. apply fmap_Permutation. unfold plain_keys, dotted_keys.
  induction l as [|kv l IH]; [done|]. rewrite !filter_cons.
  destruct (single kv.1); simpl; [by constructor|]. rewrite <- Permutation_middle. by constructor.
Qed.
Lemma indep_batch_fmap (f : Val → Val) l : indep_batch l → indep_batch (prod_map id f <$> l).
Proof.
  induction 1 as [|k v l Hk Hl IH]; [constructor|]. rewrite fmap_cons. constructor; [|done].
  apply Forall_fmap. eapply Forall_impl; [exact Hk|done].
Qed.
(** C15: The SQL statements of [UpdateRunVariables] write the dotted-key merge.  On a stored
    run, and with keys and values the server takes, the call succeeds and changes nothing
    of the run but its variables and its stamp.  When the keys are independent the variables
    are the ones the in-memory store computes, whatever the order either store visits the
    map in.  When a plain key and dotted keys below it meet, the dotted writes win: each is
    read back. *)
Theorem sql_merge_is_dotted_merge runID merge w r :
  pg_runs w !! runID = Some r → updatable merge → merge ≠ ∅ →
  ∃ vars w', pg_UpdateRunVariables runID merge w = (Ok tt, w') ∧
    (pg_GetRun runID w').1 = Ok (set_run_LastEventAt (pg_now w) (set_run_Variables vars r)) ∧
    (indep_batch (map_to_list merge) →
     vars = merge_entries (range_map (stored_val <$> merge)) (run_Variables r)) ∧
    (indep_batch (dotted_keys (map_to_list merge)) →
     ∀ k v, merge !! k = Some v → single k = false → get_dotted vars k = Some (stored_val v)).
Proof.
  intros Hr Hu Hne. set (l := range_map merge).
  assert (l ≡ₚ map_to_list merge) as Hl by apply range_map_perm.
  exists (merge_entries (sql_entries l) (run_Variables r)). eexists. split_and!.
  - unfold pg_UpdateRunVariables. rewrite decide_False by done.
    apply transaction_ok, update_variables_ok; done.
  - unfold pg_GetRun. erewrite transaction_ok; [done|].
    unfold row_of, select; simpl. by rewrite lookup_insert_eq.
  - intros Hi. apply merge_entries_perm; [|].
    + rewrite sql_entries_perm, Hl, range_map_perm. by rewrite map_to_list_fmap.
    + eapply indep_batch_perm; [symmetry; apply sql_entries_perm|]. apply indep_batch_fmap.
      by eapply indep_batch_perm.
  - intros Hi k v Hk Hs. unfold sql_entries. rewrite fmap_app. unfold merge_entries.
    rewrite fold_left_app. apply get_merge_entries_in.
    + apply indep_batch_fmap. eapply indep_batch_perm; [|exact Hi]. unfold dotted_keys. by rewrite Hl.
    + apply list_elem_of_fmap. exists (k, v). split; [done|]. apply list_elem_of_filter.
      split; [done|]. rewrite Hl. by apply elem_of_map_to_list.
Qed.
End Vars.
