(* ===== verification/PgRows.v ===== *)
(** The PostgreSQL store moves the run rows as the in-memory store does: a simulation
    between the two, up to the stamps and to what the column types keep. *)
From S2P Require Import Prelude Values Domain World Demo StoreApi Rows StoreSpec MemStore MemInv.
From S2P Require Import MemRows Json JsonProps PgSchema Pg PgData PgVars.

Section PgRows.
Context `{EnvLaws} `{JsonEnv} `{PgEnv}.
Implicit Types w : World Postgres.

(** ** The operations on the database *)

(** A call, and whether it was accepted. *)
Definition accepted {A} (c : M (World Postgres) (res A)) : M (World Postgres) bool :=
  let* r := c in ret (is_Ok r).
Definition pg_do (op : mem_op) : M (World Postgres) bool :=
  match op with
  | OpUpsertDefinition d => accepted (pg_UpsertWorkflowDefinition d)
  | OpCreateRun r => accepted (pg_CreateRun r)
  | OpUpdateRunState id st cs => accepted (pg_UpdateRunState id st cs)
  | OpAppendEvent e => accepted (pg_AppendEvent e)
  | OpCancel id reason => accepted (pg_Cancel id reason)
  | OpMarkRunFailed id cs e => accepted (pg_MarkRunFailed id cs e)
  | OpUpsertRule r => accepted (pg_UpsertRuleDefinition r)
  | OpUpdateVariables id m => accepted (pg_UpdateRunVariables id m)
  | OpPauseWakeup id t => accepted (pg_SetPausedWithWakeup id t)
  | OpPauseSignal id n d => accepted (pg_SetPausedAwaitingSignal id n d)
  | OpPauseEvent id t h d => accepted (pg_SetPausedAwaitingEventWithDeadline id t h d)
  | OpClearPause id => accepted (pg_ClearPause id)
  | OpConsumeSignal id n => accepted (pg_TryConsumeAwaitedSignal id n)
  | OpWake id => accepted (pg_WakeFromExternal id)
  | OpAppendSignal sg => accepted (pg_AppendSignal sg)
  | OpSpawn id sid k d i s => accepted (pg_SpawnChildRunAt id sid k d i s)
  | OpPush id f => accepted (pg_PushTryCatch id f)
  | OpPop id => accepted (pg_PopTryCatch id)
  | OpCreateTask t => accepted (pg_CreateUserTask t)
  | OpSubmitTask id b r => accepted (pg_SubmitUserTask id b r)
  | OpUpsertAction a => accepted (pg_UpsertActionRegistration a)
  | OpMarkAwaiting id d a => accepted (pg_MarkAwaitingAction id d a)
  | OpCompleteAction id a r => accepted (pg_CompleteAction id a r)
  | OpFailAction id a c m r => accepted (pg_FailAction id a c m r)
  | OpUpsertTrigger t => accepted (pg_UpsertTrigger t)
  | OpDeleteTrigger id => accepted (pg_DeleteTrigger id)
  | OpClaimCron id e n => accepted (pg_ClaimCronFire id e n)
  | OpRecordFire id wf r e => accepted (pg_RecordTriggerFire id wf r e)
  end.

(** ** What a transaction does to the tables *)

(** Every computation of the store is transactions and draws of ids and times: [P] holds of
    the tables before and after. *)
Definition relates {A} (P : Z → Tables → Tables → Prop) (c : M (World Postgres) (res A)) : Prop :=
  ∀ w, w_now (c w).2 = w_now w ∧ clock_skew (w_store (c w).2) = clock_skew (w_store w) ∧
       P (pg_now w) (tables (w_store w)) (tables (w_store (c w).2)).
Definition tx_relates {A} (P : Z → Tables → Tables → Prop) (t : Tx A) : Prop :=
  ∀ now d a d', t now d = Ok (a, d') → P now d d'.

Section Relates.
Context (P : Z → Tables → Tables → Prop) (HP : ∀ now d, P now d d).

Lemma relates_ret {A} (r : res A) : relates P (ret r).
Proof. done. Qed.
Lemma relates_transaction {A} (t : Tx A) : tx_relates P t → relates P (transaction t).
Proof.
  intros Ht w. unfold transaction. fold (pg_now w).
  destruct (t _ _) as [[a d]|e] eqn:E; simpl; [|done]. split_and!; [done..|]. by eapply Ht.
Qed.
Lemma relates_uuid {A} (f : uuid → M (World Postgres) (res A)) :
  (∀ u, relates P (f u)) → relates P (bind uuidNew f).
Proof.
  intros Hf w. unfold bind, uuidNew. exact (Hf _ (mkWorld _ _ _ _ _ _ _)).
Qed.
Lemma relates_now {A} (f : Z → M (World Postgres) (res A)) :
  (∀ t, relates P (f t)) → relates P (bind timeNow f).
Proof. intros Hf w. exact (Hf _ w). Qed.
Lemma relates_bind_ret {A B} (b : B) (f : B → M (World Postgres) (res A)) :
  relates P (f b) → relates P (bind (ret b) f).
Proof. done. Qed.
Lemma relates_try {A B} (c : M (World Postgres) (res A)) f
    (k : A → M (World Postgres) (res B)) :
  (∀ now d1 d2 d3, P now d1 d2 → P now d2 d3 → P now d1 d3) →
  relates P c → (∀ a, relates P (k a)) → relates P (try* x := c else f in k x).
Proof.
  intros Htr Hc Hk w. destruct (Hc w) as (En & Es & Hp). unfold bind.
  destruct (c w) as [[a|e] w']; simpl in *; [|done]. destruct (Hk a w') as (En' & Es' & Hp').
  split_and!; [congruence..|]. eapply Htr; [exact Hp|].
  assert (pg_now w' = pg_now w) as <- by (unfold pg_now; by rewrite En, Es). done.
Qed.
End Relates.

(** ** The run rows *)

(** What an accepted operation makes of the row of its run. *)
Definition pg_row (now : Z) (op : mem_op) (r : SagaRun) : SagaRun :=
  match op with
  | OpUpdateRunState _ st cs =>
      let r := touch_row now (row_UpdateRunState st cs r) in
      if IsTerminal st then set_run_TerminalAt (Some now) r else r
  | OpCancel _ reason => if IsTerminal (run_State r) then r else cancel_run_row reason now r
  | OpMarkRunFailed _ cs e =>
      if IsTerminal (run_State r) then r
      else coalesce_error e (touch_row now (set_run_TerminalAt (Some now)
             (set_run_CurrentStep cs (set_run_State RunStateFailed r))))
  | OpUpdateVariables _ m =>
      if decide (m = ∅) then r
      else touch_row now (set_vars (merge_entries (sql_entries (range_map m))) r)
  | OpPauseWakeup _ t =>
      touch_row now (set_run_WakeupAt (Some (us t)) (set_run_State RunStatePaused r))
  | OpPauseSignal _ n d =>
      touch_row now (set_run_WakeupAt (us <$> d)
        (set_run_AwaitedSignal (Some n) (set_run_State RunStatePaused r)))
  | OpPauseEvent _ t h d => touch_row now (row_SetPausedAwaitingEvent t h (us <$> d) r)
  | OpClearPause _ => touch_row now (row_ClearPause r)
  | OpConsumeSignal _ n =>
      if decide (run_State r = RunStatePaused ∧ run_AwaitedSignal r = Some n)
      then touch_row now (row_clear_awaits r) else r
  | OpWake _ => touch_row now (row_clear_awaits r)
  | OpPush _ f => touch_row now (set_run_TryCatchStack (run_TryCatchStack r ++ [f]) r)
  | OpPop _ =>
      if decide (run_TryCatchStack r = []) then r
      else touch_row now (set_run_TryCatchStack
             (take (pred (length (run_TryCatchStack r))) (run_TryCatchStack r)) r)
  | OpMarkAwaiting _ d a =>
      if is_true (mark_where d a r) then
        touch_row now (set_run_CurrentAttempt a
          (set_run_AwaitedActionDispatch (Some d) (set_run_State RunStatePaused r)))
      else r
  | OpCompleteAction _ a result =>
      if decide (run_CurrentAttempt r ≠ a) then r
      else complete_run_row now (set_vars (λ t, jsonb_vars (default ∅ (json_vars result)) ∪ t) r)
  | OpFailAction _ a _ msg _ =>
      if decide (run_CurrentAttempt r ≠ a) then r else fail_run_row msg now r
  | _ => r
  end.

Lemma accepted_transaction {A} (t : Tx A) w :
  (accepted (transaction t) w).1 = true →
  ∃ a d, t (pg_now w) (tables (w_store w)) = Ok (a, d) ∧ (accepted (transaction t) w).2 = set_tables d w.
Proof.
  unfold accepted, transaction, bind, ret. fold (pg_now w).
  destruct (t _ _) as [[a d]|e]; simpl; [|done]. intros _. by exists a, d.
Qed.

Lemma insert_event_runs b e now d u d' :
  insert_event b e now d = Ok (u, d') → saga_runs d' = saga_runs d.
Proof. unfold insert_event. intros. by cases. Qed.
Lemma engine_event_runs evid id st a ty m now d u d' :
  engine_event evid id st a ty m now d = Ok (u, d') → saga_runs d' = saga_runs d.
Proof.
  unfold engine_event, sql, tx_bind, now_. case_match; [|done]. apply insert_event_runs.
Qed.

(** *** Inversion of a transaction that succeeded *)
Lemma tx_bind_inv {A B} (c : Tx A) (f : A → Tx B) now d b d' :
  tx_bind c f now d = Ok (b, d') → ∃ a d1, c now d = Ok (a, d1) ∧ f a now d1 = Ok (b, d').
Proof. unfold tx_bind. destruct (c now d) as [[a d1]|]; [|done]. eauto. Qed.
(** Not [injection], which would unfold the tables. *)
Lemma ok_inv {A B} (a a' : A) (b b' : B) : Ok (a, b) = Ok (a', b') → a = a' ∧ b = b'.
Proof. by intros [= -> ->]. Qed.
Lemma insert_row_inv {A} p id (x : A) t t' :
  insert_row p id x t = Ok t' → t !! id = None ∧ t' = <[id := x]> t.
Proof. unfold insert_row. destruct (t !! id); [done|]. by intros [= <-]. Qed.
Lemma wrapping_inv {A} p (c : Tx A) now d x : wrapping p c now d = Ok x → c now d = Ok x.
Proof. unfold wrapping. by destruct (c now d). Qed.
Lemma sql_inv {A} args (c : Tx A) now d x :
  sql args c now d = Ok x → forallb arg_ok args = true ∧ c now d = Ok x.
Proof. unfold sql. by destruct (forallb arg_ok args). Qed.
Lemma select_inv {A} (f : Tables → res A) now d a d' :
  select f now d = Ok (a, d') → f d = Ok a ∧ d' = d.
Proof. unfold select. destruct (f d); [|done]. by intros [= -> ->]. Qed.
Lemma update_run_inv args id c set now d n d' :
  update_run args id c set now d = Ok (n, d') →
  d' = with_runs (alter (λ r, if is_true (c r) then set now r else r) id (saga_runs d)) d ∧
  n = default false (is_true ∘ c <$> saga_runs d !! id).
Proof.
  unfold update_run. intros [_ E]%sql_inv. destruct (saga_runs d !! id) as [r|] eqn:Hr.
  - rewrite (alter_insert_lookup _ _ _ _ Hr). simpl in *. destruct (is_true (c r)); simplify_eq/=; [done|].
    rewrite insert_id by done. by destruct d'.
  - rewrite alter_id_None by done. simplify_eq/=. by destruct d'.
Qed.
Lemma row_of_inv {A} e (t : Tables → gmap uuid A) id now d a d' :
  row_of e t id now d = Ok (a, d') → t d !! id = Some a ∧ d' = d.
Proof.
  unfold row_of. intros [E ->]%select_inv. split; [|done]. destruct (t d !! id); by simplify_eq.
Qed.
End PgRows.

Ltac tx_inv :=
  repeat match goal with
    | E : tx_bind _ _ _ _ = Ok _ |- _ =>
        let a := fresh "a" in let d := fresh "d" in let E1 := fresh "E" in
        apply tx_bind_inv in E as (a & d & E1 & E)
    | E : wrapping _ _ _ _ = Ok _ |- _ => apply wrapping_inv in E
    | E : sql _ _ _ _ = Ok _ |- _ => let Ha := fresh "Ha" in apply sql_inv in E as [Ha E]
    | E : update_run _ _ _ _ _ _ = Ok _ |- _ =>
        let E1 := fresh "E" in apply update_run_inv in E as [-> E1]
    | E : row_of _ _ _ _ _ = Ok _ |- _ =>
        let Hl := fresh "Hl" in apply row_of_inv in E as [Hl ->]
    | E : locked_run _ _ _ = Ok _ |- _ => unfold locked_run in E
    | E : set_stack _ _ _ _ _ = Ok _ |- _ => unfold set_stack in E
    | E : missing_or_skipped _ _ _ _ = Ok _ |- _ => unfold missing_or_skipped, run_exists in E
    | E : notFoundUnlessRunExists _ _ _ _ = Ok _ |- _ => unfold notFoundUnlessRunExists in E
    | E : affected_or_missing _ _ _ _ = Ok _ |- _ => unfold affected_or_missing in E
    | E : sql_query _ _ _ = Ok _ |- _ => unfold sql_query in E
    | E : now_ _ _ = Ok _ |- _ => unfold now_ in E
    | E : alone _ _ _ = Ok _ |- _ =>
        unfold alone, consume_program, clear_and_consume, consume_signals, paused_row in E; cbn [alone_from] in E
    | E : alone_from _ (match ?x with _ => _ end) _ _ = Ok _ |- _ =>
        destruct x; cbn [alone_from] in E
    | E : tx_ret _ _ _ = Ok _ |- _ => unfold tx_ret in E
    | E : tx_err _ _ _ = Ok _ |- _ => done
    | E : Ok (_, _) = Ok (_, _) |- _ =>
        let Ea := fresh "Ea" in let Ed := fresh "Ed" in apply ok_inv in E as [Ea Ed]; subst
    | E : (match ?x with _ => _ end) _ _ = Ok _ |- _ =>
        match type of x with {_} + {_} => destruct x | _ => destruct x eqn:? end
    end.

Section PgRows.
Context `{EnvLaws} `{JsonEnv} `{PgEnv}.
Implicit Types w : World Postgres.

Lemma alter_ext_at {A} (f g : A → A) (id : uuid) (m : gmap uuid A) :
  (∀ r, m !! id = Some r → f r = g r) → alter f id m = alter g id m.
Proof.
  intros Hfg. destruct (m !! id) as [r|] eqn:Hr; [|by rewrite !alter_id_None].
  rewrite !(alter_insert_lookup _ _ _ _ Hr). by rewrite (Hfg r eq_refl).
Qed.

Lemma exec_update_row p args id set w :
  (accepted (exec_update p args id set) w).1 = true →
  pg_runs (accepted (exec_update p args id set) w).2 = alter (set (pg_now w)) id (pg_runs w).
Proof.
  unfold exec_update. intros (a & d & E & ->)%accepted_transaction. tx_inv. done.
Qed.

Lemma cancel_row_pg evid id reason w :
  (accepted (transaction (cancel_transaction evid id reason)) w).1 = true →
  pg_runs (accepted (transaction (cancel_transaction evid id reason)) w).2 =
  alter (pg_row (pg_now w) (OpCancel id reason)) id (pg_runs w).
Proof.
  intros (a & d & E & ->)%accepted_transaction. unfold cancel_transaction in E. tx_inv.
  - apply engine_event_runs in E. unfold pg_runs; simpl. rewrite E; simpl. apply alter_ext_at. intros r Hr.
    simpl. by destruct (IsTerminal _).
  - unfold pg_runs; simpl. apply alter_ext_at. intros r Hr. simpl. by destruct (IsTerminal _).
Qed.

(** The conditions under which the variables are written as the in-memory store writes
    them; other operations have none here. *)
Definition op_updatable (op : mem_op) : Prop :=
  match op with OpUpdateVariables _ m => updatable m | _ => True end.

(** The row after an accepted transaction, for the row [r] it finds. *)
Ltac tx_row :=
  let a := fresh "a" in let d := fresh "d" in let E := fresh "E" in
  intros (a & d & E & ->)%accepted_transaction; tx_inv; unfold pg_runs; simpl; try done;
  try (apply alter_ext_at; intros r Hr; simpl).

Lemma update_state_row_pg id st cs w :
  (accepted (pg_UpdateRunState id st cs) w).1 = true →
  pg_runs (accepted (pg_UpdateRunState id st cs) w).2 =
  alter (pg_row (pg_now w) (OpUpdateRunState id st cs)) id (pg_runs w).
Proof. unfold pg_UpdateRunState. by tx_row. Qed.
Lemma mark_failed_row_pg id cs e w :
  (accepted (pg_MarkRunFailed id cs e) w).1 = true →
  pg_runs (accepted (pg_MarkRunFailed id cs e) w).2 =
  alter (pg_row (pg_now w) (OpMarkRunFailed id cs e)) id (pg_runs w).
Proof. unfold pg_MarkRunFailed. tx_row; destruct (IsTerminal _); reflexivity. Qed.
Lemma update_vars_row_pg id m w :
  updatable m → (accepted (pg_UpdateRunVariables id m) w).1 = true →
  pg_runs (accepted (pg_UpdateRunVariables id m) w).2 =
  alter (pg_row (pg_now w) (OpUpdateVariables id m)) id (pg_runs w).
Proof.
  intros Hu. unfold pg_UpdateRunVariables; simpl. case_decide as Hm.
  - intros _. unfold accepted, bind, ret; simpl. symmetry. apply alter_id. intros r _; simpl.
    by rewrite decide_True.
  - intros (a & d & E & ->)%accepted_transaction.
    destruct (pg_runs w !! id) as [r|] eqn:Hr.
    + rewrite (update_variables_ok _ _ _ _ _ Hr Hu Hm) in E. simplify_eq.
      unfold pg_runs in *; simpl. rewrite (alter_insert_lookup _ _ _ _ Hr); simpl.
      by rewrite decide_False.
    + exfalso. unfold update_variables_tx in E. destruct (split_merge _).
      tx_inv; unfold pg_runs in Hr; congruence.
Qed.
Lemma push_row_pg id f w :
  (accepted (pg_PushTryCatch id f) w).1 = true →
  pg_runs (accepted (pg_PushTryCatch id f) w).2 =
  alter (pg_row (pg_now w) (OpPush id f)) id (pg_runs w).
Proof. unfold pg_PushTryCatch. tx_row. unfold pg_runs in *. by simplify_eq. Qed.
Lemma pop_row_pg id w :
  (accepted (pg_PopTryCatch id) w).1 = true →
  pg_runs (accepted (pg_PopTryCatch id) w).2 =
  alter (pg_row (pg_now w) (OpPop id)) id (pg_runs w).
Proof.
  unfold pg_PopTryCatch. tx_row; unfold pg_runs in *; simplify_eq.
  - rewrite decide_False; [done|]. intros E. by rewrite E in *.
  - symmetry. apply alter_id. intros r Hr. simplify_eq; simpl. rewrite decide_True; [done|].
    by apply last_None.
Qed.
Lemma consume_signal_row_pg id n w :
  (accepted (pg_TryConsumeAwaitedSignal id n) w).1 = true →
  pg_runs (accepted (pg_TryConsumeAwaitedSignal id n) w).2 =
  alter (pg_row (pg_now w) (OpConsumeSignal id n)) id (pg_runs w).
Proof.
  unfold pg_TryConsumeAwaitedSignal, consume_transaction. tx_row; unfold pg_runs in *.
  - rewrite Hr in Ea. case_decide; simplify_eq/=. by rewrite decide_True.
  - symmetry. apply alter_id. intros r Hr. simpl. case_decide as Hs; [|done].
    destruct Hs as [Hs Ha]. rewrite Hr, decide_True in n0 by done. simpl in n0. by rewrite Ha in n0.
Qed.
Lemma mark_row_pg id d a w :
  (accepted (pg_MarkAwaitingAction id d a) w).1 = true →
  pg_runs (accepted (pg_MarkAwaitingAction id d a) w).2 =
  alter (pg_row (pg_now w) (OpMarkAwaiting id d a)) id (pg_runs w).
Proof. unfold pg_MarkAwaitingAction. by tx_row. Qed.
Lemma complete_row_pg id a result w :
  (accepted (pg_CompleteAction id a result) w).1 = true →
  pg_runs (accepted (pg_CompleteAction id a result) w).2 =
  alter (pg_row (pg_now w) (OpCompleteAction id a result)) id (pg_runs w).
Proof.
  assert (∀ r x y, (if bool_decide (run_CurrentAttempt r = a) then x else y) =
                   if decide (run_CurrentAttempt r ≠ a) then y else x : SagaRun) as Hd.
  { intros r x y. case_decide as Ha; [by rewrite bool_decide_false|].
    by rewrite bool_decide_true. }
  unfold pg_CompleteAction. case_decide as He.
  - assert (json_vars ∅ = Some ∅) as Hj.
    { apply json_vars_spec. intros k. by rewrite !lookup_empty. }
    tx_row; rewrite Hd; case_decide; try done; subst; rewrite Hj; simpl;
      unfold jsonb_vars, set_vars; rewrite fmap_empty, (left_id_L ∅ (∪)); by destruct r.
  - destruct (json_vars result) as [j|] eqn:Ej; [|done].
    tx_row; by rewrite Hd, Ej.
Qed.
Lemma fail_row_pg evid id a code msg retryable w :
  (accepted (transaction (fail_transaction evid id a code msg retryable)) w).1 = true →
  pg_runs (accepted (transaction (fail_transaction evid id a code msg retryable)) w).2 =
  alter (pg_row (pg_now w) (OpFailAction id a code msg retryable)) id (pg_runs w).
Proof.
  unfold fail_transaction. tx_row.
  - symmetry. apply alter_id. intros r Hr. unfold pg_runs in *. simplify_eq; simpl.
    by rewrite decide_True.
  - apply engine_event_runs in E. rewrite E; simpl. unfold pg_runs. apply alter_ext_at.
    intros r Hr. simplify_eq; simpl. by rewrite decide_False.
Qed.

(** An accepted operation on a run rewrites its row by [pg_row] and leaves the others. *)
Lemma pg_op_row op id w :
  op_run op = Some id → op_updatable op → (pg_do op w).1 = true →
  pg_runs (pg_do op w).2 = alter (pg_row (pg_now w) op) id (pg_runs w).
Proof.
  destruct op; intros [= <-] Hu; cbn [pg_do].
  - apply update_state_row_pg.
  - exact (cancel_row_pg _ _ _ (mkWorld _ _ _ _ _ _ _)).
  - apply mark_failed_row_pg.
  - by apply update_vars_row_pg.
  - apply exec_update_row.
  - apply exec_update_row.
  - apply exec_update_row.
  - unfold pg_ClearPause. by tx_row.
  - apply consume_signal_row_pg.
  - unfold pg_WakeFromExternal. by tx_row.
  - apply push_row_pg.
  - apply pop_row_pg.
  - apply mark_row_pg.
  - apply complete_row_pg.
  - exact (fail_row_pg _ _ _ _ _ _ (mkWorld _ _ _ _ _ _ _)).
Qed.

(** ** Operations that leave the runs alone *)
Definition same_runs (_ : Z) (d d' : Tables) : Prop := saga_runs d' = saga_runs d.

Lemma relates_accepted {A} P (c : M (World Postgres) (res A)) w :
  relates P c → P (pg_now w) (tables (w_store w)) (tables (w_store (accepted c w).2)).
Proof.
  intros Hc. destruct (Hc w) as (_ & _ & HP). unfold accepted, bind. by destruct (c w).
Qed.
End PgRows.

(** Down to the transactions of a call. *)
Ltac relates :=
  repeat match goal with
    | |- relates _ (ret _) => by apply relates_ret
    | |- relates _ (transaction _) => apply relates_transaction; [done|]
    | |- relates _ (bind uuidNew _) => apply relates_uuid; intros
    | |- relates _ (bind timeNow _) => apply relates_now; intros
    | |- relates _ (bind (if _ then uuidNew else ret _) _) => case_decide
    | |- relates _ (bind (ret _) _) => apply relates_bind_ret
    | |- relates _ (bind _ (λ _, match _ with Ok _ => _ | Err _ => ret (Err _) end)) =>
        apply relates_try; [| |intros]
    | |- relates _ (match ?x with _ => _ end) => destruct x eqn:?
    end.
Ltac unfold_pg :=
  unfold pg_UpsertWorkflowDefinition, pg_CreateRun, pg_UpdateRunState, pg_AppendEvent, pg_Cancel,
    pg_MarkRunFailed, pg_UpsertRuleDefinition, pg_UpdateRunVariables, pg_SetPausedWithWakeup,
    pg_SetPausedAwaitingSignal, pg_SetPausedAwaitingEventWithDeadline, pg_ClearPause,
    pg_TryConsumeAwaitedSignal, pg_WakeFromExternal, pg_AppendSignal, pg_SpawnChildRunAt,
    pg_PushTryCatch, pg_PopTryCatch, pg_CreateUserTask, pg_SubmitUserTask,
    pg_UpsertActionRegistration, pg_MarkAwaitingAction, pg_CompleteAction, pg_FailAction,
    pg_UpsertTrigger, pg_DeleteTrigger, pg_ClaimCronFire, pg_RecordTriggerFire, exec_update,
    pg_CreateRun.
Ltac start_tx := intros ? ? ? ? ?; tx_inv.

Section PgRows.
Context `{EnvLaws} `{JsonEnv} `{PgEnv}.
Implicit Types w : World Postgres.

Lemma op_same_runs op w :
  no_row op = true → pg_runs (pg_do op w).2 = pg_runs w.
Proof.
  assert (∀ now d, same_runs now d d) as Hs by done.
  intros Hop. destruct op; try done; cbn [pg_do];
    match goal with |- pg_runs (accepted ?c w).2 = _ =>
      cut (relates same_runs c); [exact (relates_accepted same_runs c w)|] end.
  all: unfold_pg.
  all: relates; start_tx; try by eapply insert_event_runs.
  all: unfold upsert_def_row, upsert_rule_row, upsert_action_row, upsert_trigger_row, same_runs in *.
  all: by cases.
Qed.

(** ** Values *)

(** The values JSON has, within its range. *)
Fixpoint json_like (v : Val) : bool :=
  match v with
  | VNil | VBool _ => true
  | VStr s => nul_free s
  | VInt z => bool_decide (in_int64 z) && is_finite (f_of_Z z)
  | VFloat f => is_finite f
  | VList l => forallb json_like l
  | VMap m => map_fold (λ k v b, nul_free k && json_like v && b) true m
  | _ => false
  end.
Lemma json_like_map m :
  json_like (VMap m) = true ↔ map_Forall (λ k v, nul_free k = true ∧ json_like v = true) m.
Proof.
  simpl. induction m as [|k v m E IH] using map_ind.
  { rewrite map_fold_empty. split; [intros _; apply map_Forall_empty|done]. }
  rewrite map_fold_insert_L;
    [|intros; by destruct (nul_free _), (json_like _), (nul_free _), (json_like _)|done].
  rewrite !andb_true_iff, IH, map_Forall_insert by done. done.
Qed.

Context `{!JsonLaws}.
(** Such a value is stored, and read back with its numbers as floats. *)
Definition stores_as (v : Val) : Prop :=
  ∃ v', json_val v = Some v' ∧ jsonb_ok v' = true ∧ jsonb_norm v' = jsonb_norm v.
Lemma stores_float f : is_finite f = true → stores_as (VFloat f).
Proof.
  intros Hf. unfold stores_as, json_val; simpl. rewrite Hf. destruct (decide_zero f) as [[b ->]|Hb%float_lit_back].
  { rewrite float_lit_zero. by eexists. }
  destruct (float_lit f) as [| |z|g| | |]; try done; simpl.
  - case_decide.
    + eexists. split; [done|]. simpl. by rewrite Hb.
    + rewrite Hb. exists (VFloat f). by destruct f.
  - subst. by eexists.
Qed.
Lemma json_vars_stores m :
  map_Forall (λ k v, nul_free k = true ∧ stores_as v) m →
  ∃ j, json_vars m = Some j ∧ jsonb_ok (VMap j) = true ∧ jsonb_vars j = jsonb_vars m.
Proof.
  intros Hm. destruct (json_vars_storable m) as (j & Ej & Hj & Es).
  { eapply map_Forall_impl; [exact Hm|]. intros k v [Hk (v' & Ev & Hv & _)]. split; [done|].
    by exists v'. }
  exists j. split_and!; [done..|]. rewrite Es. unfold jsonb_vars. apply map_fmap_ext.
  intros k v Hk. destruct (Hm _ _ Hk) as [_ (v' & Ev & _ & En)]. unfold stored_val. by rewrite Ev.
Qed.
Lemma json_list_stores l :
  (∀ v, v ∈ l → stores_as v) →
  ∃ l', mapM json_val l = Some l' ∧ forallb jsonb_ok l' = true ∧ jsonb_norm <$> l' = jsonb_norm <$> l.
Proof.
  induction l as [|v l IH]; intros Hl; [by exists []|].
  destruct (Hl v) as (v' & Ev & Hv & En); [by left|].
  destruct IH as (l' & El & Hl' & Enl); [intros; apply Hl; by right|].
  exists (v' :: l'). split_and!.
  - simpl. rewrite Ev; simpl. by rewrite El.
  - simpl. by rewrite Hv, Hl'.
  - by rewrite !fmap_cons, En, Enl.
Qed.
Lemma json_like_stores v : json_like v = true → stores_as v.
Proof.
  remember (size v) as n eqn:Hn. revert v Hn. induction (lt_wf n) as [n _ IH]. intros v -> Hv.
  destruct v as [|b|z|z|z|z|f|s|l|m|l|m|ty]; try done.
  - by eexists.
  - by eexists.
  - simpl in Hv. apply andb_true_iff in Hv as [Hz%bool_decide_eq_true Hf].
    exists (VInt z). unfold json_val; simpl. by rewrite decide_True.
  - by apply stores_float.
  - exists (VStr s). simpl in *. done.
  - destruct (json_list_stores l) as (l' & El & Hl & En).
    { intros v Hin. eapply IH; [by apply size_list|done|].
      simpl in Hv. rewrite forallb_forall in Hv. by apply Hv, list_elem_of_In. }
    exists (VList l'). rewrite json_val_list, El. simpl. rewrite En. done.
  - destruct (json_vars_stores m) as (j & Ej & Hj & En).
    { apply json_like_map in Hv. intros k v Hk. destruct (Hv _ _ Hk) as [Hnk Hvk].
      split; [done|]. eapply IH; [by eapply size_map|done|done]. }
    exists (VMap j). rewrite json_val_map, Ej. split_and!; [done..|]. simpl. f_equal. exact En.
Qed.
Lemma json_like_vars m :
  json_like (VMap m) = true →
  ∃ j, json_vars m = Some j ∧ jsonb_ok (VMap j) = true ∧ jsonb_vars j = jsonb_vars m.
Proof.
  intros Hm%json_like_map. apply json_vars_stores. eapply map_Forall_impl; [exact Hm|].
  intros k v [? ?%json_like_stores]. done.
Qed.
End PgRows.
