(* ===== verification/PgSim.v ===== *)
(** One history, two stores: the PostgreSQL store against the in-memory store. *)
From S2P Require Import Prelude Values Domain World Demo StoreApi Rows StoreSpec MemStore MemInv.
From S2P Require Import MemRows Json JsonProps PgSchema Pg PgData PgVars PgRows.

(** ** Variables *)
Lemma as_map_norm (v : option Val) : as_map (jsonb_norm <$> v) = jsonb_vars <$> as_map v.
Proof. destruct v as [v|]; [|done]. by destruct v. Qed.
Lemma apply_path_norm parts v t :
  jsonb_vars (apply_path parts v t) = apply_path parts (jsonb_norm v) (jsonb_vars t).
Proof.
  revert t. induction parts as [|p [|q ps] IH]; intros t; [done|apply fmap_insert|].
  rewrite !apply_path_cons. unfold jsonb_vars at 1. rewrite fmap_insert. f_equal.
  change (jsonb_norm (VMap ?m)) with (VMap (jsonb_vars m)). f_equal. rewrite IH. f_equal.
  unfold jsonb_vars at 2. rewrite lookup_fmap, as_map_norm.
  destruct (as_map (t !! p)); simpl; [done|]. by unfold jsonb_vars; rewrite fmap_empty.
Qed.
Lemma merge_entries_norm l t :
  jsonb_vars (merge_entries l t) = merge_entries (prod_map id jsonb_norm <$> l) (jsonb_vars t).
Proof.
  revert t. induction l as [|[k v] l IH]; intros t; [done|]. unfold merge_entries in *; simpl.
  rewrite IH. f_equal. apply apply_path_norm.
Qed.

Section PgSim.
Context `{EnvLaws} `{JsonLaws} `{PgEnv}.
Implicit Types (rp rm : SagaRun).

Lemma stored_val_like v : json_like v = true → stored_val v = jsonb_norm v.
Proof. intros (v' & Ev & _ & En)%json_like_stores. unfold stored_val. by rewrite Ev. Qed.

(** Keys that are texts, values JSON has, and no key below another. *)
Definition fit_merge (m : Vars) : Prop :=
  map_Forall (λ k v, forallb text_ok (key_path k) = true ∧ json_like v = true) m ∧
  indep_batch (map_to_list m).
Lemma fit_updatable m : fit_merge m → updatable m.
Proof.
  intros [Hm _] k v Hk. destruct (Hm _ _ Hk) as [Ht (v' & Ev & Hj & _)%json_like_stores].
  split; [done|]. by exists v'.
Qed.
Lemma sql_merge_norm m t :
  fit_merge m →
  merge_entries (sql_entries (range_map m)) (jsonb_vars t) =
  jsonb_vars (merge_entries (range_map m) t).
Proof.
  intros [Hm Hi]. rewrite merge_entries_norm. apply merge_entries_perm.
  - rewrite sql_entries_perm. apply reflexive_eq, list_fmap_ext. intros i [k v] Hin.
    unfold prod_map; simpl. f_equal. apply stored_val_like. apply list_elem_of_lookup_2 in Hin.
    rewrite range_map_perm in Hin. apply elem_of_map_to_list in Hin. by destruct (Hm _ _ Hin).
  - eapply indep_batch_perm; [symmetry; apply sql_entries_perm|]. apply indep_batch_fmap.
    eapply indep_batch_perm; [|exact Hi]. symmetry. apply range_map_perm.
Qed.

(** ** Rows *)

(** What the columns keep of a row: JSONB of its values, microseconds of its times. *)
Definition stored_row (r : SagaRun) : SagaRun :=
  mkRun (run_ID r) (run_WorkflowID r) (run_DefinitionID r) (run_TenantID r) (run_State r)
    (run_CurrentStep r) (jsonb_vars (run_Inputs r)) (jsonb_vars (run_Variables r))
    (us (run_StartedAt r)) (run_LastEventAt r) (run_TerminalAt r) (run_RequiresManualReview r)
    (run_TriggerID r) (run_ParentRunID r) (run_ParentStepID r) (run_ParentBranchID r)
    (run_TryCatchStack r) (run_DryRun r) (us <$> run_WakeupAt r) (run_AwaitedSignal r)
    (run_AwaitedEventTopic r) (run_AwaitedEventHeaders r) (run_FeatureOverrides r)
    (run_AwaitedActionDispatch r) (run_CurrentAttempt r) (run_LastError r).
(** Without the stamps, which the in-memory store sets at other operations. *)
Definition unstamped (r : SagaRun) : SagaRun :=
  set_run_LastEventAt 0 (set_run_TerminalAt None r).
Definition agree (rp rm : SagaRun) : Prop := unstamped rp = unstamped (stored_row rm).

(** A new run waits for nothing. *)
Definition new_run (r : SagaRun) : Prop :=
  run_WakeupAt r = None ∧ run_AwaitedSignal r = None ∧ run_AwaitedEventTopic r = None ∧
  run_AwaitedEventHeaders r = ∅ ∧ run_AwaitedActionDispatch r = None ∧ run_CurrentAttempt r = 0%Z ∧
  run_LastError r = None.
(** Where the stores differ on a row: a signal wait without a deadline clears the wakeup, an
    action is not awaited again for the current attempt, an empty message clears the last
    error. *)
Definition row_fit (op : mem_op) (rm : SagaRun) : Prop :=
  match op with
  | OpPauseSignal _ _ None => run_WakeupAt rm = None
  | OpMarkAwaiting _ _ a => run_AwaitedActionDispatch rm = None → run_CurrentAttempt rm ≠ a
  | OpFailAction _ a _ msg _ => run_CurrentAttempt rm = a → msg = "" → run_LastError rm = None
  | OpPush _ _ => length (run_TryCatchStack rm) < maxDepth
  | _ => True
  end.
(** The values JSON has; a spawned child gets another id in either store. *)
Definition op_fit (op : mem_op) : Prop :=
  match op with
  | OpCreateRun r =>
      new_run r ∧ json_like (VMap (run_Inputs r)) = true ∧ json_like (VMap (run_Variables r)) = true
  | OpUpdateVariables _ m => fit_merge m
  | OpCompleteAction _ _ result => json_like (VMap result) = true
  | OpSpawn _ _ _ _ _ _ => False
  | _ => True
  end.

(** *** The setters respect the agreement *)
Lemma agree_fields rp rm :
  agree rp rm →
  run_State rp = run_State rm ∧ run_AwaitedSignal rp = run_AwaitedSignal rm ∧
  run_TryCatchStack rp = run_TryCatchStack rm ∧
  run_AwaitedActionDispatch rp = run_AwaitedActionDispatch rm ∧
  run_CurrentAttempt rp = run_CurrentAttempt rm ∧ run_CurrentStep rp = run_CurrentStep rm ∧
  run_Variables rp = jsonb_vars (run_Variables rm) ∧ run_WakeupAt rp = us <$> run_WakeupAt rm ∧
  run_LastError rp = run_LastError rm.
Proof.
  intros Ha. destruct rp, rm. unfold agree, unstamped, stored_row in Ha. injection Ha as.
  subst. done.
Qed.
End PgSim.

Ltac agree_set :=
  intros Ha; match goal with H : agree ?p ?m |- _ => destruct p, m end;
  unfold agree, unstamped, stored_row in *; injection Ha as; subst; reflexivity.

Section PgSim.
Context `{EnvLaws} `{JsonLaws} `{PgEnv}.
Implicit Types (rp rm : SagaRun).

Lemma agree_State x rp rm : agree rp rm → agree (set_run_State x rp) (set_run_State x rm).
Proof. agree_set. Qed.
Lemma agree_CurrentStep x rp rm :
  agree rp rm → agree (set_run_CurrentStep x rp) (set_run_CurrentStep x rm).
Proof. agree_set. Qed.
Lemma agree_Wakeup x rp rm :
  agree rp rm → agree (set_run_WakeupAt (us <$> x) rp) (set_run_WakeupAt x rm).
Proof. agree_set. Qed.
Lemma agree_Signal x rp rm :
  agree rp rm → agree (set_run_AwaitedSignal x rp) (set_run_AwaitedSignal x rm).
Proof. agree_set. Qed.
Lemma agree_Topic x rp rm :
  agree rp rm → agree (set_run_AwaitedEventTopic x rp) (set_run_AwaitedEventTopic x rm).
Proof. agree_set. Qed.
Lemma agree_Headers x rp rm :
  agree rp rm → agree (set_run_AwaitedEventHeaders x rp) (set_run_AwaitedEventHeaders x rm).
Proof. agree_set. Qed.
Lemma agree_Action x rp rm :
  agree rp rm → agree (set_run_AwaitedActionDispatch x rp) (set_run_AwaitedActionDispatch x rm).
Proof. agree_set. Qed.
Lemma agree_Attempt x rp rm :
  agree rp rm → agree (set_run_CurrentAttempt x rp) (set_run_CurrentAttempt x rm).
Proof. agree_set. Qed.
Lemma agree_Error x rp rm : agree rp rm → agree (set_run_LastError x rp) (set_run_LastError x rm).
Proof. agree_set. Qed.
Lemma agree_Stack x rp rm :
  agree rp rm → agree (set_run_TryCatchStack x rp) (set_run_TryCatchStack x rm).
Proof. agree_set. Qed.
Lemma agree_Variables x y rp rm :
  x = jsonb_vars y → agree rp rm → agree (set_run_Variables x rp) (set_run_Variables y rm).
Proof. intros ->. agree_set. Qed.
Lemma agree_clear rp rm : agree rp rm → agree (row_clear_awaits rp) (row_clear_awaits rm).
Proof.
  intros Ha. apply (agree_Wakeup None), agree_Signal, agree_Topic, agree_Headers, Ha.
Qed.
Lemma agree_no_wakeup rp rm :
  run_WakeupAt rm = None → agree rp rm → agree (set_run_WakeupAt None rp) rm.
Proof.
  intros Hw Ha. destruct rp, rm; simpl in Hw; subst. unfold agree, unstamped, stored_row in *.
  injection Ha as; subst. reflexivity.
Qed.
Lemma agree_no_error rp rm :
  run_LastError rm = None → agree rp rm → agree (set_run_LastError None rp) rm.
Proof.
  intros Hw Ha. destruct rp, rm; simpl in Hw; subst. unfold agree, unstamped, stored_row in *.
  injection Ha as; subst. reflexivity.
Qed.
(** The stamps are not compared. *)
Lemma agree_touch now rp rm : agree rp rm → agree (touch_row now rp) rm.
Proof. agree_set. Qed.
Lemma agree_stamp_l t rp rm : agree rp rm → agree (set_run_TerminalAt t rp) rm.
Proof. agree_set. Qed.
Lemma agree_touch_r t rp rm : agree rp rm → agree rp (set_run_LastEventAt t rm).
Proof. agree_set. Qed.
Lemma agree_stamp_r t rp rm : agree rp rm → agree rp (set_run_TerminalAt t rm).
Proof. agree_set. Qed.
End PgSim.
Create HintDb agree.
#[export] Hint Resolve agree_State agree_CurrentStep agree_Wakeup agree_Signal agree_Topic agree_Headers agree_Action agree_Attempt agree_Error agree_Stack agree_clear agree_touch agree_stamp_l agree_touch_r agree_stamp_r : agree.

Section PgSim.
Context `{EnvLaws} `{JsonLaws} `{PgEnv}.
Implicit Types (rp rm : SagaRun).

Lemma row_agrees op id now rp rm :
  op_run op = Some id → op_fit op → row_fit op rm → agree rp rm →
  agree (pg_row (us now) op rp) (op_row now op rm).
Proof.
  intros Hop Hf Hr Ha.
  destruct (agree_fields _ _ Ha) as (Es & En & Ek & Ed & Et & Ec & Ev & Ew & El).
  destruct op; simplify_eq/=; unfold row_UpdateRunState, row_ClearPause, row_SetPausedAwaitingEvent.
  - case_match; eauto with agree.
  - rewrite Es. destruct (IsTerminal _); [done|]. unfold cancel_run_row, row_Cancel, coalesce_error.
    case_decide; eauto 12 with agree.
  - unfold MarkFailed_row, row_MarkRunFailed, coalesce_error. rewrite Es.
    destruct (IsTerminal _); [done|]. case_decide; eauto 12 with agree.
  - case_decide as Hm.
    + subst. assert (range_map (∅ : Vars) = []) as ->; [|by destruct rm].
      apply Permutation_nil. by rewrite range_map_perm.
    + apply agree_touch, agree_Variables; [|done]. rewrite Ev. by apply sql_merge_norm.
  - apply agree_touch. apply (agree_Wakeup (Some t)). eauto with agree.
  - apply agree_touch. unfold row_SetPausedAwaitingSignal. destruct deadline as [d|].
    + apply (agree_Wakeup (Some d)). eauto with agree.
    + apply agree_no_wakeup; [by destruct rm|]. eauto with agree.
  - apply agree_touch, agree_Wakeup. eauto with agree.
  - apply agree_touch, agree_clear. eauto with agree.
  - rewrite Es, En. case_decide; [|done]. eauto with agree.
  - eauto with agree.
  - rewrite decide_False by lia. rewrite Ek. eauto with agree.
  - rewrite Ek. case_decide as Hk; [|eauto with agree]. rewrite Hk; simpl.
    assert (set_run_TryCatchStack [] rm = rm) as ->; [|done].
    destruct rm; simpl in Hk; by subst.
  - unfold row_MarkAwaitingAction.
    destruct (decide (run_CurrentAttempt rm = attempt ∧
                      run_AwaitedActionDispatch rm = Some dispatch)) as [[Hm1 Hm2]|Hn].
    + unfold mark_where. rewrite Et, Ed, Hm1, Hm2; simpl. rewrite !bool_decide_true by done. done.
    + assert (is_true (mark_where dispatch attempt rp) = true) as ->; [|eauto 6 with agree].
      unfold mark_where. rewrite Et, Ed. simpl.
      destruct (decide (run_CurrentAttempt rm = attempt)) as [E|E];
        [rewrite (bool_decide_true (_ = attempt)) by done
        |rewrite (bool_decide_false (_ = attempt)) by done];
        destruct (run_AwaitedActionDispatch rm) as [d|] eqn:Edd; simpl; try done.
      * rewrite bool_decide_false; [done|]. intros ->. by apply Hn.
      * by destruct Hr.
  - unfold Complete_row. rewrite Et. case_decide; [done|]. unfold complete_run_row, row_CompleteAction.
    destruct (json_like_vars _ Hf) as (j & Ej & _ & Es').
    rewrite Ej. apply agree_touch.
    assert (∀ a b f r, set_run_WakeupAt a (set_run_AwaitedActionDispatch b (set_vars f r)) =
      set_run_Variables (f (run_Variables r))
        (set_run_WakeupAt a (set_run_AwaitedActionDispatch b r))) as -> by (by intros ??? []).
    apply agree_Variables; [|apply (agree_Wakeup (Some now)); eauto with agree].
    rewrite Ev; simpl. rewrite Es'. symmetry. apply map_fmap_union.
  - rewrite Et. case_decide as Hat; [done|]. unfold fail_run_row, row_FailAction.
    assert (∀ a b r, set_run_State a (set_run_AwaitedActionDispatch b r) =
      set_run_AwaitedActionDispatch b (set_run_State a r)) as -> by (by intros ?? []).
    unfold nullif_empty. case_decide as Hmsg; [|eauto 8 with agree].
    apply agree_no_error; [by apply Hr|]. eauto 8 with agree.
Qed.

(** ** Histories *)

(** Both stores, started empty, after the same operations at the same times, as long as
    PostgreSQL accepts them and the rows fit; the server's clock is the process's.  In between
    the rest of the two processes may do anything. *)
Inductive pg_history : World MemStore → World Postgres → Prop :=
| pgh_new wm wp :
    w_store wm = New → w_store wp = mkPostgres no_rows 0 → pg_history wm wp
| pgh_op op wm wp :
    pg_history wm wp → w_now wm = w_now wp → op_fit op →
    (∀ id r, op_run op = Some id → runs (w_store wm) !! id = Some r → row_fit op r) →
    (pg_do op wp).1 = true → pg_history (apply_op op wm) (pg_do op wp).2
| pgh_env wm wp wm' wp' :
    pg_history wm wp → w_store wm' = w_store wm → w_store wp' = w_store wp →
    pg_history wm' wp'.

Definition same_skew (_ : Z) (_ _ : Tables) : Prop := True.
Lemma pg_do_skew op w : clock_skew (w_store (pg_do op w).2) = clock_skew (w_store w).
Proof.
  assert (∀ {A} (c : M (World Postgres) (res A)), relates same_skew c →
    clock_skew (w_store (accepted c w).2) = clock_skew (w_store w)) as Hacc.
  { intros A c Hc. destruct (Hc w) as (_ & Hs & _). unfold accepted, bind. by destruct (c w). }
  destruct op; cbn [pg_do]; apply Hacc; unfold_pg; by relates.
Qed.

Lemma create_run_pg r w :
  (pg_do (OpCreateRun r) w).1 = true →
  ∃ i v, json_vars (run_Inputs r) = Some i ∧ json_vars (run_Variables r) = Some v ∧
    pg_runs w !! run_ID r = None ∧
    pg_runs (pg_do (OpCreateRun r) w).2 = <[run_ID r := inserted_run r i v]> (pg_runs w).
Proof.
  cbn [pg_do]. unfold pg_CreateRun.
  destruct (json_vars (run_Inputs r)) as [i|], (json_vars (run_Variables r)) as [v|]; try done.
  intros (u & d & E & ->)%accepted_transaction. exists i, v. unfold pg_runs; simpl.
  unfold insert_saga_run in E. apply sql_inv in E as [_ E]. unfold insert_row in E.
  destruct (saga_runs _ !! run_ID r) eqn:Er; [done|].
  destruct (workflow_definitions _ !! _); by simplify_eq.
Qed.
Lemma create_agrees r i v :
  new_run r → jsonb_vars i = jsonb_vars (run_Inputs r) → jsonb_vars v = jsonb_vars (run_Variables r) →
  agree (inserted_run r i v) r.
Proof.
  intros (Hw & Hs & Ht & Hh & Ha & Hc & He) Hi Hv. unfold agree, inserted_run. rewrite Hi, Hv.
  destruct r; simpl in *; subst. reflexivity.
Qed.

Definition rows_agree (mp mm : gmap uuid SagaRun) : Prop :=
  ∀ id, match mp !! id, mm !! id with
        | Some rp, Some rm => agree rp rm
        | None, None => True
        | _, _ => False
        end.
Lemma rows_agree_alter f g id mp mm :
  rows_agree mp mm → (∀ rp rm, mm !! id = Some rm → agree rp rm → agree (f rp) (g rm)) →
  rows_agree (alter f id mp) (alter g id mm).
Proof.
  intros Hag Hfg j. rewrite !lookup_alter. case_decide as E; [subst|apply Hag].
  specialize (Hag j). destruct (mp !! j), (mm !! j) eqn:Em; simpl; try done. by apply Hfg.
Qed.
Lemma rows_agree_insert id rp rm mp mm :
  rows_agree mp mm → agree rp rm → rows_agree (<[id := rp]> mp) (<[id := rm]> mm).
Proof. intros Hag Hr j. rewrite !lookup_insert. case_decide; [done|apply Hag]. Qed.

Lemma pg_history_sim wm wp :
  pg_history wm wp → rows_agree (pg_runs wp) (runs (w_store wm)) ∧ clock_skew (w_store wp) = 0%Z.
Proof.
  induction 1 as [wm wp Em Ep|op wm wp Hh [Hag Hs] Hnow Hf Hr Hacc
                 |wm wp wm' wp' Hh [Hag Hs] Em Ep].
  - unfold pg_runs. rewrite Em, Ep. split; [|done]. intros id; simpl. by rewrite !lookup_empty.
  - split; [|by rewrite pg_do_skew].
    assert (pg_now wp = us (w_now wm)) as Hpn by (unfold pg_now; rewrite Hnow, Hs; f_equal; lia).
    rewrite apply_op_rows. unfold rows_after. destruct (no_row op) eqn:Hno.
    + assert (op_new wm op = None ∧ op_run op = None) as [-> ->] by (by destruct op).
      by rewrite op_same_runs.
    + destruct (op_run op) as [id|] eqn:Hid.
      * assert (op_new wm op = None) as -> by (by destruct op).
        rewrite (pg_op_row op id wp Hid) by (done || by destruct op; try apply fit_updatable).
        rewrite Hpn. apply rows_agree_alter; [done|]. intros rp rm Hrm Ha.
        eapply row_agrees; [done..|by eapply Hr|done].
      * destruct op; try done. destruct Hf as (Hn & Hi & Hv). simpl op_new. cbv iota.
        destruct (create_run_pg _ _ Hacc) as (i & v & Ei & Ev & _ & ->).
        destruct (json_like_vars _ Hi) as (i' & Ei' & _ & Ii), (json_like_vars _ Hv) as (v' & Ev' & _ & Vv).
        apply rows_agree_insert; [done|]. apply create_agrees; [done|congruence..].
  - unfold pg_runs. rewrite Em, Ep. by split.
Qed.

(** C14: On one history of operations the PostgreSQL store and the in-memory store answer
    [GetRun] alike, run by run: both report the run missing, or both return the run, the
    same but for its stamps, with the values of the database read back as floats and its
    times cut to microseconds.  The history may hold every operation PostgreSQL accepts
    except the spawning of children, on rows where the two stores mean the same. *)
Theorem pg_refines_memory wm wp id :
  pg_history wm wp →
  match (pg_GetRun id wp).1, (mem_GetRun id wm).1 with
  | Ok rp, Ok rm => unstamped rp = unstamped (stored_row rm)
  | Err e, Err e' => e = e'
  | _, _ => False
  end.
Proof.
  intros [Hag _]%pg_history_sim. specialize (Hag id). unfold pg_GetRun, mem_GetRun.
  rewrite bind_get_store. unfold transaction, row_of, select, pg_runs in *.
  by destruct (saga_runs _ !! id), (runs _ !! id).
Qed.
End PgSim.
