(* ===== verification/PgInv.v ===== *)
(** The constraints of the migrations: every operation of the PostgreSQL store keeps keys
    unique and references resolved. *)
From S2P Require Import Prelude Values Domain World Demo StoreApi Rows StoreSpec MemStore MemInv.
From S2P Require Import MemRows Json JsonProps PgSchema Pg PgData PgVars PgRows.

(** PRIMARY KEY, UNIQUE and REFERENCES. *)
Definition keyed {A} (key : A → uuid) (t : gmap uuid A) : Prop := map_Forall (λ id x, key x = id) t.
Definition unique_by {A} (same : A → A → bool) (t : gmap uuid A) : Prop :=
  ∀ i j x y, t !! i = Some x → t !! j = Some y → same x y = true → i = j.
Definition refers {A B} (ref : A → uuid) (t : gmap uuid A) (t' : gmap uuid B) : Prop :=
  map_Forall (λ _ x, is_Some (t' !! ref x)) t.

Definition same_def (a b : DefRow) : bool :=
  bool_decide (dr_WorkflowID a = dr_WorkflowID b ∧ dr_Version a = dr_Version b).
Definition same_rule (a b : RuleRow) : bool :=
  bool_decide (rule_RuleID (rr_Rule a) = rule_RuleID (rr_Rule b) ∧
               rule_Version (rr_Rule a) = rule_Version (rr_Rule b)).
Definition same_act (a b : ActionRegistration) : bool := is_true (same_action a b).

Record pg_wf (d : Tables) : Prop := {
  wfp_runs : keyed run_ID (saga_runs d);
  wfp_defs : keyed dr_ID (workflow_definitions d) ∧ unique_by same_def (workflow_definitions d);
  wfp_rules : keyed (λ r, rule_ID (rr_Rule r)) (rule_definitions d) ∧
              unique_by same_rule (rule_definitions d);
  wfp_actions : keyed act_ID (action_registry d) ∧ unique_by same_act (action_registry d);
  wfp_events : keyed (λ e, ev_ID (er_Event e)) (saga_run_events d) ∧
               unique_by same_event_key (saga_run_events d);
  wfp_signals : keyed sig_ID (saga_signals d);
  wfp_tasks : keyed task_ID (saga_user_tasks d);
  wfp_triggers : keyed trig_ID (saga_triggers d);
  wfp_fires : keyed fire_ID (saga_trigger_fires d);
  wfp_run_def : refers run_DefinitionID (saga_runs d) (workflow_definitions d);
  wfp_event_run : refers (λ e, ev_RunID (er_Event e)) (saga_run_events d) (saga_runs d);
  wfp_signal_run : refers sig_RunID (saga_signals d) (saga_runs d);
  wfp_task_run : refers task_RunID (saga_user_tasks d) (saga_runs d);
  wfp_stacks : map_Forall (λ _ r, length (run_TryCatchStack r) ≤ maxDepth) (saga_runs d)
}.

(** ** Tables *)
Lemma keyed_insert {A} (key : A → uuid) t id x :
  key x = id → keyed key t → keyed key (<[id := x]> t).
Proof. intros Hx Ht. by apply map_Forall_insert_2. Qed.
Lemma keyed_fmap {A} (key : A → uuid) (f : A → A) t :
  (∀ x, key (f x) = key x) → keyed key t → keyed key (f <$> t).
Proof. intros Hf Ht i x. rewrite lookup_fmap. intros (y & Hy & ->)%fmap_Some. rewrite Hf. eauto. Qed.
Lemma keyed_alter {A} (key : A → uuid) (f : A → A) id t :
  (∀ x, t !! id = Some x → key (f x) = key x) → keyed key t → keyed key (alter f id t).
Proof.
  intros Hf Ht i x. rewrite lookup_alter. case_decide as E; [subst|apply Ht].
  intros (y & Hy & ->)%fmap_Some. rewrite Hf by done. eauto.
Qed.
Lemma unique_insert {A} (same : A → A → bool) t id x :
  (∀ a b, same a b = same b a) →
  (∀ j y, t !! j = Some y → j ≠ id → same y x = false) →
  unique_by same t → unique_by same (<[id := x]> t).
Proof.
  intros Hsym Hx Ht i j a b. rewrite !lookup_insert. do 2 case_decide; subst; intros Hi Hj Hs;
    simplify_eq; eauto.
  - exfalso. rewrite Hsym, (Hx j) in Hs by (done || congruence). done.
  - exfalso. rewrite (Hx i) in Hs by (done || congruence). done.
Qed.
Lemma refers_insert {A B} (ref : A → uuid) t (t' : gmap uuid B) id x :
  is_Some (t' !! ref x) → refers ref t t' → refers ref (<[id := x]> t) t'.
Proof. intros Hx Ht. by apply map_Forall_insert_2. Qed.
Lemma refers_mono {A B} (ref : A → uuid) (t : gmap uuid A) (t' t'' : gmap uuid B) :
  (∀ id, is_Some (t' !! id) → is_Some (t'' !! id)) → refers ref t t' → refers ref t t''.
Proof. intros Hm Ht i x Hx. apply Hm. by eapply Ht. Qed.
Lemma refers_fmap {A B} (ref : A → uuid) (f : A → A) t (t' : gmap uuid B) :
  (∀ x, ref (f x) = ref x) → refers ref t t' → refers ref (f <$> t) t'.
Proof. intros Hf Ht i x. rewrite lookup_fmap. intros (y & Hy & ->)%fmap_Some. rewrite Hf. eauto. Qed.
Lemma alter_some {A} (f : A → A) k (t : gmap uuid A) id :
  is_Some (t !! id) → is_Some (alter f k t !! id).
Proof. rewrite lookup_alter. case_decide; [subst|done]. by intros [x ->]; eauto. Qed.
Lemma insert_some {A} k (x : A) (t : gmap uuid A) id :
  is_Some (t !! id) → is_Some (<[k := x]> t !! id).
Proof. rewrite lookup_insert. case_decide; eauto. Qed.
Create HintDb pgwf.
#[export] Hint Resolve keyed_insert refers_insert alter_some insert_some : pgwf.

(** A row of the run table rewritten. *)
Lemma wf_alter_run d id f :
  pg_wf d →
  (∀ r, saga_runs d !! id = Some r → length (run_TryCatchStack r) ≤ maxDepth →
     run_ID (f r) = run_ID r ∧ run_DefinitionID (f r) = run_DefinitionID r ∧
     length (run_TryCatchStack (f r)) ≤ maxDepth) →
  pg_wf (with_runs (alter f id (saga_runs d)) d).
Proof.
  intros [] Hf.
  assert (∀ r, saga_runs d !! id = Some r → run_ID (f r) = run_ID r ∧
    run_DefinitionID (f r) = run_DefinitionID r ∧ length (run_TryCatchStack (f r)) ≤ maxDepth) as Hf'
    by eauto.
  split; simpl; try done.
  - apply keyed_alter; [|done]. by intros r [? _]%Hf'.
  - intros j r. rewrite lookup_alter. case_decide as E; [subst|by apply wfp_run_def0].
    intros (r' & Hr & ->)%fmap_Some. destruct (Hf' _ Hr) as (_ & -> & _). by eapply wfp_run_def0.
  - eapply refers_mono; [|done]. eauto with pgwf.
  - eapply refers_mono; [|done]. eauto with pgwf.
  - eapply refers_mono; [|done]. eauto with pgwf.
  - intros j r. rewrite lookup_alter. case_decide as E; [subst|by apply wfp_stacks0].
    intros (r' & Hr & ->)%fmap_Some. by destruct (Hf' _ Hr) as (_ & _ & ?).
Qed.

Section PgInv.
Context `{EnvLaws} `{JsonEnv} `{PgE : PgEnv} `{!PgLaws}.
Implicit Types (w : World Postgres) (d : Tables).

Lemma elem_of_where {A} (c : A → tv) (t : gmap uuid A) x :
  x ∈ where_ c t ↔ is_true (c x) = true ∧ ∃ id, t !! id = Some x.
Proof.
  unfold where_. rewrite list_elem_of_filter, list_elem_of_fmap. apply and_iff_compat_l. split.
  - intros ([id y] & -> & Hin). rewrite scan_order_perm in Hin. apply elem_of_map_to_list in Hin. eauto.
  - intros (id & Hid). exists (id, x). split; [done|]. rewrite scan_order_perm.
    by apply elem_of_map_to_list.
Qed.
Lemma head_where_Some {A} (c : A → tv) (t : gmap uuid A) x :
  head (where_ c t) = Some x → is_true (c x) = true ∧ ∃ id, t !! id = Some x.
Proof.
  intros Hx. apply elem_of_where. destruct (where_ c t); [done|]. simplify_eq/=. by left.
Qed.
Lemma head_where_None {A} (c : A → tv) (t : gmap uuid A) id x :
  head (where_ c t) = None → t !! id = Some x → is_true (c x) = false.
Proof.
  intros Hn Hx. apply not_true_iff_false. intros Hc.
  assert (x ∈ where_ c t) as Hin by (apply elem_of_where; eauto).
  destruct (where_ c t); [by apply elem_of_nil in Hin|done].
Qed.

(** ** Operations *)
Definition keeps_wf (_ : Z) d d' : Prop := pg_wf d → pg_wf d'.

Lemma insert_event_wf b e now d u d' :
  insert_event b e now d = Ok (u, d') → pg_wf d → pg_wf d'.
Proof.
  unfold insert_event. intros E Hw. destruct (b && _); [by simplify_eq|].
  destruct (insert_row _ _ _ _) as [t|] eqn:Ei; [|done]. apply insert_row_inv in Ei as [Hn ->].
  destruct (event_recorded _ _) eqn:Er; [done|].
  destruct (saga_runs d !! _) eqn:Ef; [|done]. simplify_eq. destruct Hw. split; simpl; try done.
  - destruct wfp_events0 as [Hk Hu]. split; [by apply keyed_insert|].
    apply unique_insert; [|intros j y Hj _|done].
    + intros [s1 e1] [s2 e2]. unfold same_event_key; simpl. f_equal.
      * apply bool_decide_ext. naive_solver.
      * destruct s1 as [s1|], s2 as [s2|]; simpl; try done. apply bool_decide_ext. naive_solver.
    + unfold event_recorded in Er. apply negb_false_iff, bool_decide_eq_true in Er. by eapply Er.
  - apply refers_insert; [|done]. simpl. by rewrite Ef.
Qed.
Lemma update_run_wf args id c set now d n d' :
  update_run args id c set now d = Ok (n, d') →
  (∀ r, saga_runs d !! id = Some r → length (run_TryCatchStack r) ≤ maxDepth →
     run_ID (set now r) = run_ID r ∧ run_DefinitionID (set now r) = run_DefinitionID r ∧
     length (run_TryCatchStack (set now r)) ≤ maxDepth) →
  pg_wf d → pg_wf d'.
Proof.
  intros [-> _]%update_run_inv Hf Hw. apply wf_alter_run; [done|]. intros r Hr Hl.
  destruct (is_true _); [by apply Hf|done].
Qed.
Lemma insert_saga_run_wf r i v now d u d' :
  insert_saga_run r i v now d = Ok (u, d') → length (run_TryCatchStack r) ≤ maxDepth →
  pg_wf d → pg_wf d'.
Proof.
  unfold insert_saga_run. intros [_ E]%sql_inv Hl Hw.
  destruct (insert_row _ _ _ _) as [t|] eqn:Ei; [|done]. apply insert_row_inv in Ei as [Hn ->].
  destruct (workflow_definitions d !! _) eqn:Ef; [|done]. simplify_eq. destruct Hw.
  split; simpl; try done.
  - by apply keyed_insert.
  - apply refers_insert; [|done]. simpl. by rewrite Ef.
  - eapply refers_mono; [|done]. eauto with pgwf.
  - eapply refers_mono; [|done]. eauto with pgwf.
  - eapply refers_mono; [|done]. eauto with pgwf.
  - by apply map_Forall_insert_2.
Qed.
Lemma upsert_def_wf new now d u d' :
  upsert_def_row new now d = Ok (u, d') → pg_wf d → pg_wf d'.
Proof.
  unfold upsert_def_row. intros E [].
  assert (∀ a b, same_def a b = same_def b a) as Hsym.
  { intros a b. unfold same_def. apply bool_decide_ext. naive_solver. }
  destruct wfp_defs0 as [Hk Hu].
  destruct (head _) as [old|] eqn:Eh.
  - apply head_where_Some in Eh as [Hs (id & Hid)]. simplify_eq. pose proof (Hk _ _ Hid) as <-.
    split; simpl; try done.
    + split; [by apply keyed_insert|]. apply unique_insert; [done| |done].
      intros j y Hj Hne. apply not_true_iff_false. intros Hsy. apply Hne, (Hu _ _ _ _ Hj Hid).
      done.
    + eapply refers_mono; [|done]. eauto with pgwf.
  - destruct (insert_row _ _ _ _) as [t|] eqn:Ei; [|done]. apply insert_row_inv in Ei as [Hn ->].
    simplify_eq. split; simpl; try done.
    + split; [by apply keyed_insert|]. apply unique_insert; [done| |done].
      intros j y Hj _. pose proof (head_where_None _ _ _ _ Eh Hj) as Hf.
      unfold same_version, is_true in Hf. simpl in Hf. unfold same_def. done.
    + eapply refers_mono; [|done]. eauto with pgwf.
Qed.

Lemma upsert_rule_wf new now d u d' :
  upsert_rule_row new now d = Ok (u, d') → pg_wf d → pg_wf d'.
Proof.
  unfold upsert_rule_row. intros E [].
  assert (∀ a b, same_rule a b = same_rule b a) as Hsym.
  { intros a b. unfold same_rule. apply bool_decide_ext. naive_solver. }
  destruct wfp_rules0 as [Hk Hu]. destruct (head _) as [old|] eqn:Eh.
  - apply head_where_Some in Eh as [Hs (id & Hid)]. simplify_eq.
    pose proof (Hk _ _ Hid) as Hkid. simpl in Hkid. subst id.
    split; simpl; try done. split; [by apply keyed_insert|]. apply unique_insert; [done| |done].
    intros j y Hj Hne. apply not_true_iff_false. intros Hsy. by apply Hne, (Hu _ _ _ _ Hj Hid).
  - destruct (insert_row _ _ _ _) as [t|] eqn:Ei; [|done]. apply insert_row_inv in Ei as [Hn ->].
    simplify_eq. split; simpl; try done. split; [by apply keyed_insert|].
    apply unique_insert; [done| |done]. intros j y Hj _. exact (head_where_None _ _ _ _ Eh Hj).
Qed.
Lemma upsert_action_wf new now d u d' :
  upsert_action_row new now d = Ok (u, d') → pg_wf d → pg_wf d'.
Proof.
  unfold upsert_action_row. intros E [].
  assert (∀ a b, same_act a b = same_act b a) as Hsym.
  { intros a b. unfold same_act, same_action; simpl. apply bool_decide_ext. naive_solver. }
  destruct wfp_actions0 as [Hk Hu]. destruct (head _) as [old|] eqn:Eh.
  - apply head_where_Some in Eh as [Hs (id & Hid)]. simplify_eq. pose proof (Hk _ _ Hid) as <-.
    split; simpl; try done. split; [by apply keyed_insert|]. apply unique_insert; [done| |done].
    intros j y Hj Hne. apply not_true_iff_false. intros Hsy. apply Hne, (Hu _ _ _ _ Hj Hid).
    unfold same_act, same_action in *; simpl in *.
    apply bool_decide_eq_true in Hsy, Hs. apply bool_decide_eq_true. naive_solver congruence.
  - destruct (insert_row _ _ _ _) as [t|] eqn:Ei; [|done]. apply insert_row_inv in Ei as [Hn ->].
    simplify_eq. split; simpl; try done. split; [by apply keyed_insert|].
    apply unique_insert; [done| |done]. intros j y Hj _.
    rewrite Hsym. exact (head_where_None _ _ _ _ Eh Hj).
Qed.
Lemma upsert_trigger_wf new now d u d' :
  upsert_trigger_row new now d = Ok (u, d') → pg_wf d → pg_wf d'.
Proof.
  unfold upsert_trigger_row. intros [= _ <-] []. split; simpl; try done.
  apply keyed_insert; [|done]. by destruct (saga_triggers d !! _).
Qed.

(** A row function that touches neither the keys nor the frames. *)
Definition keeps_keys (f : SagaRun → SagaRun) : Prop :=
  ∀ r, run_ID (f r) = run_ID r ∧ run_DefinitionID (f r) = run_DefinitionID r ∧
       run_TryCatchStack (f r) = run_TryCatchStack r.
Lemma alter_keys_wf d id f :
  keeps_keys f → pg_wf d → pg_wf (with_runs (alter f id (saga_runs d)) d).
Proof.
  intros Hf Hw. apply wf_alter_run; [done|]. intros r _ Hl. destruct (Hf r) as (? & ? & ->). done.
Qed.

Lemma make_parents_wf id ps now d u d' :
  make_parents id ps now d = Ok (u, d') → pg_wf d → pg_wf d'.
Proof.
  revert d. induction ps as [|p ps IH]; intros d; cbn [make_parents].
  - by intros [= _ <-].
  - intros E Hw. tx_inv. eapply IH; [exact E|]. by apply alter_keys_wf.
Qed.
Lemma write_dotted_wf id l now d u d' :
  write_dotted id l now d = Ok (u, d') → pg_wf d → pg_wf d'.
Proof.
  revert d. induction l as [|[parts v] l IH]; intros d; cbn [write_dotted].
  - by intros [= _ <-].
  - destruct (json_val v); [|done]. intros E Hw. tx_inv. eapply IH; [exact E|].
    apply alter_keys_wf; [done|]. by eapply make_parents_wf.
Qed.

(** The tables without constraints across rows. *)
Lemma wf_with_signals t d :
  pg_wf d → keyed sig_ID t → refers sig_RunID t (saga_runs d) → pg_wf (with_signals t d).
Proof. by intros [] ? ?. Qed.
Lemma wf_with_tasks t d :
  pg_wf d → keyed task_ID t → refers task_RunID t (saga_runs d) → pg_wf (with_tasks t d).
Proof. by intros [] ? ?. Qed.
Lemma wf_with_triggers t d : pg_wf d → keyed trig_ID t → pg_wf (with_triggers t d).
Proof. by intros [] ?. Qed.
Lemma wf_with_fires t d : pg_wf d → keyed fire_ID t → pg_wf (with_fires t d).
Proof. by intros [] ?. Qed.

Lemma consume_wf now id n d :
  pg_wf d → pg_wf (with_signals (consume_signal_row now id n <$> saga_signals d) d).
Proof.
  intros Hw. apply wf_with_signals; [done|apply keyed_fmap|apply refers_fmap]; try apply Hw.
  all: intros sg; unfold consume_signal_row; by case_decide.
Qed.
Lemma close_wf now id d :
  pg_wf d → pg_wf (with_tasks (close_task now id <$> saga_user_tasks d) d).
Proof.
  intros Hw. apply wf_with_tasks; [done|apply keyed_fmap|apply refers_fmap]; try apply Hw.
  all: intros t; unfold close_task; by case_decide.
Qed.
Lemma task_insert_wf id t d :
  pg_wf d → task_ID t = id → is_Some (saga_runs d !! task_RunID t) →
  pg_wf (with_tasks (<[id := t]> (saga_user_tasks d)) d).
Proof. intros [] ? ?. split; simpl; auto with pgwf. Qed.
Lemma signal_insert_wf id sg d :
  pg_wf d → sig_ID sg = id → is_Some (saga_runs d !! sig_RunID sg) →
  pg_wf (with_signals (<[id := sg]> (saga_signals d)) d).
Proof. intros [] ? ?. split; simpl; auto with pgwf. Qed.
Lemma trigger_insert_wf id t d :
  pg_wf d → trig_ID t = id → pg_wf (with_triggers (<[id := t]> (saga_triggers d)) d).
Proof. intros Hw ?. apply wf_with_triggers; [done|]. apply keyed_insert; [done|apply Hw]. Qed.
End PgInv.

(** A row function that is tested for the keys by cases. *)
Ltac keys :=
  apply alter_keys_wf;
  [intros ?; unfold cancel_run_row, coalesce_error; repeat (case_match || case_decide); done|].

Section PgInv.
Context `{EnvLaws} `{JsonEnv} `{PgE : PgEnv} `{!PgLaws}.
Implicit Types (w : World Postgres) (d : Tables).

Lemma set_stack_wf id now l d :
  pg_wf d → length l ≤ maxDepth →
  pg_wf (with_runs (alter (λ r, touch_row now (set_run_TryCatchStack l r)) id (saga_runs d)) d).
Proof. intros Hw Hl. by apply wf_alter_run. Qed.

Lemma pg_do_wf op w :
  op_ok op → pg_wf (tables (w_store w)) → pg_wf (tables (w_store (pg_do op w).2)).
Proof.
  assert (∀ now d, keeps_wf now d d) as Hrefl by (by intros ?? ?).
  intros Hop. destruct op; cbn [pg_do];
    match goal with |- pg_wf _ → pg_wf (tables (w_store (accepted ?c w).2)) =>
      cut (relates keeps_wf c); [exact (relates_accepted keeps_wf c w)|] end.
  all: unfold_pg; relates; try (intros; unfold keeps_wf in *; by auto).
  all: unfold cancel_transaction, consume_transaction, fail_transaction, engine_event,
         def_by_version, update_variables_tx in *; start_tx; intros Hw.
  all: try by keys.
  all: try by (keys; eapply insert_event_wf).
  all: try by eapply upsert_def_wf.
  all: try by eapply upsert_rule_wf.
  all: try by eapply upsert_action_wf.
  all: try by eapply upsert_trigger_wf.
  all: try by eapply insert_event_wf.
  all: try by (eapply insert_saga_run_wf; [eassumption| |done]; simpl; rewrite ?Hop; simpl; lia).
  all: try (eapply insert_event_wf; [eassumption|]).
  all: try by apply consume_wf; keys.
  all: try by apply close_wf; keys.
  all: try by keys.
  all: try done.
  all: try by (eapply write_dotted_wf; [eassumption|]; first [done|by keys]).
  all: try by (eapply insert_saga_run_wf; [eassumption|case_decide; simpl; lia|done]).
  all: repeat (case_match; simplify_eq; try done).
  all: match goal with E : insert_row _ _ _ _ = Ok _ |- _ => apply insert_row_inv in E as [? ->] | _ => idtac end.
  all: try by apply signal_insert_wf; [done|done|simplify_eq/=; eauto].
  all: try by apply task_insert_wf; [done|done|simplify_eq/=; eauto].
  all: try by apply trigger_insert_wf.
  - apply (set_stack_wf id now); [done|]. rewrite length_app; simpl; lia.
  - apply (set_stack_wf id now); [done|]. rewrite length_take. specialize (wfp_stacks _ Hw _ _ Hl); simpl; lia.
  - apply (task_insert_wf id _ d); [done|by refine (wfp_tasks d Hw id u _)|].
    by refine (wfp_task_run d Hw id u _).
  - apply (wf_with_triggers (delete id (saga_triggers d)) d); [done|]. apply map_Forall_delete, Hw.
  - apply (trigger_insert_wf id _ d); [done|]. by refine (wfp_triggers d Hw id s _).
  - apply (wf_with_fires (<[u := _]> (saga_trigger_fires d)) d); [done|].
    apply keyed_insert; [done|apply Hw].
Qed.

(** ** The reachable databases *)

(** The migrated schema without rows, then any operations; time passes and identifiers are
    drawn between them. *)
Inductive pg_reachable : World Postgres → Prop :=
  | pg_reach_start w : tables (w_store w) = no_rows → pg_reachable w
  | pg_reach_op op w : pg_reachable w → op_ok op → pg_reachable (pg_do op w).2
  | pg_reach_env w w' : pg_reachable w → tables (w_store w') = tables (w_store w) → pg_reachable w'.

Lemma no_rows_wf : pg_wf no_rows.
Proof. split; try split; intros ?; by rewrite ?lookup_empty. Qed.

(** C16: The schema invariant. Whatever operations run, in any order and whether they succeed
    or fail, every table stays keyed by its row's id, (workflow_id, version), (rule_id, version),
    (action name, version) and the step key of an event stay unique, every run has its
    definition, every event, signal and task its run, and no run has more than three open
    try/catch frames. *)
Theorem pg_reachable_wf w : pg_reachable w → pg_wf (tables (w_store w)).
Proof.
  induction 1 as [w E|op w _ IH Hop|w w' _ IH E]; rewrite ?E; auto using no_rows_wf, pg_do_wf.
Qed.
End PgInv.
