(* ===== verification/PgRaces.v ===== *)
(** What callers of the PostgreSQL store race for: an awaited signal is consumed by one of
    them, and the audit trail keeps one event per step, attempt and type. *)
From S2P Require Import Prelude Values Domain World Demo StoreApi Rows StoreSpec MemStore MemInv.
From S2P Require Import MemRows MemRaces Json JsonProps PgSchema Pg PgData PgVars PgRows.

Section PgRaces.
Context `{EnvLaws} `{JsonEnv} `{PgEnv}.
Implicit Types (w : World Postgres) (d : Tables).

(** The operations of other clients, one after the other; a statement of the server sees
    them whole or not at all. *)
Definition pg_ops (ops : list mem_op) w : World Postgres :=
  fold_left (λ w op, (pg_do op w).2) ops w.

Lemma pg_ops_keep (P : Tables → Prop) (ok : mem_op → Prop) ops w :
  (∀ op w, ok op → P (tables (w_store w)) → P (tables (w_store (pg_do op w).2))) →
  Forall ok ops → P (tables (w_store w)) → P (tables (w_store (pg_ops ops w))).
Proof.
  intros Hop Hok. revert w. induction Hok as [|op ops Ho _ IH]; intros w Hw; [done|].
  apply IH. by apply Hop.
Qed.

(** ** Signals *)

(** No row [id] waits for a signal. *)
Definition no_wait (id : uuid) d : Prop :=
  ∀ r, saga_runs d !! id = Some r → run_AwaitedSignal r = None.
Definition keeps_no_wait (id : uuid) (_ : Z) d d' : Prop := no_wait id d → no_wait id d'.

Lemma no_wait_alter id j f d :
  (j = id → ∀ r, run_AwaitedSignal r = None → run_AwaitedSignal (f r) = None) →
  no_wait id d → no_wait id (with_runs (alter f j (saga_runs d)) d).
Proof.
  intros Hf Hd r. simpl. rewrite lookup_alter. case_decide as E; [|apply Hd].
  intros (r' & Hr & ->)%fmap_Some. subst. apply Hf; [done|]. by apply Hd.
Qed.
Lemma no_wait_same id d d' : saga_runs d' = saga_runs d → no_wait id d → no_wait id d'.
Proof. unfold no_wait. by intros ->. Qed.
Lemma no_wait_insert_saga_run id r i v now d u d' :
  insert_saga_run r i v now d = Ok (u, d') → (run_ID r = id → run_AwaitedSignal r = None) →
  no_wait id d → no_wait id d'.
Proof.
  unfold insert_saga_run. intros [_ E]%sql_inv Hn Hw r'.
  destruct (insert_row _ _ _ _) as [t|] eqn:Ei; [|done]. apply insert_row_inv in Ei as [_ ->].
  cases. simpl. rewrite lookup_insert.
  case_decide as Ei; [|apply Hw]. intros [= <-]. simpl. auto.
Qed.
Lemma no_wait_parents id j ps now d u d' :
  make_parents j ps now d = Ok (u, d') → no_wait id d → no_wait id d'.
Proof.
  revert d. induction ps as [|p ps IH]; intros d; cbn [make_parents].
  - by intros [= _ <-].
  - intros E Hw. tx_inv. eapply IH; [exact E|]. by apply no_wait_alter.
Qed.
Lemma no_wait_dotted id j l now d u d' :
  write_dotted j l now d = Ok (u, d') → no_wait id d → no_wait id d'.
Proof.
  revert d. induction l as [|[parts v] l IH]; intros d; cbn [write_dotted].
  - by intros [= _ <-].
  - destruct (json_val v); [|done]. intros E Hw. tx_inv. eapply IH; [exact E|].
    apply no_wait_alter; [done|]. by eapply no_wait_parents.
Qed.
End PgRaces.

(** A row function, tested for the awaited signal by cases. *)
Ltac waits :=
  apply no_wait_alter;
  [intros ? ?; unfold cancel_run_row, coalesce_error; repeat (case_match || case_decide); done|].

Section PgRaces.
Context `{EnvLaws} `{JsonEnv} `{PgEnv}.
Implicit Types (w : World Postgres) (d : Tables).

Lemma pg_do_no_wait id op w :
  ¬ arms id op → no_wait id (tables (w_store w)) → no_wait id (tables (w_store (pg_do op w).2)).
Proof.
  destruct (no_row op) eqn:En.
  { intros _ Hw. eapply no_wait_same; [exact (op_same_runs op w En)|done]. }
  assert (∀ now d, keeps_no_wait id now d d) as Hrefl by (by intros ?? ?).
  intros Ha. destruct op; try done; cbn [pg_do];
    match goal with |- no_wait id _ → no_wait id (tables (w_store (accepted ?c w).2)) =>
      cut (relates (keeps_no_wait id) c); [exact (relates_accepted (keeps_no_wait id) c w)|] end.
  all: unfold_pg; relates; try (intros; unfold keeps_no_wait in *; by auto).
  all: unfold cancel_transaction, consume_transaction, fail_transaction, engine_event,
         update_variables_tx in *; start_tx; intros Hw.
  all: try done.
  all: try by waits.
  all: try by (eapply no_wait_same; [by eapply insert_event_runs|]; try by waits).
  all: try by (eapply no_wait_dotted; [eassumption|]; first [done|by waits]).
  all: try by (apply (no_wait_same _ d); [done|]).
  - eapply no_wait_insert_saga_run; [eassumption| |done]. intros Hid.
    destruct (run_AwaitedSignal r) eqn:Er; [|done]. destruct Ha; simpl. split; [done|congruence].
  - unfold def_by_version in *. tx_inv. done.
  - eapply no_wait_insert_saga_run; [eassumption|by case_decide|done].
Qed.

Lemma consume_no_wait id name w :
  no_wait id (tables (w_store w)) → pg_TryConsumeAwaitedSignal id name w = (Ok false, w).
Proof.
  intros Hn. unfold pg_TryConsumeAwaitedSignal, transaction, consume_transaction, alone, consume_program.
  cbn [alone_from]. unfold tx_bind, sql_query. rewrite decide_False.
  { simpl. by destruct w as [[] ? ? ? ? ? ?]. }
  unfold paused_row. destruct (saga_runs _ !! id) as [r|] eqn:Hr; [|done].
  case_decide; [|done]. simpl. by rewrite (Hn _ Hr).
Qed.

(** The call alone: what it finds and leaves when it answers [true]. *)
Lemma consume_alone id name w w' :
  pg_TryConsumeAwaitedSignal id name w = (Ok true, w') →
  (∃ r, pg_runs w !! id = Some r ∧ run_State r = RunStatePaused ∧ run_AwaitedSignal r = Some name ∧
        pg_runs w' = <[id := touch_row (pg_now w) (row_clear_awaits r)]> (pg_runs w)) ∧
  map_Forall (λ _ sg, sig_RunID sg = id → sig_SignalName sg = name → sig_ConsumedAt sg ≠ None)
    (saga_signals (tables (w_store w'))).
Proof.
  intros E. unfold pg_TryConsumeAwaitedSignal, transaction in E. fold (pg_now w) in E.
  destruct (consume_transaction _ _ _ _) as [[b d]|] eqn:Et; [|done]. injection E as -> <-.
  unfold consume_transaction in Et. tx_inv; [|done]. unfold pg_runs; simpl.
  destruct (saga_runs _ !! id) as [r|] eqn:Hr; [|done]. case_decide as Hp; simplify_eq/=.
  split.
  - exists r. split_and!; [done..|]. by rewrite (alter_insert_lookup _ _ _ _ Hr).
  - intros j sg. rewrite lookup_fmap. intros (s & Hs & ->)%fmap_Some. unfold consume_signal_row.
    case_decide as Hd; [done|]. naive_solver.
Qed.

(** *** Callers that race *)

(** An open transaction: the call, its [now()], the statements still to send, and the rows it
    has locked, as it left them; no other client sees them before it commits. *)
Record Session := mkSession {
  se_run : uuid;
  se_name : string;
  se_now : Z;
  se_prog : Prog bool;
  se_runs : gmap uuid SagaRun;
  se_signals : gmap uuid SagaSignal
}.
(** The server: what is committed, the open transactions and the answers given so far. *)
Record Server := mkServer {
  sv_world : World Postgres;
  sv_open : gmap nat Session;
  sv_done : list (uuid * string * res bool)
}.
Definition committed (v : Server) : Tables := tables (w_store (sv_world v)).
(** Under READ COMMITTED a statement sees the committed rows and those of its own transaction. *)
Definition sees (s : Session) d : Tables :=
  with_signals (se_signals s ∪ saga_signals d) (with_runs (se_runs s ∪ saga_runs d) d).
(** No other open transaction has locked one of the rows. *)
Definition free (c : nat) (l : RowLocks) (m : gmap nat Session) : Prop :=
  map_Forall (λ c' s, c' = c ∨ lk_runs l ## dom (se_runs s) ∧ lk_signals l ## dom (se_signals s)) m.
#[export] Instance free_dec c l m : Decision (free c l m) := _.
(** The rows locked with these keys. *)
Definition locked_rows {A} (keys : gset uuid) (t : gmap uuid A) : gmap uuid A :=
  filter (λ x, x.1 ∈ keys) t.

(** [pool.Begin]. *)
Definition begin_tx (c : nat) (id : uuid) (name : string) (v : Server) : Server :=
  mkServer (sv_world v)
    (<[c := mkSession id name (pg_now (sv_world v)) (consume_program id name) ∅ ∅]> (sv_open v))
    (sv_done v).
Definition answered (s : Session) (r : res bool) (c : nat) (w : World Postgres) (v : Server) : Server :=
  mkServer w (delete c (sv_open v)) ((se_run s, se_name s, r) :: sv_done v).
(** Transaction [c] takes its next step; [None] when it waits for a row another one locked. *)
Definition go (c : nat) (v : Server) : option Server :=
  match sv_open v !! c with
  | None => None
  | Some s =>
      let w := sv_world v in
      let d := sees s (committed v) in
      match se_prog s with
      | Statement locks stmt k =>
          if decide (free c (locks d) (sv_open v)) then
            Some match stmt (se_now s) d with
            | Err e => answered s (Err e) c w v
            | Ok (b, d') =>
                mkServer w
                  (<[c := mkSession (se_run s) (se_name s) (se_now s) (k b)
                            (locked_rows (dom (se_runs s) ∪ lk_runs (locks d)) (saga_runs d'))
                            (locked_rows (dom (se_signals s) ∪ lk_signals (locks d)) (saga_signals d'))]>
                     (sv_open v)) (sv_done v)
            end
          else None
      | Commit a =>
          Some (answered s (Ok a) c (set_store (mkPostgres d (clock_skew (w_store w))) w) v)
      | Rollback a => Some (answered s (Ok a) c w v)
      end
  end.

(** The locked rows are as before: an operation that changes one waits for its lock. *)
Definition locked_kept (v : Server) d' : Prop :=
  map_Forall (λ _ s,
    (∀ i, i ∈ dom (se_runs s) → saga_runs d' !! i = saga_runs (committed v) !! i) ∧
    (∀ i, i ∈ dom (se_signals s) → saga_signals d' !! i = saga_signals (committed v) !! i)) (sv_open v).
Definition with_world (w : World Postgres) (v : Server) : Server :=
  mkServer w (sv_open v) (sv_done v).
Definition pass (t : Z) (w : World Postgres) : World Postgres :=
  mkWorld (w_store w) t (w_clk w) (w_ids w) (w_polls w) (w_rands w) (w_out w).
(** What happens on the server, in any order: calls begin, their transactions go on, the other
    operations of the store run, restricted to those [ok] allows, and time passes. *)
Inductive race (ok : mem_op → Prop) : Server → Server → Prop :=
| race_begin c id name v : sv_open v !! c = None → race ok v (begin_tx c id name v)
| race_go c v v' : go c v = Some v' → race ok v v'
| race_op op v :
    ok op → locked_kept v (tables (w_store (pg_do op (sv_world v)).2)) →
    race ok v (with_world (pg_do op (sv_world v)).2 v)
| race_pass t v : race ok v (with_world (pass t (sv_world v)) v).

(** The calls for [id] that were answered [true]. *)
Definition won (r : res bool) : bool := match r with Ok b => b | Err _ => false end.
Definition wins (id : uuid) (l : list (uuid * string * res bool)) : list (uuid * string * res bool) :=
  filter (λ x, x.1.1 = id ∧ won x.2 = true) l.
End PgRaces.

Section PgRaces.
Context `{EnvLaws} `{JsonEnv} `{PgEnv}.
Implicit Types (w : World Postgres) (d : Tables) (v : Server) (s : Session).

(** Where a call stands: before its SELECT; with the row locked and not its own signal; with
    the row locked, before the first UPDATE; past it. *)
Inductive stage d s : Prop :=
| at_select :
    se_prog s = consume_program (se_run s) (se_name s) → se_runs s = ∅ → se_signals s = ∅ → stage d s
| at_rollback :
    se_prog s = Rollback false → se_runs s ⊆ saga_runs d → dom (se_runs s) ⊆ {[se_run s]} →
    se_signals s = ∅ → stage d s
| at_clear r :
    se_prog s = clear_and_consume (se_run s) (se_name s) →
    saga_runs d !! se_run s = Some r → run_AwaitedSignal r ≠ None →
    se_runs s = {[se_run s := r]} → se_signals s = ∅ → stage d s
| at_consume r r' :
    se_prog s = consume_signals (se_run s) (se_name s) →
    saga_runs d !! se_run s = Some r → run_AwaitedSignal r ≠ None →
    se_runs s = {[se_run s := r']} → run_AwaitedSignal r' = None → se_signals s = ∅ → stage d s
| at_commit r r' :
    se_prog s = Commit true →
    saga_runs d !! se_run s = Some r → run_AwaitedSignal r ≠ None →
    se_runs s = {[se_run s := r']} → run_AwaitedSignal r' = None →
    map_Forall (λ i sg, sig_RunID sg = se_run s ∧
      sig_RunID <$> saga_signals d !! i = Some (se_run s)) (se_signals s) → stage d s.

Record races_ok (id : uuid) v : Prop := {
  ok_stage : map_Forall (λ _ s, stage (committed v) s) (sv_open v);
  ok_locks c1 c2 s1 s2 : sv_open v !! c1 = Some s1 → sv_open v !! c2 = Some s2 → c1 ≠ c2 →
    dom (se_runs s1) ## dom (se_runs s2);
  ok_once : length (wins id (sv_done v)) ≤ 1;
  ok_won : wins id (sv_done v) ≠ [] → no_wait id (committed v)
}.

Lemma stage_kept d d' s :
  (∀ i, i ∈ dom (se_runs s) → saga_runs d' !! i = saga_runs d !! i) →
  (∀ i, i ∈ dom (se_signals s) → sig_RunID <$> saga_signals d' !! i = sig_RunID <$> saga_signals d !! i) →
  stage d s → stage d' s.
Proof.
  intros Hr Hs [Hp E1 E2|Hp E1 E2 E3|r Hp E1 E2 E3 E4|r r' Hp E1 E2 E3 E4 E5|r r' Hp E1 E2 E3 E4 E5].
  - by apply at_select.
  - apply at_rollback; try done. apply map_subseteq_spec. intros i r Hi.
    rewrite Hr by by eapply elem_of_dom_2. by eapply lookup_weaken.
  - apply (at_clear _ _ r); try done. rewrite Hr; [done|]. rewrite E3. set_solver.
  - apply (at_consume _ _ r r'); try done. rewrite Hr; [done|]. rewrite E3. set_solver.
  - apply (at_commit _ _ r r'); try done.
    + rewrite Hr; [done|]. rewrite E3. set_solver.
    + intros i sg Hi. destruct (E5 i sg Hi) as [? <-]. split; [done|]. apply Hs.
      by eapply elem_of_dom_2.
Qed.
Lemma stage_run d s i : stage d s → i ∈ dom (se_runs s) → i = se_run s.
Proof.
  intros [Hp E1 E2|Hp E1 E2 E3|r Hp E1 E2 E3 E4|r r' Hp E1 E2 E3 E4 E5|r r' Hp E1 E2 E3 E4 E5] Hi;
    rewrite ?E1, ?E3 in Hi; set_solver.
Qed.

(** A call that has the row locked and its name matched keeps the run from being won by
    another: the row it locked still waits. *)
Lemma matched_unwon id v c s r :
  races_ok id v → sv_open v !! c = Some s → se_run s = id →
  saga_runs (committed v) !! se_run s = Some r → run_AwaitedSignal r ≠ None →
  wins id (sv_done v) = [].
Proof.
  intros Hok Hc <- Hr Ha. destruct (wins _ _) eqn:Hw; [done|].
  destruct Ha. apply (ok_won _ _ Hok); [by rewrite Hw|done].
Qed.

(** Transaction [c] gets new statements and locks; the others keep theirs. *)
Lemma races_ok_update id v c s s' :
  races_ok id v → sv_open v !! c = Some s → stage (committed v) s' → se_run s' = se_run s →
  dom (se_runs s') ⊆ dom (se_runs s) ∨ free c (mkRowLocks (dom (se_runs s')) ∅) (sv_open v) →
  races_ok id (mkServer (sv_world v) (<[c := s']> (sv_open v)) (sv_done v)).
Proof.
  intros Hok Hc Hs Hr Hl. split; simpl; [|..|by apply Hok|by apply Hok].
  - apply map_Forall_insert_2; [done|apply Hok].
  - assert (∀ c2 s2, sv_open v !! c2 = Some s2 → c ≠ c2 → dom (se_runs s') ## dom (se_runs s2)) as Hd.
    { intros c2 s2 Ho2 Hne. destruct Hl as [Hl|Hl].
      - pose proof (ok_locks _ _ Hok _ _ _ _ Hc Ho2 Hne). set_solver.
      - destruct (Hl _ _ Ho2) as [->|[Hd _]]; [done|exact Hd]. }
    intros c1 c2 s1 s2 [[-> <-]|[Hn1 Ho1]]%lookup_insert_Some [[-> <-]|[Hn2 Ho2]]%lookup_insert_Some Hne;
      [done|by apply (Hd c2)| |by eapply (ok_locks _ _ Hok)].
    symmetry. by apply (Hd c1).
Qed.
Lemma stage_delete id v c :
  races_ok id v → map_Forall (λ _ s, stage (committed v) s) (delete c (sv_open v)) ∧
  (∀ c1 c2 s1 s2, delete c (sv_open v) !! c1 = Some s1 → delete c (sv_open v) !! c2 = Some s2 →
     c1 ≠ c2 → dom (se_runs s1) ## dom (se_runs s2)).
Proof.
  intros Hok. split; [apply map_Forall_delete, Hok|].
  intros c1 c2 s1 s2 [_ Ho1]%lookup_delete_Some [_ Ho2]%lookup_delete_Some. by apply (ok_locks _ _ Hok).
Qed.
(** A call that ends without [true] leaves everything as it is. *)
Lemma races_ok_lost id v c s r :
  races_ok id v → won r = false → races_ok id (answered s r c (sv_world v) v).
Proof.
  intros Hok Hr. destruct (stage_delete id v c Hok) as [Hs Hl].
  split; [exact Hs|exact Hl|..]; simpl; unfold wins; rewrite filter_cons_False
    by (simpl; rewrite Hr; naive_solver); apply Hok.
Qed.

Lemma locked_rows_one {A} (keys : gset uuid) i (x : A) t :
  keys = {[i]} → t !! i = Some x → locked_rows keys t = {[i := x]}.
Proof.
  intros -> Hx. apply map_eq. intros j. unfold locked_rows. rewrite map_lookup_filter, lookup_singleton.
  case_decide as E.
  - subst. rewrite Hx. simpl. by rewrite option_guard_True by set_solver.
  - destruct (t !! j); simpl; [|done]. by rewrite option_guard_False by set_solver.
Qed.
Lemma locked_rows_none {A} (keys : gset uuid) (t : gmap uuid A) :
  keys = ∅ → locked_rows keys t = ∅.
Proof.
  intros ->. apply map_empty. intros j. apply map_lookup_filter_None. right. set_solver.
Qed.
Lemma sees_run s d i r' : se_runs s = {[i := r']} → saga_runs (sees s d) !! i = Some r'.
Proof. intros E. simpl. rewrite E. apply lookup_union_Some_l, lookup_singleton_eq. Qed.
Lemma sees_other s d i j r' :
  se_runs s = {[i := r']} → j ≠ i → saga_runs (sees s d) !! j = saga_runs d !! j.
Proof.
  intros E Hj. simpl. rewrite E. apply lookup_union_r, lookup_singleton_ne. done.
Qed.

Lemma paused_row_at id d r : paused_row id d = Some r → saga_runs d !! id = Some r.
Proof. unfold paused_row. destruct (saga_runs d !! id); [|done]. by case_decide; [intros [= ->]|]. Qed.
Lemma with_own d : with_signals (saga_signals d) (with_runs (saga_runs d) d) = d.
Proof. by destruct d. Qed.
Lemma races_ok_go_select id v v' c s :
  races_ok id v → sv_open v !! c = Some s →
  se_prog s = consume_program (se_run s) (se_name s) → se_runs s = ∅ → se_signals s = ∅ →
  go c v = Some v' → races_ok id v'.
Proof.
  intros Hok Hc Hp E1 E2.
  assert (sees s (committed v) = committed v) as Hv.
  { unfold sees. by rewrite E1, E2, !map_empty_union, with_own. }
  unfold go. rewrite Hc, Hp, Hv. unfold consume_program.
  rewrite E1, E2, !dom_empty_L, !union_empty_l_L. cbv zeta. unfold for_update.
  case_decide as Hf; [|done]. intros [= <-].
  eapply races_ok_update; [done|done|..|done|right]; simpl.
  - destruct (paused_row (se_run s) (committed v)) as [r|] eqn:Hr; simpl.
    + apply paused_row_at in Hr. rewrite (locked_rows_one _ _ _ _ eq_refl Hr), locked_rows_none by done.
      case_decide as Hn.
      * apply (at_clear _ _ r); try done. simpl. congruence.
      * apply at_rollback; simpl; [done| |by rewrite dom_singleton_L|done].
        by apply map_singleton_subseteq_l.
    + rewrite !locked_rows_none by done.
      apply at_rollback; simpl; [done| |set_solver|done]. apply map_empty_subseteq.
  - intros c' s' Hs'. destruct (Hf c' s' Hs') as [->|[Hd _]]; [by left|right]. simpl.
    split; [|set_solver]. intros i Hi Hi'. apply (Hd i); [|done].
    apply elem_of_dom in Hi as [r Hi]. unfold locked_rows in Hi.
    by apply map_lookup_filter_Some in Hi as [_ Hi].
Qed.
Lemma races_ok_go_clear id v v' c s r :
  races_ok id v → sv_open v !! c = Some s →
  se_prog s = clear_and_consume (se_run s) (se_name s) →
  saga_runs (committed v) !! se_run s = Some r → run_AwaitedSignal r ≠ None →
  se_runs s = {[se_run s := r]} → se_signals s = ∅ →
  go c v = Some v' → races_ok id v'.
Proof.
  intros Hok Hc Hp Hr Ha E1 E2. unfold go. rewrite Hc, Hp. unfold clear_and_consume.
  cbv zeta. case_decide as Hf; [|done]. intros [= <-].
  pose proof (sees_run s (committed v) _ _ E1) as Hv.
  unfold wrapping, update_run, sql, updated_run. cbn [forallb]. rewrite Hv. cbn [is_true any_row map_err_res].
  eapply races_ok_update; [done|done|..|done|left]; simpl.
  - eapply (at_consume _ _ r); simpl; try done.
    + erewrite locked_rows_one; [done| |by rewrite lookup_insert_eq]. rewrite E1. set_solver.
    + done.
    + rewrite E2. by apply locked_rows_none.
  - erewrite locked_rows_one; [..|by rewrite lookup_insert_eq]; rewrite E1; set_solver.
Qed.
Lemma races_ok_go_consume id v v' c s r r' :
  races_ok id v → sv_open v !! c = Some s →
  se_prog s = consume_signals (se_run s) (se_name s) →
  saga_runs (committed v) !! se_run s = Some r → run_AwaitedSignal r ≠ None →
  se_runs s = {[se_run s := r']} → run_AwaitedSignal r' = None → se_signals s = ∅ →
  go c v = Some v' → races_ok id v'.
Proof.
  intros Hok Hc Hp Hr Ha E1 Hn E2. unfold go. rewrite Hc, Hp. unfold consume_signals.
  cbv zeta. case_decide as Hf; [|done]. intros [= <-].
  pose proof (sees_run s (committed v) _ _ E1) as Hv.
  unfold wrapping, sql. destruct (forallb _ _); [|by apply races_ok_lost]. cbn [map_err_res].
  eapply races_ok_update; [done|done|..|done|left]; simpl.
  - eapply (at_commit _ _ r r'); simpl; try done.
    + erewrite locked_rows_one; [done| |exact Hv]. rewrite E1. set_solver.
    + intros i sg [Hi Hk]%map_lookup_filter_Some. rewrite lookup_fmap, E2, map_empty_union in Hi.
      apply fmap_Some in Hi as (sg0 & H0' & ->). simpl in Hk. rewrite E2, map_empty_union in Hk.
      rewrite dom_empty_L, union_empty_l_L in Hk. apply elem_of_dom in Hk as [sg1 Hk].
      apply map_lookup_filter_Some in Hk as [Hk [Hid _]]. simplify_eq/=. rewrite H0'. simpl.
      split; [|by f_equal]. unfold consume_signal_row. by case_decide.
  - rewrite (locked_rows_one (dom (se_runs s) ∪ ∅) (se_run s) r'); [|by rewrite E1; set_solver|done].
    by rewrite E1.
Qed.

Lemma races_ok_go_commit id v v' c s r r' :
  races_ok id v → sv_open v !! c = Some s → se_prog s = Commit true →
  saga_runs (committed v) !! se_run s = Some r → run_AwaitedSignal r ≠ None →
  se_runs s = {[se_run s := r']} → run_AwaitedSignal r' = None →
  map_Forall (λ i sg, sig_RunID sg = se_run s ∧
    sig_RunID <$> saga_signals (committed v) !! i = Some (se_run s)) (se_signals s) →
  go c v = Some v' → races_ok id v'.
Proof.
  intros Hok Hc Hp Hr Ha E1 Hn E2. unfold go. rewrite Hc, Hp. intros [= <-].
  destruct (stage_delete id v c Hok) as [Hs Hl]. unfold answered. split; [|exact Hl|..]; simpl.
  - intros c2 s2 Hd. pose proof Hd as [Hne Hc2]%lookup_delete_Some.
    apply (stage_kept (committed v)); [| |by apply (Hs c2)].
    + intros i Hi. apply (sees_other s _ (se_run s) i r' E1). intros ->.
      apply (ok_locks _ _ Hok _ _ _ _ Hc Hc2 Hne (se_run s)); [|done]. rewrite E1. set_solver.
    + intros i _. unfold committed at 1. simpl.
      destruct (se_signals s !! i) as [sg|] eqn:Hi.
      * rewrite (lookup_union_Some_l _ _ _ _ Hi). destruct (E2 i sg Hi) as [Hsg ->]. simpl. congruence.
      * by rewrite lookup_union_r.
  - unfold wins. destruct (decide (se_run s = id)) as [Hid|Hid].
    + rewrite filter_cons_True by done. fold (wins id (sv_done v)).
      by rewrite (matched_unwon id v c s r Hok Hc Hid Hr Ha).
    + rewrite filter_cons_False by (simpl; naive_solver). apply Hok.
  - intros Hw ro Hro. unfold committed in Hro. simpl in Hro. destruct (decide (se_run s = id)) as [Hid|Hid].
    + subst. pose proof (sees_run s (committed v) _ _ E1) as Hv.
      unfold committed in Hv. simpl in Hv. rewrite Hv in Hro. by simplify_eq.
    + pose proof (sees_other s (committed v) _ id _ E1 (not_eq_sym Hid)) as Hv.
      unfold committed in Hv. simpl in Hv. rewrite Hv in Hro. apply (ok_won _ _ Hok); [|done]. unfold wins in Hw.
      by rewrite filter_cons_False in Hw by (simpl; naive_solver).
Qed.
Lemma races_ok_go id v v' c : races_ok id v → go c v = Some v' → races_ok id v'.
Proof.
  intros Hok Hg. destruct (sv_open v !! c) as [s|] eqn:Hc; [|by unfold go in Hg; rewrite Hc in Hg].
  destruct (ok_stage _ _ Hok c s Hc).
  - by eapply races_ok_go_select.
  - unfold go in Hg. rewrite Hc in Hg. replace (se_prog s) with (Rollback false : Prog bool) in Hg.
    injection Hg as <-. by apply races_ok_lost.
  - by eapply races_ok_go_clear.
  - by eapply races_ok_go_consume.
  - by eapply races_ok_go_commit.
Qed.

Lemma races_ok_race id v v' :
  race (λ op, ¬ arms id op) v v' → races_ok id v → races_ok id v'.
Proof.
  intros [c i name u Hc|c u u' Hg|op u Hop Hk|t u] Hok.
  - unfold begin_tx. split; simpl; [..|by apply Hok|by apply Hok].
    + apply map_Forall_insert_2; [by apply at_select|apply Hok].
    + intros c1 c2 s1 s2 [[-> <-]|[Hn1 Ho1]]%lookup_insert_Some [[-> <-]|[Hn2 Ho2]]%lookup_insert_Some Hne;
        simpl; [done|set_solver..|by eapply (ok_locks _ _ Hok)].
  - by eapply races_ok_go.
  - split; simpl; [|by apply Hok|by apply Hok|].
    + intros c s Hc. destruct (Hk c s Hc) as [Hr Hs]. apply (stage_kept (committed u)); [done| |by apply (ok_stage _ _ Hok c)].
      intros i Hi. unfold committed at 1. simpl. by rewrite Hs.
    + intros Hw. apply (pg_do_no_wait id op (sv_world u) Hop). by apply (ok_won _ _ Hok).
  - split; apply Hok.
Qed.
Lemma races_ok_start id w : races_ok id (mkServer w ∅ []).
Proof. split; simpl; [apply map_Forall_empty|by intros ???? []%lookup_empty_Some|lia|done]. Qed.
Lemma races_ok_reach id w v :
  rtc (race (λ op, ¬ arms id op)) (mkServer w ∅ []) v → races_ok id v.
Proof.
  intros Hr. eapply (rtc_ind_r (λ v, races_ok id v)); [apply races_ok_start| |exact Hr].
  intros u u' _ Hu Hok. by eapply races_ok_race.
Qed.

(** *** No call waits for ever *)

(** Some open transaction can go on. *)
Lemma some_goes id v : races_ok id v → sv_open v ≠ ∅ → ∃ c v', go c v = Some v'.
Proof.
  intros Hok (c & s & Hc)%map_choose.
  assert (∀ c s, sv_open v !! c = Some s →
    (se_prog s = consume_program (se_run s) (se_name s) ∧ se_runs s = ∅ ∧ se_signals s = ∅) ∨
    ∃ v', go c v = Some v') as Hgo.
  { clear c s Hc. intros c s Hc. unfold go. rewrite Hc.
    assert (∀ i c' s', i ∈ dom (se_runs s) → sv_open v !! c' = Some s' → i ∈ dom (se_runs s') →
            c' = c) as Hd.
    { intros i c' s' Hi Hc' Hi'. destruct (decide (c' = c)) as [|Hne]; [done|].
      by destruct (ok_locks _ _ Hok _ _ _ _ Hc' Hc Hne i). }
    destruct (ok_stage _ _ Hok c s Hc) as [E|E|r E Hr Ha E1 E2|r r' E Hr Ha E1 Hn E2|];
      [by left|right..]; [rewrite E; by eexists| | |
        replace (se_prog s) with (Commit true : Prog bool); by eexists].
    - rewrite E. unfold clear_and_consume. cbv zeta. rewrite decide_True; [by eexists|].
      intros c' s' Hc'. unfold updated_run. rewrite (sees_run s _ _ _ E1).
      destruct (decide (c' = c)) as [|Hne]; [by left|right]. simpl. split; [|set_solver].
      intros i ->%elem_of_singleton Hi'. apply Hne. apply (Hd (se_run s) c' s'); [|done..].
      rewrite E1. set_solver.
    - rewrite E. unfold consume_signals. cbv zeta. rewrite decide_True; [by eexists|].
      intros c' s' Hc'. destruct (decide (c' = c)) as [|Hne]; [by left|right]. simpl.
      split; [set_solver|]. intros i Hi Hi'. apply elem_of_dom in Hi as [sg Hi].
      apply map_lookup_filter_Some in Hi as [Hi [Hid _]]. rewrite E2, map_empty_union in Hi.
      apply elem_of_dom in Hi' as [sg' Hi']. destruct (ok_stage _ _ Hok c' s' Hc')
        as [? E3 E4|? E3 E4 E5|? ? ? ? E3 E5|? ? ? ? ? E3 ? E5|? ? ? ? ? E3 ? E5];
        try by rewrite ?E4, ?E5 in Hi'.
      destruct (E5 i sg' Hi') as [_ Hrun]. rewrite Hi in Hrun. simplify_eq/=. apply Hne.
      apply (Hd (se_run s) c' s'); [rewrite E1; set_solver|done|].
      rewrite E3, <- Hrun, Hid. set_solver. }
  destruct (decide (map_Forall (λ c _, go c v = None) (sv_open v))) as [Hn|Hn].
  - destruct (Hgo c s Hc) as [(E & E1 & E2)|[v' Hv]]; [|by rewrite (Hn c s Hc) in Hv].
    exists c. unfold go. rewrite Hc, E. unfold consume_program. cbv zeta.
    rewrite decide_True; [by eexists|]. intros c' s' Hc'. right.
    destruct (Hgo c' s' Hc') as [(_ & -> & ->)|[v' Hv]]; [set_solver|by rewrite (Hn c' s' Hc') in Hv].
  - apply map_not_Forall in Hn as (c' & s' & _ & Hn); [|apply _]. exists c'.
    by destruct (go c' v) as [v'|]; [exists v'|].
Qed.

(** Transactions that go on one after the other; [None] when one of them waits. *)
Definition gos (cs : list nat) (v : Server) : option Server :=
  foldl (λ o c, match o with Some u => go c u | None => None end) (Some v) cs.
Lemma gos_race ok cs v : rtc (race ok) v (default v (gos cs v)).
Proof.
  induction cs as [|c cs IH] using rev_ind; [reflexivity|]. unfold gos in *. rewrite foldl_snoc.
  destruct (foldl _ _ cs) as [u|]; [|reflexivity]. simpl in IH.
  destruct (go c u) as [u'|] eqn:Hu; simpl; [|reflexivity].
  etrans; [exact IH|]. by apply rtc_once, race_go with c.
Qed.

(** C17: An awaited signal is consumed by one caller of the PostgreSQL store.  Calls of
    [TryConsumeAwaitedSignal] run concurrently, their statements interleaved in any order with
    each other and with the other operations of the store, a statement waiting while another
    transaction holds the row it locks: of all the calls for a run at most one is answered
    [true], and once one was, no row waits for a signal, until something pauses the run on a
    signal again; and no set of open calls waits for itself, one can always go on.  The call
    that is answered [true], alone on the server, found the run paused on exactly its signal,
    wipes the await markers and marks the stored signals of that name consumed. *)
Theorem pg_signal_consumed_once id name w v :
  rtc (race (λ op, ¬ arms id op)) (mkServer w ∅ []) v →
  (length (wins id (sv_done v)) ≤ 1 ∧ (wins id (sv_done v) ≠ [] → no_wait id (committed v)) ∧
   (sv_open v ≠ ∅ → ∃ c v', go c v = Some v')) ∧
  ∀ w', pg_TryConsumeAwaitedSignal id name w = (Ok true, w') →
  (∃ r, pg_runs w !! id = Some r ∧ run_State r = RunStatePaused ∧ run_AwaitedSignal r = Some name ∧
        pg_runs w' = <[id := touch_row (pg_now w) (row_clear_awaits r)]> (pg_runs w)) ∧
  map_Forall (λ _ sg, sig_RunID sg = id → sig_SignalName sg = name → sig_ConsumedAt sg ≠ None)
    (saga_signals (tables (w_store w'))).
Proof.
  intros Hr%(races_ok_reach id). split; [|apply consume_alone].
  split_and!; [apply Hr|apply Hr|by apply some_goes with (id := id)].
Qed.

(** ** The audit trail *)

(** An event of this step, attempt and type is on record. *)
Definition on_record (id : uuid) (step : string) (attempt : Z) (ty : EventType) d : Prop :=
  ∃ i e, saga_run_events d !! i = Some e ∧ ev_RunID (er_Event e) = id ∧ er_StepID e = Some step ∧
         ev_Attempt (er_Event e) = attempt ∧ ev_EventType (er_Event e) = ty.
Definition keeps_events (_ : Z) d d' : Prop := saga_run_events d ⊆ saga_run_events d'.

Lemma insert_event_keeps b e now d u d' :
  insert_event b e now d = Ok (u, d') → saga_run_events d ⊆ saga_run_events d'.
Proof.
  unfold insert_event. intros E. destruct (b && _); [by simplify_eq|].
  destruct (insert_row _ _ _ _) as [t|] eqn:Ei; [|done]. apply insert_row_inv in Ei as [Hn ->].
  cases. simpl. by apply insert_subseteq.
Qed.
Lemma insert_event_records b e now d u d' step :
  insert_event b e now d = Ok (u, d') → er_StepID e = Some step →
  on_record (ev_RunID (er_Event e)) step (ev_Attempt (er_Event e)) (ev_EventType (er_Event e)) d'.
Proof.
  unfold insert_event. intros E Hs. destruct (b && event_recorded _ _) eqn:Er.
  - apply ok_inv in E as [_ <-]. apply andb_true_iff in Er as [_ Er].
    unfold event_recorded in Er. apply negb_true_iff, bool_decide_eq_false in Er.
    apply map_not_Forall in Er as (i & e' & Hi & Hk%not_false_is_true); [|apply _].
    unfold same_event_key in Hk. apply andb_true_iff in Hk as [Hk Hst].
    apply bool_decide_eq_true in Hk as (? & ? & ?). rewrite Hs in Hst.
    destruct (er_StepID e') as [s'|] eqn:Hs'; [|done]. simpl in Hst.
    apply bool_decide_eq_true in Hst. exists i, e'. split_and!; congruence.
  - destruct (insert_row _ _ _ _) as [t|] eqn:Ei; [|done]. apply insert_row_inv in Ei as [Hn ->].
    cases. exists (ev_ID (er_Event e)), e. simpl. by rewrite lookup_insert_eq.
Qed.
Lemma on_record_dropped e now d step :
  er_StepID e = Some step →
  on_record (ev_RunID (er_Event e)) step (ev_Attempt (er_Event e)) (ev_EventType (er_Event e)) d →
  insert_event true e now d = Ok (tt, d).
Proof.
  intros Hs (i & e' & Hi & Hr & Hst & Ha & Ht). unfold insert_event.
  assert (event_recorded e (saga_run_events d) = true) as ->; [|done].
  unfold event_recorded. apply negb_true_iff, bool_decide_eq_false. intros Hf.
  specialize (Hf i e' Hi). simpl in Hf. unfold same_event_key in Hf.
  rewrite bool_decide_true, Hst, Hs in Hf by done. simpl in Hf. by rewrite bool_decide_true in Hf.
Qed.
Lemma keeps_make_parents id ps now d u d' :
  make_parents id ps now d = Ok (u, d') → saga_run_events d' = saga_run_events d.
Proof.
  revert d. induction ps as [|p ps IH]; intros d; cbn [make_parents].
  - by intros [= _ <-].
  - intros E. tx_inv. by rewrite (IH _ E).
Qed.
Lemma keeps_write_dotted id l now d u d' :
  write_dotted id l now d = Ok (u, d') → saga_run_events d' = saga_run_events d.
Proof.
  revert d. induction l as [|[parts v] l IH]; intros d; cbn [write_dotted].
  - by intros [= _ <-].
  - destruct (json_val v); [|done]. intros E. tx_inv. rewrite (IH _ E). simpl.
    by eapply keeps_make_parents.
Qed.

(** The server takes the columns of the event. *)
Definition event_ok (e : SagaRunEvent) : Prop :=
  ∃ m, json_vars (ev_Metadata e) = Some m ∧
       forallb arg_ok [AText (ev_StepID e); AInt4 (ev_Attempt e); AText (ev_Actor e);
                       AJson (VMap m)] = true.

(** No operation removes or changes an event. *)
Lemma pg_do_events op w :
  saga_run_events (tables (w_store w)) ⊆ saga_run_events (tables (w_store (pg_do op w).2)).
Proof.
  assert (∀ now d, keeps_events now d d) as Hrefl by (intros ??; unfold keeps_events; reflexivity).
  destruct op; cbn [pg_do];
    match goal with |- _ ⊆ saga_run_events (tables (w_store (accepted ?c w).2)) =>
      cut (relates keeps_events c); [exact (relates_accepted keeps_events c w)|] end.
  all: unfold_pg; relates; try (intros; unfold keeps_events in *; by etrans).
  all: unfold cancel_transaction, consume_transaction, fail_transaction, engine_event,
         def_by_version, update_variables_tx, insert_saga_run in *; start_tx; try done.
  all: try (unfold keeps_events; simpl; reflexivity).
  all: unfold keeps_events; try match goal with E : write_dotted _ _ _ _ = _ |- _ =>
             rewrite (keeps_write_dotted _ _ _ _ _ _ E); reflexivity end.
  all: try match goal with E : insert_event _ _ _ _ = _ |- _ =>
             exact (insert_event_keeps _ _ _ _ _ _ E) end.
  all: unfold upsert_def_row, upsert_rule_row, upsert_action_row, upsert_trigger_row in *.
  all: try by cases.
Qed.
Lemma pg_ops_on_record id step attempt ty ops w :
  on_record id step attempt ty (tables (w_store w)) →
  on_record id step attempt ty (tables (w_store (pg_ops ops w))).
Proof.
  apply (pg_ops_keep _ (λ _, True)); [|by apply Forall_true].
  intros op w' _ (i & e & Hi & He). exists i, e. split; [|done].
  by eapply lookup_weaken; [|apply pg_do_events].
Qed.

(** C18: The audit trail of the PostgreSQL store keeps one event per run, step, attempt and
    type: once an event of a step was appended, every later event with the same step, attempt
    and type is accepted and dropped, whatever operations come in between, so that an engine
    that repeats a step leaves no second record. *)
Theorem event_recorded_once e e' w w' ops :
  pg_AppendEvent e w = (Ok tt, w') → ev_StepID e ≠ "" →
  ev_RunID e' = ev_RunID e → ev_StepID e' = ev_StepID e → ev_Attempt e' = ev_Attempt e →
  ev_EventType e' = ev_EventType e → event_ok e' →
  let w2 := pg_ops ops w' in pg_AppendEvent e' w2 = (Ok tt, w2).
Proof.
  intros E Hs Er Est Ea Et (m' & Em' & Hok) w2. unfold pg_AppendEvent, transaction in *.
  destruct (json_vars (ev_Metadata e)) as [m|]; [|done].
  fold (pg_now w) in E. destruct (sql _ _ _ _) as [[[] d]|] eqn:Hi in E; [|done].
  injection E as <-. apply sql_inv in Hi as [_ Hi].
  apply (insert_event_records _ _ _ _ _ _ (ev_StepID e)) in Hi;
    [|simpl; unfold nullif_empty; by rewrite decide_False].
  rewrite Em'. unfold sql. rewrite Hok. rewrite (on_record_dropped _ _ _ (ev_StepID e)).
  - by destruct w2 as [[] ? ? ? ? ? ?].
  - simpl. unfold nullif_empty. rewrite Est. by rewrite decide_False.
  - simpl. rewrite Er, Ea, Et. by apply pg_ops_on_record.
Qed.
End PgRaces.
