(* ===== verification/Storetest.v ===== *)
(** The conformance suite every store backend runs: [src/store/storetest].

    A test group is a program over the store interface; [t.Errorf] records a failure
    and goes on, [t.Fatalf] records one and ends the group.  The labels of the
    failures are kept, not their printed details.  A nil map and an empty one are the
    same here, and the zero [SagaRun] that an ignored error leaves behind has the
    pending state in place of the empty string. *)
From S2P Require Import Prelude Values Domain World Demo StoreApi MemStore.

Section Storetest.
Context `{Env} `{Store St}.

(** ** The test monad *)
Definition T (A : Type) : Type := World St → option A * (list string * World St).
Definition tret {A} (a : A) : T A := λ w, (Some a, ([], w)).
Definition tbind {A B} (c : T A) (f : A → T B) : T B := λ w,
  match c w with
  | (None, (fs, w1)) => (None, (fs, w1))
  | (Some a, (fs, w1)) => let '(b, (gs, w2)) := f a w1 in (b, (fs ++ gs, w2))
  end.
Notation "'t*' x := c 'in' k" := (tbind c (λ x, k))
  (at level 10, x pattern, c at level 100, k at level 200).
Notation "'t!' c 'in' k" := (tbind c (λ _, k)) (at level 10, c at level 100, k at level 200).

(** Run a computation of the code; [t.Errorf] unless [b]; [t.Fatalf]. *)
Definition act {A} (c : M (World St) A) : T A := λ w, let '(a, w1) := c w in (Some a, ([], w1)).
Definition t_Errorf (b : bool) (what : string) : T unit := λ w,
  (Some tt, (if b then [] else [what], w)).
Definition t_Fatal {A} (what : string) : T A := λ w, (None, ([what], w)).
Definition t_Fatalf (b : bool) (what : string) : T unit := if b then tret tt else t_Fatal what.

(** [requireNoErr] on the error of a call, returning its value; [requireNotFound];
    and a call whose error is ignored, with the zero value. *)
Definition requireNoErr {A} (c : M (World St) (res A)) (what : string) : T A :=
  t* r := act c in
  match r with Ok a => tret a | Err _ => t_Fatal what end.
Definition isNotFound : err → bool := errors_As_NotFound.
Definition requireNotFound {A} (c : M (World St) (res A)) (what : string) : T unit :=
  t* r := act c in
  t_Fatalf (match r with Err e => isNotFound e | Ok _ => false end) what.
Definition ignoring {A} (zero : A) (c : M (World St) (res A)) : T A :=
  t* r := act c in tret (match r with Ok a => a | Err _ => zero end).

Fixpoint t_for {A} (f : A → T unit) (l : list A) : T unit :=
  match l with [] => tret tt | x :: l => t! f x in t_for f l end.

(** ** Helpers *)
Definition zero_run : SagaRun := NewSagaRun uuid_Nil 0 "" uuid_Nil None ∅.
Definition Second : Z := 1000000000.
Definition Minute : Z := 60 * Second.
Definition Hour : Z := 60 * Minute.

(** [storeNow]: cut to microseconds. *)
Definition storeNow : T Z := t* now := act timeNow in tret (now - now mod 1000)%Z.

Definition sameNumber (got : option Val) (want : Z) : bool :=
  match got with
  | Some (VInt v) | Some (VInt64 v) => bool_decide (v = want)
  | Some (VFloat f) => SFeqb f (f_of_Z want)
  | _ => false
  end.

Definition seedDef_at (createdAt : Z) (workflowID : string) (version : Z) (published : bool)
    : WorkflowDefinition :=
  mkDef workflowID version None workflowID "" "end" ∅
    [mkStep "end" StepTypeEnd "" "" ∅ None None ∅] published createdAt "".
(** The zero creation time. *)
Definition seedDef : string → Z → bool → WorkflowDefinition := seedDef_at (-62135596800 * Second).

Definition newRun (workflowID : string) : T SagaRun :=
  t* defID := requireNoErr (UpsertWorkflowDefinition (seedDef workflowID 1 true)) "newRun" in
  t* id_ := act uuidNew in
  t* now := act timeNow in
  tret (NewSagaRun id_ now workflowID defID None ∅).
Definition seedRun (workflowID : string) : T SagaRun :=
  t* r := newRun workflowID in
  t! requireNoErr (CreateRun r) "CreateRun" in tret r.

Definition decisionRule (id_ : uuid) (now : Z) (ruleID : string) (version : Z) (published : bool)
    : RuleDefinition :=
  mkRule id_ ruleID version None ruleID RuleTypeDecisionTable
    (mkSpec HitPolicyFirst [mkRow "x==1" {["branch" := VStr "a"]}] (Some {["branch" := VStr "b"]}))
    published now "by".

Definition containsID (ids : list uuid) (want : uuid) : bool := bool_decide (want ∈ ids).
Definition containsRun (runs : list SagaRun) (want : uuid) : bool :=
  existsb (λ r, bool_decide (run_ID r = want)) runs.
Definition hasEventType (evts : list SagaRunEvent) (want : EventType) : bool :=
  existsb (λ e, bool_decide (ev_EventType e = want)) evts.
Definition frameID (prefix : string) (n : Z) : string := prefix +:+ itoa n.

(** Adjacent elements never step up: the order checks of the suite. *)
Fixpoint never_after {A} (f : A → Z) (l : list A) : bool :=
  match l with
  | x :: ((y :: _) as l') => bool_decide (f y ≤ f x)%Z && never_after f l'
  | _ => true
  end.

(** ** Groups *)
Definition testDefinitions : T unit :=
  t* id_ := requireNoErr (UpsertWorkflowDefinition (seedDef "wf" 1 true)) "UpsertWorkflowDefinition" in
  t! t_Fatalf (bool_decide (id_ ≠ uuid_Nil)) "nil UUID" in
  t* got := requireNoErr (GetWorkflowDefinition id_) "GetWorkflowDefinition" in
  t! t_Errorf (bool_decide (def_ID got = "wf" ∧ def_Version got = 1%Z)) "GetWorkflowDefinition" in
  t* other := act uuidNew in
  requireNotFound (GetWorkflowDefinition other) "GetWorkflowDefinition(random)".

Definition all_defs : DefinitionFilter := mkDefFilter None "" 0 0.
Definition testListDefinitions : T unit :=
  t* now := act timeNow in
  let a := seedDef_at (now - 2 * Minute) "wf-list-a" 1 true in
  let b := seedDef_at (now - 1 * Minute) "wf-list-a" 2 false in
  let c := seedDef_at now "wf-list-b" 1 true in
  t! t_for (λ d, t! requireNoErr (UpsertWorkflowDefinition d) "UpsertWorkflowDefinition" in tret tt)
       [a; b; c] in
  t* all := requireNoErr (ListWorkflowDefinitions all_defs) "ListWorkflowDefinitions(all)" in
  t! t_Fatalf (length all =? 3) "ListWorkflowDefinitions(all)" in
  t! t_Errorf (never_after def_CreatedAt all) "not sorted CreatedAt DESC" in
  t! t_Errorf (match all with
               | d :: _ => bool_decide (def_ID d = "wf-list-b" ∧ def_Version d = 1%Z)
               | [] => false
               end) "newest" in
  t! t_Errorf (length (filter (λ d, def_ID d = "wf-list-a") all) =? 2) "no dedupe" in
  t* pub := requireNoErr (ListWorkflowDefinitions (mkDefFilter (Some true) "" 0 0)) "published" in
  t! t_Errorf (length pub =? 2) "published=true" in
  t! t_for (λ d, t_Errorf (def_Published d) "published filter returned draft") pub in
  t* drafts := requireNoErr (ListWorkflowDefinitions (mkDefFilter (Some false) "" 0 0)) "draft" in
  t_Errorf (match drafts with [d] => bool_decide (def_Version d = 2%Z) | _ => false end)
    "published=false".

Definition testPublishedWorkflow (publishedOnly : bool) : T unit :=
  t! requireNoErr (UpsertWorkflowDefinition (seedDef "wf" 1 true)) "upsert v1" in
  t! requireNoErr (UpsertWorkflowDefinition (seedDef "wf" 2 false)) "upsert v2" in
  t* got := requireNoErr (GetPublishedWorkflowByID "wf" None) "GetPublishedWorkflowByID" in
  t! t_Errorf (bool_decide (def_Version got = 1%Z) && def_Published got) "newest published" in
  t! requireNoErr (UpsertWorkflowDefinition (seedDef "draft" 1 false)) "upsert draft v1" in
  t! requireNoErr (UpsertWorkflowDefinition (seedDef "draft" 2 false)) "upsert draft v2" in
  t! (if publishedOnly
      then requireNotFound (GetPublishedWorkflowByID "draft" None) "GetPublishedWorkflowByID(draft)"
      else
        t* got := requireNoErr (GetPublishedWorkflowByID "draft" None)
                    "GetPublishedWorkflowByID(draft)" in
        t_Errorf (bool_decide (def_Version got = 2%Z)) "fallback lookup") in
  requireNotFound (GetPublishedWorkflowByID "unknown" None) "GetPublishedWorkflowByID(unknown)".

Definition with_Inputs (x : Vars) (r : SagaRun) : SagaRun :=
  mkRun (run_ID r) (run_WorkflowID r) (run_DefinitionID r) (run_TenantID r) (run_State r)
    (run_CurrentStep r) x (run_Variables r) (run_StartedAt r) (run_LastEventAt r)
    (run_TerminalAt r) (run_RequiresManualReview r) (run_TriggerID r) (run_ParentRunID r)
    (run_ParentStepID r) (run_ParentBranchID r) (run_TryCatchStack r) (run_DryRun r)
    (run_WakeupAt r) (run_AwaitedSignal r) (run_AwaitedEventTopic r) (run_AwaitedEventHeaders r)
    (run_FeatureOverrides r) (run_AwaitedActionDispatch r) (run_CurrentAttempt r) (run_LastError r).

Definition testRuns : T unit :=
  t* run := newRun "wf" in
  let run := with_Inputs {["seed" := VInt 1]} run in
  t! requireNoErr (CreateRun run) "CreateRun" in
  t* got := requireNoErr (GetRun (run_ID run)) "GetRun" in
  t! t_Errorf (bool_decide (run_ID got = run_ID run ∧ run_WorkflowID got = "wf")) "GetRun" in
  t! t_Errorf (sameNumber (run_Inputs got !! "seed") 1) "GetRun inputs" in
  t* other := act uuidNew in
  requireNotFound (GetRun other) "GetRun(random)".

Definition testRunState : T unit :=
  t* run := seedRun "wf" in
  t! requireNoErr (UpdateRunState (run_ID run) RunStateRunning "step2") "UpdateRunState" in
  t* got := requireNoErr (GetRun (run_ID run)) "GetRun" in
  t! t_Errorf (bool_decide (run_State got = RunStateRunning ∧ run_CurrentStep got = "step2"))
       "after UpdateRunState" in
  t* other := act uuidNew in
  requireNotFound (UpdateRunState other RunStateRunning "x") "UpdateRunState(random)".

Definition testRunVariables : T unit :=
  t* run := seedRun "wf" in
  t! requireNoErr (UpdateRunVariables (run_ID run) {["a" := VInt 1; "scope.x" := VInt 2]})
       "UpdateRunVariables" in
  t* got := requireNoErr (GetRun (run_ID run)) "GetRun" in
  t! t_Errorf (sameNumber (run_Variables got !! "a") 1) "Variables[a]" in
  t* scope := (match run_Variables got !! "scope" with
               | Some (VMap m) => tret m
               | _ => t_Fatal "Variables[scope]"
               end) in
  t! t_Errorf (sameNumber (scope !! "x") 2) "Variables[scope][x]" in
  t* other := act uuidNew in
  requireNotFound (UpdateRunVariables other {["a" := VInt 1]}) "UpdateRunVariables(random)".

Definition testEvents : T unit :=
  t* run := seedRun "wf" in
  let runID := run_ID run in
  t* e1 := act (NewEvent runID "s1" 0 EventStepSucceeded "engine") in
  t* e2 := act (NewEvent runID "s2" 1 EventStepSucceeded "engine") in
  t! requireNoErr (AppendEvent e1) "AppendEvent e1" in
  t! requireNoErr (AppendEvent e2) "AppendEvent e2" in
  t* evts := requireNoErr (ListEventsByRun runID) "ListEventsByRun" in
  t! t_Errorf (bool_decide (ev_ID <$> evts = [ev_ID e1; ev_ID e2])) "append order" in
  t* other := act uuidNew in
  t* empty := requireNoErr (ListEventsByRun other) "ListEventsByRun(unknown)" in
  t! t_Errorf (length empty =? 0) "ListEventsByRun(unknown)" in
  t* got := requireNoErr (GetEventByID (ev_ID e1)) "GetEventByID" in
  t! t_Errorf (bool_decide (ev_ID got = ev_ID e1)) "GetEventByID" in
  t* other := act uuidNew in
  requireNotFound (GetEventByID other) "GetEventByID(random)".

Definition testRules (publishedOnly : bool) : T unit :=
  t* now := act timeNow in
  t* gen := requireNoErr (UpsertRuleDefinition (decisionRule uuid_Nil now "r" 1 true))
              "UpsertRuleDefinition(zero id)" in
  t! t_Fatalf (bool_decide (gen ≠ uuid_Nil)) "nil UUID" in
  t* id2 := act uuidNew in
  let preset := decisionRule id2 now "r2" 1 true in
  t* got_id := requireNoErr (UpsertRuleDefinition preset) "UpsertRuleDefinition(preset id)" in
  t! t_Errorf (bool_decide (got_id = id2)) "preserved id" in
  t! requireNoErr (UpsertRuleDefinition preset) "re-upsert preset id" in
  t* got := requireNoErr (GetPublishedRuleByID "r2" None) "GetPublishedRuleByID(r2)" in
  t! t_Errorf (bool_decide (rule_ID got = id2)) "GetPublishedRuleByID(r2)" in
  t* got := requireNoErr (GetPublishedRuleByID "r" None) "GetPublishedRuleByID(r)" in
  t! t_Errorf (rule_Published got && bool_decide (rule_RuleID got = "r")) "published rule r" in
  t* i1 := act uuidNew in
  t* i2 := act uuidNew in
  t! requireNoErr (UpsertRuleDefinition (decisionRule i1 now "draft" 1 false)) "upsert draft v1" in
  t! requireNoErr (UpsertRuleDefinition (decisionRule i2 now "draft" 2 false)) "upsert draft v2" in
  t! (if publishedOnly
      then requireNotFound (GetPublishedRuleByID "draft" None) "GetPublishedRuleByID(draft)"
      else
        t* got := requireNoErr (GetPublishedRuleByID "draft" None) "GetPublishedRuleByID(draft)" in
        t_Errorf (bool_decide (rule_Version got = 2%Z)) "rule fallback") in
  requireNotFound (GetPublishedRuleByID "unknown" None) "GetPublishedRuleByID(unknown)".

Definition testPauseWakeup : T unit :=
  t* run := seedRun "wf" in
  let id_ := run_ID run in
  t* now := storeNow in
  let wakeup := (now + Minute)%Z in
  t! requireNoErr (SetPausedWithWakeup id_ wakeup) "SetPausedWithWakeup" in
  t* got := requireNoErr (GetRun id_) "GetRun" in
  t! t_Errorf (bool_decide (run_State got = RunStatePaused)) "state" in
  t! t_Errorf (bool_decide (run_WakeupAt got = Some wakeup)) "WakeupAt" in
  t* ids := requireNoErr (FindRunsByDueWakeup (wakeup + Second) 10) "FindRunsByDueWakeup(after)" in
  t! t_Errorf (containsID ids id_) "FindRunsByDueWakeup(after)" in
  t* ids := requireNoErr (FindRunsByDueWakeup (wakeup - Minute) 10) "FindRunsByDueWakeup(before)" in
  t! t_Errorf (negb (containsID ids id_)) "FindRunsByDueWakeup(before)" in
  t! t_for (λ _, t* r := seedRun "wf" in
                 requireNoErr (SetPausedWithWakeup (run_ID r) wakeup) "extra") [0; 1; 2] in
  t* limited := requireNoErr (FindRunsByDueWakeup (wakeup + Second) 2) "FindRunsByDueWakeup(limit)" in
  t_Errorf (length limited <=? 2) "limit 2".

Definition testSignals : T unit :=
  t* run := seedRun "wf" in
  let id_ := run_ID run in
  t! requireNoErr (SetPausedAwaitingSignal id_ "go" None) "SetPausedAwaitingSignal" in
  t* got := requireNoErr (GetRun id_) "GetRun" in
  t! t_Errorf (bool_decide (run_State got = RunStatePaused)) "state" in
  t! t_Errorf (bool_decide (run_AwaitedSignal got = Some "go")) "AwaitedSignal" in
  t* ok := requireNoErr (TryConsumeAwaitedSignal id_ "nope") "TryConsumeAwaitedSignal(wrong)" in
  t! t_Errorf (negb ok) "TryConsumeAwaitedSignal(wrong name)" in
  t* ok := requireNoErr (TryConsumeAwaitedSignal id_ "go") "TryConsumeAwaitedSignal(go)" in
  t! t_Errorf ok "TryConsumeAwaitedSignal(go)" in
  t* got := ignoring zero_run (GetRun id_) in
  t! t_Errorf (bool_decide (run_AwaitedSignal got = None)) "AwaitedSignal after consume" in
  t* ok := requireNoErr (TryConsumeAwaitedSignal id_ "go") "TryConsumeAwaitedSignal(second)" in
  t! t_Errorf (negb ok) "second TryConsumeAwaitedSignal" in
  t* sid := act uuidNew in
  t* now := act timeNow in
  requireNoErr (AppendSignal (mkSignal sid id_ "go" ∅ now None)) "AppendSignal".

Definition testAwaitedEvent : T unit :=
  t* run := seedRun "wf" in
  let id_ := run_ID run in
  t! requireNoErr (SetPausedAwaitingEvent id_ "topic" {["k" := "v"]}) "SetPausedAwaitingEvent" in
  t* got := requireNoErr (GetRun id_) "GetRun" in
  t! t_Errorf (bool_decide (run_State got = RunStatePaused)) "state" in
  t* runs := requireNoErr (FindRunsByAwaitedEvent "topic") "FindRunsByAwaitedEvent(topic)" in
  t! t_Errorf (containsRun runs id_) "FindRunsByAwaitedEvent(topic)" in
  t* other := requireNoErr (FindRunsByAwaitedEvent "other") "FindRunsByAwaitedEvent(other)" in
  t! t_Errorf (negb (containsRun other id_)) "FindRunsByAwaitedEvent(other)" in
  t* run2 := seedRun "wf" in
  t* now := storeNow in
  let deadline := (now + Hour)%Z in
  t! requireNoErr (SetPausedAwaitingEventWithDeadline (run_ID run2) "topic2" {["a" := "b"]}
                     (Some deadline)) "SetPausedAwaitingEventWithDeadline" in
  t* got2 := ignoring zero_run (GetRun (run_ID run2)) in
  t_Errorf (bool_decide (run_WakeupAt got2 = Some deadline)) "WakeupAt".

(** The wait markers are cleared. *)
Definition no_markers (r : SagaRun) : bool :=
  bool_decide (run_WakeupAt r = None ∧ run_AwaitedSignal r = None ∧
               run_AwaitedEventTopic r = None ∧ run_AwaitedEventHeaders r = ∅).

Definition testClearAndWake : T unit :=
  t* run := seedRun "wf" in
  t* now := act timeNow in
  t! requireNoErr (SetPausedAwaitingEventWithDeadline (run_ID run) "topic" {["k" := "v"]}
                     (Some (now + Hour)%Z)) "set awaiting event" in
  t! requireNoErr (ClearPause (run_ID run)) "ClearPause" in
  t* got := ignoring zero_run (GetRun (run_ID run)) in
  t! t_Errorf (bool_decide (run_State got = RunStateRunning)) "ClearPause state" in
  t! t_Errorf (no_markers got) "ClearPause markers" in
  t* other := act uuidNew in
  t! requireNotFound (ClearPause other) "ClearPause(random)" in
  t* run2 := seedRun "wf" in
  t* now := act timeNow in
  t! requireNoErr (SetPausedAwaitingSignal (run_ID run2) "go" (Some (now + Hour)%Z))
       "set awaiting signal" in
  t! requireNoErr (WakeFromExternal (run_ID run2)) "WakeFromExternal" in
  t* got2 := ignoring zero_run (GetRun (run_ID run2)) in
  t! t_Errorf (bool_decide (run_State got2 = RunStatePaused)) "WakeFromExternal state" in
  t! t_Errorf (no_markers got2) "WakeFromExternal markers" in
  t* other := act uuidNew in
  requireNotFound (WakeFromExternal other) "WakeFromExternal(random)".

Definition testChildRuns : T unit :=
  t* parent := seedRun "wf-parent" in
  let pid := run_ID parent in
  let childDef := seedDef "wf-child" 1 true in
  t! requireNoErr (UpsertWorkflowDefinition childDef) "UpsertWorkflowDefinition(wf-child)" in
  t* childID := requireNoErr (SpawnChildRun pid "stepA" "b0" childDef {["in" := VInt 1]})
                  "SpawnChildRun" in
  t* child := requireNoErr (GetRun childID) "GetRun(child)" in
  t! t_Errorf (bool_decide (run_ParentRunID child = Some pid)) "child ParentRunID" in
  t! t_Errorf (bool_decide (run_ParentStepID child = Some "stepA")) "child ParentStepID" in
  t! requireNoErr (SpawnChildRun pid "stepB" "b0" childDef ∅) "SpawnChildRun(other step)" in
  t* children := requireNoErr (ListChildrenByParent pid "stepA") "ListChildrenByParent" in
  t! t_Errorf (bool_decide (run_ID <$> children = [childID])) "ListChildrenByParent(stepA)" in
  t* atID := requireNoErr (SpawnChildRunAt pid "stepC" "b0" childDef ∅ "startStep")
               "SpawnChildRunAt" in
  t* at_ := ignoring zero_run (GetRun atID) in
  t_Errorf (bool_decide (run_CurrentStep at_ = "startStep")) "SpawnChildRunAt CurrentStep".

Definition testTryCatch : T unit :=
  t* run := seedRun "wf" in
  let id_ := run_ID run in
  t! t_for (λ i, requireNoErr (PushTryCatch id_ (mkFrame (frameID "t" i) (frameID "c" i)))
                   "PushTryCatch") [1; 2; 3]%Z in
  t* r := act (PushTryCatch id_ (mkFrame "t4" "c4")) in
  t! t_Errorf (negb (is_Ok r)) "PushTryCatch 4th frame" in
  t* f := requireNoErr (PopTryCatch id_) "PopTryCatch" in
  t! t_Errorf (bool_decide (frame_StepID <$> f = Some "t3")) "PopTryCatch t3" in
  t* f := ignoring None (PopTryCatch id_) in
  t! t_Errorf (bool_decide (frame_StepID <$> f = Some "t2")) "PopTryCatch t2" in
  t* f := ignoring None (PopTryCatch id_) in
  t! t_Errorf (match f with Some _ => true | None => false end) "PopTryCatch t1" in
  t* f := requireNoErr (PopTryCatch id_) "PopTryCatch(empty)" in
  t! t_Errorf (match f with Some _ => false | None => true end) "PopTryCatch(empty)" in
  t* other := act uuidNew in
  t! requireNotFound (PushTryCatch other (mkFrame "x" "")) "PushTryCatch(random)" in
  t* other := act uuidNew in
  requireNotFound (PopTryCatch other) "PopTryCatch(random)".

Definition new_task (id_ runID : uuid) (stepID assignee : string) : UserTask :=
  mkTask id_ runID stepID assignee None ∅ None "" ∅.
Definition zero_task : UserTask := new_task uuid_Nil uuid_Nil "" "".

Definition testUserTasks : T unit :=
  t* run := seedRun "wf" in
  t* tid := act uuidNew in
  t! requireNoErr (CreateUserTask (new_task tid (run_ID run) "approve" "bob")) "CreateUserTask" in
  t* got := requireNoErr (GetUserTask tid) "GetUserTask" in
  t! t_Errorf (bool_decide (task_ID got = tid ∧ task_Assignee got = "bob")) "GetUserTask" in
  t* other := act uuidNew in
  t! requireNotFound (GetUserTask other) "GetUserTask(random)" in
  t! requireNoErr (SubmitUserTask tid "alice" {["vote" := VStr "approve"]}) "SubmitUserTask" in
  t* got := ignoring zero_task (GetUserTask tid) in
  t! t_Errorf (bool_decide (task_SubmittedAt got ≠ None)) "SubmittedAt" in
  t! t_Errorf (bool_decide (task_SubmittedBy got = "alice")) "SubmittedBy" in
  t! t_Errorf (match task_Result got !! "vote" with
               | Some (VStr s) => bool_decide (s = "approve")
               | _ => false
               end) "Result" in
  t* other := act uuidNew in
  t! requireNotFound (SubmitUserTask other "x" ∅) "SubmitUserTask(random)" in
  t* tid2 := act uuidNew in
  t! requireNoErr (CreateUserTask (new_task tid2 (run_ID run) "approve2" "carol"))
       "CreateUserTask task2" in
  t* otherRun := seedRun "wf" in
  t* tid3 := act uuidNew in
  t! requireNoErr (CreateUserTask (new_task tid3 (run_ID otherRun) "x" "dan")) "CreateUserTask other" in
  t* tasks := requireNoErr (ListUserTasksByRun (run_ID run)) "ListUserTasksByRun" in
  t! t_Errorf (length tasks =? 2) "ListUserTasksByRun" in
  t_for (λ tk, t_Errorf (bool_decide (task_RunID tk = run_ID run)) "other run's task") tasks.

Definition testRunCancel : T unit :=
  t* run := seedRun "wf" in
  let id_ := run_ID run in
  t* now := act timeNow in
  t! requireNoErr (SetPausedAwaitingSignal id_ "approve" (Some (now + Hour)%Z))
       "SetPausedAwaitingSignal" in
  t* tid := act uuidNew in
  t! requireNoErr (CreateUserTask (new_task tid id_ "approve" "bob")) "CreateUserTask" in
  t! requireNoErr (CancelRun id_ "withdrawn") "Cancel" in
  t* got := requireNoErr (GetRun id_) "GetRun after cancel" in
  t! t_Errorf (bool_decide (run_State got = RunStateCancelled)) "State" in
  t! t_Errorf (bool_decide (run_TerminalAt got ≠ None)) "TerminalAt" in
  t! t_Errorf (bool_decide (run_LastError got = Some "withdrawn")) "LastError" in
  t! t_Errorf (bool_decide (run_AwaitedSignal got = None ∧ run_WakeupAt got = None))
       "await markers" in
  t* gotTask := requireNoErr (GetUserTask tid) "GetUserTask after cancel" in
  t! t_Errorf (bool_decide (task_SubmittedAt gotTask ≠ None)) "user task SubmittedAt" in
  t! requireNoErr (CancelRun id_ "again") "Cancel idempotent" in
  t* got2 := ignoring zero_run (GetRun id_) in
  t! t_Errorf (bool_decide (run_LastError got2 = Some "withdrawn")) "LastError changed" in
  t* other := act uuidNew in
  requireNotFound (CancelRun other "x") "Cancel(missing run)".

Definition testMarkRunFailed : T unit :=
  t* run := seedRun "wf" in
  let id_ := run_ID run in
  t! requireNoErr (MarkRunFailed id_ "charge" "card declined") "MarkRunFailed" in
  t* got := requireNoErr (GetRun id_) "GetRun after fail" in
  t! t_Errorf (bool_decide (run_State got = RunStateFailed)) "State" in
  t! t_Errorf (bool_decide (run_TerminalAt got ≠ None)) "TerminalAt" in
  t! t_Errorf (bool_decide (run_LastError got = Some "card declined")) "LastError" in
  t! t_Errorf (bool_decide (run_CurrentStep got = "charge")) "CurrentStep" in
  t! requireNoErr (MarkRunFailed id_ "other" "second error") "MarkRunFailed idempotent" in
  t* got2 := ignoring zero_run (GetRun id_) in
  t! t_Errorf (bool_decide (run_LastError got2 = Some "card declined")) "LastError changed" in
  t* other := act uuidNew in
  requireNotFound (MarkRunFailed other "s" "e") "MarkRunFailed(missing run)".

Definition registration (service name category transport address : string) : ActionRegistration :=
  mkAction uuid_Nil service name 1 "" category false ∅ ∅ [] None 0 false None "" false "" transport
    address.
Definition act_names (l : list ActionRegistration) : list string := act_ActionName <$> l.

Definition testActionRegistry : T unit :=
  t! t_for (λ r, requireNoErr (UpsertActionRegistration r) "UpsertActionRegistration")
       [registration "svc1" "create_order" "orders" TransportHTTP "https://svc1.local/create_order";
        registration "svc1" "cancel_order" "orders" "" "";
        registration "svc2" "send_email" "comms" TransportRMQ "svc2.send_email.q"] in
  t* got := requireNoErr (GetAction "svc1" "create_order" 1) "GetAction" in
  t! t_Errorf (bool_decide (act_Service got = "svc1" ∧ act_ActionName got = "create_order"))
       "GetAction" in
  t! t_Errorf (bool_decide (act_Transport got = TransportHTTP ∧
                            act_Address got = "https://svc1.local/create_order")) "dispatch" in
  t* plain := requireNoErr (GetAction "svc1" "cancel_order" 1) "GetAction(cancel_order)" in
  t! t_Errorf (bool_decide (act_Transport plain = "" ∧ act_Address plain = "")) "no descriptor" in
  t! requireNotFound (GetAction "svc1" "missing" 1) "GetAction(missing)" in
  t* all := requireNoErr (ListActions (mkActionFilter "" "" "")) "ListActions(empty)" in
  t! t_Errorf (length all =? 3) "ListActions(empty)" in
  t* bySvc := ignoring [] (ListActions (mkActionFilter "svc1" "" "")) in
  t! t_Errorf (length bySvc =? 2) "ListActions(Service=svc1)" in
  t* byCat := ignoring [] (ListActions (mkActionFilter "" "" "comms")) in
  t! t_Errorf (bool_decide (act_names byCat = ["send_email"])) "ListActions(Category=comms)" in
  t* bySearch := ignoring [] (ListActions (mkActionFilter "" "order" "")) in
  t! t_Errorf (length bySearch =? 2) "ListActions(Search=order)" in
  t* caseSensitive := ignoring [] (ListActions (mkActionFilter "" "ORDER" "")) in
  t_Errorf (length caseSensitive =? 0) "ListActions(Search=ORDER)".

Definition testActionDispatch : T unit :=
  t* run := seedRun "wf" in
  let id_ := run_ID run in
  t! requireNoErr (MarkAwaitingAction id_ "svc.name" 1) "MarkAwaitingAction" in
  t* got := ignoring zero_run (GetRun id_) in
  t! t_Errorf (bool_decide (run_State got = RunStatePaused)) "state" in
  t! t_Errorf (bool_decide (run_CurrentAttempt got = 1%Z)) "CurrentAttempt" in
  t! requireNoErr (MarkAwaitingAction id_ "svc.name" 1) "MarkAwaitingAction(repeat)" in
  t* got := ignoring zero_run (GetRun id_) in
  t! t_Errorf (bool_decide (run_CurrentAttempt got = 1%Z)) "CurrentAttempt after repeat" in
  t! requireNoErr (CompleteAction id_ 1 {["k" := VStr "v"]}) "CompleteAction(match)" in
  t* got := ignoring zero_run (GetRun id_) in
  t! t_Errorf (match run_Variables got !! "k" with
               | Some (VStr v) => bool_decide (v = "v")
               | _ => false
               end) "Variables[k]" in
  t* run2 := seedRun "wf" in
  t! requireNoErr (MarkAwaitingAction (run_ID run2) "svc.name" 1) "MarkAwaitingAction run2" in
  t! requireNoErr (CompleteAction (run_ID run2) 99 {["late" := VBool true]})
       "CompleteAction(mismatch)" in
  t* got2 := ignoring zero_run (GetRun (run_ID run2)) in
  t! t_Errorf (match run_Variables got2 !! "late" with None | Some VNil => true | _ => false end)
       "mismatched CompleteAction" in
  t* other := act uuidNew in
  t! requireNotFound (CompleteAction other 1 ∅) "CompleteAction(random)" in
  t* run3 := seedRun "wf" in
  t! requireNoErr (MarkAwaitingAction (run_ID run3) "svc.name" 1) "MarkAwaitingAction run3" in
  t! requireNoErr (FailAction (run_ID run3) 1 "code" "msg" false) "FailAction(match)" in
  t* got3 := ignoring zero_run (GetRun (run_ID run3)) in
  t! t_Errorf (bool_decide (run_State got3 = RunStateFailed)) "FailAction state" in
  t* evts := ignoring [] (ListEventsByRun (run_ID run3)) in
  t! t_Errorf (hasEventType evts EventStepFailed) "FailAction event" in
  t* run4 := seedRun "wf" in
  t! requireNoErr (MarkAwaitingAction (run_ID run4) "svc.name" 1) "MarkAwaitingAction run4" in
  t! requireNoErr (FailAction (run_ID run4) 99 "code" "msg" false) "FailAction(mismatch)" in
  t* got4 := ignoring zero_run (GetRun (run_ID run4)) in
  t! t_Errorf (bool_decide (run_State got4 ≠ RunStateFailed)) "mismatched FailAction" in
  t* other := act uuidNew in
  requireNotFound (FailAction other 1 "c" "m" false) "FailAction(random)".

Definition new_trigger (workflowID : string) (enabled : bool) (tenant : uuid) : SagaTrigger :=
  mkTrigger uuid_Nil TriggerRecordTransition workflowID 0 ∅ enabled (Some tenant) None "" None None.

Definition testTriggers : T unit :=
  t* tenant := act uuidNew in
  t* id_ := requireNoErr (UpsertTrigger (new_trigger "wf" true tenant)) "UpsertTrigger(zero id)" in
  t! t_Fatalf (bool_decide (id_ ≠ uuid_Nil)) "nil UUID" in
  t* got := requireNoErr (GetTrigger id_) "GetTrigger" in
  t! t_Errorf (bool_decide (trig_WorkflowID got = "wf" ∧
                            trig_TriggerType got = TriggerRecordTransition)) "GetTrigger" in
  t* other := act uuidNew in
  t! requireNotFound (GetTrigger other) "GetTrigger(random)" in
  t* otherTenant := act uuidNew in
  t! requireNoErr (UpsertTrigger (new_trigger "wf2" false otherTenant)) "UpsertTrigger(disabled)" in
  t* byType := ignoring [] (ListTriggers (mkTriggerFilter TriggerRecordTransition None None)) in
  t! t_Errorf (length byType =? 2) "ListTriggers(Type)" in
  t* byEnabled := ignoring [] (ListTriggers (mkTriggerFilter "" (Some true) None)) in
  t! t_Errorf (bool_decide (trig_ID <$> byEnabled = [id_])) "ListTriggers(Enabled=true)" in
  t* byTenant := ignoring [] (ListTriggers (mkTriggerFilter "" None (Some tenant))) in
  t! t_Errorf (bool_decide (trig_ID <$> byTenant = [id_])) "ListTriggers(TenantID)" in
  t! requireNoErr (DeleteTrigger id_) "DeleteTrigger" in
  t! requireNotFound (GetTrigger id_) "GetTrigger(after delete)" in
  t* other := act uuidNew in
  requireNotFound (DeleteTrigger other) "DeleteTrigger(random)".

Definition started (startedAt : Z) (st : RunState) (r : SagaRun) : SagaRun :=
  mkRun (run_ID r) (run_WorkflowID r) (run_DefinitionID r) (run_TenantID r) st
    (run_CurrentStep r) (run_Inputs r) (run_Variables r) startedAt startedAt
    (run_TerminalAt r) (run_RequiresManualReview r) (run_TriggerID r) (run_ParentRunID r)
    (run_ParentStepID r) (run_ParentBranchID r) (run_TryCatchStack r) (run_DryRun r)
    (run_WakeupAt r) (run_AwaitedSignal r) (run_AwaitedEventTopic r) (run_AwaitedEventHeaders r)
    (run_FeatureOverrides r) (run_AwaitedActionDispatch r) (run_CurrentAttempt r) (run_LastError r).
(** [mk] of [testListRuns] and [testStats]. *)
Definition mk_run (wf : string) (st : RunState) (startedAt : Z) : T SagaRun :=
  t* r := newRun wf in tret (started startedAt st r).

Definition run_filter (wf st : string) (since : option Z) (limit offset : Z) : RunFilter :=
  mkRunFilter wf st "" since None None limit offset.

Definition testListRuns : T unit :=
  t* now := act timeNow in
  t* a1 := mk_run "wf-a" RunStateSucceeded (now - 1 * Minute) in
  t* a2 := mk_run "wf-a" RunStateRunning (now - 2 * Minute) in
  t* a3 := mk_run "wf-a" RunStateFailed (now - 3 * Minute) in
  t* b1 := mk_run "wf-b" RunStateSucceeded (now - 30 * Minute) in
  t! t_for (λ r, requireNoErr (CreateRun r) "CreateRun") [a1; a2; a3; b1] in
  t* runs := requireNoErr (ListRuns (run_filter "wf-a" "" None 0 0)) "ListRuns(WorkflowID)" in
  t! t_Fatalf (length runs =? 3) "ListRuns(wf-a)" in
  t! t_for (λ r, t_Errorf (bool_decide (run_WorkflowID r = "wf-a")) "other workflow") runs in
  t! t_Errorf (never_after run_StartedAt runs) "not sorted StartedAt DESC" in
  t* failed := ignoring [] (ListRuns (run_filter "" "failed" None 0 0)) in
  t! t_Errorf (bool_decide (run_ID <$> failed = [run_ID a3])) "ListRuns(State=failed)" in
  t* recent := ignoring [] (ListRuns (run_filter "" "" (Some (now - 10 * Minute)%Z) 0 0)) in
  t! t_Errorf (length recent =? 3) "ListRuns(Since=-10m)" in
  t* page1 := ignoring [] (ListRuns (run_filter "wf-a" "" None 2 0)) in
  t* page2 := ignoring [] (ListRuns (run_filter "wf-a" "" None 2 2)) in
  t! t_Errorf ((length page1 =? 2) && (length page2 =? 1)) "pagination" in
  t* deflt := ignoring [] (ListRuns (run_filter "" "" None 0 0)) in
  t! t_Errorf (length deflt =? 4) "ListRuns(default limit)" in
  t* count := requireNoErr (CountRuns (run_filter "wf-a" "" None 1 1)) "CountRuns" in
  t_Errorf (bool_decide (count = 3%Z)) "CountRuns(wf-a)".

Definition testListRunsNullCurrentStep : T unit :=
  t* nullStep := newRun "wf-nullstep" in
  t! requireNoErr (CreateRun nullStep) "CreateRun(null step)" in
  t* withStep := newRun "wf-nullstep" in
  t! requireNoErr (CreateRun (set_run_CurrentStep "step1" (set_run_State RunStateRunning withStep)))
       "CreateRun(with step)" in
  t* runs := requireNoErr (ListRuns (run_filter "wf-nullstep" "" None 0 0))
               "ListRuns(null current_step)" in
  t! t_Fatalf (length runs =? 2) "ListRuns(wf-nullstep)" in
  t! t_for (λ r, t_Errorf (bool_decide (run_ID r = run_ID nullStep → run_CurrentStep r = ""))
                   "null-step run CurrentStep") runs in
  t_Errorf (containsRun runs (run_ID nullStep)) "null-current_step run".

Definition testStats : T unit :=
  t* now := storeNow in
  t! t_for (λ '(st, ago), t* r := mk_run "wf-stat" st (now - ago) in
                          requireNoErr (CreateRun r) "seed")
       [(RunStateSucceeded, 1 * Hour); (RunStateSucceeded, 2 * Hour); (RunStateSucceeded, 3 * Hour);
        (RunStateFailed, 4 * Hour); (RunStateRunning, 10 * Minute); (RunStatePaused, 20 * Minute);
        (RunStateSucceeded, 30 * Hour)]%Z in
  t* stats := requireNoErr (StatsForWorkflow "wf-stat") "StatsForWorkflow" in
  t! t_Errorf (bool_decide (st_WorkflowID stats = "wf-stat")) "WorkflowID" in
  t! t_Errorf (bool_decide (st_InFlight stats = 2%Z)) "InFlight" in
  t* rate := (match st_SuccessRate24h stats with
              | Some r => tret r
              | None => t_Fatal "SuccessRate24h"
              end) in
  (* |succeeded / total - 0.75| <= 0.001 *)
  t! t_Errorf (bool_decide (Z.abs (1000 * rate.1 - 750 * rate.2) ≤ rate.2)%Z) "SuccessRate24h" in
  t* last_ := (match st_LastRunAt stats with
               | Some t => tret t
               | None => t_Fatal "LastRunAt"
               end) in
  t! t_Errorf (bool_decide (last_ = now - 10 * Minute)%Z) "LastRunAt" in
  t* empty := requireNoErr (StatsForWorkflow "no-such-wf") "StatsForWorkflow(empty)" in
  t! t_Errorf (bool_decide (st_SuccessRate24h empty = None)) "SuccessRate24h(empty)" in
  t! t_Errorf (bool_decide (st_LastRunAt empty = None)) "LastRunAt(empty)" in
  t_Errorf (bool_decide (st_InFlight empty = 0%Z)) "InFlight(empty)".

(** ** RunSuite *)
Definition groups (publishedOnly : bool) : list (string * T unit) :=
  [("Definitions", testDefinitions); ("ListDefinitions", testListDefinitions);
   ("PublishedWorkflow", testPublishedWorkflow publishedOnly); ("Runs", testRuns);
   ("RunState", testRunState); ("RunVariables", testRunVariables); ("Events", testEvents);
   ("Rules", testRules publishedOnly); ("PauseWakeup", testPauseWakeup); ("Signals", testSignals);
   ("AwaitedEvent", testAwaitedEvent); ("ClearAndWake", testClearAndWake);
   ("ChildRuns", testChildRuns); ("TryCatch", testTryCatch); ("UserTasks", testUserTasks);
   ("RunCancel", testRunCancel); ("MarkRunFailed", testMarkRunFailed);
   ("ActionRegistry", testActionRegistry); ("ActionDispatch", testActionDispatch);
   ("Triggers", testTriggers); ("ListRuns", testListRuns);
   ("ListRunsNullCurrentStep", testListRunsNullCurrentStep); ("Stats", testStats)].

(** Every group on a fresh process: the failures of those that failed. *)
Definition RunSuite (newStore : World St) (publishedOnly : bool) : list (string * list string) :=
  filter (λ r, r.2 ≠ []) ((λ '(name, fn), (name, (fn newStore).2.1)) <$> groups publishedOnly).
End Storetest.

(** ** The in-memory store passes the suite *)
#[local] Existing Instance demo_env.

(** A process started at [now] on an empty store. *)
Definition fresh (now : Z) : World MemStore := mkWorld New now now 0 0 0 [].

(** The in-memory store meets the contract of [storetest.RunSuite]: all 23 groups
    pass on a fresh store, at the epoch and at a time with nanoseconds that the suite
    has to cut; declared [PublishedOnly], it fails exactly the two groups in which its
    lookups fall back to the newest draft. *)
Theorem mem_passes_suite :
  Forall (λ now, RunSuite (fresh now) false = [] ∧
                 RunSuite (fresh now) true =
                   [("PublishedWorkflow", ["GetPublishedWorkflowByID(draft)"]);
                    ("Rules", ["GetPublishedRuleByID(draft)"])])
    [0; 1767225600123456789]%Z.
Proof. repeat constructor; by vm_compute. Qed.
