(* ===== verification/RedisConformance.v ===== *)
(** The Redis store as a whole: its keys never collide, what it reads back of a run, and,
    over a concrete server that meets the laws, the conformance suite and samples of the
    other theorems. *)
From S2P Require Import Prelude Values Domain World Demo StoreApi Rows StoreSpec MemStore Sorting.
From S2P Require Import MemInv MemRows Json JsonProps RedisDB Redis RedisProps RedisRaces.
From S2P Require Import RedisRows RedisIndex Storetest.

(** ** Keys *)

(** The parts that come before another one, or could be taken for two, are uuids. *)
Definition plain_ids (k : rkey) : Prop :=
  match k with KDef id | KRule id | KChildren id _ => char_free ":" id | _ => True end.

Fixpoint joined (ps : list string) : string :=
  match ps with [] => "" | p :: ps => ":" +:+ p +:+ joined ps end.
Lemma key_joined prefix p ps : key prefix (p :: ps) = prefix +:+ p +:+ joined ps.
Proof.
  assert (∀ ps i k, 0 < i → key_loop i k ps = k +:+ joined ps) as Hgo.
  { clear. intros ps. induction ps as [|p ps IH]; intros i k Hi; simpl.
    - by rewrite string_app_nil_r.
    - rewrite IH, decide_True by lia. by rewrite !string_app_assoc. }
  unfold key. cbn [key_loop]. rewrite Hgo, decide_False by lia. by rewrite string_app_assoc.
Qed.

Lemma colon_cut a a' b b' :
  char_free ":" a → char_free ":" a' → a +:+ ":" +:+ b = a' +:+ ":" +:+ b' → a = a' ∧ b = b'.
Proof.
  revert a'. induction a as [|c a IH]; intros [|c' a'] Ha Ha' E; simpl in *.
  - by injection E.
  - injection E as E _. destruct Ha'. congruence.
  - injection E as E _. destruct Ha. congruence.
  - injection E as -> E. destruct Ha, Ha'. by destruct (IH a') as [-> ->].
Qed.

(** The layout keeps data apart: two keys are equal only when they are the same key. *)
Theorem key_injective prefix k k' :
  plain_ids k → plain_ids k' →
  key prefix (key_parts k) = key prefix (key_parts k') → k = k'.
Proof.
  intros Hk Hk' E.
  assert (∀ k, ∃ p ps, key_parts k = p :: ps) as Hp by (intros []; simpl; eauto).
  destruct (Hp k) as (p & ps & Ep), (Hp k') as (q & qs & Eq).
  rewrite Ep, Eq, !key_joined in E. apply string_app_inj_l in E.
  destruct k, k'; simplify_eq/=; try done.
  all: rewrite ?string_app_nil_r in E.
  all: try congruence.
  all: try (subst; simpl in *; naive_solver).
  by destruct (colon_cut _ _ _ _ Hk Hk' E) as [-> ->].
Qed.
(** ** What is read back *)
Section Roundtrip.
Context `{EnvLaws} `{JsonLaws} `{RedisLaws}.
Implicit Types w : World Redis.

Lemma create_get r j w :
  json_run r = Some j →
  ∃ w', redis_CreateRun r w = (Ok tt, w') ∧ (redis_GetRun (run_ID r) w').1 = Ok j.
Proof.
  intros Hj. unfold redis_CreateRun. rewrite Hj. eexists. split; [done|].
  unfold redis_GetRun, bind, get, read, getJSON, get_store, ret; simpl.
  rewrite !text_cmd, 2!cmd_text_other, cmd_text_set by done. by rewrite decide_True.
Qed.
Definition storable_run (r : SagaRun) : Prop :=
  storable_vars (run_Inputs r) ∧ storable_vars (run_Variables r).
Definition json_normal_run (r : SagaRun) : Prop :=
  json_normal_vars (run_Inputs r) ∧ json_normal_vars (run_Variables r).
(** The run with its inputs and variables as JSON leaves them. *)
Definition image_run (r : SagaRun) : SagaRun :=
  with_run_any (image_vars (run_Inputs r)) (image_vars (run_Variables r)) r.
Lemma json_run_image r : storable_run r → json_run r = Some (image_run r).
Proof. intros [Hi Hv]. unfold json_run. by rewrite !json_vars_image by done. Qed.
Lemma normal_run_image r : json_normal_run r → image_run r = r ∧ storable_run r.
Proof.
  intros [Hi Hv]. apply normal_vars_image in Hi as [Ei Hi], Hv as [Ev Hv].
  split; [|done]. unfold image_run. rewrite Ei, Ev. by destruct r.
Qed.

(** C25: A run whose values JSON can hold (64-bit ints, finite floats, no other Go types) is
    written, and read back with its inputs and variables value by value as [json_image]: an
    int of any width is an [int] again, and so is a float that prints as one (a whole float,
    also -0), every other float is itself, [[]string] and [map[string]string] are [[]any] and
    [map[string]any], at any depth.  Written and read a second time it does not change any
    more, and a run of [nil], booleans, strings, ints, floats that do not print as ints, and
    lists and maps of these is read back unchanged the first time. *)
Theorem run_roundtrip r w :
  storable_run r →
  (∃ w1 w2, redis_CreateRun r w = (Ok tt, w1) ∧ (redis_GetRun (run_ID r) w1).1 = Ok (image_run r) ∧
            redis_CreateRun (image_run r) w1 = (Ok tt, w2) ∧
            (redis_GetRun (run_ID r) w2).1 = Ok (image_run r)) ∧
  json_normal_run (image_run r) ∧
  (json_normal_run r → image_run r = r).
Proof.
  intros Hr. assert (json_normal_run (image_run r)) as Hn.
  { destruct Hr as [Hi Hv]. split; by apply image_vars_normal. }
  split; [|split; [done|intros Hr'; by apply normal_run_image]].
  destruct (normal_run_image _ Hn) as [Ej Hj].
  destruct (create_get r (image_run r) w (json_run_image _ Hr)) as (w1 & E1 & G1).
  destruct (create_get (image_run r) (image_run r) w1) as (w2 & E2 & G2).
  { rewrite (json_run_image _ Hj). by rewrite Ej. }
  exists w1, w2. by split_and!.
Qed.
End Roundtrip.

(** ** The conformance suite *)

(** A JSON package in which no float literal but zero's is an integer and nothing else is
    marshalled. *)
Definition demo_json : JsonEnv := {|
  float_lit f := match f with S754_zero _ => JInt 0 | f => JDec f end;
  other_json := λ _, None
|}.

(** A server that keeps each type of data in a map of its own, and sorts by score and
    then by member. *)
Record maps := mkMaps {
  texts : gmap rkey blob;
  lists : gmap rkey (list blob);
  sets : gmap rkey (gset string);
  zsets : gmap rkey (gmap string spec_float)
}.
Definition maps_cmd (c : cmd) (d : maps) : maps :=
  let k := cmd_key c in
  mkMaps (partial_alter (cmd_text c k) k (texts d))
    (partial_alter (λ o, Some (cmd_list c k (default [] o))) k (lists d))
    (partial_alter (λ o, Some (cmd_set c k (default ∅ o))) k (sets d))
    (partial_alter (λ o, Some (cmd_zset c k (default ∅ o))) k (zsets d)).
Definition zset_before (a b : string * spec_float) : bool :=
  f_ltb a.2 b.2 || (f_eqb a.2 b.2 && String.ltb a.1 b.1).
Definition demo_server : RedisServer := {|
  DB := maps;
  empty_db := mkMaps ∅ ∅ ∅ ∅;
  apply_cmd := maps_cmd;
  get_text d k := texts d !! k;
  get_list d k := default [] (lists d !! k);
  get_set d k := default ∅ (sets d !! k);
  get_zset d k := default ∅ (zsets d !! k);
  zset_members z := insertion_sort zset_before (map_to_list z)
|}.

Lemma alter_at {A} (f : A → A) (a0 : A) (m : gmap rkey A) k j :
  default a0 (partial_alter (λ o, Some (f (default a0 o))) k m !! j) =
  if decide (k = j) then f (default a0 (m !! j)) else default a0 (m !! j).
Proof.
  case_decide as E; [subst; by rewrite lookup_partial_alter_eq|].
  by rewrite lookup_partial_alter_ne.
Qed.
Lemma demo_server_laws : @RedisLaws demo_server.
Proof.
  split; try done; simpl; unfold maps_cmd; simpl.
  - intros c d k. destruct (decide (cmd_key c = k)) as [<-|E].
    + by rewrite lookup_partial_alter_eq.
    + by rewrite lookup_partial_alter_ne, cmd_text_other.
  - intros c d k. rewrite alter_at. destruct (decide (cmd_key c = k)) as [<-|E]; [done|].
    unfold cmd_list. by rewrite decide_False.
  - intros c d k. rewrite alter_at. destruct (decide (cmd_key c = k)) as [<-|E]; [done|].
    unfold cmd_set. by rewrite decide_False.
  - intros c d k. rewrite alter_at. destruct (decide (cmd_key c = k)) as [<-|E]; [done|].
    unfold cmd_zset. by rewrite decide_False.
  - intros z. apply insertion_sort_perm.
Qed.

#[local] Existing Instance demo_env.
#[local] Existing Instance demo_json.
#[local] Existing Instance demo_server.

(** A process started at [now] on an empty database. *)
Definition fresh_redis (now : Z) : World Redis :=
  mkWorld (mkRedis empty_db [] 0) now now 0 0 0 [].

(** The Redis store meets the contract of [storetest.RunSuite] too, as the in-memory
    store does: all 23 groups pass, and declared [PublishedOnly] it fails exactly the two
    groups in which its lookups fall back to the newest draft. *)
Theorem redis_passes_suite :
  Forall (λ now, RunSuite (fresh_redis now) false = [] ∧
                 RunSuite (fresh_redis now) true =
                   [("PublishedWorkflow", ["GetPublishedWorkflowByID(draft)"]);
                    ("Rules", ["GetPublishedRuleByID(draft)"])])
    [0; 1767225600123456789]%Z.
Proof. repeat constructor; by vm_compute. Qed.

(** ** A run through both stores *)
Definition sample_run : SagaRun :=
  mkRun 7 "wf" 1 None RunStatePending "wait" ∅ {["order" := VMap {["total" := VInt 10]}]} 0 0 None
    false None None None None [] false None None None ∅ ∅ None 0 None.
Definition sample_signal : SagaSignal := mkSignal 8 7 "go" {["by" := VInt 3]} 0 None.
(** It is created, waits for a signal, and gets it. *)
Definition signalled : list mem_op :=
  [OpCreateRun sample_run; OpPauseSignal 7 "go" (Some 50%Z); OpAppendSignal sample_signal].
Definition in_memory (ops : list mem_op) : World MemStore :=
  fold_left (λ w op, apply_op op w) ops (mkWorld New 100 100 0 0 0 [])%Z.
Definition in_redis (ops : list mem_op) : World Redis :=
  fold_left (λ w op, redis_op op w) ops (fresh_redis 100).

Lemma sample_normal : normal_run sample_run.
Proof. split; apply json_vars_normal; by vm_compute. Qed.
Lemma demo_json_laws : JsonLaws.
Proof. split; [done|]. intros [b| | |] Hf; [by destruct (Hf b)|done..]. Qed.

Lemma redis_refines_memory_witness :
  let ops := signalled ++ [OpConsumeSignal 7 "go"; OpUpdateVariables 7 {["n" := VStr "x"]}] in
  same_history (in_memory ops) (in_redis ops) ∧
  (redis_GetRun 7 (in_redis ops)).1 = (mem_GetRun 7 (in_memory ops)).1.
Proof.
  intros ops. assert (same_history (in_memory ops) (in_redis ops)) as Hh.
  { subst ops. unfold in_memory, in_redis, signalled. cbn [app fold_left].
    repeat (apply hist_op; [|by vm_compute| |exact I]); [by apply hist_new|exact sample_normal|..];
      try exact I.
    - split; [apply json_vars_normal|apply decodable_map]; by vm_compute.
    - apply json_vars_normal. by vm_compute. }
  split; [exact Hh|]. exact (@redis_refines_memory _ demo_laws demo_json demo_server demo_server_laws demo_json_laws
    _ _ 7 Hh).
Defined.

Lemma txRun_atomic_witness :
  let k := KRun (uuid_string 7) in
  let f r := Write (row_ClearPause r) [CZRem KWakeup (uuid_string 7)] in
  let w := overtaken [CSet k (BRun sample_run) true] (in_redis signalled) in
  (∃ j, j ≤ txMaxRetries ∧
     txRun_pure 7 f w =
       ((tx_spec 7 f (after_others j w)).1,
        set_redis (mkRedis (tx_spec 7 f (after_others j w)).2 (drop j (others (w_store w)))
                     (runTTL (w_store w))) w)) ∨
  (all_touch txMaxRetries k w ∧ length (others (w_store w)) ≥ txMaxRetries ∧
   txRun_pure 7 f w =
     (Err (EMsg ("redis: tx retry budget exhausted for run " +:+ uuid_string 7)),
      set_redis (mkRedis (after_others txMaxRetries w)
                   (drop txMaxRetries (others (w_store w))) (runTTL (w_store w))) w)).
Proof. intros k f w. exact (@txRun_atomic _ _ _ demo_server_laws 7 f w). Defined.

Lemma signal_consumed_twice_witness :
  ∃ cmds, (redis_TryConsumeAwaitedSignal 7 "go" (in_redis signalled)).1 = Ok true ∧
    rdb (redis_TryConsumeAwaitedSignal 7 "go" (in_redis signalled)).2 =
      apply_cmds cmds (rdb (in_redis signalled)) ∧
    (redis_TryConsumeAwaitedSignal 7 "go" (overtaken cmds (in_redis signalled))).1 = Ok true ∧
    rdb (redis_TryConsumeAwaitedSignal 7 "go" (overtaken cmds (in_redis signalled))).2 =
      apply_cmds cmds (rdb (in_redis signalled)).
Proof.
  refine (@signal_consumed_twice _ _ _ demo_server_laws 7 "go" (in_redis signalled)
            (row_SetPausedAwaitingSignal "go" (Some 50%Z) sample_run)
            [mkSignal 8 7 "go" {["by" := VFloat (f_of_Z 3)]} 0 None] _ _ _ _ _ _).
  - reflexivity.
  - by vm_compute.
  - exact sample_normal.
  - reflexivity.
  - reflexivity.
  - by vm_compute.
Defined.

(** [2.5] stays, [-0] and an [int64] become ints, and a [[]string] a [[]any]. *)
Lemma run_roundtrip_witness :
  let half := S754_finite false 5 (-1) in
  let r := set_run_Variables {["n" := VInt64 3; "l" := VStrs ["a"];
             "f" := VList [VFloat half; VFloat (S754_zero true)]]} sample_run in
  let j := set_run_Variables {["n" := VInt 3; "l" := VList [VStr "a"];
             "f" := VList [VFloat half; VInt 0]]} sample_run in
  image_run r = j ∧
  (∃ w1 w2, redis_CreateRun r (fresh_redis 0) = (Ok tt, w1) ∧ (redis_GetRun 7 w1).1 = Ok j ∧
            redis_CreateRun j w1 = (Ok tt, w2) ∧ (redis_GetRun 7 w2).1 = Ok j).
Proof.
  intros half r j. assert (image_run r = j) as Hj by (by vm_compute). split; [exact Hj|].
  rewrite <- Hj.
  apply (@run_roundtrip demo_env _ demo_json_laws _ demo_server_laws r (fresh_redis 0)).
  split; intros k v; apply (map_Forall_to_list (λ _ v, storable v = true)); by repeat constructor.
Defined.

Lemma waiting_runs_found_witness :
  let w := in_redis [OpCreateRun sample_run; OpPauseEvent 7 "orders" ∅ (Some 50%Z)] in
  ∃ r, (∃ rs, (redis_FindRunsByAwaitedEvent "orders" w).1 = Ok rs ∧ plain_run r ∈ rs) ∧
       (∃ ids, (redis_FindRunsByDueWakeup 100 10 w).1 = Ok ids ∧ 7%N ∈ ids).
Proof.
  intros w. set (r := row_SetPausedAwaitingEvent "orders" ∅ (Some 50%Z) sample_run).
  assert (redis_history w) as Hh.
  { apply redis_does; [apply redis_does; [by apply redis_new|done]|].
    intros x. vm_compute. by intros [= <-]. }
  exists r. destruct (@waiting_runs_found _ demo_laws _ _ demo_server_laws w 7 r "orders" 50%Z 100%Z 10 Hh)
    as [Ht Hz]; [by vm_compute..|]. split; [by apply Ht|].
  apply Hz; [done|by vm_compute|]. apply Nat.leb_le. by vm_compute.
Defined.
