(* ===== verification/PgConformance.v ===== *)
(** The PostgreSQL store as a whole: over a concrete server that meets the laws, the
    conformance suite and samples of the other theorems. *)
From S2P Require Import Prelude Values Domain World Demo StoreApi Rows StoreSpec MemStore Sorting.
From S2P Require Import MemInv MemRows MemRaces Json JsonProps PgSchema Pg PgData PgVars PgRows.
From S2P Require Import PgSim PgInv PgRaces Storetest RedisConformance.

(** A server that scans by id and compares texts byte by byte. *)
Definition id_before {A} (a b : uuid * A) : bool := (a.1 <? b.1)%N.
Definition demo_pg : PgEnv := {|
  scan_order A t := insertion_sort id_before (map_to_list t);
  collate_lt := String.ltb;
  uuid_in s := match demo_uuid_parse s with Ok u => Some u | Err _ => None end
|}.
#[local] Existing Instance demo_env.
#[local] Existing Instance demo_laws.
#[local] Existing Instance demo_json.
#[local] Existing Instance demo_pg.

Lemma demo_pg_laws : PgLaws.
Proof.
  split.
  - intros A t. apply insertion_sort_perm.
  - intros u. change (uuid_in (uuid_string u)) with
      (match uuid_parse (uuid_string u) with Ok u => Some u | Err _ => None end).
    by rewrite uuid_parse_string.
Qed.

(** A process started at [now] on the migrated schema. *)
Definition fresh_pg (now : Z) : World Postgres :=
  mkWorld (mkPostgres no_rows 0) now now 0 0 0 [].

(** The PostgreSQL store meets the contract of [storetest.RunSuite], as the other two
    stores do: declared [PublishedOnly] it passes all 23 groups, and without the declaration
    it fails exactly the two groups that expect lookups to fall back to the newest draft. *)
Theorem pg_passes_suite :
  Forall (λ now, RunSuite (fresh_pg now) true = [] ∧
                 RunSuite (fresh_pg now) false =
                   [("PublishedWorkflow", ["GetPublishedWorkflowByID(draft)"]);
                    ("Rules", ["GetPublishedRuleByID(draft)"])])
    [0; 1767225600123456789]%Z.
Proof. repeat constructor; by vm_compute. Qed.

(** ** A run through the store *)
Definition pg_definition : WorkflowDefinition :=
  mkDef "wf" 1 None "" "" "wait" ∅ [] true 5 "".
(** It carries the id the definition was stored under. *)
Definition pg_run : SagaRun :=
  mkRun 7 "wf" (uuid_New 0) None RunStatePending "wait" ∅
    {["order" := VMap {["total" := VInt 10]}]} 0 0 None
    false None None None None [] false None None None ∅ ∅ None 0 None.
(** It is created, waits for a signal, and the signal is stored. *)
Definition pg_signalled : list mem_op :=
  [OpUpsertDefinition pg_definition; OpCreateRun pg_run; OpPauseSignal 7 "go" (Some 5000%Z);
   OpAppendSignal sample_signal].
Definition in_pg (ops : list mem_op) : World Postgres := pg_ops ops (fresh_pg 100).

Definition new_variables : Vars := {["order.total" := VInt 12; "note" := VStr "x"]}.
Lemma new_variables_fit : fit_merge new_variables.
Proof.
  split.
  - apply map_Forall_insert_2; [by vm_compute|]. apply map_Forall_insert_2; [by vm_compute|].
    apply map_Forall_empty.
  - vm_compute. repeat constructor; vm_compute; naive_solver.
Qed.
(** Nothing of the run is still to be checked when it is consumed, written and cancelled. *)
Definition pg_story : list mem_op :=
  pg_signalled ++ [OpConsumeSignal 7 "go"; OpUpdateVariables 7 new_variables;
                   OpMarkAwaiting 7 "d1" 1; OpCompleteAction 7 1 {["done" := VBool true]};
                   OpCancel 7 "stop"].

Lemma pg_refines_memory_witness :
  pg_history (in_memory pg_story) (in_pg pg_story) ∧
  match (pg_GetRun 7 (in_pg pg_story)).1, (mem_GetRun 7 (in_memory pg_story)).1 with
  | Ok rp, Ok rm => unstamped rp = unstamped (stored_row rm)
  | Err e, Err e' => e = e'
  | _, _ => False
  end.
Proof.
  assert (pg_history (in_memory pg_story) (in_pg pg_story)) as Hh.
  { unfold in_memory, in_pg, pg_story, pg_signalled, pg_ops. cbn [app fold_left].
    repeat (apply pgh_op; [|by vm_compute| | |by vm_compute]); [by apply pgh_new|..].
    all: try (intros id r [= <-] Hr; vm_compute in Hr; injection Hr as <-; vm_compute; naive_solver).
    all: try exact I.
    - split; [by repeat split|by vm_compute].
    - exact new_variables_fit.
    - by vm_compute. }
  split; [exact Hh|].
  exact (@pg_refines_memory _ demo_laws demo_json demo_json_laws demo_pg _ _ 7 Hh).
Defined.

(** A plain key, and a dotted key below it. *)
Lemma sql_merge_is_dotted_merge_witness :
  let merge : Vars := {["order" := VMap {["total" := VInt 11; "by" := VStr "x"]};
                        "order.total" := VInt 12]} in
  ∃ vars w', pg_UpdateRunVariables 7 merge (in_pg pg_signalled) = (Ok tt, w') ∧
    run_Variables <$> (match (pg_GetRun 7 w').1 with Ok r => Some r | Err _ => None end) = Some vars ∧
    get_dotted vars "order.total" = Some (VFloat (f_of_Z 12)).
Proof.
  intros merge. destruct (pg_runs (in_pg pg_signalled) !! 7%N) as [r|] eqn:Hr; [|by vm_compute in Hr].
  destruct (@sql_merge_is_dotted_merge _ demo_laws _ 7 merge _ r Hr) as (vars & w' & E & Hg & _ & Hd).
  - apply map_Forall_insert_2; [|apply map_Forall_insert_2; [|apply map_Forall_empty]].
    all: split; [by vm_compute|]; eexists; split; vm_compute; reflexivity.
  - by vm_compute.
  - exists vars, w'. split_and!; [exact E|by rewrite Hg|].
    rewrite (Hd ltac:(vm_compute; repeat constructor) "order.total" (VInt 12)); [..|done]; by vm_compute.
Defined.

(** Two calls for the same signal: the second waits for the row the first has locked, and finds
    the signal gone. *)
Lemma pg_signal_consumed_once_witness :
  let w := in_pg pg_signalled in
  let v0 := begin_tx 1 7 "go" (begin_tx 0 7 "go" (mkServer w ∅ [])) in
  let v := default v0 (gos [0; 0; 0; 0; 1; 1]%nat v0) in
  bool_decide (gos [0; 1]%nat v0 = None) = true ∧
  sv_done v = [(7 : uuid, "go", Ok false); (7 : uuid, "go", Ok true)] ∧
  length (wins 7 (sv_done v)) ≤ 1 ∧ pg_runs w !! (7 : uuid) ≠ None.
Proof.
  intros w v0 v. split; [by vm_compute|]. split; [by vm_compute|].
  assert (rtc (race (λ op, ¬ arms 7 op)) (mkServer w ∅ []) v) as Hr.
  { eapply rtc_l; [by apply (race_begin _ 0 7 "go")|].
    eapply rtc_l; [by apply (race_begin _ 1 7 "go")|]. apply gos_race. }
  destruct (@pg_signal_consumed_once _ _ demo_json demo_pg 7 "go" w v Hr) as [(Hw & _) Ha].
  split; [exact Hw|].
  destruct (Ha (pg_TryConsumeAwaitedSignal 7 "go" w).2) as [(r & -> & _) _]; [by vm_compute|done].
Defined.

(** The in-memory store keeps the second record. *)
Lemma event_recorded_once_witness :
  let e := mkEvent 20 7 "wait" 1 EventStepStarted "engine" ∅ 60 in
  let e' := mkEvent 21 7 "wait" 1 EventStepStarted "engine" ∅ 70 in
  let w' := (pg_AppendEvent e (in_pg pg_signalled)).2 in
  let ops := [OpConsumeSignal 7 "go"] in
  pg_AppendEvent e' (pg_ops ops w') = (Ok tt, pg_ops ops w') ∧
  (pg_ListEventsByRun 7 (pg_ops (ops ++ [OpAppendEvent e']) w')).1 =
    Ok [mkEvent 20 7 "wait" 1 EventStepStarted "engine" ∅ 0] ∧
  (mem_ListEventsByRun 7 (in_memory (pg_signalled ++ [OpAppendEvent e; OpAppendEvent e']))).1 = Ok [e; e'].
Proof.
  intros e e' w' ops. split_and!; [|by vm_compute..].
  apply (@event_recorded_once _ demo_json demo_pg e e' (in_pg pg_signalled) w' ops);
    [by vm_compute|done..|].
  exists ∅. by vm_compute.
Defined.

Lemma pg_reachable_wf_witness : pg_wf (tables (w_store (in_pg pg_story))).
Proof.
  apply (@pg_reachable_wf _ demo_json demo_pg demo_pg_laws).
  unfold in_pg, pg_story, pg_signalled, pg_ops. cbn [app fold_left].
  repeat (apply pg_reach_op; [|exact I || reflexivity]). by apply pg_reach_start.
Defined.
