(* ===== verification/VerbsData.v ===== *)
(** The verbs of [src/engine/verbs] that compute on the run's variables only,
    and the license groups: [noop], [end], [set_var], [transform], [merge],
    [filter], [map], [assert], [error], [switch], [while]. *)
From S2P Require Import Prelude Values Domain World Cel.

(** ** license_groups.go *)
Definition GroupToFeature : gmap string string := list_to_map [
  ("common", "");
  ("observability", "wf.observability");
  ("external_io_advanced", "wf.external_io");
  ("waits", "wf.timers");
  ("events_and_signals", "wf.event_driven");
  ("human_interaction", "wf.user_tasks");
  ("parallel_control", "wf.parallel");
  ("loops_and_recovery", "wf.loops_recovery");
  ("compositions", "wf.compositions")].

(** [GroupToFeature[group]]: the empty string for an unknown group. *)
Definition feature_of (group : string) : string := default "" (GroupToFeature !! group).

Definition LicenseGroupForStep (step : Step) (regGroup : string) : string :=
  if decide (step_Type step = StepTypeHTTPRequest) then
    let method := get_str (step_Inputs step) "method" in
    let secret := get_str (step_Inputs step) "secret_ref" in
    if decide ((method = "" ∨ method = "GET") ∧ secret = "") then "common"
    else "external_io_advanced"
  else regGroup.

(** ** Verbs *)
Definition defaultMaxIterations : Z := 100.
Definition hardMaxIterations : Z := 10000.

(** The nesting depth of maps in a value: the fuel of [deepFlatten]. *)
Fixpoint val_depth (v : Val) : nat :=
  match v with
  | VMap m => S (map_fold (λ _ v n, Nat.max (val_depth v) n) 0 m)
  | _ => 0
  end.

Section VerbsData.
Context `{Env}.

(** A verb that only reads the run and the step. *)
Definition pure_handler {St} (f : SagaRun → Step → res Vars) : Handler St :=
  λ run step, ret (f run step).

Definition NoopVerb_Execute (_ : SagaRun) (_ : Step) : res Vars := Ok ∅.
Definition EndVerb_Execute (_ : SagaRun) (_ : Step) : res Vars := Ok ∅.

Definition SetVarVerb_Execute (run : SagaRun) (step : Step) : res Vars :=
  let outVar := get_str (step_Inputs step) "out_var" in
  if decide (outVar = "") then Err (EMsg "set_var: out_var required")
  else
    match step_Inputs step !! "expr" with
    | Some exprAny =>
        let expr := default "" (as_str (Some exprAny)) in
        if decide (expr = "") then Err (EMsg "set_var: expr must be a non-empty string")
        else
          tryp* prg := CompiledProgram (keysOf (run_Variables run)) expr
            else EWrap "set_var: compile" in
          tryp* val := Eval prg (run_Variables run) else EWrap "set_var: eval" in
          Ok {[outVar := val]}
    | None =>
        match step_Inputs step !! "value" with
        | Some v => Ok {[outVar := v]}
        | None => Err (EMsg "set_var: one of value or expr is required")
        end
    end.

Definition TransformVerb_Execute (run : SagaRun) (step : Step) : res Vars :=
  let expr := get_str (step_Inputs step) "expr" in
  if decide (expr = "") then Err (EMsg "transform: expr required")
  else
    let outVar := get_str (step_Inputs step) "out_var" in
    if decide (outVar = "") then Err (EMsg "transform: out_var required")
    else
      tryp* prg := CompiledProgram (keysOf (run_Variables run)) expr
        else EWrap "transform: compile" in
      tryp* val := Eval prg (run_Variables run) else EWrap "transform: eval" in
      Ok {[outVar := val]}.

(** [deepFlatten], with fuel for the nesting; the entries are visited in the
    map's order and written into [out] one after the other. *)
Fixpoint deepFlatten_fuel (fuel : nat) (prefix : string) (inm : Vars) (out : Vars) : Vars :=
  match fuel with
  | O => out
  | S fuel =>
      fold_left (λ out kv,
        let fullKey := prefix +:+ "." +:+ kv.1 in
        match kv.2 with
        | VMap nested => deepFlatten_fuel fuel fullKey nested out
        | v => <[fullKey := v]> out
        end) (range_map inm) out
  end.
Definition deepFlatten (prefix : string) (inm : Vars) (out : Vars) : Vars :=
  deepFlatten_fuel (val_depth (VMap inm)) prefix inm out.

Definition MergeVerb_Execute (run : SagaRun) (step : Step) : res Vars :=
  let expr := get_str (step_Inputs step) "from" in
  let into := get_str (step_Inputs step) "into" in
  if decide (expr = "" ∨ into = "") then Err (EMsg "merge: from and into required")
  else
    tryp* prg := CompiledProgram (keysOf (run_Variables run)) expr
      else EWrap "merge: compile" in
    tryp* val := Eval prg (run_Variables run) else EWrap "merge: eval" in
    match val with
    | VMap fromMap => Ok (deepFlatten into fromMap ∅)
    | _ => Err (EMsg ("merge: from did not evaluate to a string-keyed map, got " +:+
                      type_name val))
    end.

(** The shared activation of [filter] and [map]: a run variable named "_"
    shadows the element. *)
Definition bind_elem (vars : Vars) (x : Val) (varMap : Vars) : Vars :=
  match vars !! "_" with
  | None => <["_" := x]> varMap
  | Some _ => varMap
  end.

(** The element loops; [varMap] is the one map reused across elements. *)
Fixpoint filter_loop (prg : cel_program) (vars varMap : Vars) (xs out : list Val)
    : res (list Val) :=
  match xs with
  | [] => Ok out
  | x :: xs =>
      let varMap := bind_elem vars x varMap in
      tryp* v := Eval prg varMap
        else EWrap ("filter: eval pred for element " +:+ sprint x) in
      filter_loop prg vars varMap xs (if val_bool v then out ++ [x] else out)
  end.

Fixpoint map_loop (prg : cel_program) (vars varMap : Vars) (xs out : list Val)
    : res (list Val) :=
  match xs with
  | [] => Ok out
  | x :: xs =>
      let varMap := bind_elem vars x varMap in
      tryp* v := Eval prg varMap else EWrap ("map: eval for element " +:+ sprint x) in
      map_loop prg vars varMap xs (out ++ [v])
  end.

Definition FilterVerb_Execute (run : SagaRun) (step : Step) : res Vars :=
  let vars := run_Variables run in
  let listExpr := get_str (step_Inputs step) "list" in
  let predExpr := get_str (step_Inputs step) "expr" in
  let outVar := get_str (step_Inputs step) "out_var" in
  if decide (listExpr = "" ∨ predExpr = "" ∨ outVar = "") then
    Err (EMsg "filter: list, expr, out_var required")
  else
    tryp* listPrg := CompiledProgram (keysOf vars) listExpr else EWrap "filter: compile list" in
    tryp* listVal := Eval listPrg vars else EWrap "filter: eval list" in
    match listVal with
    | VList xs =>
        tryp* predPrg := CompiledProgram (keysOf vars ++ ["_"]) predExpr
          else EWrap "filter: compile pred" in
        tryp* out := filter_loop predPrg vars vars xs [] else id in
        Ok {[outVar := VList out]}
    | _ => Err (EMsg ("filter: list expr did not produce []any, got " +:+ type_name listVal))
    end.

Definition MapVerb_Execute (run : SagaRun) (step : Step) : res Vars :=
  let vars := run_Variables run in
  let listExpr := get_str (step_Inputs step) "list" in
  let mapExpr := get_str (step_Inputs step) "expr" in
  let outVar := get_str (step_Inputs step) "out_var" in
  if decide (listExpr = "" ∨ mapExpr = "" ∨ outVar = "") then
    Err (EMsg "map: list, expr, out_var required")
  else
    tryp* listPrg := CompiledProgram (keysOf vars) listExpr else EWrap "map: compile list" in
    tryp* listVal := Eval listPrg vars else EWrap "map: eval list" in
    match listVal with
    | VList xs =>
        tryp* mapPrg := CompiledProgram (keysOf vars ++ ["_"]) mapExpr
          else EWrap "map: compile expr" in
        tryp* out := map_loop mapPrg vars vars xs [] else id in
        Ok {[outVar := VList out]}
    | _ => Err (EMsg ("map: list expr did not produce []any, got " +:+ type_name listVal))
    end.

Definition AssertVerb_Execute (run : SagaRun) (step : Step) : res Vars :=
  let expr := get_str (step_Inputs step) "expr" in
  if decide (expr = "") then Err (EMsg "assert: expr required")
  else
    let code := get_str (step_Inputs step) "code" in
    let code := if decide (code = "") then "assertion_failed" else code in
    tryp* prg := CompiledProgram (keysOf (run_Variables run)) expr
      else EWrap "assert: compile" in
    tryp* val := Eval prg (run_Variables run) else EWrap "assert: eval" in
    if val_bool val then Ok ∅
    else Err (EMsg (code +:+ ": " +:+ quote expr +:+ " is false")).

Definition ErrorVerb_Execute (_ : SagaRun) (step : Step) : res Vars :=
  let code := get_str (step_Inputs step) "code" in
  if decide (code = "") then Err (EMsg "error: code required")
  else
    let msg := get_str (step_Inputs step) "message" in
    if decide (msg = "") then Err (EMsg code) else Err (EMsg (code +:+ ": " +:+ msg)).

Definition SwitchVerb_Execute (run : SagaRun) (step : Step) : res Vars :=
  let expr := get_str (step_Inputs step) "expr" in
  if decide (expr = "") then Err (EMsg "switch: expr required")
  else
    tryp* prg := CompiledProgram (keysOf (run_Variables run)) expr
      else EWrap "switch: compile" in
    tryp* val := Eval prg (run_Variables run) else EWrap "switch: CEL eval" in
    match val with
    | VStr key => Ok {["branch" := VStr key]}
    | _ => Err (EMsg ("switch: expr must evaluate to string, got " +:+ type_name val))
    end.

(** The cap on the iterations of a while step. *)
Definition while_maxIter (step : Step) : Z :=
  let maxIter := match as_float (step_Inputs step !! "max_iterations") with
                 | Some mi => int_of_float mi
                 | None => defaultMaxIterations
                 end in
  let maxIter := if decide (hardMaxIterations < maxIter)%Z then hardMaxIterations else maxIter in
  if decide (maxIter < 1)%Z then defaultMaxIterations else maxIter.

(** The counter [_while.<step>.iter]. *)
Definition while_iter (vars : Vars) (stepID : string) : Z :=
  match as_map (vars !! "_while") with
  | Some whileMap =>
      match as_map (whileMap !! stepID) with
      | Some stepMap =>
          match stepMap !! "iter" with
          | Some (VInt64 v) => v
          | Some (VFloat v) => int_of_float v
          | _ => 0
          end
      | None => 0
      end
  | None => 0
  end%Z.

Definition WhileVerb_Execute (run : SagaRun) (step : Step) : res Vars :=
  let cond := get_str (step_Inputs step) "condition" in
  if decide (cond = "") then Err (EMsg "while: condition required")
  else
    let maxIter := while_maxIter step in
    let iter := while_iter (run_Variables run) (step_ID step) in
    if decide (maxIter ≤ iter)%Z then
      Err (EMsg ("while: max_iterations " +:+ itoa maxIter +:+ " reached"))
    else
      tryp* prg := CompiledProgram (keysOf (run_Variables run)) cond
        else EWrap "while: compile" in
      tryp* val := Eval prg (run_Variables run) else EWrap "while: eval" in
      let branch := if val_bool val then "continue" else "exit" in
      Ok (list_to_map [("branch", VStr branch);
                       ("_while." +:+ step_ID step +:+ ".iter", VInt64 (wrap64 (iter + 1)))]).
End VerbsData.
