(* ===== verification/VerbsDataProps.v ===== *)
(** Properties of the variable-only verbs and of dotted-key writes. *)
From S2P Require Import Prelude Values Domain World Cel Demo VerbsData Rows.

(** ** Writing a batch of dotted keys *)
Section dotted_props.
Context `{EnvLaws}.

(** A batch of dotted-key writes in which no key runs through another is
    deterministic although Go visits the batch in any order: every key of the
    batch reads back the value written, every key independent of the batch keeps
    its value, and any two visiting orders give the same variables. *)
Theorem merge_entries_deterministic (merge vars : Vars) :
  indep_batch (map_to_list merge) →
  (∀ l, l ≡ₚ map_to_list merge → merge_entries l vars = merge_entries (range_map merge) vars) ∧
  (∀ key v, merge !! key = Some v →
     get_dotted (merge_entries (range_map merge) vars) key = Some v) ∧
  (∀ key, Forall (λ kv, indep_keys key kv.1) (map_to_list merge) →
     get_dotted (merge_entries (range_map merge) vars) key = get_dotted vars key).
Proof.
  intros Hi. assert (indep_batch (range_map merge)) as Hi'.
  { eapply indep_batch_perm; [|exact Hi]. by rewrite range_map_perm. }
  split_and!.
  - intros l Hl. symmetry. apply merge_entries_perm; [|done]. by rewrite Hl, range_map_perm.
  - intros key v Hk. apply get_merge_entries_in; [done|].
    rewrite range_map_perm. by apply elem_of_map_to_list.
  - intros key Hk. apply get_merge_entries_other. by rewrite range_map_perm.
Qed.
End dotted_props.

Lemma merge_entries_deterministic_witness :
  get_dotted (merge_entries (@range_map demo_env _ _ _ _ (<["a.b" := VInt 1]> {["a.c" := VInt 2]}))
                {["a" := VStr "x"]}) "a.b" = Some (VInt 1).
Proof.
  apply (@merge_entries_deterministic demo_env demo_laws).
  - vm_compute. repeat constructor; intros [k Hk]; vm_compute in Hk; discriminate.
  - by vm_compute.
Defined.

(** ** filter and map *)
Section filter_props.
Context `{Env}.

(** The environment of one element, built from scratch. *)
Definition elem_env (vars : Vars) (x : Val) : Vars := bind_elem vars x vars.

Lemma bind_elem_bind vars x y m : bind_elem vars y (bind_elem vars x m) = bind_elem vars y m.
Proof. unfold bind_elem. destruct (vars !! "_"); [done|]. by rewrite insert_insert_eq. Qed.

(** The element-wise reference: evaluate [prg] on each element in its own
    environment, stopping at the first error. *)
Definition eval_each (msg : string) (prg : cel_program) (vars : Vars) (xs : list Val)
    : res (list Val) :=
  map_res (λ x, map_err_res (EWrap (msg +:+ sprint x)) (Eval prg (elem_env vars x))) xs.

Lemma map_loop_eval_each prg vars varMap xs out :
  (∀ x, bind_elem vars x varMap = elem_env vars x) →
  map_loop prg vars varMap xs out =
  tryp* vs := eval_each "map: eval for element " prg vars xs else id in Ok (out ++ vs).
Proof.
  revert varMap out. induction xs as [|x xs IH]; intros varMap out Hm; simpl.
  - unfold eval_each; simpl. by rewrite app_nil_r.
  - rewrite Hm. unfold eval_each; simpl. destruct (Eval prg (elem_env vars x)) as [v|e]; [|done].
    rewrite IH by (intros y; unfold elem_env; by rewrite bind_elem_bind).
    unfold eval_each; simpl. destruct (map_res _ xs); simpl; [|done]. by rewrite <-app_assoc.
Qed.

Lemma filter_loop_eval_each prg vars varMap xs out :
  (∀ x, bind_elem vars x varMap = elem_env vars x) →
  filter_loop prg vars varMap xs out =
  tryp* vs := eval_each "filter: eval pred for element " prg vars xs else id in
  Ok (out ++ (filter (λ xv, val_bool xv.2 = true) (zip xs vs)).*1).
Proof.
  revert varMap out. induction xs as [|x xs IH]; intros varMap out Hm; simpl.
  - unfold eval_each; simpl. by rewrite app_nil_r.
  - rewrite Hm. unfold eval_each; simpl. destruct (Eval prg (elem_env vars x)) as [v|e]; [|done].
    rewrite IH by (intros y; unfold elem_env; by rewrite bind_elem_bind).
    unfold eval_each; simpl. destruct (map_res _ xs); simpl; [|done].
    rewrite filter_cons; simpl. destruct (val_bool v); simpl; [|done].
    by rewrite <-app_assoc.
Qed.

(** [filter] and [map] reuse one activation for all elements; the result is
    that of evaluating the expression on each element in an environment of its
    own (the run's variables plus the element as [_], unless the run has a
    variable [_]): [map] returns the values in order, [filter] exactly the
    elements whose value is [true], in order, and the first failing element is
    the error. *)
Theorem filter_map_elementwise prg vars xs :
  map_loop prg vars vars xs [] = eval_each "map: eval for element " prg vars xs ∧
  filter_loop prg vars vars xs [] =
    (tryp* vs := eval_each "filter: eval pred for element " prg vars xs else id in
     Ok (filter (λ xv, val_bool xv.2 = true) (zip xs vs)).*1).
Proof.
  rewrite map_loop_eval_each, filter_loop_eval_each by done.
  split; [by destruct (eval_each _ _ _ _)|done].
Qed.
End filter_props.

(** ** while *)
Section while_props.
Context `{EnvLaws}.

(** The variables after a while step: the verb's output merged by the store. *)
Definition after_while (out : Vars) (vars : Vars) : Vars :=
  merge_entries (range_map out) vars.

Lemma while_out run step out :
  WhileVerb_Execute run step = Ok out →
  (while_iter (run_Variables run) (step_ID step) < while_maxIter step)%Z ∧
  ∃ b, out = list_to_map [("branch", VStr b);
    ("_while." +:+ step_ID step +:+ ".iter",
      VInt64 (wrap64 (while_iter (run_Variables run) (step_ID step) + 1)))].
Proof.
  unfold WhileVerb_Execute. intros Hw. case_decide; [done|]. case_decide; [done|].
  destruct (CompiledProgram _ _); [|done]. destruct (Eval _ _); [|done].
  injection Hw as <-. split; [lia|eauto].
Qed.

Lemma while_key id : "_while." +:+ id +:+ ".iter" = "_while" +:+ String dot (id +:+ String dot "iter").
Proof. done. Qed.

Lemma after_while_lookup id b z vars :
  after_while (list_to_map [("branch", VStr b); ("_while." +:+ id +:+ ".iter", VInt64 z)]) vars
    !! "_while" =
  Some (VMap (apply_path (key_path id ++ ["iter"]) (VInt64 z)
                (default ∅ (as_map (vars !! "_while"))))).
Proof.
  unfold after_while. set (l := [_; _]).
  assert (NoDup l.*1) as Hnd.
  { unfold l; simpl. apply NoDup_cons. split; [|apply NoDup_singleton].
    rewrite list_elem_of_singleton, while_key. done. }
  assert (key_path ("_while." +:+ id +:+ ".iter") = "_while" :: key_path id ++ ["iter"]) as Hk.
  { rewrite while_key, key_path_app, key_path_app. done. }
  rewrite (merge_entries_perm _ l).
  - unfold merge_entries, l; simpl. unfold applyDottedKey. rewrite Hk.
    destruct (key_path id ++ ["iter"]) eqn:Hs; [by apply app_nil in Hs as [_ ?]|].
    rewrite apply_path_cons, lookup_insert_eq. do 4 f_equal.
    change (key_path "branch") with ["branch"]; simpl. by rewrite lookup_insert_ne.
  - rewrite range_map_perm. by apply map_to_list_to_map.
  - eapply (indep_batch_perm l); [by rewrite range_map_perm, map_to_list_to_map|].
    unfold l. repeat constructor; simpl; unfold indep_keys, independent;
      rewrite ?Hk; change (key_path "branch") with ["branch"]; intros [k Hk']; discriminate.
Qed.

(** A successful round counts up, when the store keeps the step id whole. *)
Lemma while_iter_round run step out :
  key_path (step_ID step) = [step_ID step] → WhileVerb_Execute run step = Ok out →
  while_iter (after_while out (run_Variables run)) (step_ID step) =
  wrap64 (while_iter (run_Variables run) (step_ID step) + 1).
Proof.
  intros Hd (Hlt & b & ->)%while_out. unfold while_iter at 1.
  rewrite after_while_lookup, Hd. simpl app. rewrite apply_path_cons.
  cbn [as_map]. rewrite lookup_insert_eq; simpl. by rewrite lookup_insert_eq.
Qed.

Lemma while_maxIter_bounds step : (1 ≤ while_maxIter step ≤ 10000)%Z.
Proof.
  unfold while_maxIter, hardMaxIterations, defaultMaxIterations. repeat case_decide; lia.
Qed.

(** Successful executions of one while step, one after the other.  Between two
    of them the loop body runs; it may change the variables but not the counter. *)
Inductive while_rounds (step : Step) : nat → SagaRun → Prop :=
| rounds_0 run : while_rounds step 0 run
| rounds_S n run out run' :
    WhileVerb_Execute run step = Ok out →
    while_iter (run_Variables run') (step_ID step) =
      while_iter (after_while out (run_Variables run)) (step_ID step) →
    while_rounds step n run' → while_rounds step (S n) run.

(** A while loop ends: however the condition evaluates, a step whose id has
    only ASCII bytes and no dot executes successfully at most [max_iterations] times (10,000 whatever
    the definition asks for) before it returns the iteration-cap error. *)
Theorem while_terminates step n run :
  key_path (step_ID step) = [step_ID step] →
  (0 ≤ while_iter (run_Variables run) (step_ID step))%Z →
  while_rounds step n run →
  (Z.of_nat n ≤ while_maxIter step ∧ while_maxIter step ≤ 10000)%Z.
Proof.
  intros Hd Hge Hr. pose proof (while_maxIter_bounds step).
  enough (Z.of_nat n ≤ Z.max 0 (while_maxIter step -
            while_iter (run_Variables run) (step_ID step)))%Z by lia.
  induction Hr as [run|n run out run' He Hc Hr IH]; [lia|].
  rewrite (while_iter_round run step out Hd He) in Hc. apply while_out in He as [Hlt _].
  rewrite wrap64_id in Hc by (unfold in_int64, MinInt, MaxInt; lia).
  specialize (IH ltac:(lia)). lia.
Qed.

(** The cap does not protect a step whose id contains a dot or a byte above 127: the
    counter is written under the id as the store cuts it and read back under the whole
    id, so a successful round leaves the counter the verb reads unchanged. *)
Theorem while_counter_lost run step out :
  key_path (step_ID step) ≠ [step_ID step] → WhileVerb_Execute run step = Ok out →
  while_iter (after_while out (run_Variables run)) (step_ID step) =
  while_iter (run_Variables run) (step_ID step).
Proof.
  intros Hid (Hlt & b & ->)%while_out.
  unfold while_iter at 1. rewrite after_while_lookup. cbn [as_map].
  destruct (key_path (step_ID step)) as [|a ps] eqn:Hk; [by apply key_path_nonnil in Hk|].
  assert (a ≠ step_ID step) as Hne.
  { intros ->. by apply key_path_head in Hk as ->. }
  assert (∃ q qs, (a :: ps) ++ ["iter"] = a :: q :: qs) as (q & qs & ->).
  { destruct ps; simpl; eauto. }
  rewrite apply_path_cons, lookup_insert_ne by done. unfold while_iter.
  destruct (as_map (run_Variables run !! "_while")); simpl; [done|].
  by rewrite lookup_empty.
Qed.
End while_props.

Definition demo_run (vars : Vars) : SagaRun :=
  set_run_Variables vars (NewSagaRun 7 0 "wf" 9 None ∅).
Definition while_step (id : string) : Step :=
  mkStep id StepTypeWhile "" "" {["condition" := VStr "true"]} None None ∅.
Definition while_counted (id : string) (n : Z) : Vars :=
  {["branch" := VStr "continue"; "_while." +:+ id +:+ ".iter" := VInt64 n]}.

Lemma while_terminates_witness :
  @while_rounds demo_env (while_step "w") 2 (demo_run ∅) ∧ (2 ≤ 100)%Z.
Proof.
  assert (@while_rounds demo_env (while_step "w") 2 (demo_run ∅)) as Hr.
  { eapply (@rounds_S demo_env _ _ _ _ (demo_run {["_while" := VMap {["w" := VMap {["iter" := VInt64 1]}]}]}));
      [by vm_compute|by vm_compute|].
    eapply (@rounds_S demo_env _ _ _ _ (demo_run {["_while" := VMap {["w" := VMap {["iter" := VInt64 2]}]}]}));
      [by vm_compute|by vm_compute|].
    constructor. }
  split; [exact Hr|].
  apply (@while_terminates demo_env demo_laws (while_step "w") 2 (demo_run ∅));
    [done|by vm_compute|exact Hr].
Defined.

Lemma while_counter_lost_witness :
  while_iter (@after_while demo_env (while_counted "a.b" 1) ∅) "a.b" = 0%Z.
Proof.
  etransitivity;
    [apply (@while_counter_lost demo_env demo_laws (demo_run ∅) (while_step "a.b")
              (while_counted "a.b" 1))|].
  - by vm_compute.
  - by vm_compute.
  - by vm_compute.
Defined.
