(* ===== verification/Join.v ===== *)
(** Joins: [src/engine/verbs/join_shared.go] and the [join] verb, with the
    numeric and CEL helpers of [parallel.go] they use. *)
From S2P Require Import Prelude Values Domain World Cel StoreApi.

(** ** parallel.go: numeric coercions *)
Definition ToInt (v : option Val) : option Z :=
  match v with
  | Some (VInt n) => Some n
  | Some (VInt64 n) => Some n
  | Some (VFloat n) => Some (int_of_float n)
  | _ => None
  end.

Definition ToIntFromAny (v : Val) : option Z :=
  match v with
  | VInt n => Some n
  | VInt32 n => Some n
  | VInt64 n => Some n
  | VFloat n => Some (int_of_float n)
  | VUint64 n => if decide (MaxInt < n)%Z then None else Some n
  | _ => None
  end.

(** [%T] of a possibly missing map entry. *)
Definition type_of (v : option Val) : string := type_name (default VNil v).

Definition allTerminal (group : list SagaRun) : bool :=
  forallb (λ r, IsTerminal (run_State r)) group.

Definition count_succeeded (group : list SagaRun) : Z :=
  Z.of_nat (length (filter (λ r, run_State r = RunStateSucceeded) group)).

Section Join.
Context `{Env}.

Definition evalBranchesCEL (expr : string) (vars : Vars) : res (list Val) :=
  tryp* prg := CompiledProgram (keysOf vars) expr else EWrap "compile" in
  tryp* raw := Eval prg vars else EWrap "eval" in
  match raw with
  | VList l => Ok l
  | _ => Err (EMsg ("branches expression must evaluate to a list, got " +:+ type_name raw))
  end.

Definition EvalQuorumNCEL (expr : string) (vars : Vars) : res Val :=
  tryp* prg := CompiledProgram (keysOf vars) expr else EWrap "compile" in
  Eval prg vars.

(** ** join_shared.go *)

(** The last loop of [ResolveJoinStreams], from index [i]. *)
Fixpoint stream_ids (i : nat) (l : list Val) : res (list string) :=
  match l with
  | [] => Ok []
  | v :: l =>
      match v with
      | VStr sid =>
          if decide (sid = "") then
            Err (EMsg ("streams[" +:+ itoa (Z.of_nat i) +:+
                       "] must be a non-empty step ID string, got " +:+ type_name v))
          else tryp* out := stream_ids (S i) l else id in Ok (sid :: out)
      | _ => Err (EMsg ("streams[" +:+ itoa (Z.of_nat i) +:+
                        "] must be a non-empty step ID string, got " +:+ type_name v))
      end
  end.

Definition ResolveJoinStreams (raw : option Val) (vars : Vars) : res (list string) :=
  let from_list (l : list Val) :=
    if decide (l = []) then
      Err (EMsg "streams required and must be a non-empty list of step IDs (after CEL eval if applicable)")
    else stream_ids 0 l in
  match raw with
  | Some (VStr s) =>
      tryp* evaluated := evalBranchesCEL s vars else EWrap "streams CEL eval" in
      from_list evaluated
  | Some (VList l) => from_list l
  | Some (VStrs l) =>
      if bool_decide ("" ∈ l) then Err (EMsg "streams entries must be non-empty step IDs")
      else if decide (l = []) then
        Err (EMsg "streams required and must be a non-empty list of step IDs")
      else Ok l
  | _ => Err (EMsg ("streams must be a list of step IDs or a CEL string, got " +:+ type_of raw))
  end.

(** ["join_strategy"], "all" when absent or empty. *)
Definition join_strategy (inputs : Vars) : string :=
  let s := get_str inputs "join_strategy" in if decide (s = "") then "all" else s.

Definition validateJoinStrategy (inputs vars : Vars) (watchedCount : Z) : res unit :=
  let joinStrategy := join_strategy inputs in
  if decide (joinStrategy = "all") then Ok tt
  else if decide (joinStrategy = "quorum") then
    tryp* quorumN :=
      match inputs !! "quorum_n" with
      | Some (VStr qv) =>
          tryp* val := EvalQuorumNCEL qv vars else EWrap "quorum_n CEL eval" in
          match ToIntFromAny val with
          | Some n => Ok n
          | None => Err (EMsg ("quorum_n CEL result is not numeric: " +:+ type_name val +:+
                               " " +:+ sprint val))
          end
      | raw =>
          match ToInt raw with
          | Some n => Ok n
          | None => Err (EMsg "quorum_n required and must be positive when join_strategy=quorum")
          end
      end else id in
    if decide (quorumN ≤ 0)%Z then Err (EMsg "quorum_n must be positive")
    else if decide (watchedCount < quorumN)%Z then
      Err (EMsg ("quorum_n=" +:+ itoa quorumN +:+ " exceeds watched-child count=" +:+
                 itoa watchedCount))
    else Ok tt
  else Err (EMsg ("join_strategy " +:+ quote joinStrategy +:+
                  " not supported (use 'all' or 'quorum')")).

(** The positive quorum the inputs ask for; [None] where the code falls back
    to "all". *)
Definition quorum_of (inputs vars : Vars) : option Z :=
  let positive (o : option Z) :=
    match o with Some n => if decide (n ≤ 0)%Z then None else Some n | None => None end in
  match inputs !! "quorum_n" with
  | Some (VStr qv) =>
      match EvalQuorumNCEL qv vars with
      | Err _ => None
      | Ok val => positive (ToIntFromAny val)
      end
  | raw => positive (ToInt raw)
  end.

Definition JoinConditionMetCtx (inputs vars : Vars) (group : list SagaRun) : bool :=
  if decide (group = []) then false
  else
    let joinStrategy := join_strategy inputs in
    if decide (joinStrategy = "all") then allTerminal group
    else if decide (joinStrategy = "quorum") then
      match quorum_of inputs vars with
      | None => allTerminal group
      | Some quorumN => (quorumN <=? count_succeeded group)%Z
      end
    else false.
Definition JoinConditionMet := JoinConditionMetCtx.

Context `{Store St}.
Abbreviation M := (M (World St)).

(** The first submitted task, as the entry stores it. *)
Definition user_task_entry (tasks : list UserTask) : option Val :=
  head (omap (λ t,
    match task_SubmittedAt t with
    | None => None
    | Some at_ => Some (VMap {["id" := VStr (uuid_string (task_ID t));
                               "result" := VMap (task_Result t);
                               "submitted_by" := VStr (task_SubmittedBy t);
                               "submitted_at" := VStr (format_rfc3339 at_)]})
    end) tasks).

(** The loop of [AggregateJoinResults] from index [i]; a failed task lookup is
    logged and treated as no tasks. *)
Fixpoint AggregateJoinResults_from (i : nat) (children : list SagaRun) : M (list Val) :=
  match children with
  | [] => ret []
  | child :: children =>
      let key := default "" (run_ParentBranchID child) in
      let key := if decide (key = "") then "b" +:+ itoa (Z.of_nat i) else key in
      let entry : Vars := {["key" := VStr key; "variables" := VMap (run_Variables child);
                            "state" := VStr (RunState_string (run_State child))]} in
      let* tasks := ListUserTasksByRun (run_ID child) in
      let tasks := match tasks with Ok l => l | Err _ => [] end in
      let entry := match user_task_entry tasks with
                   | Some t => <["_user_task" := t]> entry
                   | None => entry
                   end in
      let* out := AggregateJoinResults_from (S i) children in
      ret (VMap entry :: out)
  end.
Definition AggregateJoinResults (children : list SagaRun) : M (list Val) :=
  AggregateJoinResults_from 0 children.

(** ** join.go *)

(** The union of the children of the named steps, each step once; shared by
    [collectWatched] and the engine's barrier hook, which differ in how they
    wrap a lookup error. *)
Fixpoint collect_children (wrap : string → err → err) (runID : uuid) (streamIDs : list string)
    (seen : gset string) : M (res (list SagaRun)) :=
  match streamIDs with
  | [] => ret (Ok [])
  | sid :: sids =>
      if decide (sid ∈ seen) then collect_children wrap runID sids seen
      else
        try* children := ListChildrenByParent runID sid else wrap sid in
        try* out := collect_children wrap runID sids ({[sid]} ∪ seen) else id in
        ret (Ok (children ++ out))
  end.

Definition collectWatched (runID : uuid) (streamIDs : list string) : M (res (list SagaRun)) :=
  collect_children (λ sid, EWrap ("list children of step " +:+ quote sid)) runID streamIDs ∅.

Definition JoinVerb_Execute : Handler St := λ run step,
  match ResolveJoinStreams (step_Inputs step !! "streams") (run_Variables run) with
  | Err e => ret (Err (EWrap "join" e))
  | Ok streamIDs =>
      try* watched := collectWatched (run_ID run) streamIDs else EWrap "join" in
      if decide (watched = []) then
        ret (Err (EMsg ("join: streams " +:+ sprint (VStrs streamIDs) +:+
                        " matched no spawned children in this run")))
      else
        match validateJoinStrategy (step_Inputs step) (run_Variables run)
                (Z.of_nat (length watched)) with
        | Err e => ret (Err (EWrap "join" e))
        | Ok _ =>
            if JoinConditionMetCtx (step_Inputs step) (run_Variables run) watched then
              let* aggregated := AggregateJoinResults watched in
              ret (Ok {["_join." +:+ step_ID step +:+ ".branches" := VList aggregated]})
            else
              try* _ := UpdateRunState (run_ID run) RunStatePaused (step_ID step)
                else EWrap "join: pause run" in
              ret (Err ErrSagaPaused)
        end
  end.
End Join.
