(* ===== verification/JoinProps.v ===== *)
(** Properties of the join condition and of the numeric coercions it uses. *)
From S2P Require Import Prelude Values Domain World Cel Demo StoreApi Join.

(** How a group of children may change: a terminal child keeps its state. *)
Definition group_progress (g g' : list SagaRun) : Prop :=
  Forall2 (λ r r', IsTerminal (run_State r) = true → run_State r' = run_State r) g g'.

Lemma allTerminal_Forall g : allTerminal g = true ↔ Forall (λ r, IsTerminal (run_State r) = true) g.
Proof.
  unfold allTerminal. induction g as [|r g IH]; simpl; [done|].
  by rewrite andb_true_iff, IH, Forall_cons.
Qed.

Lemma allTerminal_progress g g' : group_progress g g' → allTerminal g = true → allTerminal g' = true.
Proof.
  intros Hp. rewrite !allTerminal_Forall. induction Hp as [|r r' g g' Hr Hp IH]; [done|].
  intros [Ht Hg]%Forall_cons. constructor; [by rewrite Hr|by apply IH].
Qed.

Lemma succeeded_cons r g :
  count_succeeded (r :: g) =
  (count_succeeded g + if decide (run_State r = RunStateSucceeded) then 1 else 0)%Z.
Proof. unfold count_succeeded. rewrite filter_cons. case_decide; simpl; lia. Qed.

Lemma count_succeeded_progress g g' :
  group_progress g g' → (count_succeeded g ≤ count_succeeded g')%Z.
Proof.
  induction 1 as [|r r' g g' Hr Hp IH]; [done|]. rewrite !succeeded_cons.
  case_decide as Hs; case_decide as Hs'; try lia.
  exfalso. apply Hs'. rewrite Hr by (by rewrite Hs). done.
Qed.

(** Once every child is terminal the counts are final. *)
Lemma count_succeeded_final g g' :
  group_progress g g' → allTerminal g = true → count_succeeded g' = count_succeeded g.
Proof.
  intros Hp. rewrite allTerminal_Forall. induction Hp as [|r r' g g' Hr Hp IH]; [done|].
  intros [Ht Hg]%Forall_cons. rewrite !succeeded_cons, IH, Hr by done. done.
Qed.

Lemma count_succeeded_all g :
  Forall (λ r, run_State r = RunStateSucceeded) g → count_succeeded g = Z.of_nat (length g).
Proof.
  induction 1 as [|r g Hr Hg IH]; [done|]. rewrite succeeded_cons, IH, decide_True by done.
  simpl; lia.
Qed.

Lemma group_progress_nil g g' : group_progress g g' → g = [] ↔ g' = [].
Proof. intros Hp. by destruct Hp. Qed.

Section join_props.
Context `{Env}.

(** The condition, as a proposition. *)
Definition join_met (inputs vars : Vars) (g : list SagaRun) : Prop :=
  g ≠ [] ∧
  (if decide (join_strategy inputs = "all") then allTerminal g = true
   else join_strategy inputs = "quorum" ∧
        match quorum_of inputs vars with
        | Some n => (n ≤ count_succeeded g)%Z
        | None => allTerminal g = true
        end).

Lemma JoinConditionMet_iff inputs vars g :
  JoinConditionMetCtx inputs vars g = true ↔ join_met inputs vars g.
Proof.
  unfold JoinConditionMetCtx, join_met. case_decide; [naive_solver|].
  case_decide; [naive_solver|]. case_decide; [|naive_solver].
  destruct (quorum_of inputs vars); [rewrite Z.leb_le|]; naive_solver.
Qed.

(** The join condition is stable: it does not depend on the order in which
    the store lists the children, and once it holds it keeps holding however the
    children go on, so a wake-up decided on it is never premature in hindsight. *)
Theorem join_condition_stable inputs vars g g' k :
  g ≡ₚ k → group_progress k g' →
  JoinConditionMetCtx inputs vars g = JoinConditionMetCtx inputs vars k ∧
  (JoinConditionMetCtx inputs vars k = true → JoinConditionMetCtx inputs vars g' = true).
Proof.
  intros Hgk Hp. split.
  - apply eq_true_iff_eq. rewrite !JoinConditionMet_iff. unfold join_met, allTerminal, count_succeeded.
    rewrite (forallb_perm _ _ _ Hgk), (Permutation_length (filter_perm _ _ _ Hgk)).
    assert (g ≠ [] ↔ k ≠ []); [|naive_solver].
    split; intros Hne ->; apply Hne; [by apply Permutation_nil_r|].
    by apply Permutation_nil_r; symmetry.
  - rewrite !JoinConditionMet_iff. intros [Hne Hm]. split; [by rewrite <-(group_progress_nil _ _ Hp)|].
    case_decide; [by eapply allTerminal_progress|]. destruct Hm as [-> Hm]. split; [done|].
    destruct (quorum_of inputs vars); [|by eapply allTerminal_progress].
    etrans; [exact Hm|]. by apply count_succeeded_progress.
Qed.

(** A barrier that validation accepts can be satisfied: for the number of
    children it was checked against, the condition holds once all of them have
    succeeded. *)
Theorem validated_join_satisfiable inputs vars g :
  g ≠ [] → validateJoinStrategy inputs vars (Z.of_nat (length g)) = Ok tt →
  Forall (λ r, run_State r = RunStateSucceeded) g →
  JoinConditionMetCtx inputs vars g = true.
Proof.
  intros Hne Hv Hs. apply JoinConditionMet_iff. split; [done|].
  assert (allTerminal g = true) as Ht.
  { apply allTerminal_Forall. eapply Forall_impl; [exact Hs|]. by intros r ->. }
  unfold validateJoinStrategy in Hv. case_decide; [done|]. case_decide; [|done].
  split; [done|]. destruct (quorum_of inputs vars) as [n|] eqn:Hq; [|done].
  rewrite count_succeeded_all by done. unfold quorum_of in Hq.
  destruct (inputs !! "quorum_n") as [[]|]; simpl in *;
    repeat (case_match || case_decide); simplify_eq; lia.
Qed.

(** A quorum that can no longer be reached is never reported: when every
    child is terminal and fewer than [quorum_n] succeeded, the condition is false
    now and stays false however the rows change, so the waiting parent has no
    wake-up left (a join with strategy "all" would have been released). *)
Theorem quorum_out_of_reach inputs vars g g' n :
  join_strategy inputs = "quorum" → quorum_of inputs vars = Some n →
  allTerminal g = true → (count_succeeded g < n)%Z → group_progress g g' →
  JoinConditionMetCtx inputs vars g' = false.
Proof.
  intros Hs Hq Ht Hc Hp. apply not_true_is_false. rewrite JoinConditionMet_iff.
  intros [_ Hm]. rewrite Hs, Hq in Hm; simpl in Hm.
  rewrite (count_succeeded_final g g') in Hm by done. lia.
Qed.
End join_props.

(** ** Witnesses *)
Definition child_in (st : RunState) : SagaRun := set_run_State st (NewSagaRun 1 0 "wf" 9 None ∅).
Definition quorum_two : Vars := {["join_strategy" := VStr "quorum"; "quorum_n" := VInt64 2]}.

Lemma join_condition_stable_witness :
  let g := [child_in RunStateFailed; child_in RunStateSucceeded; child_in RunStateSucceeded] in
  let k := [child_in RunStateSucceeded; child_in RunStateFailed; child_in RunStateSucceeded] in
  @JoinConditionMetCtx demo_env quorum_two ∅ g = @JoinConditionMetCtx demo_env quorum_two ∅ k ∧
  (@JoinConditionMetCtx demo_env quorum_two ∅ k = true →
   @JoinConditionMetCtx demo_env quorum_two ∅ k = true).
Proof.
  intros g k. apply (@join_condition_stable demo_env quorum_two ∅ g k k).
  - apply Permutation_swap.
  - repeat constructor.
Defined.

Lemma validated_join_satisfiable_witness :
  @JoinConditionMetCtx demo_env quorum_two ∅ [child_in RunStateSucceeded; child_in RunStateSucceeded]
  = true.
Proof.
  apply (@validated_join_satisfiable demo_env quorum_two ∅
           [child_in RunStateSucceeded; child_in RunStateSucceeded]).
  - discriminate.
  - by vm_compute.
  - repeat constructor.
Defined.

Lemma quorum_out_of_reach_witness :
  let g := [child_in RunStateSucceeded; child_in RunStateFailed; child_in RunStateFailed] in
  @JoinConditionMetCtx demo_env quorum_two ∅ g = false.
Proof.
  intros g. apply (@quorum_out_of_reach demo_env quorum_two ∅ g g 2).
  - by vm_compute.
  - by vm_compute.
  - by vm_compute.
  - by vm_compute.
  - repeat constructor.
Defined.
