(* ===== verification/Fanout.v ===== *)
(** The verbs of [src/engine/verbs] that spawn child runs: [parallel],
    [foreach], [sub_saga] and [spawn_saga]. *)
From S2P Require Import Prelude Values Domain World Cel StoreApi Join.

Section Fanout.
Context `{Env}.

(** [parseSteps]: marshal and unmarshal. *)
Definition parseSteps (inl : list Val) : res (list Step) :=
  tryp* bs := json_marshal (VList inl) else id in json_steps bs.

Definition normalizeBranch (b : Vars) (index : nat) : Vars :=
  match b !! "start" with
  | Some _ => b
  | None =>
      let verbType := get_str b "type" in
      if decide (verbType = "") then b
      else
        let inputs : Vars := default ∅ (as_map (b !! "inputs")) in
        let key := get_str b "key" in
        let key := if decide (key = "") then "b" +:+ itoa (Z.of_nat index) else key in
        let stepID := key +:+ "_" +:+ verbType in
        let endID := key +:+ "_end" in
        {["key" := VStr key; "start" := VStr stepID;
          "steps" := VList [
            VMap {["id" := VStr stepID; "type" := VStr verbType; "inputs" := VMap inputs;
                   "next" := VStr endID]};
            VMap {["id" := VStr endID; "type" := VStr "end"]}]]}
  end.

(** The checks of [parallel] on its join strategy. *)
Definition parallel_check_strategy (inputs vars : Vars) (branches : Z) : res unit :=
  let joinStrategy := join_strategy inputs in
  if decide (joinStrategy = "all") then Ok tt
  else if decide (joinStrategy = "quorum") then
    tryp* quorumN :=
      match inputs !! "quorum_n" with
      | Some (VStr qv) =>
          tryp* val := EvalQuorumNCEL qv vars else EWrap "parallel: quorum_n CEL eval" in
          match ToIntFromAny val with
          | Some n => Ok n
          | None => Err (EMsg ("parallel: quorum_n CEL result is not numeric: " +:+
                               type_name val +:+ " " +:+ sprint val))
          end
      | raw =>
          match ToInt raw with
          | Some n => Ok n
          | None =>
              Err (EMsg "parallel: quorum_n required and must be positive when join_strategy=quorum")
          end
      end else id in
    if decide (quorumN ≤ 0)%Z then Err (EMsg "parallel: quorum_n must be positive")
    else if decide (branches < quorumN)%Z then
      Err (EMsg ("parallel: quorum_n=" +:+ itoa quorumN +:+ " exceeds branch count=" +:+
                 itoa branches))
    else Ok tt
  else Err (EMsg ("parallel: join_strategy " +:+ quote joinStrategy +:+
                  " not supported (use 'all' or 'quorum')")).

(** The branches of a parallel step, a literal list or a CEL string. *)
Definition parallel_branches (inputs vars : Vars) : res (list Val) :=
  tryp* branchesAny :=
    match inputs !! "branches" with
    | Some (VStr b) =>
        tryp* evaluated := evalBranchesCEL b vars else EWrap "parallel: branches CEL eval" in
        Ok evaluated
    | Some (VList l) => Ok l
    | raw => Err (EMsg ("parallel: branches must be []any or CEL string, got " +:+ type_of raw))
    end else id in
  if decide (branchesAny = []) then
    Err (EMsg "parallel: branches required and must be non-empty list (after CEL eval if applicable)")
  else Ok branchesAny.

(** The synthetic definition of branch [i], its key included. *)
Definition parallel_branch_def (run : SagaRun) (step : Step) (i : nat) (b : Val)
    : res (string * WorkflowDefinition) :=
  let branch := "parallel: branch " +:+ itoa (Z.of_nat i) in
  match b with
  | VMap bm =>
      let bm := normalizeBranch bm i in
      let start := get_str bm "start" in
      if decide (start = "") then Err (EMsg (branch +:+ " missing start"))
      else
        let stepsAny := default [] (as_list (bm !! "steps")) in
        if decide (stepsAny = []) then Err (EMsg (branch +:+ " missing steps"))
        else
          tryp* stepsParsed := parseSteps stepsAny else EWrap (branch +:+ " parse") in
          let k := get_str bm "key" in
          let branchKey := if decide (k = "") then "b" +:+ itoa (Z.of_nat i) else k in
          Ok (branchKey,
              mkDef (run_WorkflowID run +:+ "@" +:+ step_ID step +:+ "/" +:+ branchKey) 1 None
                "synthetic-branch" "" start ∅ stepsParsed true 0 "")
  | _ => Err (EMsg (branch +:+ " must be an object"))
  end.

Context `{Store St}.
Abbreviation M := (M (World St)).

(** Publish the children in order, stopping at the first failure. *)
Fixpoint publish_children (what : string) (pub : Publisher St) (i : nat) (ids : list string)
    : M (res unit) :=
  match ids with
  | [] => ret (Ok tt)
  | id :: ids =>
      try* _ := pub id else EWrap (what +:+ itoa (Z.of_nat i)) in
      publish_children what pub (S i) ids
  end.

(** The pause-then-publish tail the fan-out verbs share; [pause] and [what]
    are the prefixes of their error messages. *)
Definition pause_and_publish (pause what : string) (pub : option (Publisher St))
    (run : SagaRun) (step : Step) (childIDs : list string) : M (res Vars) :=
  try* _ := UpdateRunState (run_ID run) RunStatePaused (step_ID step) else EWrap pause in
  try* _ := (match pub with
             | Some p => publish_children what p 0 childIDs
             | None => ret (Ok tt)
             end) else id in
  ret (Err ErrSagaPaused).

(** The spawning loop of [parallel], from branch [i]. *)
Fixpoint parallel_spawn (run : SagaRun) (step : Step) (i : nat) (branches : list Val)
    : M (res (list string)) :=
  match branches with
  | [] => ret (Ok [])
  | b :: branches =>
      match parallel_branch_def run step i b with
      | Err e => ret (Err e)
      | Ok (branchKey, branchDef) =>
          try* _ := UpsertWorkflowDefinition branchDef
            else EWrap ("parallel: upsert branch " +:+ itoa (Z.of_nat i) +:+ " def") in
          try* childID := SpawnChildRun (run_ID run) (step_ID step) branchKey branchDef
                            (run_Variables run)
            else EWrap ("parallel: spawn branch " +:+ itoa (Z.of_nat i)) in
          try* ids := parallel_spawn run step (S i) branches else id in
          ret (Ok (uuid_string childID :: ids))
      end
  end.

Definition ParallelVerb_Execute (pub : option (Publisher St)) : Handler St := λ run step,
  match parallel_branches (step_Inputs step) (run_Variables run) with
  | Err e => ret (Err e)
  | Ok branchesAny =>
      match parallel_check_strategy (step_Inputs step) (run_Variables run)
              (Z.of_nat (length branchesAny)) with
      | Err e => ret (Err e)
      | Ok _ =>
          try* childIDs := parallel_spawn run step 0 branchesAny else id in
          pause_and_publish "parallel: pause parent" "parallel: publish branch " pub
            run step childIDs
      end
  end.

(** The spawning loop of [foreach], from item [i]. *)
Fixpoint foreach_spawn (run : SagaRun) (step : Step) (start : string) (stepsParsed : list Step)
    (i : nat) (items : list Val) : M (res (list string)) :=
  match items with
  | [] => ret (Ok [])
  | item :: items =>
      let branchKey := "i" +:+ itoa (Z.of_nat i) in
      let branchDef :=
        mkDef (run_WorkflowID run +:+ "@" +:+ step_ID step +:+ "/" +:+ branchKey) 1 None
          "synthetic-foreach-iter" "" start ∅ stepsParsed true 0 "" in
      try* _ := UpsertWorkflowDefinition branchDef
        else EWrap ("foreach: upsert iter " +:+ itoa (Z.of_nat i) +:+ " def") in
      let childInputs :=
        <["_foreach_index" := VInt64 (Z.of_nat i)]>
          (<["_foreach_item" := item]> (run_Variables run)) in
      try* childID := SpawnChildRun (run_ID run) (step_ID step) branchKey branchDef childInputs
        else EWrap ("foreach: spawn iter " +:+ itoa (Z.of_nat i)) in
      try* ids := foreach_spawn run step start stepsParsed (S i) items else id in
      ret (Ok (uuid_string childID :: ids))
  end.

Definition ForeachVerb_Execute (pub : option (Publisher St)) : Handler St := λ run step,
  if decide (as_bool (step_Inputs step !! "parallel") = Some false) then
    ret (Err (EMsg "foreach: sequential mode deferred; use `while` with an index counter"))
  else
    let listExpr := get_str (step_Inputs step) "list" in
    if decide (listExpr = "") then ret (Err (EMsg "foreach: list required"))
    else
      let body := default [] (as_list (step_Inputs step !! "body")) in
      if decide (body = []) then
        ret (Err (EMsg "foreach: body required (non-empty []any of step objects)"))
      else
        let start := get_str (step_Inputs step) "start" in
        if decide (start = "") then
          ret (Err (EMsg "foreach: start (first step ID of body) required"))
        else
          match CompiledProgram (keysOf (run_Variables run)) listExpr with
          | Err e => ret (Err (EWrap "foreach: compile list" e))
          | Ok prg =>
              match Eval prg (run_Variables run) with
              | Err e => ret (Err (EWrap "foreach: eval list" e))
              | Ok (VList []) => ret (Ok ∅)
              | Ok (VList items) =>
                  match parseSteps body with
                  | Err e => ret (Err (EWrap "foreach: parse body" e))
                  | Ok stepsParsed =>
                      try* childIDs := foreach_spawn run step start stepsParsed 0 items
                        else id in
                      pause_and_publish "foreach: pause parent" "foreach: publish iter " pub
                        run step childIDs
                  end
              | Ok listVal =>
                  ret (Err (EMsg ("foreach: list expr did not produce []any, got " +:+
                                  type_name listVal)))
              end
          end.

(** Resolve the child workflow and its start step; [verb] names the caller in
    the messages. *)
Definition resolve_child (verb : string) (run : SagaRun) (step : Step)
    : M (res (WorkflowDefinition * Vars * string)) :=
  let workflowID := get_str (step_Inputs step) "workflow_id" in
  if decide (workflowID = "") then ret (Err (EMsg (verb +:+ ": workflow_id required")))
  else
    let inputs := default ∅ (as_map (step_Inputs step !! "inputs")) in
    try* def := GetPublishedWorkflowByID workflowID (run_TenantID run)
      else EWrap (verb +:+ ": resolve " +:+ quote workflowID) in
    let entrypoint := get_str (step_Inputs step) "entrypoint" in
    match ResolveEntry quote def entrypoint with
    | Err e => ret (Err (EWrap verb e))
    | Ok startStep => ret (Ok (def, inputs, startStep))
    end.

Definition SubSagaVerb_Execute (pub : option (Publisher St)) : Handler St := λ run step,
  try* (def, inputs, startStep) := resolve_child "sub_saga" run step else id in
  try* childID := SpawnChildRunAt (run_ID run) (step_ID step) "sub" def inputs startStep
    else EWrap "sub_saga: spawn" in
  try* _ := UpdateRunState (run_ID run) RunStatePaused (step_ID step)
    else EWrap "sub_saga: pause parent" in
  try* _ := (match pub with Some p => p (uuid_string childID) | None => ret (Ok tt) end)
    else EWrap "sub_saga: publish" in
  ret (Err ErrSagaPaused).

(** The publish is best-effort and the parent is not paused. *)
Definition SpawnSagaVerb_Execute (pub : option (Publisher St)) : Handler St := λ run step,
  try* (def, inputs, startStep) := resolve_child "spawn_saga" run step else id in
  try* childID := SpawnChildRunAt (run_ID run) (step_ID step) "spawn" def inputs startStep
    else EWrap "spawn_saga: spawn" in
  do* (match pub with Some p => p (uuid_string childID) | None => ret (Ok tt) end) in
  ret (Ok ∅).
End Fanout.
