(* ===== verification/VerbsEffect.v ===== *)
(** The verbs of [src/engine/verbs] that use the store, the clock or an
    external call without spawning runs: [log], [metric_emit], [decision], the
    waits, the user tasks, [try_catch], [emit_signal], [emit_event], [cancel],
    [http_request] and [webhook_emit]. *)
From S2P Require Import Prelude Values Domain World Cel StoreApi.

(** [time.Duration(to * float64(time.Second))]. *)
Definition seconds (t : spec_float) : Z := int_of_float (f_mul t (f_of_Z 1000000000)).

(** [secrets.Resolver]; [memory_Get] is [Memory.Get] of [src/secrets]. *)
Definition SecretsResolver : Type := string → res string.
Definition memory_Get (m : gmap string string) : SecretsResolver := λ ref,
  match m !! ref with
  | Some v => Ok v
  | None => Err (EMsg ("secrets: ref not found: " +:+ ref))
  end.

Section VerbsEffect.
Context `{Env} `{Store St}.
Abbreviation M := (M (World St)).

Definition LogVerb_Execute : Handler St := λ run step,
  let msg := get_str (step_Inputs step) "message" in
  if decide (msg = "") then ret (Err (EMsg "log: message required"))
  else
    let level := get_str (step_Inputs step) "level" in
    let level := if decide (level = "") then "info" else level in
    let* evt := NewEvent (run_ID run) (step_ID step) 0 EventLog "workflow" in
    try* _ := AppendEvent (with_Metadata {["message" := VStr msg; "level" := VStr level]} evt)
      else EWrap "log: append event" in
    ret (Ok ∅).

Definition MetricEmitVerb_Execute : Handler St := λ run step,
  let name := get_str (step_Inputs step) "name" in
  if decide (name = "") then ret (Err (EMsg "metric_emit: name required"))
  else
    match step_Inputs step !! "value" with
    | None => ret (Err (EMsg "metric_emit: value required"))
    | Some value =>
        let labels := default ∅ (as_map (step_Inputs step !! "labels")) in
        let* evt := NewEvent (run_ID run) (step_ID step) 0 EventMetric "workflow" in
        try* _ := AppendEvent (with_Metadata
            {["name" := VStr name; "value" := value; "labels" := VMap labels]} evt)
          else EWrap "metric_emit: append event" in
        ret (Ok ∅)
    end.

(** The inputs handed to the rule: the run's variables, or those the
    [inputs_map] selects (a missing variable becomes nil). *)
Definition decision_inputs (run : SagaRun) (step : Step) : res Vars :=
  match as_map (step_Inputs step !! "inputs_map") with
  | None => Ok (run_Variables run)
  | Some im =>
      tryp* kvs := map_res (λ kv : string * Val,
        match as_str (Some kv.2) with
        | Some runVar =>
            if decide (runVar = "") then
              Err (EMsg ("decision: inputs_map[" +:+ kv.1 +:+ "] must be a string variable name"))
            else Ok (kv.1, default VNil (run_Variables run !! runVar))
        | None =>
            Err (EMsg ("decision: inputs_map[" +:+ kv.1 +:+ "] must be a string variable name"))
        end) (range_map im) else id in
      Ok (list_to_map kvs)
  end.

Definition DecisionVerb_Execute : Handler St := λ run step,
  let ruleID := get_str (step_Inputs step) "rule_id" in
  if decide (ruleID = "") then ret (Err (EMsg "decision: rule_id required"))
  else
    try* def := GetPublishedRuleByID ruleID None else EWrap "decision: rule_not_found" in
    match decision_inputs run step with
    | Err e => ret (Err e)
    | Ok inputs =>
        match Evaluate def inputs with
        | (Err e, _) => ret (Err (EWrap "decision" e))
        | (Ok out, audit) =>
            let* evt := NewEvent (run_ID run) (step_ID step) 0 EventRuleEvaluated "workflow" in
            do* AppendEvent (with_Metadata
                  {["rule_id" := VStr ruleID; "audit" := audit_val audit]} evt) in
            ret (Ok out)
        end
    end.

(** ** Waits *)
Definition WaitDurationVerb_Execute : Handler St := λ run step,
  let dStr := get_str (step_Inputs step) "duration" in
  if decide (dStr = "") then ret (Err (EMsg "wait_duration: duration required"))
  else
    match parse_duration dStr with
    | Err e => ret (Err (EWrap ("wait_duration: parse " +:+ quote dStr) e))
    | Ok d =>
        if decide (d < 0)%Z then
          ret (Err (EMsg ("wait_duration: negative duration not allowed: " +:+ dStr)))
        else
          let* now := Clock_Now in
          try* _ := SetPausedWithWakeup (run_ID run) (now + d)%Z
            else EWrap "wait_duration: persist wakeup" in
          ret (Err ErrSagaPaused)
    end.

Definition WaitUntilVerb_Execute : Handler St := λ run step,
  let tsStr := get_str (step_Inputs step) "timestamp" in
  if decide (tsStr = "") then ret (Err (EMsg "wait_until: timestamp required"))
  else
    match parse_rfc3339 tsStr with
    | Err e => ret (Err (EWrap ("wait_until: parse " +:+ quote tsStr) e))
    | Ok t =>
        let* now := Clock_Now in
        let t := if decide (t < now)%Z then now else t in
        try* _ := SetPausedWithWakeup (run_ID run) t
          else EWrap "wait_until: persist wakeup" in
        ret (Err ErrSagaPaused)
    end.

(** The deadline of a positive [timeout_s]. *)
Definition timeout_deadline (now : Z) (step : Step) : option Z :=
  match as_float (step_Inputs step !! "timeout_s") with
  | Some t => if f_ltb f_zero t then Some (now + seconds t)%Z else None
  | None => None
  end.

Definition WaitForSignalVerb_Execute : Handler St := λ run step,
  let name := get_str (step_Inputs step) "name" in
  if decide (name = "") then ret (Err (EMsg "wait_for_signal: name required"))
  else
    let* now := Clock_Now in
    try* _ := SetPausedAwaitingSignal (run_ID run) name (timeout_deadline now step)
      else EWrap "wait_for_signal: persist" in
    ret (Err ErrSagaPaused).

(** [map[string]any] headers printed with [fmt.Sprint]. *)
Definition string_headers (step : Step) : gmap string string :=
  match as_map (step_Inputs step !! "headers") with
  | Some h => sprint <$> h
  | None => ∅
  end.

(** [hasClock]: whether a clock is wired. *)
Definition WaitForEventVerb_Execute (hasClock : bool) : Handler St := λ run step,
  let topic := get_str (step_Inputs step) "topic" in
  if decide (topic = "") then ret (Err (EMsg "wait_for_event: topic required"))
  else
    let hdrs := string_headers step in
    let* now := Clock_Now in
    let deadline := if hasClock then timeout_deadline now step else None in
    try* _ := SetPausedAwaitingEventWithDeadline (run_ID run) topic hdrs deadline
      else EWrap "wait_for_event: persist" in
    ret (Err ErrSagaPaused).

(** ** User tasks *)

(** [due_in]: absent, a deadline, or a parse error. *)
Definition due_at (verb : string) (now : Z) (step : Step) : res (option Z) :=
  match as_str (step_Inputs step !! "due_in") with
  | Some dueIn =>
      if decide (dueIn = "") then Ok None
      else
        tryp* d := parse_duration dueIn else EWrap (verb +:+ ": bad due_in " +:+ quote dueIn) in
        Ok (Some (now + d)%Z)
  | None => Ok None
  end.

Definition submitted_signal (taskID : uuid) : string :=
  "user_task." +:+ uuid_string taskID +:+ ".submitted".

(** The tail both verbs share: create the task and await its submission. *)
Definition await_task (verb : string) (run : SagaRun) (step : Step) (assignee : string)
    (dueAt : option Z) (formSchema : Vars) : M (res Vars) :=
  let* id := uuidNew in
  let task := mkTask id (run_ID run) (step_ID step) assignee dueAt formSchema None "" ∅ in
  try* _ := CreateUserTask task else EWrap (verb +:+ ": create task") in
  try* _ := SetPausedAwaitingSignal (run_ID run) (submitted_signal id) dueAt
    else EWrap (verb +:+ ": set awaited signal") in
  ret (Err ErrSagaPaused).

Definition ManualApprovalVerb_Execute : Handler St := λ run step,
  let assignee := get_str (step_Inputs step) "assignee" in
  if decide (assignee = "") then ret (Err (EMsg "manual_approval: assignee required"))
  else
    let* now := Clock_Now in
    match due_at "manual_approval" now step with
    | Err e => ret (Err e)
    | Ok dueAt =>
        let formSchema := default ∅ (as_map (step_Inputs step !! "form_schema")) in
        await_task "manual_approval" run step assignee dueAt formSchema
    end.

Definition CollectInputVerb_Execute : Handler St := λ run step,
  let assignee := get_str (step_Inputs step) "assignee" in
  if decide (assignee = "") then ret (Err (EMsg "collect_input: assignee required"))
  else
    let formSchema := default ∅ (as_map (step_Inputs step !! "form_schema")) in
    if decide (formSchema = ∅) then
      ret (Err (EMsg "collect_input: form_schema required and non-empty"))
    else
      let* now := Clock_Now in
      match due_at "collect_input" now step with
      | Err e => ret (Err e)
      | Ok dueAt => await_task "collect_input" run step assignee dueAt formSchema
      end.

(** ** Control *)
Definition TryCatchVerb_Execute : Handler St := λ run step,
  let tryAny := default [] (as_list (step_Inputs step !! "try")) in
  if decide (tryAny = []) then ret (Err (EMsg "try_catch: try list required"))
  else
    let catch := get_str (step_Inputs step) "catch" in
    if decide (catch = "") then ret (Err (EMsg "try_catch: catch step ID required"))
    else
      try* _ := PushTryCatch (run_ID run) (mkFrame (step_ID step) catch)
        else EWrap "try_catch: push frame" in
      ret (Ok ∅).

Definition EmitSignalVerb_Execute (pub : option (Publisher St)) : Handler St := λ _ step,
  let runIDStr := get_str (step_Inputs step) "run_id" in
  let name := get_str (step_Inputs step) "name" in
  if decide (runIDStr = "" ∨ name = "") then
    ret (Err (EMsg "emit_signal: run_id and name required"))
  else
    match uuid_parse runIDStr with
    | Err e => ret (Err (EWrap "emit_signal: bad run_id" e))
    | Ok targetID =>
        let payload := default ∅ (as_map (step_Inputs step !! "payload")) in
        let* id := uuidNew in
        let* now := timeNow in
        try* _ := AppendSignal (mkSignal id targetID name payload now None)
          else EWrap "emit_signal: append" in
        try* ok := TryConsumeAwaitedSignal targetID name else EWrap "emit_signal: consume" in
        match ok, pub with
        | true, Some p =>
            try* _ := p (uuid_string targetID) else EWrap "emit_signal: publish" in
            ret (Ok ∅)
        | _, _ => ret (Ok ∅)
        end
    end.

Definition EmitEventVerb_Execute (emitter : option (EventEmitter St)) : Handler St := λ _ step,
  let topic := get_str (step_Inputs step) "topic" in
  if decide (topic = "") then ret (Err (EMsg "emit_event: topic required"))
  else
    match emitter with
    | None => ret (Err (EMsg "emit_event: no EventEmitter configured"))
    | Some emit =>
        let hdrs := string_headers step in
        let payload := default ∅ (as_map (step_Inputs step !! "payload")) in
        try* _ := emit topic hdrs payload else EWrap "emit_event" in
        ret (Ok ∅)
    end.

(** [check] is the [ParentJoinChecker], when one is set. *)
Definition CancelVerb_Execute (check : option (SagaRun → M unit)) : Handler St := λ run step,
  let runIDStr := get_str (step_Inputs step) "run_id" in
  if decide (runIDStr = "" ∨ runIDStr = uuid_string (run_ID run)) then
    ret (Err ErrSagaCancelled)
  else
    match uuid_parse runIDStr with
    | Err e => ret (Err (EWrap "cancel: bad run_id" e))
    | Ok targetID =>
        try* _ := UpdateRunState targetID RunStateCancelled "" else EWrap "cancel: update target" in
        let* evt := NewEvent targetID (step_ID step) 0 EventRunCancelled "engine" in
        do* AppendEvent evt in
        match check with
        | None => ret (Ok ∅)
        | Some check =>
            let* target := GetRun targetID in
            match target with
            | Ok t => do* check t in ret (Ok ∅)
            | Err _ => ret (Ok ∅)
            end
        end
    end.

(** ** Outbound HTTP *)

(** [req.Header.Set] per entry, in visiting order: a later key with the same
    canonical form wins. *)
Definition header_fields (step : Step) (base : gmap string string) : gmap string string :=
  fold_left (λ h kv, <[canonical_header kv.1 := kv.2]> h) (range_map (string_headers step)) base.

Definition timeout_or (dflt : Z) (step : Step) : Z :=
  match as_float (step_Inputs step !! "timeout_s") with
  | Some t => seconds t
  | None => dflt * 1000000000
  end%Z.

(** [client.Do]. *)
Definition http_Do (req : HTTPRequest) : M (res HTTPResponse) := λ w,
  let resp := http_response (w_out w) req in
  let '(r, w') := send (MHTTP req) w in
  (match r with Ok _ => Ok resp | Err e => Err e end, w').

(** The parsed body: JSON when the content type says so and it parses. *)
Definition parsed_body (resp : HTTPResponse) : Val :=
  let ct := default "" (default [] (rs_Header resp !! "Content-Type") !! 0) in
  if strings_HasPrefix ct "application/json" then
    match json_value (rs_Body resp) with Ok j => j | Err _ => VStr (rs_Body resp) end
  else VStr (rs_Body resp).

Definition first_headers (resp : HTTPResponse) : gmap string string :=
  omap (λ vs : list string, head vs) (rs_Header resp).

Definition HTTPRequestVerb_Execute (sec : option SecretsResolver) : Handler St := λ _ step,
  let method := get_str (step_Inputs step) "method" in
  let method := if decide (method = "") then "GET" else method in
  let url := get_str (step_Inputs step) "url" in
  if decide (url = "") then ret (Err (EMsg "http_request: url required"))
  else
    let timeout := timeout_or 30 step in
    let outVar := get_str (step_Inputs step) "out_var" in
    let outVar := if decide (outVar = "") then "http_result" else outVar in
    match (match step_Inputs step !! "body" with
           | None | Some VNil => Ok None
           | Some b => tryp* bs := json_marshal b else EWrap "http_request: marshal body" in
                       Ok (Some bs)
           end) with
    | Err e => ret (Err e)
    | Ok body =>
        match http_NewRequest method url with
        | Some e => ret (Err (EWrap "http_request: build" e))
        | None =>
            let hdrs := header_fields step ∅ in
            let ref := get_str (step_Inputs step) "secret_ref" in
            match (if decide (ref = "") then Ok hdrs
                   else match sec with
                        | None => Err (EMsg ("http_request: secret_ref " +:+ quote ref +:+
                                             " given but no Secrets resolver wired"))
                        | Some get =>
                            tryp* val := get ref else EWrap "http_request: secret" in
                            Ok (<["Authorization" := val]> hdrs)
                        end) with
            | Err e => ret (Err e)
            | Ok hdrs =>
                try* resp := http_Do (mkHTTP method url hdrs body timeout)
                  else EWrap "http_request: do" in
                ret (Ok (<[outVar +:+ "_headers" := VStrMap (first_headers resp)]>
                        (<[outVar +:+ "_status" := VInt64 (rs_StatusCode resp)]>
                          {[outVar := parsed_body resp]})))
            end
        end
    end.

Definition WebhookEmitVerb_Execute (sec : option SecretsResolver) : Handler St := λ _ step,
  let url := get_str (step_Inputs step) "url" in
  if decide (url = "") then ret (Err (EMsg "webhook_emit: url required"))
  else
    match step_Inputs step !! "body" with
    | None => ret (Err (EMsg "webhook_emit: body required"))
    | Some bodyAny =>
        match json_marshal bodyAny with
        | Err e => ret (Err (EWrap "webhook_emit: marshal body" e))
        | Ok bs =>
            let timeout := timeout_or 15 step in
            let async := default false (as_bool (step_Inputs step !! "async")) in
            let outVar := get_str (step_Inputs step) "out_var" in
            let outVar := if decide (outVar = "") then "webhook_result" else outVar in
            match http_NewRequest "POST" url with
            | Some e => ret (Err (EWrap "webhook_emit: build" e))
            | None =>
                let hdrs := header_fields step {["Content-Type" := "application/json"]} in
                let ref := get_str (step_Inputs step) "secret_ref" in
                match (if decide (ref = "") then Ok hdrs
                       else match sec with
                            | None => Err (EMsg ("webhook_emit: secret_ref " +:+ quote ref +:+
                                                 " but no Secrets resolver"))
                            | Some get =>
                                tryp* key := get ref else EWrap "webhook_emit: secret" in
                                Ok (<["X-Webhook-Sig" :=
                                      "sha256=" +:+ hmac_sha256_hex key bs]> hdrs)
                            end) with
                | Err e => ret (Err e)
                | Ok hdrs =>
                    let req := mkHTTP "POST" url hdrs (Some bs) timeout in
                    if async then
                      do* http_Do req in
                      ret (Ok {[outVar +:+ "_async" := VBool true]})
                    else
                      try* resp := http_Do req else EWrap "webhook_emit: do" in
                      ret (Ok {[outVar +:+ "_status" := VInt64 (rs_StatusCode resp)]})
                end
            end
        end
    end.
End VerbsEffect.
