(* ===== verification/Licensing.v ===== *)
(** License resolvers: [src/licensing].

    [Cached] keeps its map in its own struct; the part of the process that holds it
    is the state the accessors of the section reach.  Its mutex makes the lookup and
    the write two atomic steps; callers are modelled one after the other. *)
From S2P Require Import Prelude Values Domain World Demo VerbsData VerbsEffect.

(** ** resolver.go *)

(** [Resolver.IsFeatureEnabled]. *)
Definition Resolver (W : Type) : Type :=
  option uuid → string → gmap string bool → M W (res bool).

Record cacheEntry := mkEntry { ce_value : bool; ce_expires : Z }.

Section Cached.
Context `{Env} {W : Type} (time_Now : W → Z) (data : W → gmap string cacheEntry)
        (set_data : gmap string cacheEntry → W → W).

Definition cacheKey (tenant : option uuid) (feature : string) : string :=
  match tenant with
  | None => "platform|" +:+ feature
  | Some t => uuid_string t +:+ "|" +:+ feature
  end.

(** The entry of the key, unless it expired. *)
Definition cached_value (key : string) (w : W) : option bool :=
  match data w !! key with
  | Some e => if decide (time_Now w < ce_expires e)%Z then Some (ce_value e) else None
  | None => None
  end.

(** [Cached.IsFeatureEnabled]. *)
Definition Cached (inner : Resolver W) (TTL : Z) : Resolver W := λ tenant feature overrides,
  match overrides !! feature with
  | Some v => ret (Ok v)
  | None =>
      let key := cacheKey tenant feature in
      let* hit := (λ w, (cached_value key w, w)) in
      match hit with
      | Some v => ret (Ok v)
      | None =>
          try* enabled := inner tenant feature ∅ else id in
          do* (λ w, (tt, set_data (<[key := mkEntry enabled (time_Now w + TTL)%Z]> (data w)) w)) in
          ret (Ok enabled)
      end
  end.
End Cached.

(** ** http_resolver.go *)

(** [url.QueryEscape]. *)
Definition hex_digit (n : nat) : ascii :=
  Ascii.ascii_of_nat (if decide (n < 10) then 48 + n else 55 + n).
Definition unreserved (c : ascii) : bool :=
  let n := Ascii.nat_of_ascii c in
  bool_decide (48 ≤ n ≤ 57 ∨ 65 ≤ n ≤ 90 ∨ 97 ≤ n ≤ 122 ∨ n = 45 ∨ n = 95 ∨ n = 46 ∨ n = 126).
Fixpoint url_QueryEscape (s : string) : string :=
  match s with
  | EmptyString => ""
  | String c s =>
      if unreserved c then String c (url_QueryEscape s)
      else if decide (c = " "%char) then String "+"%char (url_QueryEscape s)
      else let n := Ascii.nat_of_ascii c in
           String "%"%char (String (hex_digit (n / 16)) (String (hex_digit (n mod 16))
             (url_QueryEscape s)))
  end.

Record HTTPFeatureResolver := mkFeatureResolver {
  hr_BaseURL : string;
  hr_FeaturesPath : string;
  hr_HTTP : option Z          (* the client's timeout; None: nil *)
}.

Section HTTPResolver.
Context `{Env} {St : Type}.
(** [json.Decoder.Decode] into [featuresResp]: the list of features. *)
Context (json_features : string → res (list string)).

Definition features_url (c : HTTPFeatureResolver) (tenant : option uuid) : string :=
  let path := if decide (hr_FeaturesPath c = "") then "/features" else hr_FeaturesPath c in
  let u := hr_BaseURL c +:+ path in
  match tenant with
  | Some t => u +:+ "?" +:+ "tenant_id=" +:+ url_QueryEscape (uuid_string t)
  | None => u
  end.

(** [HTTPFeatureResolver.IsFeatureEnabled]. *)
Definition http_IsFeatureEnabled (c : HTTPFeatureResolver) : Resolver (World St) :=
  λ tenant feature _,
  let u := features_url c tenant in
  match http_NewRequest "GET" u with
  | Some e => ret (Err (EWrap "feature resolver: build request" e))
  | None =>
      try* resp := http_Do (mkHTTP "GET" u ∅ None (default (5 * 1000000000)%Z (hr_HTTP c)))
        else EWrap "feature resolver: do" in
      if decide (rs_StatusCode resp = 200%Z) then
        match json_features (rs_Body resp) with
        | Err e => ret (Err (EWrap "feature resolver: decode" e))
        | Ok features => ret (Ok (bool_decide (feature ∈ features)))
        end
      else ret (Err (EMsg ("feature resolver: unexpected status " +:+ itoa (rs_StatusCode resp))))
  end.
End HTTPResolver.

(** ** The cached resolver is never staler than its time to live *)
Section CachedProps.
Context `{EnvLaws}.

(** A printed uuid is not "platform" and has no "|". *)
Context (uuid_shape : ∀ u, char_free "|"%char (uuid_string u) ∧ uuid_string u ≠ "platform").

Lemma cut_at_bar s f s' f' :
  char_free "|"%char s → char_free "|"%char s' →
  s +:+ String "|"%char f = s' +:+ String "|"%char f' → s = s' ∧ f = f'.
Proof.
  intros Hs Hs' E. pose proof (Index_app _ s f Hs) as Hi. rewrite E, (Index_app _ s' f' Hs') in Hi.
  injection Hi as Hl. split.
  - rewrite <-(strings_take_app s (String "|"%char f)), E, <-Hl. by rewrite strings_take_app.
  - rewrite <-(drop_app_S s "|"%char f), E, <-Hl. by rewrite drop_app_S.
Qed.

(** Different tenants and features never share an entry. *)
Lemma cacheKey_inj t f t' f' : cacheKey t f = cacheKey t' f' → t = t' ∧ f = f'.
Proof.
  assert (∀ u v, uuid_string u = uuid_string v → u = v) as Hinj.
  { intros u v E. pose proof (uuid_parse_string u) as Hu. rewrite E, uuid_parse_string in Hu. congruence. }
  assert (char_free "|"%char "platform") as Hpl by (by apply (bool_decide_unpack _)).
  unfold cacheKey.
  destruct t as [u|], t' as [v|]; intros E.
  - apply cut_at_bar in E as [E ->]; [|apply uuid_shape..]. by rewrite (Hinj _ _ E).
  - apply (cut_at_bar _ _ "platform") in E as [E _]; [|apply uuid_shape|done].
    by destruct (uuid_shape u).
  - apply (cut_at_bar "platform") in E as [E _]; [|done|apply uuid_shape].
    by destruct (uuid_shape v).
  - by apply (cut_at_bar "platform" _ "platform") in E as [_ ->].
Qed.

(** A process that asks: its clock and the cache.  What the wrapped resolver
    answers may change with time. *)
Record LWorld := mkLWorld {
  lw_now : Z;
  lw_cache : gmap string cacheEntry
}.
Definition set_cache (c : gmap string cacheEntry) (w : LWorld) : LWorld :=
  mkLWorld (lw_now w) c.

(** A lookup takes up to [L]; its answer is the truth when it was asked. *)
Context (truth : Z → option uuid → string → res bool) (TTL : Z).
Context (latency : Z → Z) (L : Z) (latency_bound : ∀ t, (0 ≤ latency t ≤ L)%Z).

Definition oracle : Resolver LWorld := λ t f _ w,
  (truth (lw_now w) t f,
   mkLWorld (lw_now w + latency (lw_now w)) (lw_cache w)).
Definition ask_cached : Resolver LWorld := Cached lw_now lw_cache set_cache oracle TTL.

Record query := mkQuery {
  qr_dt : Z;                       (* the time since the previous query *)
  qr_tenant : option uuid;
  qr_feature : string;
  qr_overrides : gmap string bool
}.
Definition ask (q : query) (w : LWorld) : res bool * LWorld :=
  ask_cached (qr_tenant q) (qr_feature q) (qr_overrides q)
    (mkLWorld (lw_now w + qr_dt q) (lw_cache w)).

(** The answers to a sequence of queries, with their times. *)
Fixpoint asks (qs : list query) (w : LWorld) : list (Z * res bool) * LWorld :=
  match qs with
  | [] => ([], w)
  | q :: qs => let '(a, w1) := ask q w in
               let '(l, w2) := asks qs w1 in ((lw_now w1, a) :: l, w2)
  end.

(** Every entry is an answer of the wrapped resolver, at a time that is past. *)
Definition cached_ok (now : Z) (k : string) (e : cacheEntry) : Prop :=
  ∃ t f t0, k = cacheKey t f ∧ truth t0 t f = Ok (ce_value e) ∧
    (ce_expires e ≤ t0 + L + TTL)%Z ∧ (t0 ≤ now)%Z.
Definition cache_ok (w : LWorld) : Prop :=
  ∀ k e, lw_cache w !! k = Some e → cached_ok (lw_now w) k e.

(** What an answer at time [now] may be: the request's override, or what the
    wrapped resolver just said, or said less than [TTL] and one lookup ago. *)
Definition good_answer (q : query) (now : Z) (a : res bool) : Prop :=
  match qr_overrides q !! qr_feature q with
  | Some v => a = Ok v
  | None => ∃ t0, (t0 ≤ now)%Z ∧ ((now ≤ t0 + L)%Z ∨ (now < t0 + L + TTL)%Z ∧ is_Ok a = true) ∧
                  a = truth t0 (qr_tenant q) (qr_feature q)
  end.

Lemma ask_good q w :
  (0 ≤ qr_dt q)%Z → cache_ok w →
  let '(a, w1) := ask q w in
  cache_ok w1 ∧ good_answer q (lw_now w1) a.
Proof.
  intros Hdt Hok. set (w0 := mkLWorld (lw_now w + qr_dt q) (lw_cache w)).
  assert (cache_ok w0) as Hok0.
  { intros k e (t & f & t0 & ? & ? & ? & ?)%Hok. exists t, f, t0. split_and!; try done. simpl; lia. }
  unfold ask, ask_cached, Cached, good_answer. fold w0. clearbody w0.
  destruct (qr_overrides q !! qr_feature q) as [v|]; [done|].
  set (key := cacheKey (qr_tenant q) (qr_feature q)). unfold bind at 1.
  destruct (cached_value lw_now lw_cache key w0) as [v|] eqn:Hhit.
  - split; [done|]. unfold cached_value in Hhit.
    destruct (lw_cache w0 !! key) as [e|] eqn:He; [|done].
    destruct (decide _) as [Hlt|]; [|done]. injection Hhit as <-.
    destruct (Hok0 _ _ He) as (t & f & t0 & [Ht Hf]%cacheKey_inj & Htr & Hex & Hle).
    exists t0. split_and!; [done|right; split; [simpl in *; lia|done]|by rewrite Ht, Hf].
  - unfold bind, oracle. pose proof (latency_bound (lw_now w0)) as Hlat.
    assert (∀ now, (lw_now w0 ≤ now)%Z → ∀ k e, lw_cache w0 !! k = Some e → cached_ok now k e) as Hold.
    { intros now Hn k e (t & f & t0 & ? & ? & ? & ?)%Hok0. exists t, f, t0. split_and!; try done. lia. }
    destruct (truth (lw_now w0) _ _) as [v|e] eqn:Htr; cbn [lw_now set_cache].
    + split; [|exists (lw_now w0); split_and!; [cbn; lia|left; cbn; lia|by rewrite <-Htr]].
      intros k e He. cbn [lw_now lw_cache set_cache] in *.
      apply lookup_insert_Some in He as [[<- <-]|[_ He]]; [|apply Hold; [cbn; lia|done]].
      exists (qr_tenant q), (qr_feature q), (lw_now w0). split_and!; [done|done|cbn; lia..].
    + split; [|exists (lw_now w0); split_and!; [cbn; lia|left; cbn; lia|by rewrite Htr]].
      intros k e' He. apply Hold; [cbn; lia|exact He].
Qed.

(** The license cache is bounded in its staleness and keeps tenants apart: from an
    empty cache, whatever sequence of lookups is made while the clock moves forward,
    each one gives the request's own override if it has one, and otherwise an answer
    the wrapped resolver gives for this very tenant and feature now, or gave less than
    one time-to-live (and the duration of one lookup, since the entry's expiry counts
    from the moment the answer arrived) ago; errors are never served from the cache. *)
Theorem cached_answers_fresh qs now :
  Forall (λ q, 0 ≤ qr_dt q)%Z qs →
  Forall2 (λ q a, good_answer q a.1 a.2) qs (asks qs (mkLWorld now ∅)).1.
Proof.
  intros Hqs. assert (cache_ok (mkLWorld now ∅)) as Hok by (by intros k e He).
  revert Hok. generalize (mkLWorld now ∅). induction Hqs as [|q qs Hq Hqs IH]; intros w Hok; [done|].
  cbn [asks]. pose proof (ask_good q w Hq Hok) as Ha. destruct (ask q w) as [a w1].
  destruct Ha as (Hok1 & Ha). specialize (IH _ Hok1). destruct (asks qs w1) as [l w2].
  by constructor.
Qed.
End CachedProps.

(** ** Witness: a feature that is switched off at time 60 *)
#[local] Existing Instance demo_env.
#[local] Existing Instance demo_laws.

Lemma demo_uuid_shape u : char_free "|"%char (uuid_string u) ∧ uuid_string u ≠ "platform".
Proof.
  destruct u as [|p]; [split; [by apply (bool_decide_unpack _)|done]|].
  change (uuid_string (N.pos p)) with (pos_digits p).
  split; [induction p; by split|by destruct p].
Qed.

Definition switched_off (t : Z) (_ : option uuid) (_ : string) : res bool :=
  Ok (bool_decide (t < 60)%Z).
Definition lookups : list query :=
  [mkQuery 0 None "beta" ∅; mkQuery 70 (Some 3%N) "beta" ∅; mkQuery 0 None "beta" ∅;
   mkQuery 50 None "beta" ∅; mkQuery 1 None "beta" {["beta" := true]}].

Lemma cached_answers_fresh_witness :
  (asks switched_off 100 (λ _, 5%Z) lookups (mkLWorld 0 ∅)).1 =
    [(5%Z, Ok true); (80%Z, Ok false); (80%Z, Ok true); (135%Z, Ok false); (136%Z, Ok true)] ∧
  Forall2 (λ q a, good_answer switched_off 100 5 q a.1 a.2) lookups
    (asks switched_off 100 (λ _, 5%Z) lookups (mkLWorld 0 ∅)).1.
Proof.
  split; [by vm_compute|].
  apply (cached_answers_fresh demo_uuid_shape switched_off 100 (λ _, 5%Z) 5 (λ _, conj (Zle_bool_imp_le 0 5 eq_refl) (Z.le_refl 5)) lookups 0).
  repeat constructor; done.
Defined.
