(* ===== verification/Action.v ===== *)
(** The [action] verb ([src/engine/verbs/action.go]): dispatch of an awaited
    step and of a compensation over the transport the registry declares. *)
From S2P Require Import Prelude Values Domain World StoreApi.

Section Action.
Context `{Env}.

(** The key and value pairs of the two payloads, in field order;
    [json_struct] marshals them ([omitempty] drops a false [dry_run]). *)
Definition dry_run_field (dryRun : bool) : list (string * Val) :=
  if dryRun then [("dry_run", VBool true)] else [].
Definition ActionPayload (runID stepID : string) (attempt : Z) (idemKey action : string)
    (inputs : Vars) (dryRun : bool) : list (string * Val) :=
  [("run_id", VStr runID); ("step_id", VStr stepID); ("attempt", VInt attempt);
   ("idempotency_key", VStr idemKey); ("action", VStr action); ("inputs", VMap inputs)] ++
  dry_run_field dryRun.
Definition CompensationPayload (runID stepID action : string) (inputs : Vars) (dryRun : bool)
    : list (string * Val) :=
  [("run_id", VStr runID); ("step_id", VStr stepID); ("action", VStr action);
   ("inputs", VMap inputs)] ++ dry_run_field dryRun ++ [("compensation", VBool true)].

Definition splitAction (action : string) : option (string * string) :=
  match strings_Index action dot with
  | None => None
  | Some i =>
      if decide (i = 0 ∨ S i = String.length action) then None
      else Some (strings_take i action, strings_drop (S i) action)
  end.

Definition generateIdempotencyKey (runID stepID : string) (attempt : Z) : string :=
  sha256_hex (runID +:+ "|" +:+ stepID +:+ "|" +:+ itoa attempt).

(** The latest registered version of the action; the first one of equal
    versions. *)
Fixpoint latest_action (name : string) (regs : list ActionRegistration)
    (best : option ActionRegistration) : option ActionRegistration :=
  match regs with
  | [] => best
  | r :: regs =>
      if decide (act_ActionName r ≠ name) then latest_action name regs best
      else
        match best with
        | None => latest_action name regs (Some r)
        | Some b =>
            latest_action name regs
              (if decide (act_Version b < act_Version r)%Z then Some r else best)
        end
  end.
End Action.

(** The verb's dependencies.  [av_S] is false for the zero value of the struct,
    whose store is nil. *)
Record ActionVerb (St : Type) := mkActionVerb {
  av_S : bool;
  av_Publisher : option (ActionDispatchPublisher St);
  av_HTTPDispatcher : option (ActionHTTPDispatcher St);
  av_RMQDispatcher : option (ActionRMQDispatcher St)
}.
Arguments mkActionVerb {St}.
Arguments av_S {St}.
Arguments av_Publisher {St}.
Arguments av_HTTPDispatcher {St}.
Arguments av_RMQDispatcher {St}.
Definition zero_ActionVerb {St} : ActionVerb St := mkActionVerb false None None None.

Section ActionVerb.
Context `{Env} `{Store St}.
Abbreviation M := (M (World St)).

Definition resolveDispatch (v : ActionVerb St) (action : string) : M (string * string) :=
  match splitAction action with
  | None => ret ("", "")
  | Some (service, name) =>
      if av_S v then
        let* regs := ListActions (mkActionFilter service "" "") in
        match regs with
        | Err _ => ret ("", "")
        | Ok regs =>
            match latest_action name regs None with
            | None => ret ("", "")
            | Some best => ret (act_Transport best, act_Address best)
            end
        end
      else ret ("", "")
  end.

Definition dispatch (v : ActionVerb St) (action body : string) : M (res unit) :=
  let* (transport, address) := resolveDispatch v action in
  if decide (transport = "" ∨ transport = TransportGRPC) then
    match av_Publisher v with
    | None => ret (Ok tt)
    | Some p => try* _ := p action body else EWrap "action: grpc dispatch" in ret (Ok tt)
    end
  else if decide (transport = TransportHTTP) then
    if decide (address = "") then
      ret (Err (EMsg ("action " +:+ quote action +:+ ": transport http requires an address")))
    else
      match av_HTTPDispatcher v with
      | None => ret (Err (EMsg ("action " +:+ quote action +:+
                   ": transport http not supported (no http dispatcher configured)")))
      | Some d => try* _ := d address body else EWrap "action: http dispatch" in ret (Ok tt)
      end
  else if decide (transport = TransportRMQ) then
    if decide (address = "") then
      ret (Err (EMsg ("action " +:+ quote action +:+ ": transport rmq requires an address")))
    else
      match av_RMQDispatcher v with
      | None => ret (Err (EMsg ("action " +:+ quote action +:+
                   ": transport rmq not supported (no rmq dispatcher configured)")))
      | Some d => try* _ := d address body else EWrap "action: rmq dispatch" in ret (Ok tt)
      end
  else ret (Err (EMsg ("action " +:+ quote action +:+ ": unknown transport " +:+
                       quote transport))).

Definition ActionVerb_Execute (v : ActionVerb St) : Handler St := λ run step,
  let action := step_Action step in
  if decide (action = "") then
    ret (Err (EMsg "action: step.Action required (format service.name)"))
  else if negb (strings_Contains action ".") then
    ret (Err (EMsg ("action: bad format " +:+ quote action +:+ " (want service.name)")))
  else
    let attempt := wrap64 (run_CurrentAttempt run + 1) in
    let runID := uuid_string (run_ID run) in
    let idemKey := generateIdempotencyKey runID (step_ID step) attempt in
    match json_struct (ActionPayload runID (step_ID step) attempt idemKey action
                         (step_Inputs step) (run_DryRun run)) with
    | Err e => ret (Err (EWrap "action: marshal payload" e))
    | Ok body =>
        try* _ := MarkAwaitingAction (run_ID run) action attempt
          else EWrap "action: mark awaiting" in
        try* _ := dispatch v action body else id in
        ret (Err ErrSagaPaused)
    end.

Definition DispatchCompensation (v : ActionVerb St) (runID stepID action : string)
    (inputs : Vars) (dryRun : bool) : M (res unit) :=
  if decide (action = "") then
    ret (Err (EMsg "compensation: action required (format service.name)"))
  else if negb (strings_Contains action ".") then
    ret (Err (EMsg ("compensation: bad action format " +:+ quote action +:+
                    " (want service.name)")))
  else
    match json_struct (CompensationPayload runID stepID action inputs dryRun) with
    | Err e => ret (Err (EWrap "compensation: marshal payload" e))
    | Ok body => dispatch v action body
    end.
End ActionVerb.
