(* ===== verification/Registry.v ===== *)
(** The verb registry ([src/engine/verbs/registry.go]) and the publish-time
    validators ([src/engine/validate.go]). *)
From S2P Require Import Prelude Values Domain World StoreApi VerbsData Join Fanout VerbsEffect.
From S2P Require Import Action.

(** A registry entry.  [entry_ActionVerb] is the value behind the handler when
    it is the [ActionVerb] struct, which compensation recovers by a type
    assertion. *)
Record RegistryEntry (St : Type) := mkEntry {
  entry_Handler : Handler St;
  entry_ActionVerb : option (ActionVerb St);
  LicenseGroup : string
}.
Arguments mkEntry {St}.
Arguments entry_Handler {St}.
Arguments entry_ActionVerb {St}.
Arguments LicenseGroup {St}.

Abbreviation Registry St := (gmap string (RegistryEntry St)).

Section Registry.
Context `{Env} `{Store St}.
Abbreviation M := (M (World St)).

Definition plain (h : Handler St) (group : string) : RegistryEntry St := mkEntry h None group.

(** [Default]; the two optional dispatchers are the [DefaultOption]s. *)
Definition Default (sec : option SecretsResolver) (pub : option (Publisher St))
    (actionPub : option (ActionDispatchPublisher St)) (emitter : option (EventEmitter St))
    (httpDispatcher : option (ActionHTTPDispatcher St))
    (rmqDispatcher : option (ActionRMQDispatcher St)) : Registry St :=
  let av := mkActionVerb true actionPub httpDispatcher rmqDispatcher in
  list_to_map [
    (StepTypeAction, mkEntry (ActionVerb_Execute av) (Some av) "common");
    (StepTypeNoop, plain (pure_handler NoopVerb_Execute) "common");
    (StepTypeSetVar, plain (pure_handler SetVarVerb_Execute) "common");
    (StepTypeTransform, plain (pure_handler TransformVerb_Execute) "common");
    (StepTypeMerge, plain (pure_handler MergeVerb_Execute) "common");
    (StepTypeFilter, plain (pure_handler FilterVerb_Execute) "common");
    (StepTypeMap, plain (pure_handler MapVerb_Execute) "common");
    (StepTypeAssert, plain (pure_handler AssertVerb_Execute) "common");
    (StepTypeError, plain (pure_handler ErrorVerb_Execute) "common");
    (StepTypeLog, plain LogVerb_Execute "common");
    (StepTypeMetricEmit, plain MetricEmitVerb_Execute "observability");
    (StepTypeDecision, plain DecisionVerb_Execute "common");
    (StepTypeHTTPRequest, plain (HTTPRequestVerb_Execute sec) "external_io_advanced");
    (StepTypeWebhookEmit, plain (WebhookEmitVerb_Execute sec) "external_io_advanced");
    (StepTypeWaitDuration, plain WaitDurationVerb_Execute "waits");
    (StepTypeWaitUntil, plain WaitUntilVerb_Execute "waits");
    (StepTypeWaitForSignal, plain WaitForSignalVerb_Execute "events_and_signals");
    (StepTypeWaitForEvent, plain (WaitForEventVerb_Execute true) "events_and_signals");
    (StepTypeEmitSignal, plain (EmitSignalVerb_Execute pub) "events_and_signals");
    (StepTypeParallel, plain (ParallelVerb_Execute pub) "parallel_control");
    (StepTypeJoin, plain JoinVerb_Execute "parallel_control");
    (StepTypeForeach, plain (ForeachVerb_Execute pub) "parallel_control");
    (StepTypeWhile, plain (pure_handler WhileVerb_Execute) "loops_and_recovery");
    (StepTypeSwitch, plain (pure_handler SwitchVerb_Execute) "common");
    (StepTypeTryCatch, plain TryCatchVerb_Execute "loops_and_recovery");
    (StepTypeSubSaga, plain (SubSagaVerb_Execute pub) "compositions");
    (StepTypeSpawnSaga, plain (SpawnSagaVerb_Execute pub) "compositions");
    (StepTypeManualApproval, plain ManualApprovalVerb_Execute "human_interaction");
    (StepTypeCollectInput, plain CollectInputVerb_Execute "human_interaction");
    (StepTypeCancel, plain (CancelVerb_Execute None) "loops_and_recovery");
    (StepTypeEmitEvent, plain (EmitEventVerb_Execute emitter) "events_and_signals")].

(** ** validate.go *)

(** [stepIndex]: the last step of each id. *)
Definition stepIndex (steps : list Step) : gmap string Step :=
  fold_left (λ m s, <[step_ID s := s]> m) steps ∅.

(** The first parallel step named in a try list. *)
Definition forbidden_in_try (idx : gmap string Step) (tryAny : list Val) : option string :=
  head (omap (λ idAny,
    let id := default "" (as_str (Some idAny)) in
    match idx !! id with
    | Some inner => if decide (step_Type inner = StepTypeParallel) then Some id else None
    | None => None
    end) tryAny).

Definition ValidateDefinition (def : WorkflowDefinition) : res unit :=
  let idx := stepIndex (def_Steps def) in
  match head (omap (λ kv, match idx !! kv.2 with Some _ => None | None => Some kv end)
                (range_map (def_Entrypoints def))) with
  | Some (name, stepID) =>
      Err (EMsg ("validate: entrypoint " +:+ quote name +:+ " references missing step " +:+
                 quote stepID))
  | None =>
      match head (omap (λ s,
              if decide (step_Type s = StepTypeTryCatch) then
                match as_list (step_Inputs s !! "try") with
                | None => None
                | Some tryAny =>
                    id ← forbidden_in_try idx tryAny; Some (step_ID s, id)
                end
              else None) (def_Steps def)) with
      | Some (sid, id) =>
          Err (EMsg ("validate: try_catch step " +:+ quote sid +:+ " contains parallel step " +:+
                     quote id +:+ " (forbidden)"))
      | None => Ok tt
      end
  end.

(** The license walk over the steps, in order. *)
Fixpoint validate_licenses (registry : Registry St) (resolver : LicenseResolver St)
    (tenantID : option uuid) (overrides : gmap string bool) (steps : list Step)
    : M (res unit) :=
  match steps with
  | [] => ret (Ok tt)
  | s :: steps =>
      match registry !! step_Type s with
      | None => validate_licenses registry resolver tenantID overrides steps
      | Some entry =>
          let group := LicenseGroupForStep s (LicenseGroup entry) in
          let feature := feature_of group in
          if decide (feature = "") then
            validate_licenses registry resolver tenantID overrides steps
          else
            try* enabled := resolver tenantID feature overrides
              else EWrap ("validate: license check for step " +:+ quote (step_ID s)) in
            if enabled then validate_licenses registry resolver tenantID overrides steps
            else ret (Err (ELicenseGate (step_ID s) group feature))
      end
  end.

Definition ValidateDefinitionWithLicense (def : WorkflowDefinition) (registry : Registry St)
    (resolver : LicenseResolver St) (tenantID : option uuid) (overrides : gmap string bool)
    : M (res unit) :=
  match ValidateDefinition def with
  | Err e => ret (Err e)
  | Ok _ => validate_licenses registry resolver tenantID overrides (def_Steps def)
  end.
End Registry.
