(* ===== verification/Retry.v ===== *)
(** Retries ([src/engine/retry.go]): the backoff in float64 arithmetic and the
    attempt loop of [executeStep]. *)
From S2P Require Import Prelude Values Domain World StoreApi.

(** ** [math.Pow] for a positive base and an integer exponent

    The repeated squaring on mantissa and exponent of Go's implementation; [fuel]
    bounds the bits of the exponent. *)
Definition f_half : spec_float := S754_finite false 4503599627370496 (-53).
Definition f_one : spec_float := f_of_Z 1.
Definition f_two : spec_float := f_of_Z 2.
Definition f_frexp (x : spec_float) : spec_float * Z := SFfrexp prec64 emax64 x.
Definition f_ldexp (x : spec_float) (e : Z) : spec_float := SFldexp prec64 emax64 x e.

Fixpoint pow_loop (fuel : nat) (i : Z) (a1 : spec_float) (ae : Z) (x1 : spec_float) (xe : Z)
    : spec_float * Z :=
  match fuel with
  | O => (a1, ae)
  | S fuel =>
      if decide (i = 0)%Z then (a1, ae)
      else if decide (xe < - 2 ^ 12 ∨ 2 ^ 12 < xe)%Z then (a1, (ae + xe)%Z)
      else
        let '(a1, ae) := if Z.odd i then (f_mul a1 x1, (ae + xe)%Z) else (a1, ae) in
        let x1 := f_mul x1 x1 in
        let xe := (xe * 2)%Z in
        let '(x1, xe) := if f_ltb x1 f_half then (f_add x1 x1, (xe - 1)%Z) else (x1, xe) in
        pow_loop fuel (i / 2)%Z a1 ae x1 xe
  end.
Definition math_Pow (x : spec_float) (y : Z) : spec_float :=
  if decide (y = 0)%Z then f_one
  else if f_eqb x f_one then f_one
  else if decide (y = 1)%Z then x
  else
    match x with
    | S754_nan => S754_nan
    | S754_infinity _ => S754_infinity false
    | _ =>
        let '(x1, xe) := f_frexp x in
        let '(a1, ae) := pow_loop 64 y f_one 0 x1 xe in
        f_ldexp a1 ae
    end.

(** ** Backoff *)
Definition DefaultRetryPolicy : RetryPolicy := mkRetry 3 1000 60000 f_two true.

(** The base delay in milliseconds, before jitter. *)
Definition backoff_base (p : RetryPolicy) (attempt : Z) : spec_float :=
  let mult := if f_leb (Multiplier p) f_zero then f_two else Multiplier p in
  let base := f_mul (f_of_Z (InitialBackoffMS p)) (math_Pow mult attempt) in
  let capMS := f_of_Z (MaxBackoffMS p) in
  let capMS := if f_eqb capMS f_zero then f_of_Z 60000 else capMS in
  if f_ltb capMS base then capMS else base.

(** [time.Duration(base) * time.Millisecond]. *)
Definition backoff_duration (base : spec_float) : Z := wrap64 (int_of_float base * 1000000).

Definition isControlSignal (e : err) : bool :=
  errors_Is e ErrSagaPaused || errors_Is e ErrSagaCancelled.

Section Retry.
Context `{Env} `{Store St}.
Abbreviation M := (M (World St)).

Definition Backoff (p : RetryPolicy) (attempt : Z) (jitter : bool) : M Z :=
  let base := backoff_base p attempt in
  if jitter then
    let* r := randFloat64 in
    let noise := f_sub (f_mul r f_half) (f_mul f_half f_half) in
    ret (backoff_duration (f_mul base (f_add f_one noise)))
  else ret (backoff_duration base).

(** The attempt loop from [attempt], with [remaining] attempts to go. *)
Fixpoint attempts (run : SagaRun) (step : Step) (handler : Handler St) (policy : RetryPolicy)
    (attempt remaining : nat) : M (res Vars) :=
  match remaining with
  | O => ret (Ok ∅)
  | S remaining =>
      let* r := handler run step in
      match r with
      | Ok result => ret (Ok result)
      | Err e =>
          if isControlSignal e then ret (Err e)
          else if decide (remaining = 0) then ret (Err e)
          else
            let* evt := NewEvent (run_ID run) (step_ID step) (Z.of_nat (S attempt))
                          EventStepFailed "engine-retry" in
            do* AppendEvent evt in
            let* wait := Backoff policy (Z.of_nat attempt) (Jitter policy) in
            let* done_ := ctx_Err in
            match done_ with
            | Some e => ret (Err e)
            | None => do* Clock_After wait in attempts run step handler policy (S attempt) remaining
            end
      end
  end.

Definition maxAttempts (step : Step) : Z :=
  match step_Retry step with
  | Some policy => if decide (1 < MaxAttempts policy)%Z then MaxAttempts policy else 1
  | None => 1
  end%Z.

Definition executeStep (run : SagaRun) (step : Step) (handler : Handler St) : M (res Vars) :=
  let policy := default (mkRetry 0 0 0 f_zero false) (step_Retry step) in
  attempts run step handler policy 0 (Z.to_nat (maxAttempts step)).
End Retry.
