(* ===== verification/Engine.v ===== *)
(** The coordinator: [src/engine/coordinator.go], [advance.go] and
    [compensation.go].

    Logging is not modelled.  A run's lock serialises the advances of one run,
    so an [Advance] is one sequence of store operations (see [RunLock.v] for the
    lock itself).  [Advance]'s [for] loop takes fuel; a theorem says when it
    suffices. *)
From S2P Require Import Prelude Values Domain World StoreApi VerbsData Join Fanout VerbsEffect.
From S2P Require Import Action Registry Retry.

(** The dependencies of a [Coordinator]; the store and the clock are the
    [World]'s. *)
Record Coordinator (St : Type) := mkCoord {
  c_publisher : option (Publisher St);
  c_verbs : Registry St;
  c_licensing : LicenseResolver St
}.
Arguments mkCoord {St}.
Arguments c_publisher {St}.
Arguments c_verbs {St}.
Arguments c_licensing {St}.

(** One round of the advance loop: leave the function or go round again. *)
Inductive iter := Stop (r : res unit) | Continue.

(** [if err != nil { return f(err) }] inside the loop. *)
Notation "'tryi*' x := c 'else' f 'in' k" :=
  (bind c (λ r, match r with Ok x => k | Err e => ret (Stop (Err (f e))) end))
  (at level 10, x pattern, c at level 100, f at level 100, k at level 200) : saga_scope.

(** The branch a result map selects, when it is a non-empty string. *)
Definition branch_key (result : Vars) : option string :=
  match as_str (result !! "branch") with
  | Some k => if decide (k = "") then None else Some k
  | None => None
  end.

Definition needs_branch (ty : string) : Prop :=
  ty = StepTypeDecision ∨ ty = StepTypeWhile ∨ ty = StepTypeSwitch.
#[export] Instance needs_branch_dec ty : Decision (needs_branch ty).
Proof. unfold needs_branch. apply _. Defined.

Section Engine.
Context `{Env} `{Store St}.
Abbreviation M := (M (World St)).

(** ** advance.go: joins *)
Definition lookupStepInputs (def : WorkflowDefinition) (stepID : string) : Vars :=
  match StepByID def stepID with Some step => step_Inputs step | None => ∅ end.

(** Write the aggregate into the parent, clear its awaits and publish its
    advance.  The write and the publish are best-effort. *)
Definition wake_parent (pub : option (Publisher St)) (parentID : uuid) (merge : Vars) : M unit :=
  do* UpdateRunVariables parentID merge in
  let* woken := WakeFromExternal parentID in
  match woken with
  | Err _ => ret tt
  | Ok _ =>
      match pub with
      | Some p => do* p (uuid_string parentID) in ret tt
      | None => ret tt
      end
  end.

Definition checkJoinBarriers (pub : option (Publisher St)) (run : SagaRun) : M unit :=
  match run_ParentRunID run, run_ParentStepID run with
  | Some parentID, Some parentStepID =>
      let* rp := GetRun parentID in
      match rp with
      | Err _ => ret tt
      | Ok parent =>
          if decide (run_State parent ≠ RunStatePaused) then ret tt
          else
            let* rd := GetWorkflowDefinition (run_DefinitionID parent) in
            match rd with
            | Err _ => ret tt
            | Ok parentDef =>
                match StepByID parentDef (run_CurrentStep parent) with
                | None => ret tt
                | Some joinStep =>
                    if decide (step_Type joinStep ≠ StepTypeJoin) then ret tt
                    else
                      match ResolveJoinStreams (step_Inputs joinStep !! "streams")
                              (run_Variables parent) with
                      | Err _ => ret tt
                      | Ok streamIDs =>
                          if decide (parentStepID ∉ streamIDs) then ret tt
                          else
                            let* rw := collect_children (λ _ e, e) parentID streamIDs ∅ in
                            match rw with
                            | Err _ => ret tt
                            | Ok watched =>
                                if JoinConditionMetCtx (step_Inputs joinStep)
                                     (run_Variables parent) watched then
                                  let* aggregated := AggregateJoinResults watched in
                                  wake_parent pub parentID
                                    {["_join." +:+ step_ID joinStep +:+ ".branches" :=
                                      VList aggregated]}
                                else ret tt
                            end
                      end
                end
            end
      end
  | _, _ => ret tt
  end.

(** The part of [checkParentJoin] after the barrier check. *)
Definition checkSpawningStep (pub : option (Publisher St)) (parentID : uuid)
    (parentStepID : string) : M unit :=
  let* rp := GetRun parentID in
  match rp with
  | Err _ => ret tt
  | Ok parent =>
      if decide (run_State parent ≠ RunStatePaused ∨ run_CurrentStep parent ≠ parentStepID)
      then ret tt
      else
        let* rs := ListChildrenByParent parentID parentStepID in
        match rs with
        | Err _ => ret tt
        | Ok siblings =>
            let* rd := GetWorkflowDefinition (run_DefinitionID parent) in
            match rd with
            | Err _ => ret tt
            | Ok parentDef =>
                let stepInputs := lookupStepInputs parentDef parentStepID in
                if JoinConditionMetCtx stepInputs (run_Variables parent) siblings then
                  let* aggregated := AggregateJoinResults siblings in
                  wake_parent pub parentID
                    {["_parallel." +:+ parentStepID +:+ ".branches" := VList aggregated]}
                else ret tt
            end
        end
  end.

Definition checkParentJoin (pub : option (Publisher St)) (run : SagaRun) : M unit :=
  match run_ParentRunID run, run_ParentStepID run with
  | Some parentID, Some parentStepID =>
      do* checkJoinBarriers pub run in
      checkSpawningStep pub parentID parentStepID
  | _, _ => ret tt
  end.

Definition spawns_children (ty : string) : Prop :=
  ty = StepTypeParallel ∨ ty = StepTypeForeach ∨ ty = StepTypeSubSaga.
#[export] Instance spawns_children_dec ty : Decision (spawns_children ty).
Proof. unfold spawns_children. apply _. Defined.

Definition childrenStillRunning (run : SagaRun) : M (res bool) :=
  try* def := GetWorkflowDefinition (run_DefinitionID run) else EWrap "get definition" in
  match StepByID def (run_CurrentStep run) with
  | None => ret (Ok false)
  | Some step =>
      if decide (spawns_children (step_Type step)) then
        try* children := ListChildrenByParent (run_ID run) (step_ID step)
          else EWrap "list children" in
        ret (Ok (negb (JoinConditionMetCtx (step_Inputs step) (run_Variables run) children)))
      else ret (Ok false)
  end.

(** An engine event of step [stepID]. *)
Definition append_engine_event (runID : uuid) (stepID : string) (ty : EventType)
    (actor : string) : M unit :=
  let* evt := NewEvent runID stepID 0 ty actor in
  do* AppendEvent evt in ret tt.

Definition completeRun (pub : option (Publisher St)) (run : SagaRun) (step : Step)
    : M (res unit) :=
  do* append_engine_event (run_ID run) (step_ID step) EventStepSucceeded "engine" in
  do* append_engine_event (run_ID run) "" EventRunSucceeded "engine" in
  try* _ := UpdateRunState (run_ID run) RunStateSucceeded "" else id in
  do* checkParentJoin pub run in
  ret (Ok tt).

(** ** compensation.go *)

(** The loop of [completedCompensableSteps] over the audit events. *)
Fixpoint completed_steps (def : WorkflowDefinition) (excludeID : string)
    (events : list SagaRunEvent) (seen : gset string) : list Step :=
  match events with
  | [] => []
  | ev :: events =>
      if decide (ev_EventType ev ≠ EventStepSucceeded) then
        completed_steps def excludeID events seen
      else if decide (ev_StepID ev = "" ∨ ev_StepID ev = excludeID ∨ ev_StepID ev ∈ seen) then
        completed_steps def excludeID events seen
      else
        match StepByID def (ev_StepID ev) with
        | None => completed_steps def excludeID events seen
        | Some step =>
            if decide (step_Type step = StepTypeEnd) then
              completed_steps def excludeID events seen
            else step :: completed_steps def excludeID events ({[ev_StepID ev]} ∪ seen)
        end
  end.

Definition completedCompensableSteps (run : SagaRun) (def : WorkflowDefinition)
    (excludeID : string) : M (list Step) :=
  let* r := ListEventsByRun (run_ID run) in
  match r with
  | Err _ => ret []
  | Ok events => ret (completed_steps def excludeID events ∅)
  end.

(** The action verb compensation dispatches through. *)
Definition compensation_verb (verbs : Registry St) : ActionVerb St :=
  match verbs !! StepTypeAction with
  | Some entry => default zero_ActionVerb (entry_ActionVerb entry)
  | None => zero_ActionVerb
  end.

(** Roll one completed step back; a failed dispatch is logged and skipped. *)
Definition compensate_step (av : ActionVerb St) (run : SagaRun) (step : Step) : M unit :=
  match step_Compensation step with
  | None => ret tt
  | Some comp =>
      do* DispatchCompensation av (uuid_string (run_ID run)) (step_ID step)
            (comp_Action comp) (comp_Inputs comp) (run_DryRun run) in
      ret tt
  end.

Definition compensate (c : Coordinator St) (run : SagaRun) (def : WorkflowDefinition)
    (failedStep : Step) : M unit :=
  let* completed := completedCompensableSteps run def (step_ID failedStep) in
  if decide (completed = []) then ret tt
  else
    let* r := UpdateRunState (run_ID run) RunStateCompensating (run_CurrentStep run) in
    match r with
    | Err _ => ret tt
    | Ok _ =>
        do* append_engine_event (run_ID run) (step_ID failedStep) EventCompensationStarted
              "engine" in
        for_each (compensate_step (compensation_verb (c_verbs c)) run) (rev completed)
    end.

Definition CompensateFailedStep (c : Coordinator St) (runID : uuid) (failedStepID : string)
    : M (res unit) :=
  let what := "compensate " +:+ uuid_string runID in
  try* run := GetRun runID else EWrap what in
  if decide (run_State run = RunStateSucceeded ∨ run_State run = RunStateCancelled) then
    ret (Err (EMsg (what +:+ ": run is " +:+ RunState_string (run_State run) +:+ ", not failed")))
  else
    try* def := GetWorkflowDefinition (run_DefinitionID run)
      else (λ e, EWrap (what +:+ ": definition") e) in
    let step := default (bare_step failedStepID) (StepByID def failedStepID) in
    let wasFailed := bool_decide (run_State run = RunStateFailed) in
    do* compensate c run def step in
    try* _ :=
      (if wasFailed then
         try* cur := GetRun runID else EWrap (what +:+ ": reread run") in
         if decide (run_State cur = RunStateCompensating) then
           try* _ := UpdateRunState runID RunStateFailed (run_CurrentStep run)
             else EWrap (what +:+ ": settle") in
           ret (Ok tt)
         else ret (Ok tt)
       else
         let reason := "step " +:+ quote failedStepID +:+ " failed" in
         try* _ := MarkRunFailed runID failedStepID reason
           else EWrap (what +:+ ": mark failed") in
         ret (Ok tt)) else id in
    do* checkParentJoin (c_publisher c) run in
    ret (Ok tt).

(** ** advance.go: the advance loop *)

(** Resume a paused run: clear the pause, record the step's success and move to
    its next step, or to the "timeout" branch. *)
Definition advance_wake (runID : uuid) (run : SagaRun) (timedOut : bool) : M iter :=
  tryi* _ := ClearPause (run_ID run) else EWrap "clear pause" in
  tryi* run := GetRun runID else EWrap "re-read after clear" in
  tryi* def := GetWorkflowDefinition (run_DefinitionID run) else EWrap "get def after clear" in
  match StepByID def (run_CurrentStep run) with
  | None => ret (Stop (Err (EMsg ("def missing step " +:+ run_CurrentStep run))))
  | Some step =>
      do* append_engine_event (run_ID run) (step_ID step) EventStepSucceeded "engine" in
      let next :=
        if timedOut then
          match step_Branches step !! "timeout" with
          | Some br => if decide (br_Next br = "") then step_Next step else br_Next br
          | None => step_Next step
          end
        else step_Next step in
      if decide (next = "") then
        ret (Stop (Err (EMsg ("paused step " +:+ step_ID step +:+ " has no next"))))
      else
        tryi* _ := UpdateRunState (run_ID run) RunStateRunning next
          else EWrap "set next after clear" in
        tryi* _ := GetRun runID else EWrap "re-read after next" in
        ret Continue
  end.

Definition wakeup_due (now : Z) (run : SagaRun) : bool :=
  match run_WakeupAt run with Some t => (t <=? now)%Z | None => false end.
Definition no_pending_awaits (run : SagaRun) : bool :=
  bool_decide (run_AwaitedSignal run = None) && bool_decide (run_AwaitedEventTopic run = None).

Definition advance_paused (runID : uuid) (run : SagaRun) : M iter :=
  let* now := Clock_Now in
  let wakeupDue := wakeup_due now run in
  let externalWake := no_pending_awaits run && bool_decide (run_WakeupAt run = None) in
  if wakeupDue || externalWake then
    let timedOut := wakeupDue && negb (no_pending_awaits run) in
    if wakeupDue then advance_wake runID run timedOut
    else
      tryi* waiting := childrenStillRunning run else id in
      if waiting then ret (Stop (Ok tt)) else advance_wake runID run timedOut
  else ret (Stop (Ok tt)).

(** The license gate before a step: [Err] is the error [Advance] returns. *)
Definition license_gate (c : Coordinator St) (run : SagaRun) (step : Step)
    (entry : RegistryEntry St) : M (res unit) :=
  let group := LicenseGroupForStep step (LicenseGroup entry) in
  let feature := feature_of group in
  if decide (feature = "") then ret (Ok tt)
  else
    let* r := c_licensing c (run_TenantID run) feature (run_FeatureOverrides run) in
    match r with
    | Err e =>
        do* append_engine_event (run_ID run) (step_ID step) EventLicenseGateRejected "engine" in
        do* MarkRunFailed (run_ID run) (step_ID step)
              ("license check for feature " +:+ quote feature +:+ ": " +:+ err_Error e) in
        ret (Err (EWrap ("license check for step " +:+ quote (step_ID step) +:+ " (feature " +:+
                         quote feature +:+ ")") e))
    | Ok false =>
        let msg := "license_gate: feature " +:+ quote feature +:+ " not enabled for tenant" in
        let* evt := NewEvent (run_ID run) (step_ID step) 0 EventLicenseGateRejected "engine" in
        do* AppendEvent (with_Metadata
              {["group" := VStr group; "feature" := VStr feature]} evt) in
        do* MarkRunFailed (run_ID run) (step_ID step) msg in
        ret (Err (EMsg msg))
    | Ok true => ret (Ok tt)
    end.

(** [_error] as the catch step sees it. *)
Definition error_vars (step : Step) (e : err) : Vars :=
  {["_error" := VMap {["step_id" := VStr (step_ID step); "message" := VStr (err_Error e);
                       "verb" := VStr (step_Type step)]}]}.

(** A step failed: jump to the catch step of the innermost frame, or roll back
    and fail the run. *)
Definition advance_failed (c : Coordinator St) (run : SagaRun) (def : WorkflowDefinition)
    (step : Step) (e : err) : M iter :=
  let* popped := PopTryCatch (run_ID run) in
  match popped with
  | Ok (Some frame) =>
      do* UpdateRunVariables (run_ID run) (error_vars step e) in
      do* append_engine_event (run_ID run) (step_ID step) EventStepFailed "engine-caught" in
      do* UpdateRunState (run_ID run) RunStateRunning (frame_CatchStep frame) in
      ret Continue
  | _ =>
      do* append_engine_event (run_ID run) (step_ID step) EventStepFailed "engine" in
      do* compensate c run def step in
      do* MarkRunFailed (run_ID run) (step_ID step)
            ("step " +:+ quote (step_ID step) +:+ " (" +:+ step_Type step +:+ "): " +:+
             err_Error e) in
      do* checkParentJoin (c_publisher c) run in
      ret (Stop (Err (EWrap ("verb " +:+ step_Type step) e)))
  end.

(** Where a successful step leads. *)
Definition next_step (step : Step) (result : Vars) : res string :=
  tryp* next :=
    match branch_key result with
    | None => Ok (step_Next step)
    | Some branchKey =>
        match step_Branches step !! branchKey with
        | Some br => Ok (br_Next br)
        | None =>
            if decide (needs_branch (step_Type step)) then
              Err (EMsg (step_Type step +:+ " branch " +:+ quote branchKey +:+
                         " not found in step.Branches"))
            else Ok (step_Next step)
        end
    end else id in
  if decide (next = "") then
    Err (EMsg ("step " +:+ quote (step_ID step) +:+ " has no next and is not end"))
  else Ok next.

Definition advance_succeeded (run : SagaRun) (step : Step) (result : Vars) : M iter :=
  tryi* _ := (if decide (result = ∅) then ret (Ok tt)
              else UpdateRunVariables (run_ID run) result) else EWrap "update variables" in
  do* append_engine_event (run_ID run) (step_ID step) EventStepSucceeded "engine" in
  match next_step step result with
  | Err e => ret (Stop (Err e))
  | Ok next =>
      tryi* _ := UpdateRunState (run_ID run) RunStateRunning next else EWrap "set next step" in
      ret Continue
  end.

(** The outcome of the handler decides how the round ends. *)
Definition advance_outcome (c : Coordinator St) (run : SagaRun) (def : WorkflowDefinition)
    (step : Step) (outcome : res Vars) : M iter :=
  match outcome with
  | Ok result => advance_succeeded run step result
  | Err e =>
      if errors_Is e ErrSagaPaused then
        do* append_engine_event (run_ID run) (step_ID step) EventStepPaused "engine" in
        ret (Stop (Ok tt))
      else if errors_Is e ErrSagaCancelled then
        do* append_engine_event (run_ID run) "" EventRunCancelled "engine" in
        tryi* _ := UpdateRunState (run_ID run) RunStateCancelled (step_ID step)
          else EWrap "cancel: set cancelled" in
        do* checkParentJoin (c_publisher c) run in
        ret (Stop (Ok tt))
      else advance_failed c run def step e
  end.

(** A run that is neither terminal nor paused: dispatch its current step. *)
Definition advance_step (c : Coordinator St) (run : SagaRun) : M iter :=
  tryi* def := GetWorkflowDefinition (run_DefinitionID run) else EWrap "get definition" in
  let stepID := if decide (run_CurrentStep run = "") then def_Start def
                else run_CurrentStep run in
  do* (if decide (run_State run = RunStatePending) then
         append_engine_event (run_ID run) "" EventSagaStarted "engine"
       else ret tt) in
  match StepByID def stepID with
  | None => ret (Stop (Err (EMsg ("definition references missing step: " +:+ stepID))))
  | Some step =>
      do* append_engine_event (run_ID run) (step_ID step) EventStepDispatched "engine" in
      do* UpdateRunState (run_ID run) RunStateRunning (step_ID step) in
      if decide (step_Type step = StepTypeEnd) then
        let* r := completeRun (c_publisher c) run step in ret (Stop r)
      else
        match c_verbs c !! step_Type step with
        | None => ret (Stop (Err (EMsg ("no handler registered for step type: " +:+
                                        step_Type step))))
        | Some entry =>
            tryi* _ := license_gate c run step entry else id in
            let* outcome := executeStep run step (entry_Handler entry) in
            advance_outcome c run def step outcome
        end
  end.

Definition advance_iter (c : Coordinator St) (runID : uuid) : M iter :=
  let* cancelled := ctx_Err in
  match cancelled with
  | Some e => ret (Stop (Err e))
  | None =>
      tryi* run := GetRun runID else EWrap "get run" in
      if IsTerminal (run_State run) then ret (Stop (Ok tt))
      else if decide (run_State run = RunStatePaused) then advance_paused runID run
      else advance_step c run
  end.

(** The loop; [None] is running out of fuel. *)
Fixpoint advance_loop (fuel : nat) (c : Coordinator St) (runID : uuid)
    : M (option (res unit)) :=
  match fuel with
  | O => ret None
  | S fuel =>
      let* i := advance_iter c runID in
      match i with
      | Stop r => ret (Some r)
      | Continue => advance_loop fuel c runID
      end
  end.

Definition Advance (fuel : nat) (c : Coordinator St) (runIDStr : string)
    : M (option (res unit)) :=
  match uuid_parse runIDStr with
  | Err e => ret (Some (Err (EWrap "parse run id" e)))
  | Ok runID => advance_loop fuel c runID
  end.

(** ** coordinator.go *)
Definition RegisterVerb (c : Coordinator St) (stepType : string) (entry : RegistryEntry St)
    : Coordinator St :=
  mkCoord (c_publisher c) (<[stepType := entry]> (c_verbs c)) (c_licensing c).

Definition StubAllowAll : LicenseResolver St := λ _ _ _, ret (Ok true).

(** [NewCoordinator]: the default registry with [cancel] re-registered with the
    coordinator as its join checker; a nil resolver allows everything. *)
Definition NewCoordinator (pub : option (Publisher St)) (sec : option SecretsResolver)
    (lr : option (LicenseResolver St)) (actionPub : option (ActionDispatchPublisher St))
    (emitter : option (EventEmitter St)) (httpDispatcher : option (ActionHTTPDispatcher St))
    (rmqDispatcher : option (ActionRMQDispatcher St)) : Coordinator St :=
  let c := mkCoord pub (Default sec pub actionPub emitter httpDispatcher rmqDispatcher)
             (default StubAllowAll lr) in
  RegisterVerb c StepTypeCancel
    (plain (CancelVerb_Execute (Some (checkParentJoin pub))) "loops_and_recovery").

Definition Cancel (c : Coordinator St) (runID : uuid) (reason : string) : M (res unit) :=
  let what := "cancel run " +:+ uuid_string runID in
  try* run := GetRun runID else EWrap what in
  if IsTerminal (run_State run) then ret (Ok tt)
  else
    try* _ := CancelRun runID reason else EWrap what in
    do* (match run_ParentRunID run with
         | Some _ => checkParentJoin (c_publisher c) run
         | None => ret tt
         end) in
    ret (Ok tt).
End Engine.
