(* ===== verification/EngineLemmas.v ===== *)
(** Symbolic execution of the coordinator over the store contract: one lemma per
    helper of [Engine.v], in the form the properties use. *)
From S2P Require Import Prelude Values Domain World StoreApi Rows StoreSpec VerbsData Join Fanout.
From S2P Require Import VerbsEffect Action Registry Retry Engine.

(** Run the head command of the goal by its contract [spec]: the world moves to
    a fresh one whose view is known. *)
Ltac sexec spec :=
  let w' := fresh "w" in let E := fresh "E" in let He := fresh "He" in let Hv := fresh "Hv" in
  destruct spec as (w' & E & He & Hv); mstep E; clear E.

(** The same when the command is the whole goal's left-hand side. *)
Ltac sfinish spec :=
  let w' := fresh "w" in let E := fresh "E" in let He := fresh "He" in let Hv := fresh "Hv" in
  destruct spec as (w' & E & He & Hv); rewrite E; clear E.

Section EngineLemmas.
Context `{StoreSpec St}.
Implicit Types w : World St.

(** The event the engine appends in world [w]. *)
Definition ev_at w (runID : uuid) (stepID : string) (ty : EventType) (actor : string)
    : SagaRunEvent :=
  mkEvent (uuid_New (w_ids w)) runID stepID 0 ty actor ∅ (w_now w).

Lemma implements_ret {A} (a : A) w : implements view (ret a) w a (view (w_store w)).
Proof. by exists w. Qed.

Lemma implements_bind {A B} (c : M (World St) A) (f : A → M (World St) B) w a v b u :
  implements view c w a v →
  (∀ w', same_env w w' → view (w_store w') = v → implements view (f a) w' b u) →
  implements view (bind c f) w b u.
Proof.
  intros (w1 & E1 & He1 & Hv1) Hf. destruct (Hf w1 He1 Hv1) as (w2 & E2 & He2 & Hv2).
  exists w2. rewrite (bind_step _ _ _ _ _ E1). split_and!; [done|by etrans|done].
Qed.

Lemma append_engine_event_spec runID stepID ty actor w :
  implements view (append_engine_event runID stepID ty actor) w tt
    (add_event (ev_at w runID stepID ty actor) (view (w_store w))).
Proof.
  unfold implements. set (w1 := (uuidNew w).2).
  assert (append_engine_event runID stepID ty actor w =
          bind (AppendEvent (ev_at w runID stepID ty actor)) (λ _, ret tt) w1) as -> by done.
  pose proof (spec_AppendEvent (ev_at w runID stepID ty actor) w1) as Ha.
  sexec Ha. exists w0. split_and!; [done| |done].
  destruct He as (? & ? & ? & ? & ?). by split_and!.
Qed.

Lemma children_spec id sid w :
  ∃ l, implements view (ListChildrenByParent id sid) w (Ok l) (view (w_store w)) ∧
       l ≡ₚ filter (is_child_of id sid) (rows (view (w_store w))).
Proof. apply spec_ListChildrenByParent. Qed.

(** Aggregating reads the store only, and yields one entry per child. *)
Lemma AggregateJoinResults_from_spec i children w :
  ∃ l, implements view (AggregateJoinResults_from i children) w l (view (w_store w)) ∧
       length l = length children.
Proof.
  revert i w. induction children as [|child children IH]; intros i w; simpl.
  - exists []. split; [apply implements_ret|done].
  - destruct (spec_ListUserTasksByRun (run_ID child) w) as (tasks & w1 & E1 & He1 & Hv1).
    destruct (IH (S i) w1) as (l & (w2 & E2 & He2 & Hv2) & Hl).
    eexists. split.
    + exists w2. rewrite (bind_step _ _ _ _ _ E1). cbv zeta beta.
      rewrite (bind_step _ _ _ _ _ E2).
      split_and!; [done|by etrans|congruence].
    + simpl. by rewrite Hl.
Qed.

Lemma AggregateJoinResults_spec children w :
  ∃ l, implements view (AggregateJoinResults children) w l (view (w_store w)) ∧
       length l = length children.
Proof. apply AggregateJoinResults_from_spec. Qed.

Lemma collect_children_spec wrap runID sids seen w :
  ∃ l, implements view (collect_children wrap runID sids seen) w (Ok l) (view (w_store w)).
Proof.
  revert seen w. induction sids as [|sid sids IH]; intros seen w; simpl.
  - exists []. apply implements_ret.
  - case_decide; [apply IH|].
    destruct (children_spec runID sid w) as (cs & (w1 & E1 & He1 & Hv1) & _).
    destruct (IH ({[sid]} ∪ seen) w1) as (l & w2 & E2 & He2 & Hv2).
    exists (cs ++ l), w2. rewrite (bind_step _ _ _ _ _ E1), (bind_step _ _ _ _ _ E2).
    split_and!; [done|by etrans|congruence].
Qed.

(** ** What the join hooks may change

    Rows equal up to their variables and await markers. *)
Definition same_progress (r r' : SagaRun) : Prop :=
  row_clear_awaits (set_run_Variables ∅ r) = row_clear_awaits (set_run_Variables ∅ r').

#[export] Instance same_progress_equiv : Equivalence same_progress.
Proof. split; unfold same_progress; [by intros ?|by intros ?|intros ???; congruence]. Qed.

(** The run [p] may have changed its variables and await markers; nothing else
    changed. *)
Definition touched (p : uuid) (v v' : SView) : Prop :=
  v_events v' = v_events v ∧ v_defs v' = v_defs v ∧
  ∀ id, match v_runs v !! id, v_runs v' !! id with
        | Some r, Some r' => (id ≠ p → r' = r) ∧ same_progress r r'
        | None, None => True
        | _, _ => False
        end.

#[export] Instance touched_refl p : Reflexive (touched p).
Proof. intros v. split_and!; [done..|]. intros id. by destruct (v_runs v !! id). Qed.

#[export] Instance touched_trans p : Transitive (touched p).
Proof.
  intros v1 v2 v3 (E1 & D1 & R1) (E2 & D2 & R2). split_and!; [congruence..|].
  intros id. specialize (R1 id). specialize (R2 id).
  destruct (v_runs v1 !! id) as [r1|], (v_runs v2 !! id) as [r2|],
    (v_runs v3 !! id) as [r3|]; try done.
  destruct R1 as [R1 S1], R2 as [R2 S2]. split; [intros Hne; rewrite R2, R1; done|by etrans].
Qed.

Lemma touched_ne p id v v' : touched p v v' → id ≠ p → v_runs v' !! id = v_runs v !! id.
Proof.
  intros (_ & _ & R) Hne. specialize (R id).
  destruct (v_runs v !! id), (v_runs v' !! id); try done. destruct R as [-> _]; done.
Qed.

Lemma touched_events p v v' id : touched p v v' → events_of v' id = events_of v id.
Proof. intros (E & _ & _). unfold events_of. by rewrite E. Qed.

(** An update of the row [p] that keeps its progress. *)
Lemma touched_alter f p v : (∀ r, same_progress r (f r)) → touched p v (alter_run f p v).
Proof.
  intros Hf. split_and!; [done..|]. intros id. destruct (decide (id = p)) as [->|Hne].
  - unfold alter_run; simpl. rewrite lookup_alter_eq.
    destruct (v_runs v !! p); simpl; [|done]. split; [done|apply Hf].
  - rewrite alter_run_lookup_ne by done. by destruct (v_runs v !! id).
Qed.

(** A publisher that only sends. *)
Definition quiet (pub : option (Publisher St)) : Prop :=
  match pub with Some p => ∀ id w, view (w_store (p id w).2) = view (w_store w) | None => True end.

Definition post_touched (p : uuid) w w' : Prop := touched p (view (w_store w)) (view (w_store w')).

Lemma wake_parent_touched pub p m w :
  quiet pub → post_touched p w (wake_parent pub p m w).2.
Proof.
  intros Hq. unfold wake_parent, post_touched.
  sexec (spec_UpdateRunVariables p m w). sexec (spec_WakeFromExternal p w0).
  assert (touched p (view (w_store w)) (view (w_store w1))) as Ht.
  { rewrite Hv0, Hv. etrans; apply touched_alter; by intros []. }
  unfold found. destruct (v_runs _ !! p); [|done].
  destruct pub as [q|]; [|done]. unfold bind, ret.
  specialize (Hq (uuid_string p) w1). destruct (q (uuid_string p) w1) as [? w2]; simpl in *.
  by rewrite Hq.
Qed.

Lemma touched_from p w w1 w' :
  view (w_store w1) = view (w_store w) → post_touched p w1 w' → post_touched p w w'.
Proof. unfold post_touched. by intros ->. Qed.

Lemma touched_same p w w' : view (w_store w') = view (w_store w) → post_touched p w w'.
Proof. unfold post_touched. by intros ->. Qed.
End EngineLemmas.

(** Discharge the read-only prefix of a join hook. *)
Ltac join_step :=
  match goal with
  | |- post_touched _ _ (ret _ _).2 => apply touched_same; simpl; congruence
  | |- post_touched _ _ (bind (GetRun ?i) _ ?w).2 => sexec (spec_GetRun i w)
  | |- post_touched _ _ (bind (GetWorkflowDefinition ?i) _ ?w).2 =>
      sexec (spec_GetWorkflowDefinition i w)
  | |- post_touched _ _ (bind (ListChildrenByParent ?i ?s) _ ?w).2 =>
      let l := fresh "l" in let Hs := fresh "Hs" in
      destruct (children_spec i s w) as (l & Hs & _); sexec Hs
  | |- post_touched _ _ (bind (collect_children ?f ?i ?s ?n) _ ?w).2 =>
      let l := fresh "l" in let Hs := fresh "Hs" in
      destruct (collect_children_spec f i s n w) as (l & Hs); sexec Hs
  | |- post_touched _ _ (bind (AggregateJoinResults ?l) _ ?w).2 =>
      let k := fresh "k" in let Hs := fresh "Hs" in
      destruct (AggregateJoinResults_spec l w) as (k & Hs & _); sexec Hs
  | |- post_touched _ _ (wake_parent _ _ _ _).2 =>
      eapply touched_from; [|by apply wake_parent_touched]; congruence
  | |- context [match found ?i ?v ?k with _ => _ end] => unfold found
  | |- context [match ?x with _ => _ end] => destruct x
  end.

Section JoinHooks.
Context `{StoreSpec St}.
Implicit Types w : World St.

Lemma checkSpawningStep_touched pub p sid w :
  quiet pub → post_touched p w (checkSpawningStep pub p sid w).2.
Proof. intros Hq. unfold checkSpawningStep. repeat join_step. Qed.

Lemma checkJoinBarriers_touched pub run p w :
  quiet pub → run_ParentRunID run = Some p →
  post_touched p w (checkJoinBarriers pub run w).2.
Proof. intros Hq Hp. unfold checkJoinBarriers. rewrite Hp. repeat join_step. Qed.

(** The join hooks touch the parent only, and only its variables and awaits. *)
Lemma checkParentJoin_touched pub run p w :
  quiet pub → run_ParentRunID run = Some p →
  post_touched p w (checkParentJoin pub run w).2.
Proof.
  intros Hq Hp. unfold checkParentJoin. rewrite Hp.
  destruct (run_ParentStepID run) as [sid|]; [|by apply touched_same].
  unfold bind. pose proof (checkJoinBarriers_touched pub run p w Hq Hp) as H1.
  destruct (checkJoinBarriers pub run w) as [? w1]; simpl in *.
  unfold post_touched in *. etrans; [exact H1|]. by apply checkSpawningStep_touched.
Qed.

Lemma checkParentJoin_orphan pub run w :
  run_ParentRunID run = None → checkParentJoin pub run w = (tt, w).
Proof. intros Hp. unfold checkParentJoin. by rewrite Hp. Qed.

(** Rows other than the parent's are exactly as before. *)
Lemma checkParentJoin_row pub run id w :
  quiet pub → run_ParentRunID run ≠ Some id →
  v_runs (view (w_store (checkParentJoin pub run w).2)) !! id = v_runs (view (w_store w)) !! id.
Proof.
  intros Hq Hne. destruct (run_ParentRunID run) as [p|] eqn:Hp.
  - eapply touched_ne; [by eapply checkParentJoin_touched|]. naive_solver.
  - by rewrite checkParentJoin_orphan.
Qed.

Lemma checkParentJoin_events pub run id w :
  quiet pub →
  events_of (view (w_store (checkParentJoin pub run w).2)) id = events_of (view (w_store w)) id.
Proof.
  intros Hq. destruct (run_ParentRunID run) as [p|] eqn:Hp.
  - eapply touched_events. by eapply checkParentJoin_touched.
  - by rewrite checkParentJoin_orphan.
Qed.
End JoinHooks.
