(* ===== verification/EngineStep.v ===== *)
(** One run's progress through the coordinator: a relation between worlds that
    records how the run's row and audit trail moved while everything else stayed,
    and one lemma per store operation and round of the advance loop. *)
From S2P Require Import Prelude Values Domain World StoreApi Rows StoreSpec VerbsData Join Fanout.
From S2P Require Import VerbsEffect Action Registry Retry Engine EngineLemmas.

(** What a reader of the audit trail sees of an event. *)
Definition stamp (e : SagaRunEvent) : EventType * string * string :=
  (ev_EventType e, ev_StepID e, ev_Actor e).

Section EngineStep.
Context `{StoreSpec St}.
Implicit Types w : World St.

(** Neither clock moved and nothing was sent. *)
Definition calm w w' : Prop :=
  w_now w' = w_now w ∧ w_clk w' = w_clk w ∧ w_out w' = w_out w.

(** The run [id] went from row [r] to row [r'] with the events [ts]; no other
    run, definition or trail changed. *)
Definition moved (id : uuid) w (r : SagaRun) (ts : list (EventType * string * string))
    w' (r' : SagaRun) : Prop :=
  calm w w' ∧
  v_runs (V w) !! id = Some r ∧ v_runs (V w') !! id = Some r' ∧
  (∀ j, j ≠ id → v_runs (V w') !! j = v_runs (V w) !! j) ∧
  v_defs (V w') = v_defs (V w) ∧
  (∃ es, events_of (V w') id = events_of (V w) id ++ es ∧ stamp <$> es = ts) ∧
  (∀ j, j ≠ id → events_of (V w') j = events_of (V w) j).

Lemma moved_refl id w r : v_runs (V w) !! id = Some r → moved id w r [] w r.
Proof. intros Hr. repeat split; try done. exists []. by rewrite app_nil_r. Qed.

Lemma moved_trans id w1 r1 t1 w2 r2 t2 w3 r3 :
  moved id w1 r1 t1 w2 r2 → moved id w2 r2 t2 w3 r3 → moved id w1 r1 (t1 ++ t2) w3 r3.
Proof.
  intros (C1 & A1 & B1 & O1 & D1 & (e1 & E1 & S1) & F1)
         (C2 & A2 & B2 & O2 & D2 & (e2 & E2 & S2) & F2).
  destruct C1 as (? & ? & ?), C2 as (? & ? & ?). split_and!.
  - repeat split; congruence.
  - done.
  - done.
  - intros j Hj. by rewrite O2, O1.
  - congruence.
  - exists (e1 ++ e2). rewrite E2, E1, <-app_assoc, fmap_app. split; [done|congruence].
  - intros j Hj. by rewrite F2, F1.
Qed.

Lemma moved_row id w r ts w' r' : moved id w r ts w' r' → v_runs (V w') !! id = Some r'.
Proof. by intros (_ & _ & ? & _). Qed.
Lemma moved_defs id w r ts w' r' : moved id w r ts w' r' → v_defs (V w') = v_defs (V w).
Proof. by intros (_ & _ & _ & _ & ? & _). Qed.

(** [c] run on row [r] returns [a], leaving row [r'] and appending [ts]. *)
Definition moves (id : uuid) {A} (c : M (World St) A) w r (a : A) ts r' : Prop :=
  ∃ w', c w = (a, w') ∧ moved id w r ts w' r'.

Lemma moves_ret id {A} (a : A) w r :
  v_runs (V w) !! id = Some r → moves id (ret a) w r a [] r.
Proof. intros Hr. exists w. split; [done|by apply moved_refl]. Qed.

Lemma moves_bind id {A B} (c : M (World St) A) (f : A → M (World St) B) w r a ts r1 b us r2 :
  moves id c w r a ts r1 →
  (∀ w1, moved id w r ts w1 r1 → moves id (f a) w1 r1 b us r2) →
  moves id (bind c f) w r b (ts ++ us) r2.
Proof.
  intros (w1 & E1 & M1) Hf. destruct (Hf w1 M1) as (w2 & E2 & M2).
  exists w2. rewrite (bind_step _ _ _ _ _ E1). split; [done|by eapply moved_trans].
Qed.

(** An operation that reads. *)
Lemma moves_read id {A} (c : M (World St) A) w r (a : A) :
  v_runs (V w) !! id = Some r → implements view c w a (view (w_store w)) →
  moves id c w r a [] r.
Proof.
  intros Hr (w' & E & (E1 & E2 & _ & _ & E5) & Hv). exists w'. split; [done|].
  unfold moved, V. rewrite Hv. repeat split; try done. exists []. by rewrite app_nil_r.
Qed.

(** An operation that rewrites the row. *)
Lemma moves_alter id {A} (c : M (World St) A) w r (a : A) f :
  v_runs (V w) !! id = Some r →
  implements view c w a (alter_run f id (view (w_store w))) →
  moves id c w r a [] (f r).
Proof.
  intros Hr (w' & E & (E1 & E2 & _ & _ & E5) & Hv). exists w'. split; [done|].
  unfold moved, V. rewrite Hv. split_and!; try done.
  - by rewrite (alter_run_lookup _ _ _ r).
  - intros j Hj. by rewrite alter_run_lookup_ne.
  - exists []. by rewrite app_nil_r.
Qed.

Lemma moves_event id sid ty actor w r :
  v_runs (V w) !! id = Some r →
  moves id (append_engine_event id sid ty actor) w r tt [(ty, sid, actor)] r.
Proof.
  intros Hr. destruct (append_engine_event_spec id sid ty actor w)
    as (w' & E & (E1 & E2 & _ & _ & E5) & Hv).
  exists w'. split; [done|]. unfold moved, V. rewrite Hv. split_and!; try done.
  - eexists [_]. split; [apply add_event_events|done].
  - intros j Hj. by apply add_event_events_ne.
Qed.

(** An event with metadata, before any continuation. *)
Lemma moves_meta_event id sid md ty w r :
  v_runs (V w) !! id = Some r →
  ∃ w', moved id w r [(ty, sid, "engine")] w' r ∧
    ∀ B (k : M (World St) B),
      (let* evt := NewEvent id sid 0 ty "engine" in do* AppendEvent (with_Metadata md evt) in k) w
      = k w'.
Proof.
  intros Hr. set (w1 := (uuidNew w).2). set (e := ev_at w id sid ty "engine").
  destruct (spec_AppendEvent (with_Metadata md e) w1)
    as (w' & E & (E1 & E2 & _ & _ & E5) & Hv).
  exists w'. split.
  - unfold moved, V. rewrite Hv. split_and!; try done.
    + eexists [_]. split; [apply (add_event_events (with_Metadata md e))|done].
    + intros j Hj. by apply (add_event_events_ne (with_Metadata md e)).
  - intros B k. change (bind (AppendEvent (with_Metadata md e)) (λ _, k) w1 = k w').
    by mstep E.
Qed.

Lemma moves_GetRun id w r :
  v_runs (V w) !! id = Some r → moves id (GetRun id) w r (Ok r) [] r.
Proof.
  intros Hr. apply moves_read; [done|]. pose proof (spec_GetRun id w) as Hs.
  by rewrite (found_Some _ (view (w_store w)) _ r Hr) in Hs.
Qed.

Lemma moves_GetDef id did d w r :
  v_runs (V w) !! id = Some r → v_defs (V w) !! did = Some d →
  moves id (GetWorkflowDefinition did) w r (Ok d) [] r.
Proof.
  intros Hr Hd. apply moves_read; [done|]. pose proof (spec_GetWorkflowDefinition did w) as Hs.
  unfold V in Hd. by rewrite Hd in Hs.
Qed.

Lemma moves_UpdateRunState id st cs w r :
  v_runs (V w) !! id = Some r →
  moves id (UpdateRunState id st cs) w r (Ok tt) [] (row_UpdateRunState st cs r).
Proof.
  intros Hr. apply moves_alter; [done|]. pose proof (spec_UpdateRunState id st cs w) as Hs.
  by rewrite (found_Some _ (view (w_store w)) _ r Hr) in Hs.
Qed.

Lemma moves_MarkRunFailed id cs e w r :
  v_runs (V w) !! id = Some r →
  moves id (MarkRunFailed id cs e) w r (Ok tt) [] (MarkFailed_row (w_now w) cs e r).
Proof.
  intros Hr. apply moves_alter; [done|]. pose proof (spec_MarkRunFailed id cs e w) as Hs.
  by rewrite (found_Some _ (view (w_store w)) _ r Hr) in Hs.
Qed.

Lemma moves_ClearPause id w r :
  v_runs (V w) !! id = Some r →
  moves id (ClearPause id) w r (Ok tt) [] (row_ClearPause r).
Proof.
  intros Hr. apply moves_alter; [done|]. pose proof (spec_ClearPause id w) as Hs.
  by rewrite (found_Some _ (view (w_store w)) _ r Hr) in Hs.
Qed.

(** The row after [UpdateRunVariables]. *)
Definition row_merge (m : Vars) (r : SagaRun) : SagaRun :=
  set_run_Variables (merge_entries (range_map m) (run_Variables r)) r.

Lemma moves_UpdateRunVariables id m w r :
  v_runs (V w) !! id = Some r →
  moves id (UpdateRunVariables id m) w r (Ok tt) [] (row_merge m r).
Proof.
  intros Hr. apply moves_alter; [done|]. pose proof (spec_UpdateRunVariables id m w) as Hs.
  by rewrite (found_Some _ (view (w_store w)) _ r Hr) in Hs.
Qed.

(** The row after [PopTryCatch]. *)
Definition row_pop (r : SagaRun) : SagaRun :=
  set_run_TryCatchStack (take (pred (length (run_TryCatchStack r))) (run_TryCatchStack r)) r.

Lemma moves_PopTryCatch id w r :
  v_runs (V w) !! id = Some r →
  moves id (PopTryCatch id) w r (Ok (last (run_TryCatchStack r))) [] (row_pop r).
Proof.
  intros Hr. apply moves_alter; [done|]. pose proof (spec_PopTryCatch id w) as Hs.
  by rewrite (found_Some _ (view (w_store w)) _ r Hr) in Hs.
Qed.
End EngineStep.

(** Take one command of a [moves] goal. *)
Ltac mv L :=
  eapply moves_bind; [apply L; eauto using moved_row|];
  let w := fresh "w" in let Hm := fresh "Hm" in
  intros w Hm; cbn beta iota zeta.
