(* ===== verification/EngineRounds.v ===== *)
(** The rounds of the advance loop, one lemma per way a round can go. *)
From S2P Require Import Prelude Values Domain World StoreApi Rows StoreSpec VerbsData Join Fanout.
From S2P Require Import VerbsEffect Action Registry Retry Engine EngineLemmas EngineStep.

Section EngineRounds.
Context `{StoreSpec St}.
Implicit Types w : World St.

(** The next look at the context finds it alive. *)
Definition live w : Prop := ctx_err (w_polls w) = None.

(** The step a run stands on. *)
Definition current_step_id (d : WorkflowDefinition) (r : SagaRun) : string :=
  if decide (run_CurrentStep r = "") then def_Start d else run_CurrentStep r.

(** The run [id] is stored as [r], which stands on [step] of its definition [d]. *)
Record at_step (id : uuid) w (r : SagaRun) (d : WorkflowDefinition) (step : Step) : Prop := {
  as_row : v_runs (V w) !! id = Some r;
  as_id : run_ID r = id;
  as_def : v_defs (V w) !! run_DefinitionID r = Some d;
  as_step : StepByID d (current_step_id d r) = Some step
}.

Definition dispatchable (r : SagaRun) : Prop :=
  IsTerminal (run_State r) = false ∧ run_State r ≠ RunStatePaused.

(** The events of the dispatch: the start of the saga, and of the step. *)
Definition dispatch_events (r : SagaRun) (step : Step) : list (EventType * string * string) :=
  (if decide (run_State r = RunStatePending) then [(EventSagaStarted, "", "engine")] else []) ++
  [(EventStepDispatched, step_ID step, "engine")].

(** Reading the run at the top of a round. *)
Lemma iter_read c id w r :
  live w → v_runs (V w) !! id = Some r →
  ∃ w1, moved id w r [] w1 r ∧ V w1 = V w ∧
    advance_iter c id w =
    (if IsTerminal (run_State r) then ret (Stop (Ok tt))
     else if decide (run_State r = RunStatePaused) then advance_paused id r
     else advance_step c r) w1.
Proof.
  intros Hl Hr. destruct (ctx_Err w) as [e w1] eqn:E1.
  unfold ctx_Err in E1. rewrite Hl in E1.
  destruct (spec_GetRun id w1) as (w2 & E2 & (Hn & Hc & _ & _ & Ho) & Hv).
  assert (view (w_store w1) = view (w_store w)) as Hv1 by (by simplify_eq).
  rewrite Hv1 in Hv, E2. rewrite (found_Some _ (view (w_store w)) _ r Hr) in E2.
  exists w2. split_and!; [|done|].
  - unfold moved, V. rewrite Hv. split_and!; try done.
    + repeat split; simplify_eq; simpl in *; congruence.
    + exists []. by rewrite app_nil_r.
  - unfold advance_iter, ctx_Err. unfold bind at 1. rewrite Hl. simplify_eq. by mstep E2.
Qed.

(** A round whose tail is known. *)
Lemma iter_moves c id w r i ts r' :
  live w → v_runs (V w) !! id = Some r →
  (∀ w1, moved id w r [] w1 r →
     moves id (if IsTerminal (run_State r) then ret (Stop (Ok tt))
               else if decide (run_State r = RunStatePaused) then advance_paused id r
               else advance_step c r) w1 r i ts r') →
  moves id (advance_iter c id) w r i ts r'.
Proof.
  intros Hl Hr Ht. destruct (iter_read c id w r Hl Hr) as (w1 & M1 & _ & E1).
  destruct (Ht w1 M1) as (w2 & E2 & M2). exists w2. rewrite E1. split; [done|].
  apply (moved_trans _ _ _ [] _ _ _ _ _ M1 M2).
Qed.

(** ** Dispatching *)

(** What follows the dispatch of a step that is not [end]. *)
Definition run_verb (c : Coordinator St) (r : SagaRun) (d : WorkflowDefinition) (step : Step)
    : M (World St) iter :=
  if decide (step_Type step = StepTypeEnd) then
    bind (completeRun (c_publisher c) r step) (λ r, ret (Stop r))
  else
    match c_verbs c !! step_Type step with
    | None => ret (Stop (Err (EMsg ("no handler registered for step type: " +:+ step_Type step))))
    | Some entry =>
        tryi* _ := license_gate c r step entry else id in
        let* outcome := executeStep r step (entry_Handler entry) in
        advance_outcome c r d step outcome
    end.

Definition dispatched (r : SagaRun) (step : Step) : SagaRun :=
  row_UpdateRunState RunStateRunning (step_ID step) r.

Lemma advance_step_dispatch c id w r d step :
  at_step id w r d step →
  ∃ w1, moved id w r (dispatch_events r step) w1 (dispatched r step) ∧
        advance_step c r w = run_verb c r d step w1.
Proof.
  intros [Hr <- Hd Hs].
  destruct (moves_GetDef _ _ d w r Hr Hd) as (w1 & E1 & M1).
  set (start := if decide (run_State r = RunStatePending) then
                  append_engine_event (run_ID r) "" EventSagaStarted "engine" else ret tt).
  assert (∃ w2, start w1 = (tt, w2) ∧
            moved (run_ID r) w1 r (if decide (run_State r = RunStatePending)
              then [(EventSagaStarted, "", "engine")] else []) w2 r) as (w2 & E2 & M2).
  { unfold start. case_decide.
    - apply moves_event. by eapply moved_row.
    - apply moves_ret. by eapply moved_row. }
  destruct (moves_event (run_ID r) (step_ID step) EventStepDispatched "engine" w2 r
              (moved_row _ _ _ _ _ _ M2)) as (w3 & E3 & M3).
  destruct (moves_UpdateRunState (run_ID r) RunStateRunning (step_ID step) w3 r
              (moved_row _ _ _ _ _ _ M3)) as (w4 & E4 & M4).
  exists w4. split.
  - unfold dispatch_events.
    pose proof (moved_trans _ _ _ _ _ _ _ _ _ M1 (moved_trans _ _ _ _ _ _ _ _ _ M2
      (moved_trans _ _ _ _ _ _ _ _ _ M3 M4))) as Hm.
    by rewrite app_nil_r in Hm.
  - unfold advance_step. mstep E1. fold start. mstep E2.
    unfold current_step_id in Hs. rewrite Hs. mstep E3. mstep E4. done.
Qed.

Lemma iter_dispatch c id w r d step :
  live w → at_step id w r d step → dispatchable r →
  ∃ w1, moved id w r (dispatch_events r step) w1 (dispatched r step) ∧
        advance_iter c id w = run_verb c r d step w1.
Proof.
  intros Hl Ha [Ht Hp]. destruct (iter_read c id w r Hl (as_row _ _ _ _ _ Ha)) as (w1 & M1 & _ & E1).
  rewrite Ht, decide_False in E1 by done.
  destruct Ha as [Hr Hid Hd Hs].
  destruct (advance_step_dispatch c id w1 r d step) as (w2 & M2 & E2).
  { split; [by eapply moved_row|done| |done]. by rewrite (moved_defs _ _ _ _ _ _ M1). }
  exists w2. split; [|congruence].
  pose proof (moved_trans _ _ _ _ _ _ _ _ _ M1 M2) as Hm. done.
Qed.

Definition licensed (c : Coordinator St) : Prop :=
  ∀ t f o w, c_licensing c t f o w = (Ok true, w).

Lemma run_verb_executes c r d step entry w :
  licensed c → step_Type step ≠ StepTypeEnd → c_verbs c !! step_Type step = Some entry →
  run_verb c r d step w =
  (let* outcome := executeStep r step (entry_Handler entry) in
   advance_outcome c r d step outcome) w.
Proof.
  intros Hl Ht He. unfold run_verb. rewrite decide_False, He by done.
  assert (license_gate c r step entry w = (Ok tt, w)) as Eg; [|by mstep Eg].
  unfold license_gate. case_decide; [done|]. by rewrite (bind_step _ _ _ _ _ (Hl _ _ _ _)).
Qed.

(** A dispatched step whose verb returned [outcome], having moved the row to
    [r2] with the events [ts]. *)
Definition verb_returns (c : Coordinator St) id w r step (outcome : res Vars) ts r2 : Prop :=
  ∃ entry, c_verbs c !! step_Type step = Some entry ∧ step_Type step ≠ StepTypeEnd ∧
    ∀ w1, moved id w r (dispatch_events r step) w1 (dispatched r step) →
          moves id (executeStep r step (entry_Handler entry)) w1 (dispatched r step) outcome ts r2.

Lemma iter_outcome c id w r d step outcome ts r2 :
  live w → licensed c → at_step id w r d step → dispatchable r →
  verb_returns c id w r step outcome ts r2 →
  ∃ w2, moved id w r (dispatch_events r step ++ ts) w2 r2 ∧
        advance_iter c id w = advance_outcome c r d step outcome w2.
Proof.
  intros Hl Hlic Ha Hd (entry & He & Ht & Hex).
  destruct (iter_dispatch c id w r d step Hl Ha Hd) as (w1 & M1 & E1).
  destruct (Hex w1 M1) as (w2 & E2 & M2). exists w2. split; [by eapply moved_trans|].
  rewrite E1, (run_verb_executes c r d step entry) by done. by mstep E2.
Qed.

(** ** Waking *)
Definition wake_target (step : Step) (timedOut : bool) : string :=
  if timedOut then
    match step_Branches step !! "timeout" with
    | Some br => if decide (br_Next br = "") then step_Next step else br_Next br
    | None => step_Next step
    end
  else step_Next step.

Lemma advance_wake_moves id w r d step timedOut :
  v_runs (V w) !! id = Some r → run_ID r = id →
  v_defs (V w) !! run_DefinitionID r = Some d →
  StepByID d (run_CurrentStep r) = Some step →
  wake_target step timedOut ≠ "" →
  moves id (advance_wake id r timedOut) w r Continue
    [(EventStepSucceeded, step_ID step, "engine")]
    (row_UpdateRunState RunStateRunning (wake_target step timedOut) (row_ClearPause r)).
Proof.
  intros Hr Hid Hd Hs Hn. unfold advance_wake. rewrite Hid.
  apply (moves_bind _ _ _ _ _ _ [] _ _ [_]) with (1 := moves_ClearPause id w r Hr).
  intros w1 M1. set (r1 := row_ClearPause r).
  apply (moves_bind _ _ _ _ _ _ [] _ _ [_]) with (1 := moves_GetRun id w1 r1 (moved_row _ _ _ _ _ _ M1)).
  intros w2 M2.
  assert (v_defs (V w2) !! run_DefinitionID r1 = Some d) as Hd2.
  { by rewrite (moved_defs _ _ _ _ _ _ M2), (moved_defs _ _ _ _ _ _ M1). }
  apply (moves_bind _ _ _ _ _ _ [] _ _ [_]) with (1 := moves_GetDef id _ d w2 r1 (moved_row _ _ _ _ _ _ M2) Hd2).
  intros w3 M3. change (run_CurrentStep r1) with (run_CurrentStep r). rewrite Hs.
  change (run_ID r1) with (run_ID r). rewrite Hid.
  apply (moves_bind _ _ _ _ _ _ [_] _ _ []) with (1 := moves_event id (step_ID step) EventStepSucceeded "engine"
           w3 r1 (moved_row _ _ _ _ _ _ M3)).
  intros w4 M4. fold (wake_target step timedOut). cbv zeta.
  rewrite decide_False by done.
  apply (moves_bind _ _ _ _ _ _ [] _ _ []) with (1 := moves_UpdateRunState id RunStateRunning (wake_target step timedOut)
           w4 r1 (moved_row _ _ _ _ _ _ M4)).
  intros w5 M5.
  apply (moves_bind _ _ _ _ _ _ [] _ _ []) with (1 := moves_GetRun id w5 _ (moved_row _ _ _ _ _ _ M5)).
  intros w6 M6. apply moves_ret. by eapply moved_row.
Qed.

(** ** Outcomes *)
Definition is_failure (e : err) : Prop :=
  errors_Is e ErrSagaPaused = false ∧ errors_Is e ErrSagaCancelled = false.

(** The row a caught failure leaves. *)
Definition caught_row (step : Step) (e : err) (frame : TryCatchFrame) (r : SagaRun) : SagaRun :=
  row_UpdateRunState RunStateRunning (frame_CatchStep frame)
    (row_merge (error_vars step e) (row_pop r)).

Lemma outcome_caught c id w r0 r d step e frame :
  run_ID r0 = id → v_runs (V w) !! id = Some r → is_failure e →
  last (run_TryCatchStack r) = Some frame →
  moves id (advance_outcome c r0 d step (Err e)) w r Continue
    [(EventStepFailed, step_ID step, "engine-caught")] (caught_row step e frame r).
Proof.
  intros Hid Hr [Hp Hc] Hl. unfold advance_outcome, advance_failed. rewrite Hp, Hc, Hid.
  apply (moves_bind _ _ _ _ _ _ [] _ _ [_]) with (1 := moves_PopTryCatch id w r Hr).
  intros w1 M1. rewrite Hl.
  apply (moves_bind _ _ _ _ _ _ [] _ _ [_])
    with (1 := moves_UpdateRunVariables id _ w1 _ (moved_row _ _ _ _ _ _ M1)).
  intros w2 M2.
  apply (moves_bind _ _ _ _ _ _ [_] _ _ [])
    with (1 := moves_event id _ _ _ w2 _ (moved_row _ _ _ _ _ _ M2)).
  intros w3 M3.
  apply (moves_bind _ _ _ _ _ _ [] _ _ [])
    with (1 := moves_UpdateRunState id _ _ w3 _ (moved_row _ _ _ _ _ _ M3)).
  intros w4 M4. apply moves_ret. by eapply moved_row.
Qed.

(** A success with a next step. *)
Definition merged (result : Vars) (r : SagaRun) : SagaRun :=
  if decide (result = ∅) then r else row_merge result r.

Lemma outcome_succeeded c id w r0 r d step result next :
  run_ID r0 = id → v_runs (V w) !! id = Some r → next_step step result = Ok next →
  moves id (advance_outcome c r0 d step (Ok result)) w r Continue
    [(EventStepSucceeded, step_ID step, "engine")]
    (row_UpdateRunState RunStateRunning next (merged result r)).
Proof.
  intros Hid Hr Hn. unfold advance_outcome, advance_succeeded. rewrite Hid.
  assert (moves id (if decide (result = ∅) then ret (Ok tt) else UpdateRunVariables id result) w r
            (Ok tt) [] (merged result r)) as Hm.
  { unfold merged. case_decide; [by apply moves_ret|by apply moves_UpdateRunVariables]. }
  apply (moves_bind _ _ _ _ _ _ [] _ _ [_]) with (1 := Hm). intros w1 M1.
  apply (moves_bind _ _ _ _ _ _ [_] _ _ [])
    with (1 := moves_event id _ _ _ w1 _ (moved_row _ _ _ _ _ _ M1)).
  intros w2 M2. rewrite Hn.
  apply (moves_bind _ _ _ _ _ _ [] _ _ [])
    with (1 := moves_UpdateRunState id _ _ w2 _ (moved_row _ _ _ _ _ _ M2)).
  intros w3 M3. apply moves_ret. by eapply moved_row.
Qed.

Lemma outcome_paused c id w r0 r d step e :
  run_ID r0 = id → v_runs (V w) !! id = Some r → errors_Is e ErrSagaPaused = true →
  moves id (advance_outcome c r0 d step (Err e)) w r (Stop (Ok tt))
    [(EventStepPaused, step_ID step, "engine")] r.
Proof.
  intros Hid Hr He. unfold advance_outcome. rewrite He, Hid.
  apply (moves_bind _ _ _ _ _ _ [_] _ _ []) with (1 := moves_event id _ _ _ w r Hr).
  intros w1 M1. apply moves_ret. by eapply moved_row.
Qed.

(** ** Rolling back *)

(** Dispatching through [av] leaves the store as the contract sees it. *)
Definition quiet_dispatch (av : ActionVerb St) : Prop :=
  ∀ action body w, view (w_store (dispatch av action body w).2) = view (w_store w) ∧
                   w_now (dispatch av action body w).2 = w_now w.

Lemma compensate_step_quiet av run step w :
  quiet_dispatch av →
  view (w_store (compensate_step av run step w).2) = view (w_store w) ∧
  w_now (compensate_step av run step w).2 = w_now w.
Proof.
  intros Hq. unfold compensate_step. destruct (step_Compensation step) as [comp|]; [|done].
  unfold bind, DispatchCompensation, ret. case_decide; [done|].
  destruct (negb _); [done|]. destruct (json_struct _) as [body|]; [|done].
  specialize (Hq (comp_Action comp) body w). by destruct (dispatch _ _ _ _).
Qed.

Lemma for_each_quiet av run steps w :
  quiet_dispatch av →
  view (w_store (for_each (compensate_step av run) steps w).2) = view (w_store w) ∧
  w_now (for_each (compensate_step av run) steps w).2 = w_now w.
Proof.
  intros Hq. revert w. induction steps as [|s steps IH]; intros w; simpl; [done|].
  unfold bind. destruct (compensate_step_quiet av run s w Hq) as [H1 H2].
  destruct (compensate_step av run s w) as [? w1]; simpl in *.
  destruct (IH w1) as [H3 H4]. split; congruence.
Qed.

(** The rollback of a run: the row and the trail afterwards, and the steps that
    were compensated, in order. *)
Lemma compensate_spec c id w r0 r d step :
  run_ID r0 = id → v_runs (V w) !! id = Some r →
  quiet_dispatch (compensation_verb (c_verbs c)) →
  let completed := completed_steps d (step_ID step) (events_of (V w) id) ∅ in
  ∃ w' w1, compensate c r0 d step w = (tt, w') ∧ w_now w' = w_now w ∧
    V w' = V w1 ∧
    if decide (completed = []) then moved id w r [] w1 r ∧ w_out w' = w_out w
    else
      moved id w r [(EventCompensationStarted, step_ID step, "engine")] w1
        (row_UpdateRunState RunStateCompensating (run_CurrentStep r0) r) ∧
      w' = (for_each (compensate_step (compensation_verb (c_verbs c)) r0) (rev completed) w1).2.
Proof.
  intros Hid Hr Hq completed. unfold compensate, completedCompensableSteps. rewrite Hid.
  pose proof (moves_read id _ w r _ Hr (spec_ListEventsByRun id w)) as (w1 & E1 & M1).
  fold (V w) in E1. rewrite bind_assoc. mstep E1. rewrite bind_ret. fold completed.
  case_decide as Hc.
  - exists w1, w1. pose proof M1 as ((? & ? & ?) & _).
    split; [done|]. split; [done|]. split; [done|]. by split.
  - destruct (moves_UpdateRunState id RunStateCompensating (run_CurrentStep r0) w1 r
                (moved_row _ _ _ _ _ _ M1)) as (w2 & E2 & M2).
    destruct (moves_event id (step_ID step) EventCompensationStarted "engine" w2 _
                (moved_row _ _ _ _ _ _ M2)) as (w3 & E3 & M3).
    mstep E2. mstep E3.
    destruct (for_each_quiet (compensation_verb (c_verbs c)) r0 (rev completed) w3 Hq) as [Hv Hn].
    pose proof (moved_trans _ _ _ _ _ _ _ _ _ M1 (moved_trans _ _ _ _ _ _ _ _ _ M2 M3)) as M.
    destruct (for_each _ (rev completed) w3) as [[] w4] eqn:Ef; cbn [snd] in *.
    exists w4, w3. split; [reflexivity|]. pose proof M as ((Hnow & _) & _). split; [congruence|]. split; [exact Hv|].
    split; [exact M|by rewrite Ef].
Qed.

Lemma completed_steps_app d x l es seen :
  Forall (λ ev, ev_EventType ev ≠ EventStepSucceeded) es →
  completed_steps d x (l ++ es) seen = completed_steps d x l seen.
Proof.
  intros Hes. revert seen. induction l as [|ev l IH]; intros seen; simpl.
  - induction Hes as [|ev es Hev _ IH]; simpl; [done|]. by rewrite decide_True.
  - repeat (case_decide; [by rewrite ?IH|]). destruct (StepByID d (ev_StepID ev)); [|by rewrite IH].
    case_decide; by rewrite IH.
Qed.

(** The error text a failed run carries. *)
Definition failure_text (step : Step) (e : err) : string :=
  "step " +:+ quote (step_ID step) +:+ " (" +:+ step_Type step +:+ "): " +:+ err_Error e.

(** A run that failed for good on [step] with [e], from the trail [evs]. *)
Definition settled_failed (id : uuid) (d : WorkflowDefinition) (step : Step) (e : err)
    (evs : list SagaRunEvent) w' : Prop :=
  (∃ r, v_runs (V w') !! id = Some r ∧ run_State r = RunStateFailed ∧
        run_CurrentStep r = step_ID step ∧ run_LastError r = Some (failure_text step e)) ∧
  ∃ es, events_of (V w') id = evs ++ es ∧
    stamp <$> es = (EventStepFailed, step_ID step, "engine") ::
      (if decide (completed_steps d (step_ID step) (events_of (V w') id) ∅ = []) then []
       else [(EventCompensationStarted, step_ID step, "engine")]).

Lemma settled_after id d step e w5 r5 evs es :
  v_runs (V w5) !! id = Some r5 → IsTerminal (run_State r5) = false →
  events_of (V w5) id = evs ++ es →
  stamp <$> es = (EventStepFailed, step_ID step, "engine") ::
      (if decide (completed_steps d (step_ID step) (events_of (V w5) id) ∅ = []) then []
       else [(EventCompensationStarted, step_ID step, "engine")]) →
  ∃ w6, MarkRunFailed id (step_ID step) (failure_text step e) w5 = (Ok tt, w6) ∧
    settled_failed id d step e evs w6.
Proof.
  intros Hr Hnt He Hst.
  destruct (moves_MarkRunFailed id (step_ID step) (failure_text step e) w5 r5 Hr) as (w6 & E6 & M6).
  exists w6. split; [done|]. destruct M6 as (_ & _ & Hr6 & _ & _ & (es6 & He6 & Hst6) & _).
  apply fmap_nil_inv in Hst6 as ->. rewrite app_nil_r in He6. split.
  - eexists. split; [exact Hr6|]. unfold MarkFailed_row. rewrite Hnt.
    unfold row_MarkRunFailed. by rewrite decide_False.
  - exists es. rewrite He6. done.
Qed.

Lemma outcome_uncaught c id w2 r0 r2 d step e :
  run_ID r0 = id → v_runs (V w2) !! id = Some r2 → is_failure e →
  run_TryCatchStack r2 = [] → IsTerminal (run_State r2) = false →
  quiet_dispatch (compensation_verb (c_verbs c)) →
  quiet (c_publisher c) → run_ParentRunID r0 ≠ Some id →
  ∃ w', advance_outcome c r0 d step (Err e) w2 =
          (Stop (Err (EWrap ("verb " +:+ step_Type step) e)), w') ∧
    settled_failed id d step e (events_of (V w2) id) w'.
Proof.
  intros Hid Hr2 [Hf1 Hf2] Hstack Hnt Hqd Hq Hp.
  destruct (moves_PopTryCatch id w2 r2 Hr2) as (w3 & E3 & M3).
  destruct (moves_event id (step_ID step) EventStepFailed "engine" w3 _
              (moved_row _ _ _ _ _ _ M3)) as (w4 & E4 & M4).
  pose proof (moved_trans _ _ _ _ _ _ _ _ _ M3 M4) as (_ & _ & Hr4 & _ & _ & (es & He & Hst) & _).
  destruct (compensate_spec c id w4 r0 _ d step Hid Hr4 Hqd) as (w5 & w5' & E5 & _ & HV5 & Hc).
  destruct (settled_after id d step e w5
    (if decide (completed_steps d (step_ID step) (events_of (V w4) id) ∅ = []) then row_pop r2
     else row_UpdateRunState RunStateCompensating (run_CurrentStep r0) (row_pop r2))
    (events_of (V w2) id)
    (drop (length (events_of (V w2) id)) (events_of (V w5) id))) as (w6 & E6 & Hs).
  - rewrite HV5. case_decide; destruct Hc as [Hc _]; by eapply moved_row.
  - by case_decide.
  - rewrite HV5. case_decide; destruct Hc as [(_ & _ & _ & _ & _ & (es5 & He5 & _) & _) _];
      by rewrite He5, He, <-app_assoc, drop_app_length.
  - assert (Forall (λ ev, ev_EventType ev ≠ EventStepSucceeded)
              (drop (length (events_of (V w4) id)) (events_of (V w5) id)) ∧
            ∃ es5, events_of (V w5) id = events_of (V w4) id ++ es5 ∧
              stamp <$> es5 = if decide (completed_steps d (step_ID step) (events_of (V w4) id) ∅ = [])
                then [] else [(EventCompensationStarted, step_ID step, "engine")])
      as (Hno & es5 & He5 & Hst5).
    { rewrite HV5. case_decide; destruct Hc as [(_ & _ & _ & _ & _ & (es5 & He5 & Hst5) & _) _];
        rewrite He5, drop_app_length; split; eauto.
      - by apply fmap_nil_inv in Hst5 as ->.
      - destruct es5 as [|ev [|]]; [done| |done]. constructor; [|constructor].
        by injection Hst5 as -> _ _. }
    rewrite He5, drop_app_length in Hno. rewrite He5, completed_steps_app by done.
    rewrite He, <-app_assoc, drop_app_length, fmap_app, Hst, Hst5. by rewrite He.
  - exists (checkParentJoin (c_publisher c) r0 w6).2. split.
    + unfold advance_outcome. rewrite Hf1, Hf2. unfold advance_failed. rewrite Hid.
      mstep E3. rewrite Hstack; simpl. mstep E4. mstep E5. fold (failure_text step e). mstep E6.
      unfold bind. by destruct (checkParentJoin _ _ _) as [[] ?].
    + unfold settled_failed, V in *.
      by rewrite checkParentJoin_row, checkParentJoin_events by congruence.
Qed.
End EngineRounds.
