(* ===== verification/EngineProps.v ===== *)
(** Properties of the advance loop, against the store contract; their witnesses
    run it on the in-memory store. *)
From S2P Require Import Prelude Values Domain World Demo StoreApi Rows StoreSpec MemStore MemSpec.
From S2P Require Import VerbsData Join Fanout VerbsEffect Action Registry Retry Engine.
From S2P Require Import EngineLemmas EngineStep EngineRounds.

(** ** The demo: one workflow, the default verbs, the in-memory store *)
Definition set_step (id next : string) : Step :=
  mkStep id StepTypeSetVar next "" {["out_var" := VStr "x"; "value" := VInt 1]} None None ∅.
Definition fail_step (id : string) : Step :=
  mkStep id StepTypeError "" "" {["code" := VStr "boom"]} None None ∅.
Definition wait_step (id next timeout : string) : Step :=
  mkStep id StepTypeWaitForSignal next "" {["name" := VStr "go"]} None None
    {["timeout" := mkBranch timeout]}.
Definition act_step (id next undo : string) : Step :=
  mkStep id StepTypeAction next "svc.do" ∅ (Some (mkComp undo ∅)) None ∅.
Definition sub_step (id next : string) : Step :=
  mkStep id StepTypeSubSaga next "" ∅ None None ∅.
Definition metric_step (id next : string) : Step :=
  mkStep id StepTypeMetricEmit next "" ∅ None None ∅.

Definition demo_def : WorkflowDefinition :=
  mkDef "wf" 1 None "" "" "s" ∅
    [set_step "s" "e"; end_step "e"; fail_step "f"; wait_step "w" "e" "late"; act_step "a" "f" "svc.undo_a";
     act_step "b" "f" "svc.undo_b"; sub_step "p" "e"; metric_step "m" "e"; set_step "late" "e"]
    true 0 "".

Definition row_at (st : RunState) (cs : string) : SagaRun :=
  row_UpdateRunState st cs (NewSagaRun 7 0 "wf" 9 None ∅).
Definition demo_store (rs : list SagaRun) (evs : list SagaRunEvent) : MemStore :=
  mkMem {[9%N := demo_def]} {["wf" := [9%N]]} (list_to_map ((λ r, (run_ID r, r)) <$> rs))
    {[7%N := evs]} ∅ ∅ ∅ ∅ ∅ ∅ [].
Definition demo_w (r : SagaRun) : World MemStore := demo_world (demo_store [r] []).
Definition demo_id : string := @uuid_string demo_env 7%N.

#[local] Existing Instance demo_env.
#[local] Existing Instance demo_laws.

(** A resolver that enables no feature. *)
Definition deny_all : LicenseResolver MemStore := λ _ _ _, ret (Ok false).
Definition demo_coord (lr : option (LicenseResolver MemStore)) : Coordinator MemStore :=
  NewCoordinator (Some mq_PublishSagaAdvance) None lr (Some mq_PublishActionDispatch) None None None.

Section EngineProps.
Context `{StoreSpec St}.
Implicit Types w : World St.

Lemma advance_loop_stop fuel c id w r w' :
  advance_iter c id w = (Stop r, w') → advance_loop (S fuel) c id w = (Some r, w').
Proof. intros E; simpl. by mstep E. Qed.

Lemma Advance_parsed fuel c s id w :
  uuid_parse s = Ok id → Advance fuel c s w = advance_loop fuel c id w.
Proof. intros E. unfold Advance. by rewrite E. Qed.

(** Why an advance has nothing to do: the run is terminal, or paused without a
    due wakeup while it still awaits a signal, an event or the clock. *)
Definition nothing_to_do w (r : SagaRun) : Prop :=
  IsTerminal (run_State r) = true ∨
  (run_State r = RunStatePaused ∧ wakeup_due (w_clk w) r = false ∧
   (no_pending_awaits r = false ∨ run_WakeupAt r ≠ None)).

(** A duplicate or premature advance is harmless: on a run that is terminal,
    or paused on a signal, an event or a wakeup that is not due, [Advance]
    reports success, changes nothing in the store and sends nothing. *)
Theorem Advance_nothing_to_do fuel c s id w r :
  uuid_parse s = Ok id → live w → v_runs (V w) !! id = Some r → nothing_to_do w r →
  ∃ w', Advance (S fuel) c s w = (Some (Ok tt), w') ∧ moved id w r [] w' r ∧ V w' = V w.
Proof.
  intros Hs Hl Hr Hn. rewrite (Advance_parsed _ _ _ _ _ Hs).
  destruct (iter_read c id w r Hl Hr) as (w1 & M1 & HV & E1). exists w1.
  split_and!; [|done|done]. apply advance_loop_stop. rewrite E1.
  destruct Hn as [->|(Hp & Hd & Hn)]; [done|]. rewrite Hp; simpl.
  unfold advance_paused. rewrite bind_Clock_Now.
  destruct M1 as ((_ & Hc & _) & _). rewrite Hc, Hd; simpl.
  assert (no_pending_awaits r && bool_decide (run_WakeupAt r = None) = false) as ->; [|done].
  destruct Hn as [->|Hn]; [done|]. rewrite bool_decide_false by done. by destruct (no_pending_awaits r).
Qed.

Lemma loop_end_completes fuel c id w r d step :
  live w → at_step id w r d step → dispatchable r →
  step_Type step = StepTypeEnd → quiet (c_publisher c) → run_ParentRunID r ≠ Some id →
  ∃ w', advance_loop (S fuel) c id w = (Some (Ok tt), w') ∧
    v_runs (V w') !! id = Some (row_UpdateRunState RunStateSucceeded "" r) ∧
    ∃ es, events_of (V w') id = events_of (V w) id ++ es ∧
      stamp <$> es = dispatch_events r step ++
        [(EventStepSucceeded, step_ID step, "engine"); (EventRunSucceeded, "", "engine")].
Proof.
  intros Hl Ha Hd Ht Hq Hp.
  destruct (iter_dispatch c id w r d step Hl Ha Hd) as (w1 & M1 & E1).
  destruct (moves_event id (step_ID step) EventStepSucceeded "engine" w1 _ (moved_row _ _ _ _ _ _ M1))
    as (w2 & E2 & M2).
  destruct (moves_event id "" EventRunSucceeded "engine" w2 _ (moved_row _ _ _ _ _ _ M2))
    as (w3 & E3 & M3).
  destruct (moves_UpdateRunState id RunStateSucceeded "" w3 _ (moved_row _ _ _ _ _ _ M3))
    as (w4 & E4 & M4).
  pose proof (moved_trans _ _ _ _ _ _ _ _ _ M1 (moved_trans _ _ _ _ _ _ _ _ _ M2
    (moved_trans _ _ _ _ _ _ _ _ _ M3 M4))) as (_ & _ & Hrow & _ & _ & Hev & _).
  exists (checkParentJoin (c_publisher c) r w4).2. split_and!.
  - apply advance_loop_stop. rewrite E1. unfold run_verb. rewrite decide_True by done.
    unfold completeRun. rewrite (as_id _ _ _ _ _ Ha), bind_assoc. mstep E2.
    rewrite bind_assoc. mstep E3. rewrite bind_assoc. mstep E4.
    rewrite bind_assoc. unfold bind. by destruct (checkParentJoin _ _ _) as [[] ?].
  - unfold V in *. by rewrite checkParentJoin_row.
  - destruct Hev as (es & Hev & Hst). exists es. split; [|done].
    unfold V in *. by rewrite checkParentJoin_events.
Qed.

(** Reaching an [end] step completes the run: [Advance] reports success, the
    row becomes succeeded with an empty current step and is otherwise unchanged,
    and the trail gains exactly the start of the saga (for a pending run), the
    dispatch and the success of the end step and the success of the run,
    whatever the parent-join hook then does to the parent. *)
Theorem Advance_end_completes fuel c s id w r d step :
  uuid_parse s = Ok id → live w → at_step id w r d step → dispatchable r →
  step_Type step = StepTypeEnd → quiet (c_publisher c) → run_ParentRunID r ≠ Some id →
  ∃ w', Advance (S fuel) c s w = (Some (Ok tt), w') ∧
    v_runs (V w') !! id = Some (row_UpdateRunState RunStateSucceeded "" r) ∧
    ∃ es, events_of (V w') id = events_of (V w) id ++ es ∧
      stamp <$> es = dispatch_events r step ++
        [(EventStepSucceeded, step_ID step, "engine"); (EventRunSucceeded, "", "engine")].
Proof.
  intros Hs Hl Ha. rewrite (Advance_parsed _ _ _ _ _ Hs). by apply (loop_end_completes _ _ _ _ _ d).
Qed.

(** A run whose signal or event came, or whose children are done, resumes at the
    next step. *)
Lemma iter_external_wake c id w r d step :
  live w → v_runs (V w) !! id = Some r → run_ID r = id →
  run_State r = RunStatePaused → no_pending_awaits r = true → run_WakeupAt r = None →
  v_defs (V w) !! run_DefinitionID r = Some d → StepByID d (run_CurrentStep r) = Some step →
  ¬ spawns_children (step_Type step) → step_Next step ≠ "" →
  moves id (advance_iter c id) w r Continue [(EventStepSucceeded, step_ID step, "engine")]
    (row_UpdateRunState RunStateRunning (step_Next step) (row_ClearPause r)).
Proof.
  intros Hl Hr Hid Hp Hno Hwk Hd Hs Hty Hn. apply iter_moves; [done..|]. intros w1 M1.
  rewrite Hp; simpl. unfold moves, advance_paused. rewrite bind_Clock_Now.
  unfold wakeup_due. rewrite Hno, Hwk; simpl.
  pose proof (moved_defs _ _ _ _ _ _ M1) as Hdefs. pose proof (moved_row _ _ _ _ _ _ M1) as Hr1.
  unfold childrenStillRunning. rewrite bind_assoc.
  apply (moves_bind id _ _ _ _ _ [] _ _ [_])
    with (1 := moves_GetDef id _ d w1 r Hr1 ltac:(by rewrite Hdefs)).
  intros w2 M2. rewrite Hs. rewrite decide_False by done.
  apply (advance_wake_moves id w2 r d step false); try done; [by eapply moved_row|].
  by rewrite (moved_defs _ _ _ _ _ _ M2), Hdefs.
Qed.

Lemma iter_wakes c id w r d step :
  live w → v_runs (V w) !! id = Some r → run_ID r = id →
  run_State r = RunStatePaused → wakeup_due (w_clk w) r = true →
  v_defs (V w) !! run_DefinitionID r = Some d → StepByID d (run_CurrentStep r) = Some step →
  wake_target step (negb (no_pending_awaits r)) ≠ "" →
  moves id (advance_iter c id) w r Continue [(EventStepSucceeded, step_ID step, "engine")]
    (row_UpdateRunState RunStateRunning (wake_target step (negb (no_pending_awaits r)))
       (row_ClearPause r)).
Proof.
  intros Hl Hr Hid Hp Hdue Hd Hs Hn. apply iter_moves; [done..|]. intros w1 M1.
  rewrite Hp; simpl. unfold moves, advance_paused. rewrite bind_Clock_Now.
  destruct M1 as ((_ & Hc & _) & _ & Hr1 & _ & Hdefs & _). rewrite Hc, Hdue; simpl.
  apply (advance_wake_moves id w1 r d step); try done. by rewrite Hdefs.
Qed.

(** Waking a paused run: when its wakeup is due, one round records the step's
    success, clears the pause and leaves the run running at the step's next; when
    the wait timed out (the awaited signal or event is still pending) it goes to
    the "timeout" branch instead, if the step has one with a target. *)
Theorem Advance_wakes_and_routes_timeout c id w r d step :
  live w → v_runs (V w) !! id = Some r → run_ID r = id →
  run_State r = RunStatePaused → wakeup_due (w_clk w) r = true →
  v_defs (V w) !! run_DefinitionID r = Some d → StepByID d (run_CurrentStep r) = Some step →
  wake_target step (negb (no_pending_awaits r)) ≠ "" →
  moves id (advance_iter c id) w r Continue [(EventStepSucceeded, step_ID step, "engine")]
    (row_UpdateRunState RunStateRunning (wake_target step (negb (no_pending_awaits r)))
       (row_ClearPause r)).
Proof. apply iter_wakes. Qed.

(** The license gate stops a step before its verb runs: when the resolver
    denies the feature of the step's group, [Advance] returns the gate error, the
    run is failed on that step with the gate message, the trail shows the
    rejection instead of an outcome, and nothing was sent; no other run changed,
    so a parent waiting on this run is not woken. *)
Theorem Advance_license_denied fuel c s id w r d step entry :
  uuid_parse s = Ok id → live w → at_step id w r d step → dispatchable r →
  step_Type step ≠ StepTypeEnd → c_verbs c !! step_Type step = Some entry →
  let feature := feature_of (LicenseGroupForStep step (LicenseGroup entry)) in
  feature ≠ "" → (∀ t f o w, c_licensing c t f o w = (Ok false, w)) →
  let msg := "license_gate: feature " +:+ quote feature +:+ " not enabled for tenant" in
  ∃ w', Advance (S fuel) c s w = (Some (Err (EMsg msg)), w') ∧
    moved id w r (dispatch_events r step ++ [(EventLicenseGateRejected, step_ID step, "engine")])
      w' (MarkFailed_row (w_now w) (step_ID step) msg (dispatched r step)).
Proof.
  intros Hs Hl Ha Hd Ht He feature Hf Hlic msg. rewrite (Advance_parsed _ _ _ _ _ Hs).
  destruct (iter_dispatch c id w r d step Hl Ha Hd) as (w1 & M1 & E1).
  destruct (moves_meta_event id (step_ID step)
    {["group" := VStr (LicenseGroupForStep step (LicenseGroup entry)); "feature" := VStr feature]}
    EventLicenseGateRejected w1 _ (moved_row _ _ _ _ _ _ M1)) as (w2 & M2 & E2).
  destruct (moves_MarkRunFailed id (step_ID step) msg w2 _ (moved_row _ _ _ _ _ _ M2))
    as (w3 & E3 & M3).
  exists w3. split.
  - apply advance_loop_stop. rewrite E1. unfold run_verb. rewrite decide_False by done. rewrite He.
    assert (license_gate c r step entry w1 = (Err (EMsg msg), w3)) as Eg; [|by mstep Eg].
    unfold license_gate. fold feature. rewrite decide_False by done.
    rewrite (bind_step _ _ _ _ _ (Hlic _ _ _ _)), (as_id _ _ _ _ _ Ha). cbv zeta beta iota.
    rewrite E2. by mstep E3.
  - pose proof (moved_trans _ _ _ _ _ _ _ _ _ M1 (moved_trans _ _ _ _ _ _ _ _ _ M2 M3)) as Hm.
    rewrite app_nil_r in Hm.
    assert (w_now w2 = w_now w) as <-; [|exact Hm].
    destruct M2 as ((-> & _) & _), M1 as ((-> & _) & _). done.
Qed.

(** C26: a step that fails under a [try_catch] does not fail the run: the
    innermost frame is popped, [_error] describes the step and its error, the
    trail gets a caught failure, and the run goes on at the frame's catch step. *)
Theorem Advance_failure_caught c id w r d step e ts r2 frame :
  live w → licensed c → at_step id w r d step → dispatchable r →
  verb_returns c id w r step (Err e) ts r2 → is_failure e →
  last (run_TryCatchStack r2) = Some frame →
  moves id (advance_iter c id) w r Continue
    ((dispatch_events r step ++ ts) ++ [(EventStepFailed, step_ID step, "engine-caught")])
    (caught_row step e frame r2).
Proof.
  intros Hl Hlic Ha Hd Hv Hf Hlast.
  destruct (iter_outcome c id w r d step _ ts r2 Hl Hlic Ha Hd Hv) as (w2 & M2 & E2).
  destruct (outcome_caught c id w2 r r2 d step e frame (as_id _ _ _ _ _ Ha)
              (moved_row _ _ _ _ _ _ M2) Hf Hlast) as (w3 & E3 & M3).
  exists w3. rewrite E2. split; [done|]. by eapply moved_trans.
Qed.

(** C1: a step that fails with no frame to catch it fails the run for good:
    [Advance] returns the verb's error, the steps that had completed are rolled
    back (visible as a started compensation when there are any), and however the
    compensation dispatches and the parent-join hook go, the run ends failed on
    that step with the error recorded. *)
Theorem Advance_failure_uncaught fuel c s id w r d step e ts r2 :
  uuid_parse s = Ok id → live w → licensed c → at_step id w r d step → dispatchable r →
  verb_returns c id w r step (Err e) ts r2 → is_failure e → run_TryCatchStack r2 = [] →
  IsTerminal (run_State r2) = false →
  quiet_dispatch (compensation_verb (c_verbs c)) → quiet (c_publisher c) →
  run_ParentRunID r ≠ Some id →
  ∃ w', Advance (S fuel) c s w = (Some (Err (EWrap ("verb " +:+ step_Type step) e)), w') ∧
    ∃ es, stamp <$> es = dispatch_events r step ++ ts ∧
      settled_failed id d step e (events_of (V w) id ++ es) w'.
Proof.
  intros Hs Hl Hlic Ha Hd Hv Hf Hstack Hnt Hqd Hq Hp.
  rewrite (Advance_parsed _ _ _ _ _ Hs).
  destruct (iter_outcome c id w r d step _ ts r2 Hl Hlic Ha Hd Hv) as (w2 & M2 & E2).
  destruct (outcome_uncaught c id w2 r r2 d step e (as_id _ _ _ _ _ Ha)
    (moved_row _ _ _ _ _ _ M2) Hf Hstack Hnt Hqd Hq Hp) as (w' & E' & Hset).
  exists w'. split; [apply advance_loop_stop; congruence|].
  destruct M2 as (_ & _ & _ & _ & _ & (es & He & Hst) & _). exists es.
  split; [done|]. by rewrite <-He.
Qed.
End EngineProps.

(** ** Witnesses *)
Lemma mem_quiet_dispatch pub :
  quiet_dispatch (St := MemStore) (mkActionVerb pub (Some mq_PublishActionDispatch) None None).
Proof.
  intros action body w. unfold dispatch, resolveDispatch, bind, ret.
  destruct (splitAction action) as [[service name]|]; [|done]. destruct pub; [|done]; simpl.
  destruct (latest_action _ _ _) as [a|]; [|done].
  repeat case_decide; done.
Qed.

Lemma demo_quiet : quiet (St := MemStore) (Some mq_PublishSagaAdvance).
Proof. by intros id w. Qed.

Lemma demo_at r step :
  run_ID r = 7%N → run_DefinitionID r = 9%N →
  StepByID demo_def (current_step_id demo_def r) = Some step →
  at_step 7 (demo_w r) r demo_def step.
Proof.
  intros Hid Hd Hs. split; [|done| |done].
  - change (({[run_ID r := r]} : gmap uuid SagaRun) !! 7%N = Some r).
    by rewrite Hid, lookup_singleton_eq.
  - by rewrite Hd.
Qed.

Definition waiting : SagaRun := row_SetPausedAwaitingSignal "go" (Some 500%Z) (row_at RunStateRunning "w").

Lemma Advance_nothing_to_do_witness :
  ∃ w', Advance 1 (demo_coord None) demo_id (demo_w waiting) = (Some (Ok tt), w') ∧
        moved 7 (demo_w waiting) waiting [] w' waiting ∧ V w' = V (demo_w waiting).
Proof.
  apply (Advance_nothing_to_do 0 (demo_coord None) demo_id 7 (demo_w waiting) waiting).
  - reflexivity.
  - reflexivity.
  - reflexivity.
  - right. split_and!; [reflexivity|reflexivity|right; discriminate].
Defined.

Lemma Advance_end_completes_witness :
  let r := row_at RunStatePending "e" in
  ∃ w', Advance 1 (demo_coord None) demo_id (demo_w r) = (Some (Ok tt), w') ∧
      v_runs (V w') !! 7%N = Some (row_UpdateRunState RunStateSucceeded "" r) ∧
      ∃ es, events_of (V w') 7 = events_of (V (demo_w r)) 7 ++ es ∧
        stamp <$> es = dispatch_events r (end_step "e") ++
          [(EventStepSucceeded, "e", "engine"); (EventRunSucceeded, "", "engine")].
Proof.
  intros r. apply (Advance_end_completes 0 (demo_coord None) demo_id 7 (demo_w r) r demo_def (end_step "e")).
  - reflexivity.
  - reflexivity.
  - by apply demo_at.
  - by split.
  - reflexivity.
  - exact demo_quiet.
  - discriminate.
Defined.

Definition overdue : SagaRun := row_SetPausedAwaitingSignal "go" (Some 50%Z) (row_at RunStateRunning "w").

Lemma Advance_wakes_and_routes_timeout_witness :
  moves 7 (advance_iter (demo_coord None) 7) (demo_w overdue) overdue Continue
    [(EventStepSucceeded, "w", "engine")]
    (row_UpdateRunState RunStateRunning "late" (row_ClearPause overdue)).
Proof.
  apply (Advance_wakes_and_routes_timeout (demo_coord None) 7 (demo_w overdue) overdue demo_def
           (wait_step "w" "e" "late")); try reflexivity. discriminate.
Defined.

Lemma Advance_license_denied_witness :
  let r := row_at RunStateRunning "m" in
  let feature := feature_of (LicenseGroupForStep (metric_step "m" "e") "observability") in
  let msg := "license_gate: feature " +:+ quote feature +:+ " not enabled for tenant" in
  ∃ w', Advance 1 (demo_coord (Some deny_all)) demo_id (demo_w r) = (Some (Err (EMsg msg)), w') ∧
      moved 7 (demo_w r) r
        (dispatch_events r (metric_step "m" "e") ++ [(EventLicenseGateRejected, "m", "engine")])
        w' (MarkFailed_row 100 "m" msg (dispatched r (metric_step "m" "e"))).
Proof.
  intros r feature msg.
  apply (Advance_license_denied 0 (demo_coord (Some deny_all)) demo_id 7 (demo_w r) r demo_def
           (metric_step "m" "e") (plain MetricEmitVerb_Execute "observability")).
  - reflexivity.
  - reflexivity.
  - by apply demo_at.
  - by split.
  - discriminate.
  - reflexivity.
  - discriminate.
  - done.
Defined.

Lemma demo_fail_returns lr w r :
  verb_returns (demo_coord lr) 7 w r (fail_step "f") (Err (EMsg "boom")) []
    (dispatched r (fail_step "f")).
Proof.
  exists (plain (pure_handler ErrorVerb_Execute) "common"). split_and!; [done|done|].
  intros w1 M1. exists w1. split; [reflexivity|]. apply moved_refl. by eapply moved_row.
Qed.

Definition guarded : SagaRun :=
  set_run_TryCatchStack [mkFrame "t" "late"] (row_at RunStateRunning "f").

Lemma Advance_failure_caught_witness :
  moves 7 (advance_iter (demo_coord None) 7) (demo_w guarded) guarded Continue
    ((dispatch_events guarded (fail_step "f") ++ []) ++ [(EventStepFailed, "f", "engine-caught")])
    (caught_row (fail_step "f") (EMsg "boom") (mkFrame "t" "late") (dispatched guarded (fail_step "f"))).
Proof.
  apply (Advance_failure_caught (demo_coord None) 7 (demo_w guarded) guarded demo_def (fail_step "f")
           (EMsg "boom") [] (dispatched guarded (fail_step "f")) (mkFrame "t" "late")).
  - reflexivity.
  - done.
  - by apply demo_at.
  - by split.
  - apply demo_fail_returns.
  - by split.
  - reflexivity.
Defined.

Lemma Advance_failure_uncaught_witness :
  let r := row_at RunStateRunning "f" in
  ∃ w', Advance 1 (demo_coord None) demo_id (demo_w r) =
          (Some (Err (EWrap "verb error" (EMsg "boom"))), w') ∧
    ∃ es, stamp <$> es = dispatch_events r (fail_step "f") ++ [] ∧
      settled_failed 7 demo_def (fail_step "f") (EMsg "boom")
        (events_of (V (demo_w r)) 7 ++ es) w'.
Proof.
  intros r.
  apply (Advance_failure_uncaught 0 (demo_coord None) demo_id 7 (demo_w r) r demo_def (fail_step "f")
           (EMsg "boom") [] (dispatched r (fail_step "f"))).
  - reflexivity.
  - reflexivity.
  - done.
  - by apply demo_at.
  - by split.
  - apply demo_fail_returns.
  - by split.
  - reflexivity.
  - reflexivity.
  - apply mem_quiet_dispatch.
  - exact demo_quiet.
  - discriminate.
Defined.
