(* ===== verification/EngineJoinProps.v ===== *)
(** Properties of the coordinator's joins and of the rollback order. *)
From S2P Require Import Prelude Values Domain World Demo StoreApi Rows StoreSpec MemStore MemSpec.
From S2P Require Import VerbsData Join JoinProps Fanout VerbsEffect Action Registry Retry Engine.
From S2P Require Import EngineLemmas EngineStep EngineRounds EngineProps.

Section EngineJoinProps.
Context `{StoreSpec St}.
Implicit Types w : World St.

(** The children a step of a run has spawned. *)
Definition children_of (id : uuid) (sid : string) w : list SagaRun :=
  filter (is_child_of id sid) (rows (V w)).

Lemma met_perm inputs vars g k :
  g ≡ₚ k → JoinConditionMetCtx inputs vars g = JoinConditionMetCtx inputs vars k.
Proof.
  intros Hgk. apply eq_true_iff_eq. rewrite !JoinConditionMet_iff. unfold join_met, allTerminal, count_succeeded.
  rewrite (forallb_perm _ _ _ Hgk), (Permutation_length (filter_perm _ _ _ Hgk)).
  assert (g ≠ [] ↔ k ≠ []); [|naive_solver].
  split; intros Hne ->; apply Hne; [by apply Permutation_nil_r|].
  by apply Permutation_nil_r; symmetry.
Qed.

Lemma childrenStillRunning_spec r d step w :
  v_defs (V w) !! run_DefinitionID r = Some d →
  StepByID d (run_CurrentStep r) = Some step → spawns_children (step_Type step) →
  implements view (childrenStillRunning r) w
    (Ok (negb (JoinConditionMetCtx (step_Inputs step) (run_Variables r)
                 (children_of (run_ID r) (step_ID step) w)))) (view (w_store w)).
Proof.
  intros Hd Hs Hc. unfold childrenStillRunning.
  pose proof (spec_GetWorkflowDefinition (run_DefinitionID r) w) as Hg.
  unfold V in Hd. rewrite Hd in Hg. eapply implements_bind; [exact Hg|]. intros w1 He1 Hv1.
  cbn beta iota. rewrite Hs, decide_True by done.
  destruct (children_spec (run_ID r) (step_ID step) w1) as (l & Hl & Hperm).
  rewrite Hv1 in Hl, Hperm. eapply implements_bind; [exact Hl|]. intros w2 He2 Hv2.
  cbn beta iota.
  rewrite (met_perm _ _ l (children_of (run_ID r) (step_ID step) w)) by exact Hperm.
  by exists w2.
Qed.

(** A run paused on a step that spawned children, with no other marker. *)
Record awaiting_children (id : uuid) w (r : SagaRun) (d : WorkflowDefinition) (step : Step)
    : Prop := {
  ac_row : v_runs (V w) !! id = Some r;
  ac_id : run_ID r = id;
  ac_state : run_State r = RunStatePaused;
  ac_wakeup : run_WakeupAt r = None;
  ac_signal : run_AwaitedSignal r = None;
  ac_topic : run_AwaitedEventTopic r = None;
  ac_def : v_defs (V w) !! run_DefinitionID r = Some d;
  ac_step : StepByID d (run_CurrentStep r) = Some step;
  ac_spawns : spawns_children (step_Type step)
}.

Lemma awaiting_iter c id w r d step :
  live w → awaiting_children id w r d step →
  ∃ w1, moved id w r [] w1 r ∧ V w1 = V w ∧
    advance_iter c id w =
    (if JoinConditionMetCtx (step_Inputs step) (run_Variables r) (children_of id (step_ID step) w)
     then advance_wake id r false else ret (Stop (Ok tt))) w1.
Proof.
  intros Hl [Hr Hid Hst Hwk Hsg Htp Hd Hs Hc].
  destruct (iter_read c id w r Hl Hr) as (w1 & M1 & HV1 & E1). rewrite Hst in E1; simpl in E1.
  unfold advance_paused, wakeup_due, no_pending_awaits in E1.
  rewrite bind_Clock_Now, Hwk, Hsg, Htp in E1; simpl in E1.
  rewrite <-HV1 in Hd.
  destruct (childrenStillRunning_spec r d step w1 Hd Hs Hc) as (w2 & E2 & (Hn & Hck & _ & _ & Ho) & Hv2).
  rewrite (bind_step _ _ _ _ _ E2) in E1. exists w2.
  assert (V w2 = V w) as HV2 by (unfold V in *; congruence).
  split; [|split; [done|]].
  - pose proof M1 as ((? & ? & ?) & _). unfold moved. rewrite HV2. split_and!; try done.
    + repeat split; congruence.
    + exists []. by rewrite app_nil_r.
  - rewrite E1. unfold children_of. rewrite HV1, Hid. clear. by destruct (JoinConditionMetCtx _ _ _).
Qed.

(** C21: a parent waits for its children: on a run paused at a parallel, foreach
    or sub_saga step, an advance (a stray or duplicate one included) changes
    nothing while the join condition over the step's children is not met, and
    resumes the run at the step's next once it is. *)
Theorem Advance_waits_for_children fuel c s id w r d step :
  uuid_parse s = Ok id → live w → awaiting_children id w r d step → step_Next step ≠ "" →
  if JoinConditionMetCtx (step_Inputs step) (run_Variables r) (children_of id (step_ID step) w)
  then moves id (advance_iter c id) w r Continue [(EventStepSucceeded, step_ID step, "engine")]
         (row_UpdateRunState RunStateRunning (step_Next step) (row_ClearPause r))
  else ∃ w', Advance (S fuel) c s w = (Some (Ok tt), w') ∧ V w' = V w ∧ w_out w' = w_out w.
Proof.
  intros Hs Hl Ha Hn. destruct (awaiting_iter c id w r d step Hl Ha) as (w1 & M1 & HV1 & E1).
  destruct (JoinConditionMetCtx _ _ _).
  - destruct Ha as [Hr Hid _ _ _ _ Hd Hstep _]. rewrite <-HV1 in Hd.
    destruct (advance_wake_moves id w1 r d step false (moved_row _ _ _ _ _ _ M1) Hid Hd Hstep Hn)
      as (w2 & E2 & M2).
    exists w2. split; [congruence|]. apply (moved_trans _ _ _ [] _ _ _ _ _ M1 M2).
  - exists w1. rewrite (Advance_parsed _ _ _ _ _ Hs). split; [|split; [done|]].
    + by apply advance_loop_stop.
    + by destruct M1 as ((_ & _ & ?) & _).
Qed.

(** ** The hook after a child's terminal write *)

(** The parent's row once its join is released. *)
Definition released_row (key : string) (l : list Val) (r : SagaRun) : SagaRun :=
  row_clear_awaits (row_merge {[key := VList l]} r).

Lemma wake_parent_spec pid parent key l w :
  v_runs (V w) !! pid = Some parent →
  ∃ w', wake_parent (Some mq_PublishSagaAdvance) pid {[key := VList l]} w = (tt, w') ∧
    v_runs (V w') !! pid = Some (released_row key l parent) ∧
    (∀ j, j ≠ pid → v_runs (V w') !! j = v_runs (V w) !! j) ∧
    (w_out w').*1 = (w_out w).*1 ++ [MAdvance (uuid_string pid)].
Proof.
  intros Hp. unfold wake_parent.
  destruct (moves_UpdateRunVariables pid {[key := VList l]} w parent Hp) as (w1 & E1 & M1).
  pose proof (spec_WakeFromExternal pid w1) as Hw.
  rewrite (found_Some _ (view (w_store w1)) _ _ (moved_row _ _ _ _ _ _ M1)) in Hw.
  destruct (moves_alter pid _ w1 _ _ row_clear_awaits (moved_row _ _ _ _ _ _ M1) Hw) as (w2 & E2 & M2).
  mstep E1. mstep E2.
  pose proof (moved_trans _ _ _ _ _ _ _ _ _ M1 M2) as ((_ & _ & Ho) & _ & Hr & Hne & _).
  eexists. split; [unfold bind, mq_PublishSagaAdvance, send; reflexivity|].
  split_and!; [exact Hr|exact Hne|]. simpl. by rewrite fmap_app, Ho.
Qed.

(** C4: the parent-join hook decides by the join condition: run for a terminated
    child of a parent paused on its spawning step, it does nothing while the
    condition over all children of that step is not met; once it is, it writes one
    entry per child to [_parallel.<step>.branches], clears the parent's await
    markers, leaves every other run alone and publishes exactly one advance of
    the parent. *)
Theorem parent_join_decides run pid sid parent d w :
  run_ParentRunID run = Some pid → run_ParentStepID run = Some sid →
  v_runs (V w) !! pid = Some parent → run_State parent = RunStatePaused →
  run_CurrentStep parent = sid → v_defs (V w) !! run_DefinitionID parent = Some d →
  (∀ s, StepByID d sid = Some s → step_Type s ≠ StepTypeJoin) →
  ∃ w', checkParentJoin (Some mq_PublishSagaAdvance) run w = (tt, w') ∧
    if JoinConditionMetCtx (lookupStepInputs d sid) (run_Variables parent) (children_of pid sid w)
    then (∃ l, length l = length (children_of pid sid w) ∧
            v_runs (V w') !! pid =
              Some (released_row ("_parallel." +:+ sid +:+ ".branches") l parent)) ∧
         (∀ j, j ≠ pid → v_runs (V w') !! j = v_runs (V w) !! j) ∧
         (w_out w').*1 = (w_out w).*1 ++ [MAdvance (uuid_string pid)]
    else V w' = V w ∧ w_out w' = w_out w.
Proof.
  intros Hp Hps Hr Hst Hcs Hd Hty. unfold checkParentJoin. rewrite Hp, Hps.
  assert (∃ w1, checkJoinBarriers (Some mq_PublishSagaAdvance) run w = (tt, w1) ∧
            V w1 = V w ∧ w_out w1 = w_out w) as (w1 & E1 & HV1 & Ho1).
  { unfold checkJoinBarriers. rewrite Hp, Hps. unfold V in *.
    sexec (spec_GetRun pid w). rewrite (found_Some _ (view (w_store w)) _ _ Hr).
    rewrite Hst; simpl. sexec (spec_GetWorkflowDefinition (run_DefinitionID parent) w0).
    rewrite Hv, Hd, Hcs. destruct He as (_ & _ & _ & _ & Ho), He0 as (_ & _ & _ & _ & Ho').
    exists w1. destruct (StepByID d sid) as [s|] eqn:Hs; [rewrite decide_True by (by apply Hty)|];
      (split; [done|]; split; congruence). }
  mstep E1. unfold checkSpawningStep, V in *.
  sexec (spec_GetRun pid w1). rewrite HV1, (found_Some _ (view (w_store w)) _ _ Hr).
  rewrite decide_False by (rewrite Hst, Hcs; naive_solver).
  destruct (children_spec pid sid w0) as (l & Hl & Hperm). sexec Hl.
  sexec (spec_GetWorkflowDefinition (run_DefinitionID parent) w2). rewrite Hv0, Hv, HV1, Hd.
  rewrite Hv, HV1 in Hperm.
  rewrite (met_perm _ _ l (children_of pid sid w)) by exact Hperm.
  destruct He as (_ & _ & _ & _ & HoA), He0 as (_ & _ & _ & _ & HoB), He1 as (_ & _ & _ & _ & HoC).
  destruct (JoinConditionMetCtx _ _ _); [|exists w3; split; [done|]; split; congruence].
  destruct (AggregateJoinResults_spec l w3) as (agg & Hagg & Hlen). sexec Hagg.
  assert (V w4 = V w) as HV4 by (unfold V; congruence).
  destruct (wake_parent_spec pid parent ("_parallel." +:+ sid +:+ ".branches") agg w4)
    as (w5 & E5 & Hr5 & Hne5 & Ho5); [by rewrite HV4|].
  exists w5. split; [exact E5|]. split_and!.
  - exists agg. split; [by rewrite Hlen, Hperm|exact Hr5].
  - intros j Hj. unfold V in *. by rewrite (Hne5 j Hj), HV4.
  - rewrite Ho5. destruct He as (_ & _ & _ & _ & HoD). do 2 f_equal. congruence.
Qed.
End EngineJoinProps.

(** ** Witnesses *)
Definition parent_run : SagaRun := row_at RunStatePaused "p".
Definition child_run (st : RunState) : SagaRun :=
  set_run_ParentStepID (Some "p") (set_run_ParentRunID (Some 7%N)
    (row_UpdateRunState st "" (NewSagaRun 8 0 "wf" 9 None ∅))).
Definition family_w (st : RunState) : World MemStore :=
  demo_world (demo_store [parent_run; child_run st] []).

#[local] Existing Instance demo_env.
#[local] Existing Instance demo_laws.

Lemma family_awaiting st :
  awaiting_children 7 (family_w st) parent_run demo_def (sub_step "p" "e").
Proof. split; try reflexivity. by right; right. Qed.

Lemma Advance_waits_for_children_witness :
  if JoinConditionMetCtx ∅ ∅ (children_of 7 "p" (family_w RunStateRunning))
  then moves 7 (advance_iter (demo_coord None) 7) (family_w RunStateRunning) parent_run Continue
         [(EventStepSucceeded, "p", "engine")]
         (row_UpdateRunState RunStateRunning "e" (row_ClearPause parent_run))
  else ∃ w', Advance 1 (demo_coord None) demo_id (family_w RunStateRunning) = (Some (Ok tt), w') ∧
         V w' = V (family_w RunStateRunning) ∧ w_out w' = [].
Proof.
  apply (Advance_waits_for_children 0 (demo_coord None) demo_id 7 (family_w RunStateRunning)
           parent_run demo_def (sub_step "p" "e")).
  - reflexivity.
  - reflexivity.
  - apply family_awaiting.
  - discriminate.
Defined.

Lemma parent_join_decides_witness :
  let w := family_w RunStateSucceeded in
  ∃ w', checkParentJoin (Some mq_PublishSagaAdvance) (child_run RunStateSucceeded) w = (tt, w') ∧
    if JoinConditionMetCtx (lookupStepInputs demo_def "p") (run_Variables parent_run)
         (children_of 7 "p" w)
    then (∃ l, length l = length (children_of 7 "p" w) ∧
            v_runs (V w') !! 7%N = Some (released_row "_parallel.p.branches" l parent_run)) ∧
         (∀ j, j ≠ 7%N → v_runs (V w') !! j = v_runs (V w) !! j) ∧
         (w_out w').*1 = (w_out w).*1 ++ [MAdvance demo_id]
    else V w' = V w ∧ w_out w' = w_out w.
Proof.
  intros w. apply (parent_join_decides (child_run RunStateSucceeded) 7 "p" parent_run demo_def w).
  - reflexivity.
  - reflexivity.
  - reflexivity.
  - reflexivity.
  - reflexivity.
  - reflexivity.
  - intros s [= <-]. discriminate.
Defined.
