(* ===== verification/EngineRollback.v ===== *)
(** The rollback of a failed run: which steps are compensated, in which order,
    and what is sent for them. *)
From S2P Require Import Prelude Values Domain World Demo StoreApi Rows StoreSpec MemStore MemSpec.
From S2P Require Import VerbsData Join Fanout VerbsEffect Action Registry Retry Engine.
From S2P Require Import EngineLemmas EngineStep EngineRounds EngineProps.

(** The first occurrences in a list, in order. *)
Fixpoint first_ids (seen : gset string) (l : list string) : list string :=
  match l with
  | [] => []
  | x :: l => if decide (x ∈ seen) then first_ids seen l else x :: first_ids ({[x]} ∪ seen) l
  end.

(** The steps a trail reports as succeeded, repetitions included. *)
Definition success_ids (evs : list SagaRunEvent) : list string :=
  ev_StepID <$> filter (λ ev, ev_EventType ev = EventStepSucceeded) evs.

(** The step behind an id, unless it is not to be rolled back. *)
Definition step_of (d : WorkflowDefinition) (excludeID id : string) : option Step :=
  if decide (id = "" ∨ id = excludeID) then None
  else match StepByID d id with
       | Some step => if decide (step_Type step = StepTypeEnd) then None else Some step
       | None => None
       end.

Lemma elem_of_first_ids x seen l : x ∈ first_ids seen l ↔ x ∈ l ∧ x ∉ seen.
Proof.
  revert seen. induction l as [|y l IH]; intros seen; simpl.
  - split; [by intros ?%elem_of_nil|by intros [?%elem_of_nil _]].
  - case_decide as Hy.
    + rewrite IH, elem_of_cons. split; [naive_solver|intros [[->|?] ?]; naive_solver].
    + rewrite !elem_of_cons, IH, elem_of_union, elem_of_singleton.
      destruct (decide (x = y)) as [->|]; naive_solver.
Qed.

Lemma first_ids_NoDup seen l : NoDup (first_ids seen l).
Proof.
  revert seen. induction l as [|y l IH]; intros seen; simpl; [constructor|].
  case_decide; [done|]. apply NoDup_cons. split; [|done].
  rewrite elem_of_first_ids. set_solver.
Qed.

Lemma step_of_id d x id s : step_of d x id = Some s → step_ID s = id.
Proof.
  unfold step_of, StepByID. intros Hs. case_decide; [done|].
  destruct (find_step id (def_Steps d)) eqn:Hf; [|done]. case_decide; [done|].
  simplify_eq. by apply find_step_Some in Hf as [_ ?].
Qed.

Lemma completed_steps_ref d x evs seen seen' :
  seen ⊆ seen' → (∀ id, id ∈ seen' → id ∈ seen ∨ step_of d x id = None) →
  completed_steps d x evs seen = omap (step_of d x) (first_ids seen' (success_ids evs)).
Proof.
  revert seen seen'. induction evs as [|ev evs IH]; intros seen seen' Hsub Hrej; [done|]; simpl.
  unfold success_ids. rewrite filter_cons.
  destruct (decide (ev_EventType ev = EventStepSucceeded)) as [Hty|Hty];
    [rewrite decide_False by tauto|rewrite decide_True by done; by apply IH].
  rewrite fmap_cons; simpl. fold (success_ids evs). set (id := ev_StepID ev) in *.
  assert (step_of d x id = None → id ∉ seen →
    completed_steps d x evs seen = omap (step_of d x) (first_ids ({[id]} ∪ seen') (success_ids evs)))
    as Hskip.
  { intros Hnone _. apply IH; [set_solver|]. intros j [->%elem_of_singleton|Hj]%elem_of_union; auto. }
  destruct (decide (id ∈ seen')) as [Hin|Hin].
  - assert (id ∈ seen ∨ step_of d x id = None) as Hcase by auto.
    destruct (decide (id = "" ∨ id = x ∨ id ∈ seen)); [by apply IH|].
    destruct Hcase as [?|Hnone]; [tauto|]. unfold step_of in Hnone.
    rewrite decide_False in Hnone by tauto. destruct (StepByID d id); [|by apply IH].
    case_decide; [by apply IH|done].
  - simpl. assert (id ∉ seen) as Hns by set_solver.
    unfold step_of at 1. destruct (decide (id = "" ∨ id = x ∨ id ∈ seen)) as [Hc|Hc].
    + rewrite decide_True by tauto. apply Hskip; [|done]. unfold step_of. by rewrite decide_True by tauto.
    + rewrite (decide_False (P := id = "" ∨ id = x)) by tauto. unfold step_of in Hskip.
      rewrite (decide_False (P := id = "" ∨ id = x)) in Hskip by tauto.
      destruct (StepByID d id) as [s|]; [|by apply Hskip].
      case_decide; [by apply Hskip|]. f_equal. apply IH; [set_solver|].
      intros j [->%elem_of_singleton|Hj]%elem_of_union; [set_solver|].
      destruct (Hrej j Hj); [set_solver|by right].
Qed.

(** The steps to roll back are exactly those the audit trail reports as
    succeeded, each once, in the order of their first success, without the failed
    step itself and without [end] steps; steps the definition no longer has are
    skipped. *)
Theorem completed_steps_exact d x evs :
  completed_steps d x evs ∅ = omap (step_of d x) (first_ids ∅ (success_ids evs)) ∧
  NoDup (step_ID <$> completed_steps d x evs ∅) ∧
  ∀ s, s ∈ completed_steps d x evs ∅ ↔
    (∃ ev, ev ∈ evs ∧ ev_EventType ev = EventStepSucceeded ∧ step_of d x (ev_StepID ev) = Some s).
Proof.
  assert (completed_steps d x evs ∅ = omap (step_of d x) (first_ids ∅ (success_ids evs))) as Heq
    by (apply completed_steps_ref; set_solver).
  rewrite Heq. split_and!; [done| |].
  - clear Heq. pose proof (first_ids_NoDup ∅ (success_ids evs)) as Hnd.
    induction (first_ids ∅ (success_ids evs)) as [|id l IH]; simpl; [constructor|].
    apply NoDup_cons in Hnd as [Hn Hnd].
    destruct (step_of d x id) as [s|] eqn:Hs; [|by apply IH].
    rewrite fmap_cons. apply NoDup_cons. split; [|by apply IH].
    intros (t & Ht & Hin)%list_elem_of_fmap. apply list_elem_of_omap in Hin as (id' & Hid' & Ht').
    apply step_of_id in Hs, Ht'. apply Hn. by rewrite <-Hs, Ht, Ht'.
  - intros s. rewrite list_elem_of_omap. split.
    + intros (id & [Hin _]%elem_of_first_ids & Hs). unfold success_ids in Hin.
      apply list_elem_of_fmap in Hin as (ev & -> & [Hty Hev]%list_elem_of_filter). eauto.
    + intros (ev & Hev & Hty & Hs). exists (ev_StepID ev). split; [|done].
      apply elem_of_first_ids. split; [|set_solver]. apply list_elem_of_fmap. exists ev.
      split; [done|]. by apply list_elem_of_filter.
Qed.

(** ** What the rollback sends, on the in-memory store *)
Section rollback.
Context `{EnvLaws}.
Implicit Types w : World MemStore.

(** The dispatch of one step's compensation, when it has a well-formed one. *)
Definition compensation_msg (run : SagaRun) (step : Step) : option Msg :=
  match step_Compensation step with
  | None => None
  | Some comp =>
      if decide (comp_Action comp = "" ∨ strings_Contains (comp_Action comp) "." = false) then None
      else match json_struct (CompensationPayload (uuid_string (run_ID run)) (step_ID step)
                   (comp_Action comp) (comp_Inputs comp) (run_DryRun run)) with
           | Ok body => Some (MActionDispatch (comp_Action comp) body)
           | Err _ => None
           end
  end.

Definition grpc_verb (b : bool) h q : ActionVerb MemStore :=
  mkActionVerb b (Some mq_PublishActionDispatch) h q.

Lemma mem_resolve_default b h q action w :
  actions (w_store w) = ∅ → resolveDispatch (grpc_verb b h q) action w = (("", ""), w).
Proof.
  intros Hact. unfold resolveDispatch. destruct (splitAction action) as [[s n]|]; [|done].
  destruct b; [|done]; simpl. unfold mem_ListActions, bind, get_store, ret; simpl.
  rewrite Hact. assert (range_map (∅ : gmap string (gmap Z ActionRegistration)) = []) as ->; [|done].
  apply Permutation_nil_r. by rewrite range_map_perm, map_to_list_empty.
Qed.

Lemma dispatch_grpc b h q action body w :
  actions (w_store w) = ∅ →
  ∃ r, dispatch (grpc_verb b h q) action body w =
       (r, (send (MActionDispatch action body) w).2).
Proof.
  intros Hact. unfold dispatch.
  rewrite (bind_step _ _ _ _ _ (mem_resolve_default b h q _ w Hact)); simpl.
  unfold bind, mq_PublishActionDispatch, send, ret; simpl.
  destruct (ext_result _ _); simpl; by eexists.
Qed.

Lemma compensate_step_sends b h q run step w :
  actions (w_store w) = ∅ →
  let w' := (compensate_step (grpc_verb b h q) run step w).2 in
  w_store w' = w_store w ∧
  (w_out w').*1 = (w_out w).*1 ++ option_list (compensation_msg run step).
Proof.
  intros Hact. unfold compensate_step, compensation_msg.
  destruct (step_Compensation step) as [comp|]; simpl; [|by rewrite app_nil_r].
  unfold DispatchCompensation.
  destruct (decide (comp_Action comp = "")) as [He|He];
    [rewrite decide_True by tauto; simpl; by rewrite app_nil_r|].
  destruct (strings_Contains (comp_Action comp) ".") eqn:Hdot; simpl.
  - rewrite decide_False by naive_solver. destruct (json_struct _) as [body|];
      [|simpl; by rewrite app_nil_r].
    destruct (dispatch_grpc b h q (comp_Action comp) body w Hact) as [r Hd].
    rewrite (bind_step _ _ _ _ _ Hd); simpl. by rewrite fmap_app.
  - rewrite decide_True by tauto. simpl. by rewrite app_nil_r.
Qed.

Lemma for_each_sends b h q run steps w :
  actions (w_store w) = ∅ →
  (w_out (for_each (compensate_step (grpc_verb b h q) run) steps w).2).*1 =
  (w_out w).*1 ++ omap (compensation_msg run) steps.
Proof.
  revert w. induction steps as [|s steps IH]; intros w Hact; simpl; [by rewrite app_nil_r|].
  unfold bind. destruct (compensate_step_sends b h q run s w Hact) as [Hs Ho].
  destruct (compensate_step _ run s w) as [? w1]; simpl in *.
  rewrite IH by congruence. rewrite Ho, <-app_assoc. by destruct (compensation_msg run s).
Qed.

(** C2: compensation dispatches go out newest first: with no registered dispatch
    descriptors, rolling back a failed run publishes the compensation of each
    completed step that has a well-formed one, in the reverse order of completion,
    each once, and nothing else; a dispatch that fails does not stop the others. *)
Theorem compensation_newest_first c run d failedStep w b h q :
  runs (w_store w) !! run_ID run = Some run → actions (w_store w) = ∅ →
  compensation_verb (c_verbs c) = grpc_verb b h q →
  (w_out (compensate c run d failedStep w).2).*1 =
  (w_out w).*1 ++
    omap (compensation_msg run)
      (rev (completed_steps d (step_ID failedStep)
              (default [] (events (w_store w) !! run_ID run)) ∅)).
Proof.
  intros Hr Hact Hav. unfold compensate, completedCompensableSteps. rewrite bind_assoc.
  rewrite (bind_step _ _ _ (Ok (default [] (events (w_store w) !! run_ID run))) w) by done.
  rewrite bind_ret. case_decide as Hc; [rewrite Hc; simpl; by rewrite app_nil_r|].
  rewrite Hav. cbn [UpdateRunState mem_Store]. unfold mem_UpdateRunState.
  rewrite (bind_step _ _ _ _ _ (upd_run_found _ _ _ _ Hr)).
  erewrite bind_step by apply surjective_pairing. rewrite for_each_sends by done. done.
Qed.
End rollback.

(** ** Witness: steps a and b completed, f failed *)
#[local] Existing Instance demo_env.
#[local] Existing Instance demo_laws.

Definition success_of (n : N) (sid : string) : SagaRunEvent :=
  mkEvent n 7 sid 0 EventStepSucceeded "engine" ∅ 0.
Definition failing_run : SagaRun := row_at RunStateRunning "f".
Definition failing_w : World MemStore :=
  demo_world (demo_store [failing_run]
    [success_of 1 "a"; success_of 2 "b"; success_of 3 "a"; success_of 4 "f"]).

Lemma compensation_newest_first_witness :
  (w_out (compensate (demo_coord None) failing_run demo_def (fail_step "f") failing_w).2).*1 =
  [MActionDispatch "svc.undo_b" "run_id;step_id;action;inputs;compensation;";
   MActionDispatch "svc.undo_a" "run_id;step_id;action;inputs;compensation;"].
Proof.
  etransitivity.
  - apply (compensation_newest_first (demo_coord None) failing_run demo_def (fail_step "f") failing_w
             true None None).
    + reflexivity.
    + reflexivity.
    + reflexivity.
  - by vm_compute.
Defined.
