(* ===== verification/RetryProps.v ===== *)
(** Properties of the retry loop and of the backoff. *)
From S2P Require Import Prelude Values Domain World Demo StoreApi Rows StoreSpec MemStore MemSpec.
From S2P Require Import Retry EngineLemmas EngineStep.

(** The clock time the first [n] waits of a policy without jitter take. *)
Fixpoint total_wait (policy : RetryPolicy) (attempt n : nat) : Z :=
  match n with
  | O => 0
  | S n => Z.max 0 (backoff_duration (backoff_base policy (Z.of_nat attempt))) +
           total_wait policy (S attempt) n
  end.

(** The retry events of attempts [i], [i+1], ... *)
Definition retry_marks (step : Step) (i n : nat) : list (EventType * string * Z * string) :=
  (λ k, (EventStepFailed, step_ID step, Z.of_nat k, "engine-retry")) <$> seq i n.
Definition retry_mark (e : SagaRunEvent) : EventType * string * Z * string :=
  (ev_EventType e, ev_StepID e, ev_Attempt e, ev_Actor e).

Section RetryProps.
Context `{StoreSpec St}.
Implicit Types w : World St.

(** Successes and control signals are never retried: when the first attempt
    succeeds, pauses or cancels, [executeStep] is that one attempt, whatever the
    retry policy, with no retry event and no wait. *)
Theorem executeStep_no_retry run step handler w r w' :
  handler run step w = (r, w') →
  match r with Ok _ => True | Err e => isControlSignal e = true end →
  executeStep run step handler w = (r, w').
Proof.
  intros Hh Hr. unfold executeStep.
  assert (Z.to_nat (maxAttempts step) = S (pred (Z.to_nat (maxAttempts step)))) as ->.
  { assert (1 ≤ maxAttempts step)%Z; [|lia]. unfold maxAttempts.
    destruct (step_Retry step); [case_decide; lia|lia]. }
  simpl. mstep Hh. destruct r as [v|e]; [done|]. by rewrite Hr.
Qed.

(** A handler that fails with [e] each time, without touching what the engine
    reads. *)
Definition keeps_failing (handler : Handler St) run step (e : err) : Prop :=
  ∀ w, ∃ w', handler run step w = (Err e, w') ∧ V w' = V w ∧ w_clk w' = w_clk w.

Lemma attempts_exhaust run step handler policy e i n w :
  keeps_failing handler run step e → isControlSignal e = false → Jitter policy = false →
  (∀ k, ctx_err k = None) →
  ∃ w', attempts run step handler policy i (S n) w = (Err e, w') ∧
    v_runs (V w') = v_runs (V w) ∧
    w_clk w' = (w_clk w + total_wait policy i n)%Z ∧
    ∃ es, events_of (V w') (run_ID run) = events_of (V w) (run_ID run) ++ es ∧
      retry_mark <$> es = retry_marks step (S i) n.
Proof.
  intros Hh Hc Hj Hctx. revert i w. induction n as [|n IH]; intros i w.
  - destruct (Hh w) as (w1 & E1 & HV1 & Hclk1). exists w1. split.
    { cbn [attempts]. mstep E1. by rewrite Hc. }
    rewrite HV1, Hclk1. split; [done|]. split; [simpl; lia|]. exists []. by rewrite app_nil_r.
  - destruct (Hh w) as (w1 & E1 & HV1 & Hclk1).
    set (ev := mkEvent (uuid_New (w_ids w1)) (run_ID run) (step_ID step) (Z.of_nat (S i))
                 EventStepFailed "engine-retry" ∅ (w_now w1)).
    destruct (spec_AppendEvent ev (uuidNew w1).2) as (w2 & E2 & (_ & Hclk2 & Hpolls & _) & HV2).
    set (w3 := (Clock_After (backoff_duration (backoff_base policy (Z.of_nat i))) (ctx_Err w2).2).2).
    destruct (IH (S i) w3) as (w4 & E4 & Hr4 & Hclk4 & es & Hes & Hmarks).
    exists w4. split.
    { rewrite <-E4. cbn [attempts]. mstep E1. rewrite Hc, decide_False by done.
      change (bind (AppendEvent ev) (λ _, let* wait := Backoff policy (Z.of_nat i) (Jitter policy) in
        let* done_ := ctx_Err in match done_ with
        | Some e => ret (Err e)
        | None => do* Clock_After wait in attempts run step handler policy (S i) (S n)
        end) (uuidNew w1).2 = attempts run step handler policy (S i) (S n) w3).
      mstep E2. rewrite Hj. unfold Backoff. rewrite bind_ret. unfold bind at 1, ctx_Err at 1.
      rewrite Hctx. done. }
    assert (V w3 = add_event ev (V w)) as HV3 by (unfold V in *; simpl in *; congruence).
    rewrite Hr4, Hclk4, HV3. split; [done|]. split; [simpl in *; lia|].
    exists (ev :: es). rewrite Hes, HV3. split.
    + rewrite (add_event_events ev), <-app_assoc. done.
    + rewrite fmap_cons, Hmarks. done.
Qed.

(** C40: retries are bounded: a step whose verb keeps failing is attempted
    [MaxAttempts] times and no more (once without a policy): the last error is
    returned, the trail gains one retry event per failed attempt but the last,
    numbered from 1, and the clock has moved by exactly the backoffs between the
    attempts. *)
Theorem executeStep_exhausts run step handler policy e w :
  step_Retry step = Some policy → Jitter policy = false →
  keeps_failing handler run step e → isControlSignal e = false → (∀ k, ctx_err k = None) →
  let retries := pred (Z.to_nat (maxAttempts step)) in
  ∃ w', executeStep run step handler w = (Err e, w') ∧
    v_runs (V w') = v_runs (V w) ∧
    w_clk w' = (w_clk w + total_wait policy 0 retries)%Z ∧
    ∃ es, events_of (V w') (run_ID run) = events_of (V w) (run_ID run) ++ es ∧
      retry_mark <$> es = retry_marks step 1 retries.
Proof.
  intros Hp Hj Hh Hc Hctx retries. unfold executeStep. rewrite Hp; simpl.
  assert (Z.to_nat (maxAttempts step) = S retries) as ->.
  { assert (1 ≤ maxAttempts step)%Z; [|unfold retries; lia]. unfold maxAttempts.
    destruct (step_Retry step); [case_decide; lia|lia]. }
  by apply attempts_exhaust.
Qed.
End RetryProps.

(** The default backoff doubles from one second and is capped at one minute:
    in exact float64 arithmetic, the wait before retry [n+1] is
    min(1000 * 2^n, 60000) milliseconds, for the first thousand retries (where the
    powers overflow the cap long before). *)
Theorem default_backoff_schedule n :
  n < 1000 →
  backoff_duration (backoff_base DefaultRetryPolicy (Z.of_nat n)) =
  (Z.min (1000 * 2 ^ Z.of_nat n) 60000 * 1000000)%Z.
Proof.
  intros Hn.
  assert (Forall (λ n, backoff_duration (backoff_base DefaultRetryPolicy (Z.of_nat n)) =
            (Z.min (1000 * 2 ^ Z.of_nat n) 60000 * 1000000)%Z) (seq 0 1000)) as Hall.
  { apply (bool_decide_unpack _). by vm_compute. }
  rewrite Forall_forall in Hall. apply Hall. apply elem_of_seq. lia.
Qed.

(** ** Witnesses *)
#[local] Existing Instance demo_env.
#[local] Existing Instance demo_laws.

Definition retry_policy : RetryPolicy := mkRetry 3 1000 60000 f_two false.
Definition flaky_step : Step := mkStep "x" "flaky" "" "" ∅ None (Some retry_policy) ∅.
Definition failing : Handler MemStore := λ _ _, ret (Err (EMsg "down")).
Definition retry_run : SagaRun := NewSagaRun 7 0 "wf" 9 None ∅.
Definition retry_w : World MemStore := demo_world (mkMem ∅ ∅ {[7%N := retry_run]} ∅ ∅ ∅ ∅ ∅ ∅ ∅ []).

Lemma executeStep_no_retry_witness :
  executeStep retry_run flaky_step (λ _ _, ret (Err ErrSagaPaused)) retry_w =
  (Err ErrSagaPaused, retry_w).
Proof.
  apply (executeStep_no_retry retry_run flaky_step (λ _ _, ret (Err ErrSagaPaused)) retry_w); done.
Defined.

Lemma executeStep_exhausts_witness :
  ∃ w', executeStep retry_run flaky_step failing retry_w = (Err (EMsg "down"), w') ∧
    v_runs (V w') = v_runs (V retry_w) ∧ w_clk w' = (100 + total_wait retry_policy 0 2)%Z ∧
    ∃ es, events_of (V w') 7 = events_of (V retry_w) 7 ++ es ∧
      retry_mark <$> es = retry_marks flaky_step 1 2.
Proof.
  apply (executeStep_exhausts retry_run flaky_step failing retry_policy (EMsg "down") retry_w).
  - reflexivity.
  - reflexivity.
  - intros w. exists w. done.
  - reflexivity.
  - reflexivity.
Defined.

Lemma default_backoff_schedule_witness :
  3 < 1000 ∧ backoff_duration (backoff_base DefaultRetryPolicy 3) = 8000000000%Z.
Proof. split; [lia|]. apply (default_backoff_schedule 3). lia. Defined.
