(* ===== verification/EngineTermination.v ===== *)
(** The advance loop ends: a bound on its rounds for definitions whose edges all
    lead forward.

    The loop has no bound of its own in the code.  Each round that goes on moves
    the run along an edge of its definition, to the catch step of a try_catch
    frame, or pushes such a frame; the measure below falls in each case. *)
From S2P Require Import Prelude Values Domain World Demo StoreApi Rows StoreSpec MemStore MemSpec.
From S2P Require Import VerbsData Join Fanout VerbsEffect Action Registry Retry Engine.
From S2P Require Import EngineLemmas EngineStep EngineRounds EngineProps.

(** Every edge of the definition leads to a step of smaller rank. *)
Definition forward (rank : string → nat) (d : WorkflowDefinition) : Prop :=
  ∀ s, s ∈ def_Steps d → step_ID s ≠ "" ∧
    (step_Next s ≠ "" → rank (step_Next s) < rank (step_ID s)) ∧
    ∀ k br, step_Branches s !! k = Some br → br_Next br ≠ "" →
            rank (br_Next br) < rank (step_ID s).

(** Three to the rank of the current step and of every pending catch step. *)
Definition frames_weight (rank : string → nat) (fs : list TryCatchFrame) : nat :=
  sum_list ((λ f, 3 ^ rank (frame_CatchStep f)) <$> fs).
Definition weight (rank : string → nat) (d : WorkflowDefinition) (r : SagaRun) : nat :=
  3 ^ rank (current_step_id d r) + frames_weight rank (run_TryCatchStack r).

Lemma frames_weight_app rank fs gs :
  frames_weight rank (fs ++ gs) = frames_weight rank fs + frames_weight rank gs.
Proof.
  induction fs as [|f fs IH]; [done|]; cbn [app].
  assert (∀ l, frames_weight rank (f :: l) = 3 ^ rank (frame_CatchStep f) + frames_weight rank l) as Hc
    by done. rewrite !Hc, IH. lia.
Qed.

Lemma pow3_mono m n : m ≤ n → 3 ^ m ≤ 3 ^ n.
Proof. intros. by apply Nat.pow_le_mono_r. Qed.

Lemma pow3_pos n : 0 < 3 ^ n.
Proof. apply Nat.neq_0_lt_0, Nat.pow_nonzero. lia. Qed.

Lemma pow3_two m n k : m < k → n < k → 3 ^ m + 3 ^ n < 3 ^ k.
Proof.
  intros Hm Hn. destruct k as [|k]; [lia|].
  pose proof (pow3_mono m k ltac:(lia)). pose proof (pow3_mono n k ltac:(lia)).
  pose proof (pow3_pos k). rewrite Nat.pow_succ_r'. lia.
Qed.

Section EngineTermination.
Context `{StoreSpec St}.
Implicit Types w : World St.
Context (rank : string → nat) (id : uuid) (d : WorkflowDefinition).
Context (Hfwd : forward rank d).

(** The run is stored under its id, with this definition and named catch steps. *)
Record stored w (r : SagaRun) : Prop := {
  sr_row : v_runs (V w) !! id = Some r;
  sr_id : run_ID r = id;
  sr_def : v_defs (V w) !! run_DefinitionID r = Some d;
  sr_frames : Forall (λ f, frame_CatchStep f ≠ "") (run_TryCatchStack r)
}.

(** What a verb may do to the run while it executes [step]: keep the frames, or
    push one (and succeed) whose catch step lies ahead. *)
Definition frame_step (step : Step) (o : res Vars) (fs fs' : list TryCatchFrame) : Prop :=
  fs' = fs ∨
  ∃ f, is_Ok o = true ∧ fs' = fs ++ [f] ∧ frame_CatchStep f ≠ "" ∧
       rank (frame_CatchStep f) < rank (step_ID step).

Definition tame (ty : string) (h : Handler St) : Prop :=
  ∀ run step w r, run_ID run = id → step ∈ def_Steps d → step_Type step = ty → stored w r →
    ∃ r', stored (h run step w).2 r' ∧
      frame_step step (h run step w).1 (run_TryCatchStack r) (run_TryCatchStack r').

(** The coordinator's verbs are tame and its license resolver only reads. *)
Record tame_coord (c : Coordinator St) : Prop := {
  tc_verbs : ∀ ty entry, c_verbs c !! ty = Some entry → tame ty (entry_Handler entry);
  tc_license : ∀ t f o w, V (c_licensing c t f o w).2 = V w
}.

Lemma stored_V w w' r : V w' = V w → stored w r → stored w' r.
Proof. intros Hv []. split; rewrite ?Hv; done. Qed.

Lemma stored_moved w r ts w' r' :
  moved id w r ts w' r' → stored w r → run_ID r' = run_ID r →
  run_DefinitionID r' = run_DefinitionID r →
  Forall (λ f, frame_CatchStep f ≠ "") (run_TryCatchStack r') → stored w' r'.
Proof.
  intros (_ & _ & Hr' & _ & Hd & _) [Hr Hid Hdef Hfr] Hid' Hd' Hfr'.
  split; [done|congruence|by rewrite Hd, Hd'|done].
Qed.

(** ** Rounds that go on *)
Definition goes_on (P : World St → Prop) (c : M (World St) iter) w : Prop :=
  (c w).1 = Continue → P (c w).2.

Definition halts (c : M (World St) iter) : Prop := ∀ w, (c w).1 ≠ Continue.

Lemma halts_ret r : halts (ret (Stop r)).
Proof. done. Qed.
Lemma halts_bind {A} (c : M (World St) A) f : (∀ a, halts (f a)) → halts (bind c f).
Proof. intros Hf w. unfold bind. destruct (c w) as [a w1]. apply Hf. Qed.

Lemma halts_goes_on P c w : halts c → goes_on P c w.
Proof. intros Hh Hc. by destruct (Hh w). Qed.
Lemma goes_on_step {A} P (c : M (World St) A) f w a w1 :
  c w = (a, w1) → goes_on P (f a) w1 → goes_on P (bind c f) w.
Proof. intros E. unfold goes_on. by rewrite (bind_step _ _ _ _ _ E). Qed.
Lemma goes_on_moves P c w r ts r' :
  moves id c w r Continue ts r' → (∀ w', moved id w r ts w' r' → P w') → goes_on P c w.
Proof. intros (w' & E & Hm) HP _. rewrite E. by apply HP. Qed.

(** The run made progress: it is stored with a smaller weight. *)
Definition lighter (n : nat) w : Prop := ∃ r, stored w r ∧ weight rank d r < n.

(** *** Waking *)
Lemma step_forward s next :
  s ∈ def_Steps d → next ≠ "" →
  next = step_Next s ∨ (∃ k br, step_Branches s !! k = Some br ∧ next = br_Next br) →
  rank next < rank (step_ID s).
Proof. intros (_ & Hn & Hb)%Hfwd Hne [->|(k & br & Hk & ->)]; [by apply Hn|by eapply Hb]. Qed.

Lemma wake_target_edge step t :
  wake_target step t = step_Next step ∨
  (∃ k br, step_Branches step !! k = Some br ∧ wake_target step t = br_Next br).
Proof.
  unfold wake_target. destruct t; [|by left].
  destruct (step_Branches step !! "timeout") as [br|] eqn:Hb; [|by left].
  case_decide; [by left|right; eauto].
Qed.

(** Standing on [next] with no more frames than before is lighter. *)
Lemma weight_next r r' s next :
  StepByID d (current_step_id d r) = Some s → rank next < rank (step_ID s) → next ≠ "" →
  run_CurrentStep r' = next → run_TryCatchStack r' = run_TryCatchStack r →
  weight rank d r' < weight rank d r.
Proof.
  intros Hs Hlt Hne Hc Hf. unfold weight. rewrite Hf.
  assert (current_step_id d r' = next) as ->.
  { unfold current_step_id. by rewrite Hc, decide_False. }
  apply find_step_Some in Hs as [_ <-].
  pose proof (pow3_two _ _ _ Hlt Hlt). lia.
Qed.

Lemma wake_stuck w r t :
  stored w r →
  match StepByID d (run_CurrentStep r) with Some s => wake_target s t = "" | None => True end →
  (advance_wake id r t w).1 ≠ Continue.
Proof.
  intros [Hr Hid Hd _] Hbad. unfold advance_wake. rewrite Hid.
  destruct (moves_ClearPause id w r Hr) as (w1 & E1 & M1). mstep E1.
  destruct (moves_GetRun id w1 _ (moved_row _ _ _ _ _ _ M1)) as (w2 & E2 & M2). mstep E2.
  pose proof (moved_trans _ _ _ _ _ _ _ _ _ M1 M2) as M.
  destruct (moves_GetDef id (run_DefinitionID r) d w2 _ (moved_row _ _ _ _ _ _ M)) as (w3 & E3 & M3);
    [by rewrite (moved_defs _ _ _ _ _ _ M)|].
  change (run_DefinitionID (row_ClearPause r)) with (run_DefinitionID r). mstep E3.
  change (run_CurrentStep (row_ClearPause r)) with (run_CurrentStep r).
  destruct (StepByID d (run_CurrentStep r)) as [step|]; [|done].
  change (run_ID (row_ClearPause r)) with (run_ID r). rewrite Hid.
  destruct (moves_event id (step_ID step) EventStepSucceeded "engine" w3 _ (moved_row _ _ _ _ _ _ M3))
    as (w4 & E4 & _). mstep E4. fold (wake_target step t). by rewrite decide_True.
Qed.

Lemma wake_lighter w r t :
  stored w r → goes_on (lighter (weight rank d r)) (advance_wake id r t) w.
Proof.
  intros Hst. pose proof Hst as [Hr Hid Hd Hfr]. pose proof (wake_stuck w r t Hst) as Hstuck.
  destruct (StepByID d (run_CurrentStep r)) as [step|] eqn:Hs; [|intros E; by destruct Hstuck].
  destruct (decide (wake_target step t = "")) as [Hn|Hn]; [intros E; by destruct Hstuck|].
  eapply goes_on_moves; [by apply (advance_wake_moves id w r d step)|].
  intros w' M. eexists. split; [by eapply stored_moved|].
  pose proof Hs as Hs'. apply find_step_Some in Hs' as [Hin Hsid].
  assert (current_step_id d r = run_CurrentStep r) as Hc.
  { unfold current_step_id. rewrite decide_False; [done|]. rewrite <-Hsid. by apply Hfwd. }
  eapply (weight_next _ _ step); [by rewrite Hc| |exact Hn|done|done].
  apply step_forward; [done|done|apply wake_target_edge].
Qed.

(** *** Reading the children *)
Lemma childrenStillRunning_reads r w :
  ∃ b w1, childrenStillRunning r w = (b, w1) ∧ V w1 = V w.
Proof.
  unfold childrenStillRunning, V. sexec (spec_GetWorkflowDefinition (run_DefinitionID r) w).
  destruct (v_defs (view (w_store w)) !! run_DefinitionID r) as [df|]; [|by eexists _, w0].
  destruct (StepByID df (run_CurrentStep r)) as [step|]; [|by eexists _, w0].
  case_decide; [|by eexists _, w0].
  destruct (children_spec (run_ID r) (step_ID step) w0) as (l & Hl & _). sexec Hl.
  eexists _, w1. split; [done|congruence].
Qed.

Lemma paused_lighter w r :
  stored w r → goes_on (lighter (weight rank d r)) (advance_paused id r) w.
Proof.
  intros Hst. unfold advance_paused. eapply goes_on_step; [done|].
  destruct (_ || _); [|by apply halts_goes_on].
  destruct (wakeup_due _ r); [by apply wake_lighter|].
  destruct (childrenStillRunning_reads r w) as (b & w1 & E & HV). apply (goes_on_step _ _ _ _ _ _ E).
  destruct b as [[]|]; [by apply halts_goes_on| |by apply halts_goes_on].
  apply wake_lighter. by eapply stored_V.
Qed.

(** *** Executing *)
Lemma attempts_retry run step h policy i n w e w1 :
  h run step w = (Err e, w1) → isControlSignal e = false → n ≠ 0 →
  ∃ w2, (∀ r, stored w1 r → stored w2 r) ∧
    ((∃ e', attempts run step h policy i (S n) w = (Err e', w2)) ∨
     attempts run step h policy i (S n) w = attempts run step h policy (S i) n w2).
Proof.
  intros E Hc Hn. cbn [attempts]. mstep E. rewrite Hc, decide_False by done.
  set (ev := mkEvent (uuid_New (w_ids w1)) (run_ID run) (step_ID step) (Z.of_nat (S i))
               EventStepFailed "engine-retry" ∅ (w_now w1)).
  change (∃ w2, (∀ r, stored w1 r → stored w2 r) ∧
    ((∃ e', bind (AppendEvent ev) (λ _,
        let* wait := Backoff policy (Z.of_nat i) (Jitter policy) in
        let* done_ := ctx_Err in match done_ with
        | Some e => ret (Err e)
        | None => do* Clock_After wait in attempts run step h policy (S i) n
        end) (uuidNew w1).2 = (Err e', w2)) ∨
     bind (AppendEvent ev) (λ _,
        let* wait := Backoff policy (Z.of_nat i) (Jitter policy) in
        let* done_ := ctx_Err in match done_ with
        | Some e => ret (Err e)
        | None => do* Clock_After wait in attempts run step h policy (S i) n
        end) (uuidNew w1).2 = attempts run step h policy (S i) n w2)).
  destruct (spec_AppendEvent ev (uuidNew w1).2) as (w3 & E3 & _ & Hv3). mstep E3.
  destruct (Backoff policy (Z.of_nat i) (Jitter policy) w3) as [wait w4] eqn:E4. mstep E4.
  assert (w_store w4 = w_store w3) as Hs4.
  { unfold Backoff, bind, randFloat64, ret in E4. destruct (Jitter policy); by simplify_eq. }
  assert (∀ w2 r, w_store w2 = w_store w4 → stored w1 r → stored w2 r) as Hst.
  { intros w2 r Hs [Hr1 Hid1 Hd1 Hf']. split; unfold V; rewrite ?Hs, ?Hs4, ?Hv3;
      [exact Hr1|exact Hid1|exact Hd1|exact Hf']. }
  unfold bind, ctx_Err. destruct (ctx_err (w_polls w4)) as [ec|].
  - eexists. split; [|left; by eexists]. intros r. by apply Hst.
  - eexists. split; [|right; reflexivity]. intros r. by apply Hst.
Qed.

Lemma attempts_tame ty h policy i n : tame ty h → tame ty (λ run step, attempts run step h policy i n).
Proof.
  intros Hh. revert i. induction n as [|n IH]; intros i run step w r Hid Hin Hty Hst.
  - exists r. split; [done|by left].
  - destruct (Hh run step w r Hid Hin Hty Hst) as (r1 & Hst1 & Hf1).
    destruct (h run step w) as [o w1] eqn:E; cbn [fst snd] in Hst1, Hf1.
    destruct o as [res|e]; [cbn [attempts]; rewrite (bind_step _ _ _ _ _ E); by exists r1|].
    destruct (isControlSignal e) eqn:Hc;
      [cbn [attempts]; rewrite (bind_step _ _ _ _ _ E), Hc; by exists r1|].
    destruct (decide (n = 0)) as [Hn|Hn];
      [cbn [attempts]; rewrite (bind_step _ _ _ _ _ E), Hc, decide_True by done; by exists r1|].
    assert (run_TryCatchStack r1 = run_TryCatchStack r) as Hfr
      by (destruct Hf1 as [Hk|(f & Hk & _)]; [exact Hk|discriminate Hk]).
    destruct (attempts_retry run step h policy i n w e w1 E Hc Hn) as (w2 & Hst2 & [[e' E2]|E2]).
    + rewrite E2. exists r1. split; [by apply Hst2|by left].
    + rewrite E2. destruct (IH (S i) run step w2 r1 Hid Hin Hty (Hst2 _ Hst1)) as (r2 & Hr2 & Hf2).
      exists r2. split; [exact Hr2|]. rewrite Hfr in Hf2. exact Hf2.
Qed.

Lemma executeStep_tame ty h : tame ty h → tame ty (λ run step, executeStep run step h).
Proof. intros Hh run step. by apply attempts_tame. Qed.

(** *** Outcomes *)
Lemma next_step_edge step result next :
  next_step step result = Ok next →
  next ≠ "" ∧ (next = step_Next step ∨ ∃ k br, step_Branches step !! k = Some br ∧ next = br_Next br).
Proof.
  unfold next_step. intros Hn.
  destruct (branch_key result) as [k|]; [destruct (step_Branches step !! k) as [br|] eqn:Hb|].
  - simpl in Hn. case_decide; simplify_eq. split; [done|right; eauto].
  - case_decide; [done|]. case_decide; simplify_eq. split; [done|by left].
  - case_decide; simplify_eq. split; [done|by left].
Qed.

(** The row [r2] a verb left, of a run that stood on [step] as [r]. *)
Record after_verb w (r r2 : SagaRun) (step : Step) (o : res Vars) : Prop := {
  av_step : StepByID d (current_step_id d r) = Some step;
  av_stored : stored w r2;
  av_frames : frame_step step o (run_TryCatchStack r) (run_TryCatchStack r2)
}.

Lemma av_in w r r2 step o : after_verb w r r2 step o → step ∈ def_Steps d ∧ step_ID step = current_step_id d r.
Proof. intros [Hs _ _]. by apply find_step_Some in Hs. Qed.

(** Going on at [next] after the verb. *)
Lemma weight_after w r r2 r3 step o next :
  after_verb w r r2 step o → next ≠ "" → rank next < rank (step_ID step) →
  run_CurrentStep r3 = next → run_TryCatchStack r3 = run_TryCatchStack r2 →
  weight rank d r3 < weight rank d r.
Proof.
  intros Ha Hne Hlt Hc Hf. destruct (av_in _ _ _ _ _ Ha) as [Hin Hsid].
  unfold weight. rewrite Hf, <-Hsid.
  assert (current_step_id d r3 = next) as ->.
  { unfold current_step_id. by rewrite Hc, decide_False. }
  destruct Ha as [_ _ [->|(f & _ & -> & _ & Hk)]].
  - pose proof (pow3_two _ _ _ Hlt Hlt). lia.
  - rewrite frames_weight_app. unfold frames_weight at 2. cbn [fmap list_fmap sum_list].
    pose proof (pow3_two _ _ _ Hlt Hk). simpl. lia.
Qed.

Lemma succeeded_lighter c w r r2 run step result :
  run_ID run = id → after_verb w r r2 step (Ok result) →
  goes_on (lighter (weight rank d r)) (advance_outcome c run d step (Ok result)) w.
Proof.
  intros Hid Ha. pose proof (av_stored _ _ _ _ _ Ha) as Hst2. pose proof Hst2 as [Hr2 Hid2 _ Hfr2].
  destruct (av_in _ _ _ _ _ Ha) as [Hin _].
  destruct (next_step step result) as [next|e] eqn:Hn.
  - eapply goes_on_moves; [by eapply outcome_succeeded|]. intros w' M.
    destruct (next_step_edge _ _ _ Hn) as [Hne Hedge].
    assert (∀ r, run_ID (merged result r) = run_ID r ∧
      run_DefinitionID (merged result r) = run_DefinitionID r ∧
      run_TryCatchStack (merged result r) = run_TryCatchStack r) as Hm.
    { intros r'. unfold merged. by case_decide. }
    destruct (Hm r2) as (Hm1 & Hm2 & Hm3).
    eexists. split; [eapply stored_moved; [exact M|done|done|done|]|].
    + change (Forall (λ f, frame_CatchStep f ≠ "") (run_TryCatchStack (merged result r2))). by rewrite Hm3.
    + eapply weight_after; [exact Ha|exact Hne|by apply step_forward|done|exact Hm3].
  - apply halts_goes_on. unfold advance_outcome, advance_succeeded. rewrite Hn.
    apply halts_bind. intros [|]; [|apply halts_ret]. apply halts_bind. intros. apply halts_ret.
Qed.

Lemma failed_lighter c w r r2 run step e :
  run_ID run = id → after_verb w r r2 step (Err e) →
  goes_on (lighter (weight rank d r)) (advance_outcome c run d step (Err e)) w.
Proof.
  intros Hid Ha. pose proof (av_stored _ _ _ _ _ Ha) as Hst2. pose proof Hst2 as [Hr2 Hid2 _ Hfr2].
  destruct (errors_Is e ErrSagaPaused) eqn:Hp.
  { apply halts_goes_on. unfold advance_outcome. rewrite Hp. apply halts_bind. intros. apply halts_ret. }
  destruct (errors_Is e ErrSagaCancelled) eqn:Hc.
  { apply halts_goes_on. unfold advance_outcome. rewrite Hp, Hc.
    apply halts_bind; intros _; apply halts_bind; intros [|]; [|apply halts_ret].
    apply halts_bind. intros. apply halts_ret. }
  destruct (last (run_TryCatchStack r2)) as [frame|] eqn:Hl.
  - eapply goes_on_moves; [by eapply outcome_caught|]. intros w' M.
    destruct (run_TryCatchStack r2) as [|f fs _] eqn:Hfs using rev_ind; [done|].
    rewrite last_snoc in Hl. simplify_eq. apply Forall_app in Hfr2 as [Hfr2 Hf].
    apply Forall_cons in Hf as [Hf _].
    assert (run_TryCatchStack (caught_row step e frame r2) = fs) as Hstack.
    { change (take (pred (length (run_TryCatchStack r2))) (run_TryCatchStack r2) = fs).
      rewrite Hfs, length_app; simpl. rewrite Nat.add_1_r; simpl. by rewrite take_app_length. }
    exists (caught_row step e frame r2). split; [eapply stored_moved; [exact M|done..|by rewrite Hstack]|].
    destruct Ha as [_ _ [Heq|(f & Hk & _)]]; [|discriminate Hk]. unfold weight. rewrite Hstack, <-Heq, Hfs, frames_weight_app.
    assert (current_step_id d (caught_row step e frame r2) = frame_CatchStep frame) as ->.
    { unfold current_step_id. rewrite decide_False; [done|exact Hf]. }
    pose proof (pow3_pos (rank (current_step_id d r))). unfold frames_weight at 3. simpl. lia.
  - unfold advance_outcome, advance_failed. rewrite Hp, Hc, Hid.
    destruct (moves_PopTryCatch id w r2 Hr2) as (w3 & E3 & _). rewrite Hl in E3.
    apply (goes_on_step _ _ _ _ _ _ E3). apply halts_goes_on.
    repeat (apply halts_bind; intros). apply halts_ret.
Qed.

(** *** Dispatching *)
Lemma gate_reads c run step entry w :
  tame_coord c → ∃ o w1, license_gate c run step entry w = (o, w1) ∧
    (is_Ok o = true → V w1 = V w).
Proof.
  intros [_ Hlic]. unfold license_gate. case_decide; [by eexists _, w|].
  set (feature := feature_of _).
  pose proof (Hlic (run_TenantID run) feature (run_FeatureOverrides run) w) as HV.
  destruct (c_licensing c _ _ _ w) as [o w1] eqn:E; cbn [snd] in HV.
  rewrite (bind_step _ _ _ _ _ E). destruct o as [[]|e]; [by eexists _, w1|..].
  - unfold bind, NewEvent, ret. repeat case_match; eexists _, _; split; try reflexivity; done.
  - unfold bind, ret. repeat case_match; eexists _, _; split; try reflexivity; done.
Qed.

Lemma step_lighter c w r :
  tame_coord c → stored w r → goes_on (lighter (weight rank d r)) (advance_step c r) w.
Proof.
  intros Hc Hst. pose proof Hst as [Hr Hid Hd Hfr].
  destruct (StepByID d (current_step_id d r)) as [step|] eqn:Hs.
  2: { unfold advance_step. rewrite <-Hid in Hr.
       destruct (moves_GetDef (run_ID r) _ d w r Hr Hd) as (w1 & E1 & _).
       apply (goes_on_step _ _ _ _ _ _ E1). fold (current_step_id d r). rewrite Hs.
       apply halts_goes_on, halts_bind. intros. apply halts_ret. }
  destruct (advance_step_dispatch c id w r d step) as (w1 & M1 & E1); [by split|].
  unfold goes_on. rewrite E1. fold (goes_on (lighter (weight rank d r)) (run_verb c r d step) w1).
  assert (stored w1 (dispatched r step)) as Hst1 by (by eapply stored_moved).
  unfold run_verb. case_decide; [apply halts_goes_on, halts_bind; intros; apply halts_ret|].
  destruct (c_verbs c !! step_Type step) as [entry|] eqn:He; [|by apply halts_goes_on].
  destruct (gate_reads c r step entry w1 Hc) as (o & w2 & E2 & HV2).
  apply (goes_on_step _ _ _ _ _ _ E2). destruct o as [u|e]; [|by apply halts_goes_on].
  pose proof Hs as Hs'. apply find_step_Some in Hs' as [Hin Hsid].
  destruct (executeStep_tame _ _ (tc_verbs c Hc _ _ He) r step w2 (dispatched r step) Hid Hin eq_refl)
    as (r2 & Hst2 & Hf2); [by eapply stored_V; [apply HV2|]|].
  destruct (executeStep r step (entry_Handler entry) w2) as [outcome w3] eqn:E3; cbn [fst snd] in *.
  apply (goes_on_step _ _ _ _ _ _ E3). assert (after_verb w3 r r2 step outcome) as Ha by (by split).
  destruct outcome; [by eapply succeeded_lighter|by eapply failed_lighter].
Qed.

(** Every round that goes on leaves the run lighter. *)
Lemma iter_lighter c w r :
  tame_coord c → stored w r → goes_on (lighter (weight rank d r)) (advance_iter c id) w.
Proof.
  intros Hc Hst. unfold advance_iter. destruct (ctx_Err w) as [e w'] eqn:E.
  apply (goes_on_step _ _ _ _ _ _ E). destruct e as [e|]; [by apply halts_goes_on|].
  assert (stored w' r) as Hst' by (apply (stored_V w); [by injection E as _ <-|done]).
  destruct (moves_GetRun id w' r (sr_row _ _ Hst')) as (w1 & E1 & M1).
  apply (goes_on_step _ _ _ _ _ _ E1).
  assert (stored w1 r) as Hst1 by (destruct Hst; by eapply stored_moved).
  destruct (IsTerminal _); [by apply halts_goes_on|].
  case_decide; [by apply paused_lighter|by apply step_lighter].
Qed.

Lemma advance_loop_ends c n w r :
  tame_coord c → stored w r → weight rank d r < n → ∃ o, (advance_loop n c id w).1 = Some o.
Proof.
  intros Hc. revert w r. induction n as [|n IH]; intros w r Hst Hn; [lia|].
  cbn [advance_loop]. pose proof (iter_lighter c w r Hc Hst) as Hg. unfold goes_on in Hg.
  destruct (advance_iter c id w) as [i w1] eqn:E; cbn [fst snd] in Hg.
  rewrite (bind_step _ _ _ _ _ E). destruct i as [o|]; [by exists o|].
  destruct (Hg eq_refl) as (r1 & Hst1 & Hw). apply (IH w1 r1); [done|lia].
Qed.

(** *** Tame verbs *)
Lemma pure_tame ty f : tame ty (pure_handler f).
Proof. intros run step w r _ _ _ Hst. exists r. split; [done|by left]. Qed.

Lemma TryCatch_tame :
  (∀ s, s ∈ def_Steps d → step_Type s = StepTypeTryCatch →
        rank (get_str (step_Inputs s) "catch") < rank (step_ID s)) →
  tame StepTypeTryCatch TryCatchVerb_Execute.
Proof.
  intros Hcatch run step w r Hid Hin Hty Hst. unfold TryCatchVerb_Execute.
  case_decide; [exists r; split; [done|by left]|].
  case_decide as Hne; [exists r; split; [done|by left]|]. rewrite Hid.
  set (f := mkFrame _ _). pose proof (spec_PushTryCatch id f w) as Hs.
  pose proof Hst as [Hr Hid' Hd Hfr]. unfold V in Hr. rewrite Hr in Hs. case_decide.
  - destruct Hs as (e & w1 & E1 & _ & Hv1). mstep E1. exists r.
    split; [by eapply stored_V|by left].
  - destruct Hs as (w1 & E1 & _ & Hv1). mstep E1.
    exists (set_run_TryCatchStack (run_TryCatchStack r ++ [f]) r). split.
    + split; unfold V; simpl; rewrite ?Hv1; [exact (alter_run_lookup _ id _ r Hr)|done|exact Hd|].
      apply Forall_app. split; [exact Hfr|by repeat constructor].
    + right. exists f. split_and!; [done|done|done|by apply Hcatch].
Qed.
End EngineTermination.

Section termination_theorem.
Context `{StoreSpec St}.
Implicit Types w : World St.

(** C3: [Advance] always comes back: on a run of a definition whose edges all
    lead forward, with verbs that at most push a try_catch frame whose catch step
    lies ahead, the loop ends after at most 3^rank(current step) plus the same
    for every pending catch step rounds, whatever the verbs return, pause, retry
    or fail with, and wherever caught failures lead. *)
Theorem Advance_terminates rank c s id d w r fuel :
  uuid_parse s = Ok id → forward rank d → stored id d w r → tame_coord rank id d c →
  weight rank d r < fuel →
  ∃ o, (Advance fuel c s w).1 = Some o.
Proof.
  intros Hs Hf Hst Hc Hn. rewrite (Advance_parsed _ _ _ _ _ Hs).
  by apply (advance_loop_ends rank id d Hf c fuel w r).
Qed.
End termination_theorem.

(** ** Witness: a guarded failure *)
#[local] Existing Instance demo_env.
#[local] Existing Instance demo_laws.

Definition try_step : Step :=
  mkStep "t" StepTypeTryCatch "f" "" {["try" := VList [VStr "f"]; "catch" := VStr "late"]} None None ∅.
Definition guarded_def : WorkflowDefinition :=
  mkDef "wf" 1 None "" "" "t" ∅ [try_step; fail_step "f"; set_step "late" "e"; end_step "e"] true 0 "".
Definition guarded_rank (s : string) : nat :=
  if decide (s = "t") then 3 else if decide (s = "f") then 2 else if decide (s = "late") then 1 else 0.
Definition guarded_coord : Coordinator MemStore :=
  mkCoord (Some mq_PublishSagaAdvance)
    {[StepTypeTryCatch := plain TryCatchVerb_Execute "loops_and_recovery";
      StepTypeError := plain (pure_handler ErrorVerb_Execute) "common"]} StubAllowAll.
Definition guarded_run : SagaRun := NewSagaRun 7 0 "wf" 9 None ∅.
Definition guarded_w : World MemStore :=
  demo_world (mkMem {[9%N := guarded_def]} ∅ {[7%N := guarded_run]} ∅ ∅ ∅ ∅ ∅ ∅ ∅ []).

Lemma guarded_forward : forward guarded_rank guarded_def.
Proof.
  assert (Forall (λ s, step_ID s ≠ "" ∧ (step_Next s ≠ "" → guarded_rank (step_Next s) < guarded_rank (step_ID s))
    ∧ step_Branches s = ∅) (def_Steps guarded_def)) as Hall.
  { repeat constructor; try done; vm_compute; lia. }
  intros s Hs. rewrite Forall_forall in Hall. destruct (Hall s Hs) as (Hid & Hn & Hb).
  split_and!; [done|done|]. intros k br. by rewrite Hb, lookup_empty.
Qed.

Lemma guarded_tame : tame_coord guarded_rank 7 guarded_def guarded_coord.
Proof.
  split; [|done]. intros ty entry. simpl.
  intros [(<- & <-)|[_ (<- & <-)%lookup_singleton_Some]]%lookup_insert_Some.
  - apply TryCatch_tame. intros s Hs. repeat (apply elem_of_cons in Hs as [->|Hs]); try done.
    + intros _. vm_compute. lia.
    + by apply elem_of_nil in Hs.
  - apply pure_tame.
Qed.

Lemma Advance_terminates_witness : ∃ o, (Advance 28 guarded_coord demo_id guarded_w).1 = Some o.
Proof.
  apply (Advance_terminates guarded_rank guarded_coord demo_id 7 guarded_def guarded_w guarded_run 28).
  - reflexivity.
  - apply guarded_forward.
  - split; [reflexivity|reflexivity|reflexivity|constructor].
  - apply guarded_tame.
  - vm_compute. lia.
Defined.
