(* ===== verification/EngineRaces.v ===== *)
(** A cancellation that lands inside an advance.

    [Coordinator.Cancel] does not take the run's lock, so its store transition can
    fall between the advance loop's read of the run and its next write. *)
From S2P Require Import Prelude Values Domain World Demo StoreApi Rows StoreSpec MemStore MemSpec.
From S2P Require Import VerbsData Join Fanout VerbsEffect Action Registry Retry Engine.
From S2P Require Import EngineLemmas EngineStep EngineRounds EngineProps MemInv MemRaces.

Section EngineRaces.
Context `{StoreSpec St}.
Implicit Types w : World St.

(** Dispatching an [end] step from a snapshot [r] of a row that is now [r1]. *)
Lemma stale_end_step c id w r r1 d step :
  v_runs (V w) !! id = Some r1 → run_ID r = id →
  v_defs (V w) !! run_DefinitionID r = Some d →
  StepByID d (current_step_id d r) = Some step → step_Type step = StepTypeEnd →
  quiet (c_publisher c) → run_ParentRunID r ≠ Some id →
  ∃ w', advance_step c r w = (Stop (Ok tt), w') ∧
    v_runs (V w') !! id = Some (row_UpdateRunState RunStateSucceeded "" r1) ∧
    ∃ es, events_of (V w') id = events_of (V w) id ++ es ∧
      stamp <$> es = dispatch_events r step ++
        [(EventStepSucceeded, step_ID step, "engine"); (EventRunSucceeded, "", "engine")].
Proof.
  intros Hr Hid Hd Hs Ht Hq Hp.
  destruct (moves_GetDef id _ d w r1 Hr Hd) as (w1 & E1 & M1).
  set (start := if decide (run_State r = RunStatePending) then
                  append_engine_event id "" EventSagaStarted "engine" else ret tt).
  assert (moves id start w1 r1 tt (if decide (run_State r = RunStatePending)
            then [(EventSagaStarted, "", "engine")] else []) r1) as (w2 & E2 & M2).
  { unfold start. case_decide; [apply moves_event|apply moves_ret]; by eapply moved_row. }
  destruct (moves_event id (step_ID step) EventStepDispatched "engine" w2 r1
              (moved_row _ _ _ _ _ _ M2)) as (w3 & E3 & M3).
  destruct (moves_UpdateRunState id RunStateRunning (step_ID step) w3 r1
              (moved_row _ _ _ _ _ _ M3)) as (w4 & E4 & M4).
  destruct (moves_event id (step_ID step) EventStepSucceeded "engine" w4 _ (moved_row _ _ _ _ _ _ M4))
    as (w5 & E5 & M5).
  destruct (moves_event id "" EventRunSucceeded "engine" w5 _ (moved_row _ _ _ _ _ _ M5))
    as (w6 & E6 & M6).
  destruct (moves_UpdateRunState id RunStateSucceeded "" w6 _ (moved_row _ _ _ _ _ _ M6))
    as (w7 & E7 & M7).
  pose proof (moved_trans _ _ _ _ _ _ _ _ _ M1 (moved_trans _ _ _ _ _ _ _ _ _ M2
    (moved_trans _ _ _ _ _ _ _ _ _ M3 (moved_trans _ _ _ _ _ _ _ _ _ M4
    (moved_trans _ _ _ _ _ _ _ _ _ M5 (moved_trans _ _ _ _ _ _ _ _ _ M6 M7))))))
    as (_ & _ & Hrow & _ & _ & (es & Hev & Hst) & _).
  exists (checkParentJoin (c_publisher c) r w7).2. split_and!.
  - unfold advance_step. mstep E1. rewrite Hid. fold start. mstep E2.
    unfold current_step_id in Hs. rewrite Hs. mstep E3. mstep E4. rewrite decide_True by done.
    unfold completeRun. rewrite Hid, !bind_assoc. mstep E5. rewrite !bind_assoc. mstep E6.
    rewrite !bind_assoc. mstep E7. rewrite !bind_assoc.
    unfold bind. by destruct (checkParentJoin _ _ _) as [[] ?].
  - unfold V in *. by rewrite checkParentJoin_row.
  - exists es. unfold V in *. rewrite checkParentJoin_events by done. split; [done|].
    rewrite Hst. unfold dispatch_events. by case_decide.
Qed.
End EngineRaces.

Section cancel_race.
Context `{EnvLaws}.
Implicit Types w : World MemStore.

Lemma mem_V_runs w : v_runs (V w) = runs (w_store w).
Proof. done. Qed.
Lemma mem_V_defs w : v_defs (V w) = defs (w_store w).
Proof. done. Qed.
Lemma mem_V_events w id : events_of (V w) id = default [] (events (w_store w) !! id).
Proof. done. Qed.

Lemma row_Cancel_reason now reason r :
  reason ≠ "" → run_State (row_Cancel now reason r) = RunStateCancelled ∧
                run_LastError (row_Cancel now reason r) = Some reason.
Proof. intros Hne. unfold row_Cancel. by rewrite decide_False. Qed.

Lemma update_keeps_error st cs r :
  run_State (row_UpdateRunState st cs r) = st ∧
  run_LastError (row_UpdateRunState st cs r) = run_LastError r.
Proof. done. Qed.

(** C39: a cancellation can be lost: when [Cancel] lands after an advance has read
    the live run and before it dispatches the run's [end] step, the cancelled row
    is overwritten and the run ends succeeded, with the cancelled event, then the
    success, in its trail and the cancel reason still in its last error. *)
Theorem cancel_lost_to_advance c id reason w r d step :
  runs (w_store w) !! id = Some r → run_ID r = id → dispatchable r →
  defs (w_store w) !! run_DefinitionID r = Some d →
  StepByID d (current_step_id d r) = Some step → step_Type step = StepTypeEnd →
  quiet (c_publisher c) → run_ParentRunID r ≠ Some id → reason ≠ "" →
  ∃ w1 w2, mem_Cancel id reason w = (Ok tt, w1) ∧
    (∃ r1, runs (w_store w1) !! id = Some r1 ∧ run_State r1 = RunStateCancelled) ∧
    advance_step c r w1 = (Stop (Ok tt), w2) ∧
    (∃ r2, runs (w_store w2) !! id = Some r2 ∧ run_State r2 = RunStateSucceeded ∧
           run_LastError r2 = Some reason) ∧
    ∃ es, events_of (V w2) id = events_of (V w) id ++ es ∧
      stamp <$> es = (EventRunCancelled, run_CurrentStep r, "engine") :: dispatch_events r step ++
        [(EventStepSucceeded, step_ID step, "engine"); (EventRunSucceeded, "", "engine")].
Proof.
  intros Hr Hid [Hnt _] Hd Hs Ht Hq Hp Hreason.
  destruct (mem_Cancel_live id reason w r Hr Hnt)
    as (w1 & e & E1 & Hruns & _ & Hev1 & Hdefs & Hty & Hsid & Hact & _).
  set (r1 := row_Cancel (w_now w) reason r) in *.
  assert (run_State r1 = RunStateCancelled ∧ run_LastError r1 = Some reason) as [Hst1 Hle1].
  { by apply row_Cancel_reason. }
  clearbody r1. destruct (stale_end_step c id w1 r r1 d step)
    as (w2 & E2 & Hr2 & es & Hev & Hst); rewrite ?mem_V_runs, ?mem_V_defs; try assumption.
  { by rewrite Hruns, lookup_insert_eq. }
  { by rewrite Hdefs. }
  rewrite mem_V_runs in Hr2. rewrite (mem_V_events w1), Hev1, lookup_insert_eq in Hev.
  exists w1, w2. split; [exact E1|]. split; [|split; [exact E2|split]].
  - exists r1. by rewrite Hruns, lookup_insert_eq.
  - exists (row_UpdateRunState RunStateSucceeded "" r1).
    destruct (update_keeps_error RunStateSucceeded "" r1) as [Hst2 Hle2].
    split; [exact Hr2|]. by rewrite Hle2.
  - exists (e :: es). rewrite Hev, mem_V_events. split; [simpl; by rewrite <-app_assoc|].
    rewrite fmap_cons, Hst. unfold stamp at 1. by rewrite Hty, Hsid, Hact.
Qed.
End cancel_race.

(** ** Witness *)
#[local] Existing Instance demo_env.
#[local] Existing Instance demo_laws.

Lemma cancel_lost_to_advance_witness :
  let r := row_at RunStateRunning "e" in
  ∃ w1 w2, mem_Cancel 7 "withdrawn" (demo_w r) = (Ok tt, w1) ∧
    (∃ r1, runs (w_store w1) !! 7%N = Some r1 ∧ run_State r1 = RunStateCancelled) ∧
    advance_step (demo_coord None) r w1 = (Stop (Ok tt), w2) ∧
    (∃ r2, runs (w_store w2) !! 7%N = Some r2 ∧ run_State r2 = RunStateSucceeded ∧
           run_LastError r2 = Some "withdrawn") ∧
    ∃ es, events_of (V w2) 7 = events_of (V (demo_w r)) 7 ++ es ∧
      stamp <$> es = (EventRunCancelled, "e", "engine") :: dispatch_events r (end_step "e") ++
        [(EventStepSucceeded, "e", "engine"); (EventRunSucceeded, "", "engine")].
Proof.
  intros r. apply (cancel_lost_to_advance (demo_coord None) 7 "withdrawn" (demo_w r) r demo_def (end_step "e")).
  - reflexivity.
  - reflexivity.
  - by split.
  - reflexivity.
  - reflexivity.
  - reflexivity.
  - exact demo_quiet.
  - discriminate.
  - discriminate.
Defined.
