(* ===== verification/Dispatchers.v ===== *)
(** The background dispatchers: [src/engine/timer.go], [cron.go],
    [cron_dispatcher.go], [trigger_dispatcher.go], [event_subscriber.go] and
    [startup_variables.go].

    Each dispatcher is a loop around one pass; the passes are modelled, the
    tickers, the AMQP consumer and the leader lock are not.  The cron library
    (robfig/cron) is a parameter: [cron_ParseStandard] parses an expression and
    [cron_Next] gives the first activation after a time, or the zero time when
    there is none. *)
From S2P Require Import Prelude Values Domain World StoreApi.

(** The zero [time.Time], before every time the engine handles. *)
Definition time_zero : Z := -62135596800 * 1000000000.

Definition FeatureCronTriggers : string := "wf.cron_triggers".

(** [headersSubset]. *)
Definition headersSubset (want have : gmap string string) : bool :=
  bool_decide (map_Forall (λ k v, have !! k = Some v) want).

(** [isRecordTransitionTopic]. *)
Definition isRecordTransitionTopic (topic : string) : bool :=
  match strings_Split topic dot with
  | [_; p1; p2; p3] => bool_decide (p1 = "record" ∧ p2 = "transitioned" ∧ p3 ≠ "")
  | _ => false
  end.

(** What [mapInputs] writes for one entry of the mapping; [None] omits it. *)
Definition map_input (body : Vars) (raw : Val) : option Val :=
  match raw with
  | VStr v => if strings_HasPrefix v "$." then body !! strings_TrimPrefix v "$." else Some (VStr v)
  | _ => Some raw
  end.
Definition mapInputs (body mapping : Vars) : Vars :=
  if decide (mapping = ∅) then body else omap (map_input body) mapping.

Record EventDelivery := mkDelivery {
  ed_Topic : string;
  ed_Headers : gmap string string;
  ed_Body : string
}.

Section Dispatchers.
Context `{Env} `{Store St}.
Context {Schedule : Type} (cron_ParseStandard : string → res Schedule)
        (cron_Next : Schedule → Z → Z).
Abbreviation M := (M (World St)).

(** ** startup_variables.go *)
Definition StartupVariableProvider : Type := option uuid → M (res Vars).

(** The merge of what the providers return; a failing provider is skipped. *)
Fixpoint startup_merge (providers : list StartupVariableProvider) (tenantID : option uuid)
    (merge : Vars) : M Vars :=
  match providers with
  | [] => ret merge
  | p :: providers =>
      let* r := p tenantID in
      match r with
      | Err _ => startup_merge providers tenantID merge
      | Ok vars => startup_merge providers tenantID (vars ∪ merge)
      end
  end.

Definition InjectStartupVariables (runID : uuid) (tenantID : option uuid)
    (providers : list StartupVariableProvider) : M unit :=
  if decide (providers = []) then ret tt
  else
    let* merge := startup_merge providers tenantID ∅ in
    if decide (merge = ∅) then ret tt
    else do* UpdateRunVariables runID merge in ret tt.

(** ** timer.go *)

(** One tick of [Timer.Run]. *)
Definition timer_tick (publish : Publisher St) (batchSize : nat) : M unit :=
  let batch := if decide (batchSize = 0) then 100 else batchSize in
  let* now := Clock_Now in
  let* r := FindRunsByDueWakeup now batch in
  match r with
  | Err _ => ret tt
  | Ok ids => for_each (λ id, do* publish (uuid_string id) in ret tt) ids
  end.

(** ** event_subscriber.go *)

(** One run of [EventSubscriber.Deliver]'s loop. *)
Definition deliver_run (pub : option (Publisher St)) (headers : gmap string string) (run : SagaRun)
    : M (res unit) :=
  if negb (headersSubset (run_AwaitedEventHeaders run) headers) then ret (Ok tt)
  else
    try* _ := WakeFromExternal (run_ID run)
      else EWrap ("wake from external for " +:+ uuid_string (run_ID run)) in
    match pub with
    | None => ret (Ok tt)
    | Some publish =>
        try* _ := publish (uuid_string (run_ID run))
          else EWrap ("publish advance for " +:+ uuid_string (run_ID run)) in
        ret (Ok tt)
    end.

Definition Deliver (pub : option (Publisher St)) (d : EventDelivery) : M (res unit) :=
  try* runs := FindRunsByAwaitedEvent (ed_Topic d)
    else EWrap "find runs by awaited event" in
  for_each_err (deliver_run pub (ed_Headers d)) runs.

(** ** cron_dispatcher.go *)

(** The next fire time of a trigger; [None] skips the trigger. *)
Definition cron_next_fire (cfg : Vars) (now : Z) : option Z :=
  let interval := get_str cfg "interval" in
  if decide (interval ≠ "") then
    match parse_duration interval with
    | Ok d => if decide (d ≤ 0)%Z then None else Some (now + d)%Z
    | Err _ => None
    end
  else
    match cron_ParseStandard (get_str cfg "schedule") with
    | Ok sched => Some (cron_Next sched now)
    | Err _ => None
    end.

(** The new row of a triggered run. *)
Definition triggered_run (id : uuid) (now : Z) (def : WorkflowDefinition) (defRowID : uuid)
    (tenant : option uuid) (inputs : Vars) (startStep : string) (trigID : uuid) : SagaRun :=
  set_run_TriggerID (Some trigID)
    (set_run_CurrentStep startStep (NewSagaRun id now (def_ID def) defRowID tenant inputs)).

Definition cron_startRun (pub : option (Publisher St)) (providers : list StartupVariableProvider)
    (tr : SagaTrigger) : M (res unit) :=
  try* def := GetPublishedWorkflowByID (trig_WorkflowID tr) (trig_TenantID tr) else id in
  match ResolveEntry quote def (get_str (trig_Config tr) "entrypoint") with
  | Err e => ret (Err e)
  | Ok startStep =>
      try* defRowID := UpsertWorkflowDefinition def else id in
      let inputs := default ∅ (as_map (trig_Config tr !! "input")) in
      let* id_ := uuidNew in
      let* now := timeNow in
      let run := triggered_run id_ now def defRowID (trig_TenantID tr) inputs startStep
                   (trig_ID tr) in
      try* _ := CreateRun run else id in
      do* InjectStartupVariables (run_ID run) (trig_TenantID tr) providers in
      try* _ := (match pub with
                 | Some publish => publish (uuid_string (run_ID run))
                 | None => ret (Ok tt)
                 end) else id in
      do* RecordTriggerFire (trig_ID tr) (trig_WorkflowID tr) (Some (run_ID run)) "" in
      ret (Ok tt)
  end.

(** Keep the first error. *)
Definition first_err (a b : option err) : option err :=
  match a with Some _ => a | None => b end.

(** One round of [fireDue]'s loop: the error it contributes, if any.  The
    dereference of a nil [NextFireAt] panics. *)
Definition fire_trigger (pub : option (Publisher St)) (providers : list StartupVariableProvider)
    (licensing : LicenseResolver St) (now : Z) (tr : SagaTrigger) : M (option err) :=
  match cron_next_fire (trig_Config tr) now with
  | None => ret None
  | Some next =>
      match trig_NextFireAt tr with
      | None => ret (Some (EMsg "panic: nil pointer dereference"))
      | Some expected =>
          let* won := ClaimCronFire (trig_ID tr) expected next in
          match won with
          | Err e => ret (Some e)
          | Ok false => ret None
          | Ok true =>
              let* enabled := licensing (trig_TenantID tr) FeatureCronTriggers ∅ in
              match enabled with
              | Ok true =>
                  let* r := cron_startRun pub providers tr in ret (res_err r)
              | _ => ret None
              end
          end
      end
  end.

Fixpoint fire_all (pub : option (Publisher St)) (providers : list StartupVariableProvider)
    (licensing : LicenseResolver St) (now : Z) (trs : list SagaTrigger) (firstErr : option err)
    : M (option err) :=
  match trs with
  | [] => ret firstErr
  | tr :: trs =>
      let* e := fire_trigger pub providers licensing now tr in
      fire_all pub providers licensing now trs (first_err firstErr e)
  end.

Definition fireDue (pub : option (Publisher St)) (providers : list StartupVariableProvider)
    (licensing : LicenseResolver St) : M (option err) :=
  let* now := Clock_Now in
  let* r := ListDueCronTriggers now 100 in
  match r with
  | Err e => ret (Some e)
  | Ok triggers => fire_all pub providers licensing now triggers None
  end.

(** ** trigger_dispatcher.go *)
Definition trigger_matches (recordType fromState toState : string) (tr : SagaTrigger) : bool :=
  bool_decide (get_str (trig_Config tr) "record_type" = recordType ∧
               get_str (trig_Config tr) "from_state" = fromState ∧
               get_str (trig_Config tr) "to_state" = toState).

(** The trigger's tenant, else the body's when it parses. *)
Definition trigger_tenant (body : Vars) (tr : SagaTrigger) : option uuid :=
  match trig_TenantID tr with
  | Some t => Some t
  | None =>
      let s := get_str body "tenant_id" in
      if decide (s = "") then None
      else match uuid_parse s with Ok t => Some t | Err _ => None end
  end.

(** A matching trigger starts a run; the error it contributes to [Dispatch]. *)
Definition dispatch_trigger (pub : option (Publisher St)) (providers : list StartupVariableProvider)
    (body : Vars) (tr : SagaTrigger) : M (option err) :=
  let mapping := default ∅ (as_map (trig_Config tr !! "input_mapping")) in
  let inputs := mapInputs body mapping in
  let tenant := trigger_tenant body tr in
  let* rd := GetPublishedWorkflowByID (trig_WorkflowID tr) tenant in
  match rd with
  | Err _ => ret None
  | Ok def =>
      match ResolveEntry quote def (get_str (trig_Config tr) "entrypoint") with
      | Err _ => ret None
      | Ok startStep =>
          let* ru := UpsertWorkflowDefinition def in
          match ru with
          | Err e => ret (Some e)
          | Ok defRowID =>
              let* id_ := uuidNew in
              let* now := timeNow in
              let run := triggered_run id_ now def defRowID tenant inputs startStep (trig_ID tr) in
              let* rc := CreateRun run in
              match rc with
              | Err e => ret (Some e)
              | Ok _ =>
                  do* InjectStartupVariables (run_ID run) tenant providers in
                  let* rp := (match pub with
                              | Some publish => publish (uuid_string (run_ID run))
                              | None => ret (Ok tt)
                              end) in
                  match rp with
                  | Err e => ret (Some e)
                  | Ok _ =>
                      do* RecordTriggerFire (trig_ID tr) (trig_WorkflowID tr)
                            (Some (run_ID run)) "" in
                      ret None
                  end
              end
          end
      end
  end.

Fixpoint dispatch_all (pub : option (Publisher St)) (providers : list StartupVariableProvider)
    (body : Vars) (recordType fromState toState : string) (trs : list SagaTrigger)
    (firstErr : option err) : M (option err) :=
  match trs with
  | [] => ret firstErr
  | tr :: trs =>
      let* e := (if trigger_matches recordType fromState toState tr
                 then dispatch_trigger pub providers body tr else ret None) in
      dispatch_all pub providers body recordType fromState toState trs (first_err firstErr e)
  end.

Definition Dispatch (pub : option (Publisher St)) (providers : list StartupVariableProvider)
    (evt : EventDelivery) : M (option err) :=
  if negb (isRecordTransitionTopic (ed_Topic evt)) then ret None
  else
    match json_object (ed_Body evt) with
    | Err _ => ret None
    | Ok body =>
        let* r := ListTriggers (mkTriggerFilter TriggerRecordTransition (Some true) None) in
        match r with
        | Err e => ret (Some e)
        | Ok triggers =>
            dispatch_all pub providers body (get_str body "record_type")
              (get_str body "from_state") (get_str body "to_state") triggers None
        end
    end.
End Dispatchers.
Arguments StartupVariableProvider St : clear implicits.
