(* ===== verification/DispatcherProps.v ===== *)
(** Properties of the dispatchers, on the in-memory store: whom the timer and the
    event subscriber wake, and which runs triggers start. *)
From S2P Require Import Prelude Values Domain World Demo StoreApi Rows StoreSpec MemStore MemSpec.
From S2P Require Import Sorting MemInv MemProps Dispatchers.

(** The rows of the due runs, in the order the store visits them. *)
Definition due_ids (now : Z) (l : list (uuid * SagaRun)) : list uuid :=
  (filter (λ kr, due now kr.2 = true) l).*1.

Lemma find_due_spec now limit l out :
  length out < limit → find_due now limit l out = out ++ take (limit - length out) (due_ids now l).
Proof.
  revert out. induction l as [|[id r] l IH]; intros out Hout; simpl.
  - change (due_ids now []) with (@nil uuid). by rewrite take_nil, app_nil_r.
  - unfold due_ids. rewrite filter_cons; simpl.
    destruct (due now r) eqn:Hd;
      [rewrite (decide_True (P := true = true)) by done|rewrite (decide_False (P := false = true)) by done].
    + rewrite fmap_cons. fold (due_ids now l). rewrite length_app; simpl.
      destruct (limit - length out) as [|k] eqn:Hk; [lia|]. simpl. case_decide as Hl.
      * assert (k = 0) as -> by lia. by rewrite take_0.
      * rewrite IH by (rewrite length_app; simpl; lia). rewrite length_app; simpl.
        replace (limit - (length out + 1)) with k by lia. by rewrite <-app_assoc.
    + fold (due_ids now l). by apply IH.
Qed.

Section DispatcherProps.
Context `{EnvLaws}.
Implicit Types w : World MemStore.

Definition sends_ok : Prop := ∀ hist id, ext_result hist (MAdvance id) = None.

(** ** The timer *)
Lemma publish_all ids w :
  let w' := (for_each (λ id, do* mq_PublishSagaAdvance (uuid_string id) in ret tt) ids w).2 in
  w_store w' = w_store w ∧
  (w_out w').*1 = (w_out w).*1 ++ ((λ id, MAdvance (uuid_string id)) <$> ids).
Proof.
  revert w. induction ids as [|id ids IH]; intros w; cbn [for_each]; [by rewrite app_nil_r|].
  set (w1 := (send (MAdvance (uuid_string id)) w).2).
  assert ((do* mq_PublishSagaAdvance (uuid_string id) in ret tt) w = (tt, w1)) as E by done.
  rewrite (bind_step _ _ _ _ _ E). destruct (IH w1) as [Hs Ho]. split; [exact Hs|].
  rewrite Ho. change ((w_out w1).*1) with ((w_out w ++ [(MAdvance (uuid_string id), ext_result (w_out w) (MAdvance (uuid_string id)))]).*1).
  by rewrite fmap_app, <-app_assoc.
Qed.

(** A timer tick publishes one advance for each due run, at most a batch of
    them, and writes nothing: the runs are paused ones whose wakeup time has come,
    each once, and when fewer than a batch are due every due run is published. *)
Theorem timer_tick_publishes_due batchSize w :
  let n := if decide (batchSize = 0) then 100 else batchSize in
  ∃ ids w', timer_tick mq_PublishSagaAdvance batchSize w = (tt, w') ∧
    w_store w' = w_store w ∧
    (w_out w').*1 = (w_out w).*1 ++ ((λ id, MAdvance (uuid_string id)) <$> ids) ∧
    NoDup ids ∧ length ids ≤ n ∧
    (∀ id, id ∈ ids → ∃ r, runs (w_store w) !! id = Some r ∧ due (w_clk w) r = true) ∧
    (length ids < n → ∀ id r, runs (w_store w) !! id = Some r → due (w_clk w) r = true → id ∈ ids).
Proof.
  intros n. set (all := due_ids (w_clk w) (range_map (runs (w_store w)))).
  assert (∀ id, id ∈ all ↔ ∃ r, runs (w_store w) !! id = Some r ∧ due (w_clk w) r = true) as Hall.
  { intros id. unfold all, due_ids. rewrite list_elem_of_fmap. split.
    - intros ([j r] & -> & [Hd Hin]%list_elem_of_filter). simpl in *.
      rewrite range_map_perm, elem_of_map_to_list in Hin. eauto.
    - intros (r & Hr & Hd). exists (id, r). split; [done|]. apply list_elem_of_filter. split; [done|].
      by rewrite range_map_perm, elem_of_map_to_list. }
  assert (NoDup all) as Hnd.
  { unfold all, due_ids. rewrite range_map_perm. apply NoDup_fmap_fst.
    - intros k a b [_ Ha]%list_elem_of_filter [_ Hb]%list_elem_of_filter.
      apply elem_of_map_to_list in Ha, Hb. congruence.
    - apply NoDup_filter, NoDup_map_to_list. }
  destruct (publish_all (take n all) w) as [Hs Ho].
  destruct (for_each _ (take n all) w) as [[] w'] eqn:E. cbn [snd] in Hs, Ho.
  exists (take n all), w'. split; [|split; [exact Hs|split; [exact Ho|]]].
  - unfold timer_tick. rewrite bind_Clock_Now. cbv zeta. fold n.
    unfold FindRunsByDueWakeup; simpl. unfold mem_FindRunsByDueWakeup.
    rewrite bind_assoc, bind_get_store, bind_ret.
    rewrite find_due_spec by (unfold n; case_decide; simpl; lia). simpl. rewrite Nat.sub_0_r. fold all.
    exact E.
  - split_and!.
    + rewrite <-(take_drop n all) in Hnd. by apply NoDup_app in Hnd as [].
    + rewrite length_take. lia.
    + intros id (i & Hi & _)%elem_of_take. apply Hall. by eapply list_elem_of_lookup_2.
    + rewrite length_take. intros Hlt id r Hr Hd. rewrite take_ge by lia. apply Hall. eauto.
Qed.

(** ** Events *)

(** The headers a run awaits are among those of the delivery. *)
Definition takes (headers : gmap string string) (r : SagaRun) : Prop :=
  ∀ k v, run_AwaitedEventHeaders r !! k = Some v → headers !! k = Some v.

Lemma takes_iff headers r : takes headers r ↔ headersSubset (run_AwaitedEventHeaders r) headers = true.
Proof. unfold headersSubset. by rewrite bool_decide_eq_true. Qed.
#[export] Instance takes_dec headers r : Decision (takes headers r).
Proof.
  refine (cast_if (decide (headersSubset (run_AwaitedEventHeaders r) headers = true)));
    by rewrite takes_iff.
Defined.

(** The run waits for the delivery. *)
Definition awaits_delivery (d : EventDelivery) (r : SagaRun) : Prop :=
  awaits_topic (ed_Topic d) r ∧ takes (ed_Headers d) r.
#[export] Instance awaits_delivery_dec d r : Decision (awaits_delivery d r).
Proof. unfold awaits_delivery. apply _. Defined.

Definition advance_msg (r : SagaRun) : Msg := MAdvance (uuid_string (run_ID r)).

Lemma deliver_runs headers l w :
  sends_ok → NoDup (run_ID <$> l) →
  (∀ r, r ∈ l → runs (w_store w) !! run_ID r = Some r) →
  ∃ w', for_each_err (deliver_run (Some mq_PublishSagaAdvance) headers) l w = (Ok tt, w') ∧
    (w_out w').*1 = (w_out w).*1 ++ (advance_msg <$> filter (takes headers) l) ∧
    (∀ r, r ∈ l → takes headers r → runs (w_store w') !! run_ID r = Some (row_clear_awaits r)) ∧
    (∀ id, (∀ r, r ∈ l → takes headers r → run_ID r ≠ id) →
       runs (w_store w') !! id = runs (w_store w) !! id).
Proof.
  intros Hok Hnd Hl. revert w Hl. induction l as [|r l IH]; intros w Hl; cbn [for_each_err].
  - exists w. split_and!; [done|by rewrite app_nil_r|by intros r ?%elem_of_nil|done].
  - rewrite fmap_cons in Hnd. apply NoDup_cons in Hnd as [Hr Hnd].
    pose proof (Hl r ltac:(left)) as Hrow. rewrite filter_cons.
    destruct (decide (takes headers r)) as [Hh|Hh].
    + pose proof (proj1 (takes_iff _ _) Hh) as Hb.
      set (w1 := (send (advance_msg r) (set_store (set_runs (<[run_ID r := row_clear_awaits r]>
                    (runs (w_store w))) (w_store w)) w)).2).
      assert (deliver_run (Some mq_PublishSagaAdvance) headers r w = (Ok tt, w1)) as E.
      { unfold deliver_run. rewrite Hb. cbn [negb].
        change (WakeFromExternal (run_ID r)) with (upd_run (run_ID r) row_clear_awaits).
        rewrite (bind_step _ _ _ _ _ (upd_run_found (run_ID r) row_clear_awaits w r Hrow)).
        unfold w1, bind, mq_PublishSagaAdvance, send, advance_msg. by rewrite !Hok. }
      destruct (IH Hnd w1) as (w' & E' & Ho & Hhit & Hmiss).
      { intros s Hs. unfold w1; simpl. rewrite lookup_insert_ne; [apply Hl; by right|].
        intros Heq. apply Hr. rewrite Heq. by apply list_elem_of_fmap_2. }
      exists w'. mstep E. split; [exact E'|]. split_and!.
      * rewrite Ho, fmap_cons. unfold w1; simpl. rewrite fmap_app, <-app_assoc. done.
      * intros s [->|Hs]%elem_of_cons Hsh; [|by apply Hhit].
        rewrite Hmiss; [unfold w1; simpl; by rewrite lookup_insert_eq|].
        intros s Hs _ Heq. apply Hr. rewrite <-Heq. by apply list_elem_of_fmap_2.
      * intros id Hid. rewrite Hmiss by (intros s Hs; apply Hid; by right).
        unfold w1; simpl. apply lookup_insert_ne. apply Hid; [left|done].
    + assert (headersSubset (run_AwaitedEventHeaders r) headers = false) as Hb
        by (apply not_true_is_false; by rewrite <-takes_iff).
      assert (deliver_run (Some mq_PublishSagaAdvance) headers r w = (Ok tt, w)) as E.
      { unfold deliver_run. by rewrite Hb. }
      destruct (IH Hnd w) as (w' & E' & Ho & Hhit & Hmiss); [intros s Hs; apply Hl; by right|].
      exists w'. mstep E. split; [exact E'|]. split_and!; [done| |].
      * intros s [->|Hs]%elem_of_cons Hsh; [done|by apply Hhit].
      * intros id Hid. apply Hmiss. intros s Hs. apply Hid. by right.
Qed.

(** C32: an event wakes exactly the runs that wait for it: while publishing works,
    [Deliver] succeeds, clears the await markers of every paused run whose topic is
    the delivery's and whose awaited headers are all present with their values,
    publishes one advance for each of them, and leaves every other run alone. *)
Theorem Deliver_wakes_matching d w :
  sends_ok → reachable w →
  ∃ w' woken, Deliver (Some mq_PublishSagaAdvance) d w = (Ok tt, w') ∧
    woken ≡ₚ filter (awaits_delivery d) (map_to_list (runs (w_store w))).*2 ∧
    (w_out w').*1 = (w_out w).*1 ++ (advance_msg <$> woken) ∧
    ∀ id, runs (w_store w') !! id =
      (λ r, if decide (awaits_delivery d r) then row_clear_awaits r else r) <$>
      runs (w_store w) !! id.
Proof.
  intros Hok Hre. pose proof (wf_runs _ _ (reachable_Inv _ Hre)) as Hk.
  set (l := filter (awaits_topic (ed_Topic d)) (range_map (runs (w_store w))).*2).
  assert (∀ r, r ∈ (range_map (runs (w_store w))).*2 ↔ runs (w_store w) !! run_ID r = Some r) as Hin.
  { intros r. rewrite range_rows, list_elem_of_fmap. split.
    - intros ([k r'] & -> & Hr%elem_of_map_to_list). simpl. by rewrite (proj1 (Hk _ _ Hr)).
    - intros Hr. exists (run_ID r, r). by rewrite elem_of_map_to_list. }
  assert (NoDup (run_ID <$> l)) as Hnd.
  { apply NoDup_fmap_2_strong; [|apply NoDup_filter, NoDup_fmap_2_strong].
    - intros x y [_ Hx%Hin]%list_elem_of_filter [_ Hy%Hin]%list_elem_of_filter Hxy.
      rewrite Hxy, Hy in Hx. by simplify_eq.
    - intros [k x] [j y] Hx Hy Hxy. simpl in Hxy. subst.
      rewrite range_map_perm in Hx, Hy. apply elem_of_map_to_list in Hx, Hy.
      by rewrite <-(proj1 (Hk _ _ Hx)), <-(proj1 (Hk _ _ Hy)).
    - rewrite range_map_perm. apply NoDup_map_to_list. }
  destruct (deliver_runs (ed_Headers d) l w Hok Hnd) as (w' & E & Ho & Hhit & Hmiss).
  { intros r Hr. apply Hin. by apply list_elem_of_filter in Hr as []. }
  exists w', (filter (takes (ed_Headers d)) l).
  split_and!.
  - unfold Deliver. change (FindRunsByAwaitedEvent (ed_Topic d)) with (mem_FindRunsByAwaitedEvent (ed_Topic d)).
    unfold mem_FindRunsByAwaitedEvent. rewrite bind_assoc, bind_get_store, bind_ret. exact E.
  - unfold l. rewrite list_filter_filter, range_rows.
    erewrite list_filter_iff; [reflexivity|]. intros r. unfold awaits_delivery. tauto.
  - exact Ho.
  - intros id. destruct (runs (w_store w) !! id) as [r|] eqn:Hr; simpl.
    + assert (run_ID r = id) as <- by apply (Hk _ _ Hr).
      case_decide as Ha.
      * destruct Ha as [Ht Hh]. apply Hhit; [|done]. apply list_elem_of_filter. split; [done|by apply Hin].
      * rewrite Hmiss; [done|]. intros s [Ht Hs]%list_elem_of_filter Hh Heq. apply Hin in Hs.
        rewrite Heq, Hr in Hs. simplify_eq. by apply Ha.
    + rewrite Hmiss; [done|]. intros s [_ Hs]%list_elem_of_filter _ Heq. apply Hin in Hs. congruence.
Qed.

(** ** Starting runs *)
Definition start_id w : uuid := uuid_New (S (w_ids w)).
Definition start_run w (d : WorkflowDefinition) (tenant : option uuid) (inputs : Vars)
    (start : string) (trigID : uuid) : SagaRun :=
  triggered_run (start_id w) (w_now w) d (uuid_New (w_ids w)) tenant inputs start trigID.

(** The world after a run was started for trigger [tr]. *)
Definition start_world w d tenant inputs start (tr : SagaTrigger) : World MemStore :=
  exec (mem_RecordTriggerFire (trig_ID tr) (trig_WorkflowID tr) (Some (start_id w)) "")
    (exec (send (MAdvance (uuid_string (start_id w))))
      (exec (mem_CreateRun (start_run w d tenant inputs start (trig_ID tr)))
        (exec uuidNew (exec (mem_UpsertWorkflowDefinition d) w)))).

Lemma latest_def_id name h d : latest_def name h = Some d → def_ID d = name.
Proof.
  unfold latest_def. set (l := filter (λ d, def_ID d = name) h).
  assert (∀ x, x ∈ l → def_ID x = name) as Hl by (by intros x []%list_elem_of_filter).
  destruct (last (filter _ l)) as [x|] eqn:Hx; intros Hd; simplify_eq.
  - apply last_Some_elem_of in Hx. apply list_elem_of_filter in Hx as [_ Hx]. auto.
  - apply last_Some_elem_of in Hd. auto.
Qed.

(** Storing the definition a lookup found again changes no lookup. *)
Lemma latest_def_again name n h d :
  latest_def n h = Some d → latest_def name (h ++ [d]) = latest_def name h.
Proof.
  intros Hn. pose proof (latest_def_id _ _ _ Hn) as Hid. unfold latest_def in *.
  rewrite filter_app, filter_cons, filter_nil. case_decide as Hd; [|by rewrite app_nil_r].
  assert (n = name) as -> by congruence. cbv zeta in *. rewrite filter_app, filter_cons, filter_nil.
  revert Hn. generalize (filter (λ d, def_ID d = name) h). intros l Hn.
  destruct (def_Published d) eqn:Hp; simpl.
  - rewrite last_snoc. by destruct (last (filter _ l)).
  - rewrite app_nil_r, last_snoc. by destruct (last (filter _ l)).
Qed.

(** The definition and the start step a trigger resolves to. *)
Definition resolves (h : list WorkflowDefinition) (tr : SagaTrigger)
    : option (WorkflowDefinition * string) :=
  match latest_def (trig_WorkflowID tr) h with
  | Some d => match ResolveEntry quote d (get_str (trig_Config tr) "entrypoint") with
              | Ok s => Some (d, s)
              | Err _ => None
              end
  | None => None
  end.

Lemma resolves_again h n d tr : latest_def n h = Some d → resolves (h ++ [d]) tr = resolves h tr.
Proof. intros Hn. unfold resolves. by rewrite (latest_def_again _ n). Qed.

Lemma start_world_reached h w d tenant inputs start tr :
  reached h w → reached (h ++ [d]) (start_world w d tenant inputs start tr).
Proof.
  intros Hr. set (w1 := apply_op (OpUpsertDefinition d) w).
  set (w2 := apply_op (OpCreateRun (start_run w d tenant inputs start (trig_ID tr))) (exec uuidNew w1)).
  assert (reached (h ++ [d]) w1) as H1 by (by apply (reached_op (OpUpsertDefinition d) h w)).
  assert (reached (h ++ [d]) (exec uuidNew w1)) as H1'.
  { apply (reached_env _ w1); [done|done|simpl; lia]. }
  assert (reached (h ++ [d]) w2) as H2 by (by apply (reached_op (OpCreateRun _) (h ++ [d]))).
  apply (reached_op (OpRecordFire _ _ _ _) (h ++ [d])); [|done].
  by apply (reached_env _ w2).
Qed.

Lemma dispatch_trigger_spec h body tr w :
  sends_ok → reached h w →
  dispatch_trigger (Some mq_PublishSagaAdvance) [] body tr w =
  (None, match resolves h tr with
         | Some (d, s) => start_world w d (trigger_tenant body tr)
             (mapInputs body (default ∅ (as_map (trig_Config tr !! "input_mapping")))) s tr
         | None => w
         end).
Proof.
  intros Hok Hr. pose proof (published_lookup h w (trig_WorkflowID tr) (trigger_tenant body tr) Hr) as E.
  unfold dispatch_trigger, resolves.
  change (GetPublishedWorkflowByID (trig_WorkflowID tr) (trigger_tenant body tr))
    with (mem_GetPublishedWorkflowByID (trig_WorkflowID tr) (trigger_tenant body tr)).
  mstep E. destruct (latest_def (trig_WorkflowID tr) h) as [d|]; [|done].
  destruct (ResolveEntry quote d _) as [s|]; [|done].
  unfold start_world, exec, start_run, start_id.
  unfold bind, mq_PublishSagaAdvance, send, ret. simpl. by rewrite Hok.
Qed.

(** What starting a run changes. *)
Lemma start_world_effect w d tenant inputs start tr :
  let w' := start_world w d tenant inputs start tr in
  w_ids w < w_ids w' ∧
  runs (w_store w') = <[start_id w := start_run w d tenant inputs start (trig_ID tr)]> (runs (w_store w)) ∧
  (w_out w').*1 = (w_out w).*1 ++ [MAdvance (uuid_string (start_id w))] ∧
  triggerFires (w_store w') = triggerFires (w_store w) ++
    [mkFire (uuid_New (S (S (w_ids w)))) (trig_ID tr) (trig_WorkflowID tr) (w_now w)
       (Some (start_id w)) ""].
Proof.
  cbv zeta. split_and!; [unfold start_world, exec; simpl; lia|done| |done].
  unfold start_world, exec; simpl. by rewrite fmap_app.
Qed.

(** The run [id] was started for the trigger of [tr] with the definition and
    start step [ds]. *)
Definition started_as (body : Vars) w' (p : SagaTrigger * (WorkflowDefinition * string)) (id : uuid)
    : Prop :=
  ∃ did now, runs (w_store w') !! id =
    Some (triggered_run id now p.2.1 did (trigger_tenant body p.1)
      (mapInputs body (default ∅ (as_map (trig_Config p.1 !! "input_mapping")))) p.2.2 (trig_ID p.1)).

(** The triggers that match the body and resolve to a start, with it. *)
Definition startable (h : list WorkflowDefinition) (rt from to : string) (tr : SagaTrigger)
    : option (SagaTrigger * (WorkflowDefinition * string)) :=
  if trigger_matches rt from to tr then pair tr <$> resolves h tr else None.

Definition drawn_from (k : nat) (id : uuid) : Prop := ∃ n, k ≤ n ∧ id = uuid_New n.

Lemma drawn_from_mono k k' id : k ≤ k' → drawn_from k' id → drawn_from k id.
Proof. intros Hk (n & Hn & ->). exists n. split; [lia|done]. Qed.

Lemma dispatch_all_spec h body rt from to trs w :
  sends_ok → reached h w →
  ∃ w' ids, dispatch_all (Some mq_PublishSagaAdvance) [] body rt from to trs None w = (None, w') ∧
    (w_out w').*1 = (w_out w).*1 ++ ((λ id, MAdvance (uuid_string id)) <$> ids) ∧
    NoDup ids ∧ Forall (drawn_from (w_ids w)) ids ∧
    Forall2 (started_as body w') (omap (startable h rt from to) trs) ids ∧
    (∀ id, id ∉ ids → runs (w_store w') !! id = runs (w_store w) !! id).
Proof.
  intros Hok. revert h w. induction trs as [|tr trs IH]; intros h w Hr; cbn [dispatch_all omap list_omap].
  - exists w, []. split_and!; try constructor; try done. by rewrite app_nil_r.
  - unfold startable at 1. destruct (trigger_matches rt from to tr); [|rewrite bind_ret; by apply IH].
    mstep (dispatch_trigger_spec h body tr w Hok Hr). destruct (resolves h tr) as [[d s]|] eqn:Hres; [|by apply IH].
    set (inputs := mapInputs body _). set (w1 := start_world w d (trigger_tenant body tr) inputs s tr).
    assert (∃ n, latest_def n h = Some d) as [n Hn].
    { unfold resolves in Hres. exists (trig_WorkflowID tr).
      destruct (latest_def (trig_WorkflowID tr) h); [|done]. by destruct (ResolveEntry _ _ _); simplify_eq. }
    destruct (start_world_effect w d (trigger_tenant body tr) inputs s tr) as (Hids & Hruns & Hout & _).
    fold w1 in Hids, Hruns, Hout.
    destruct (IH (h ++ [d]) w1 (start_world_reached _ _ _ _ _ _ _ Hr))
      as (w' & ids & E & Ho & Hnd & Hdr & Hst & Hne).
    assert (start_id w ∉ ids) as Hfresh.
    { intros Hin. rewrite Forall_forall in Hdr. destruct (Hdr _ Hin) as (m & Hm & Heq).
      apply uuid_New_inj in Heq. unfold w1, start_world, exec in Hm; simpl in Hm. lia. }
    exists w', (start_id w :: ids). split_and!.
    + exact E.
    + rewrite Ho, Hout, fmap_cons, <-app_assoc. done.
    + by apply NoDup_cons.
    + constructor; [exists (S (w_ids w)); split; [lia|done]|].
      eapply Forall_impl; [exact Hdr|]. intros id. apply drawn_from_mono. lia.
    + simpl. constructor.
      * exists (uuid_New (w_ids w)), (w_now w). rewrite Hne, Hruns, lookup_insert_eq by done. done.
      * assert (∀ l : list SagaTrigger, omap (startable (h ++ [d]) rt from to) l = omap (startable h rt from to) l) as Hext.
        { intros l. induction l as [|x l IHl]; [done|]. cbn [omap list_omap] in *. rewrite IHl. unfold startable at 1 3.
          by rewrite (resolves_again _ n). }
        by rewrite <-Hext.
    + intros id [Hid1 Hid2]%not_elem_of_cons. rewrite Hne, Hruns by done. by apply lookup_insert_ne.
Qed.

(** C31: a record transition starts one run per matching trigger: on a delivery
    with a transition topic and a JSON body, and while publishing works,
    [Dispatch] reports no error; for each enabled record_transition trigger whose
    configured record type and states are the body's and whose workflow and
    entrypoint resolve it creates one new pending run (with the mapped inputs, the
    trigger's tenant or else the body's, and the resolved start step), publishes
    one advance for each, in the same order, and touches no other run. *)
Theorem Dispatch_starts_matching h evt body w :
  sends_ok → reached h w → isRecordTransitionTopic (ed_Topic evt) = true →
  json_object (ed_Body evt) = Ok body →
  ∃ w' ids trs, Dispatch (Some mq_PublishSagaAdvance) [] evt w = (None, w') ∧
    trs ≡ₚ filter (λ t, trig_TriggerType t = TriggerRecordTransition ∧ trig_Enabled t = true)
             (map_to_list (triggers (w_store w))).*2 ∧
    (w_out w').*1 = (w_out w).*1 ++ ((λ id, MAdvance (uuid_string id)) <$> ids) ∧
    NoDup ids ∧
    Forall2 (started_as body w')
      (omap (startable h (get_str body "record_type") (get_str body "from_state")
               (get_str body "to_state")) trs) ids ∧
    (∀ id, id ∉ ids → runs (w_store w') !! id = runs (w_store w) !! id).
Proof.
  intros Hok Hr Ht Hb.
  set (trs := filter (λ t, trig_matches (mkTriggerFilter TriggerRecordTransition (Some true) None) t = true)
                (range_map (triggers (w_store w))).*2).
  destruct (dispatch_all_spec h body (get_str body "record_type") (get_str body "from_state")
    (get_str body "to_state") trs w Hok Hr) as (w' & ids & E & Ho & Hnd & _ & Hst & Hne).
  exists w', ids, trs. split_and!; try done.
  - unfold Dispatch. rewrite Ht, Hb. cbn [negb].
    change (ListTriggers (mkTriggerFilter TriggerRecordTransition (Some true) None))
      with (mem_ListTriggers (mkTriggerFilter TriggerRecordTransition (Some true) None)).
    unfold mem_ListTriggers. rewrite bind_assoc, bind_get_store, bind_ret. exact E.
  - unfold trs. rewrite range_rows. erewrite list_filter_iff; [reflexivity|].
    intros t. unfold trig_matches. simpl. rewrite andb_true_r.
    rewrite andb_true_iff, !bool_decide_eq_true. naive_solver.
Qed.

(** ** Cron *)
Lemma cron_startRun_spec h tr w :
  sends_ok → reached h w →
  (∃ d s, resolves h tr = Some (d, s) ∧
     cron_startRun (Some mq_PublishSagaAdvance) [] tr w =
     (Ok tt, start_world w d (trig_TenantID tr) (default ∅ (as_map (trig_Config tr !! "input"))) s tr)) ∨
  (resolves h tr = None ∧ ∃ e, cron_startRun (Some mq_PublishSagaAdvance) [] tr w = (Err e, w)).
Proof.
  intros Hok Hr. pose proof (published_lookup h w (trig_WorkflowID tr) (trig_TenantID tr) Hr) as E.
  unfold cron_startRun, resolves.
  change (GetPublishedWorkflowByID (trig_WorkflowID tr) (trig_TenantID tr))
    with (mem_GetPublishedWorkflowByID (trig_WorkflowID tr) (trig_TenantID tr)).
  destruct (latest_def (trig_WorkflowID tr) h) as [d|]; mstep E; [|right; eauto].
  destruct (ResolveEntry quote d _) as [s|e]; [|right; eauto]. left. exists d, s. split; [done|].
  unfold start_world, exec, start_run, start_id.
  unfold bind, mq_PublishSagaAdvance, send, ret. simpl. by rewrite Hok.
Qed.

Section cron.
Context {Schedule : Type} (cron_ParseStandard : string → res Schedule)
        (cron_Next : Schedule → Z → Z).
Context (licensing : LicenseResolver MemStore).

(** The resolver enables cron triggers for everyone. *)
Definition cron_licensed : Prop := ∀ t w, licensing t FeatureCronTriggers ∅ w = (Ok true, w).

Definition claimed_world w (id : uuid) (next : Z) (tr : SagaTrigger) : World MemStore :=
  set_store (set_triggers (<[id := set_fire_times (Some next) (Some next) tr]>
    (triggers (w_store w))) (w_store w)) w.

Definition cron_started w (tr : SagaTrigger) (next : Z) (d : WorkflowDefinition) (s : string)
    : World MemStore :=
  start_world (claimed_world w (trig_ID tr) next tr) d (trig_TenantID tr)
    (default ∅ (as_map (trig_Config tr !! "input"))) s tr.

Abbreviation fire := (fire_trigger cron_ParseStandard cron_Next (Some mq_PublishSagaAdvance) []
  licensing).

Lemma ClaimCron_world id tr expected next w :
  triggers (w_store w) !! id = Some tr → trig_NextFireAt tr = Some expected →
  mem_ClaimCronFire id expected next w = (Ok true, claimed_world w id next tr).
Proof. intros Ht He. unfold mem_ClaimCronFire. rewrite bind_get_store, Ht. by rewrite decide_True. Qed.

Lemma fire_claims h tr now expected next d s w :
  sends_ok → cron_licensed → reached h w →
  triggers (w_store w) !! trig_ID tr = Some tr → trig_NextFireAt tr = Some expected →
  cron_next_fire cron_ParseStandard cron_Next (trig_Config tr) now = Some next →
  resolves h tr = Some (d, s) →
  fire now tr w = (None, cron_started w tr next d s) ∧ reached (h ++ [d]) (cron_started w tr next d s).
Proof.
  intros Hok Hlic Hr Ht He Hn Hres.
  assert (reached h (claimed_world w (trig_ID tr) next tr)) as Hr1.
  { assert (claimed_world w (trig_ID tr) next tr = apply_op (OpClaimCron (trig_ID tr) expected next) w)
      as -> by (simpl; unfold exec; by rewrite (ClaimCron_world _ _ _ _ _ Ht He)).
    by apply (reached_op (OpClaimCron (trig_ID tr) expected next) h w). }
  split; [|exact (start_world_reached _ _ _ _ _ _ _ Hr1)].
  unfold fire_trigger. rewrite Hn, He.
  change (ClaimCronFire (trig_ID tr) expected next) with (mem_ClaimCronFire (trig_ID tr) expected next).
  mstep (ClaimCron_world _ _ _ next _ Ht He). mstep (Hlic (trig_TenantID tr) (claimed_world w (trig_ID tr) next tr)).
  destruct (cron_startRun_spec h tr (claimed_world w (trig_ID tr) next tr) Hok Hr1)
    as [(d' & s' & Hres' & E)|[Hno _]]; [|congruence].
  rewrite Hres in Hres'. simplify_eq. by mstep E.
Qed.

(** C29: a cron fire starts exactly one run: the dispatcher that claims the fire
    moves the trigger's fire time on and starts one run of the resolved workflow,
    publishing one advance for it and recording the fire; any other dispatcher
    that read the trigger before then, at whatever time it fires, finds the claim
    lost and changes nothing. *)
Theorem cron_fire_starts_once h tr now now' expected next d s w :
  sends_ok → cron_licensed → reached h w →
  triggers (w_store w) !! trig_ID tr = Some tr → trig_NextFireAt tr = Some expected →
  cron_next_fire cron_ParseStandard cron_Next (trig_Config tr) now = Some next → next ≠ expected →
  resolves h tr = Some (d, s) →
  ∃ w1 run, fire now tr w = (None, w1) ∧
    run_TriggerID run = Some (trig_ID tr) ∧ run_State run = RunStatePending ∧ run_CurrentStep run = s ∧
    runs (w_store w1) = <[run_ID run := run]> (runs (w_store w)) ∧
    (w_out w1).*1 = (w_out w).*1 ++ [MAdvance (uuid_string (run_ID run))] ∧
    triggers (w_store w1) !! trig_ID tr = Some (set_fire_times (Some next) (Some next) tr) ∧
    fire now' tr w1 = (None, w1).
Proof.
  intros Hok Hlic Hr Ht He Hn Hne Hres.
  destruct (fire_claims h tr now expected next d s w Hok Hlic Hr Ht He Hn Hres) as [E _].
  set (w0 := claimed_world w (trig_ID tr) next tr) in *.
  set (inputs := default ∅ (as_map (trig_Config tr !! "input"))).
  destruct (start_world_effect w0 d (trig_TenantID tr) inputs s tr) as (_ & Hruns & Hout & _).
  assert (triggers (w_store (cron_started w tr next d s)) !! trig_ID tr =
            Some (set_fire_times (Some next) (Some next) tr)) as Htr.
  { change (triggers (w_store w0) !! trig_ID tr = Some (set_fire_times (Some next) (Some next) tr)).
    unfold w0, claimed_world; simpl. by rewrite lookup_insert_eq. }
  exists (cron_started w tr next d s), (start_run w0 d (trig_TenantID tr) inputs s (trig_ID tr)).
  split_and!; try done.
  unfold fire_trigger. destruct (cron_next_fire _ _ _ now') as [next'|]; [|done]. rewrite He.
  assert (ClaimCronFire (trig_ID tr) expected next' (cron_started w tr next d s) =
            (Ok false, cron_started w tr next d s)) as Elost; [|by mstep Elost].
  change (ClaimCronFire (trig_ID tr) expected next') with (mem_ClaimCronFire (trig_ID tr) expected next').
  unfold mem_ClaimCronFire. rewrite bind_get_store, Htr. rewrite decide_False; [done|].
  simpl. congruence.
Qed.

(** [n] passes over one stored trigger at the same time. *)
Fixpoint passes (n : nat) (id : uuid) (now : Z) (w : World MemStore) : World MemStore :=
  match n with
  | O => w
  | S n => match triggers (w_store w) !! id with
           | Some tr => passes n id now (exec (fire now tr) w)
           | None => w
           end
  end.

(** A schedule with no activation never rests: when the cron library finds no
    next time it answers the zero time, which the dispatcher stores as the next
    fire time; the trigger is then due at once, so every pass claims it again and
    starts another run. *)
Theorem impossible_schedule_fires_forever n h tr now sched d s w :
  sends_ok → cron_licensed → reached h w →
  triggers (w_store w) !! trig_ID tr = Some tr → cron_due now tr = true →
  get_str (trig_Config tr) "interval" = "" →
  cron_ParseStandard (get_str (trig_Config tr) "schedule") = Ok sched →
  cron_Next sched now = time_zero → (time_zero ≤ now)%Z → resolves h tr = Some (d, s) →
  length (w_out (passes n (trig_ID tr) now w)) = length (w_out w) + n ∧
  ∃ t', triggers (w_store (passes n (trig_ID tr) now w)) !! trig_ID tr = Some t' ∧
        cron_due now t' = true.
Proof.
  intros Hok Hlic Hr Ht Hdue Hint Hsched Hzero Hle Hres.
  revert h tr w Hr Ht Hdue Hint Hsched Hres. induction n as [|n IH];
    intros h tr w Hr Ht Hdue Hint Hsched Hres; cbn [passes].
  { split; [lia|]. by exists tr. }
  assert (cron_next_fire cron_ParseStandard cron_Next (trig_Config tr) now = Some time_zero) as Hn.
  { unfold cron_next_fire. rewrite Hint, Hsched, Hzero. done. }
  assert (∃ e, trig_NextFireAt tr = Some e) as [e He].
  { unfold cron_due in Hdue. destruct (trig_NextFireAt tr); [eauto|]. by rewrite !andb_false_r in Hdue. }
  destruct (fire_claims h tr now e time_zero d s w Hok Hlic Hr Ht He Hn Hres) as [E Hr1].
  rewrite Ht. unfold exec. rewrite E. cbn [snd].
  set (tr1 := set_fire_times (Some time_zero) (Some time_zero) tr).
  assert (∃ n, latest_def n h = Some d) as [m Hm].
  { unfold resolves in Hres. exists (trig_WorkflowID tr).
    destruct (latest_def (trig_WorkflowID tr) h); [|done]. by destruct (ResolveEntry _ _ _); simplify_eq. }
  destruct (start_world_effect (claimed_world w (trig_ID tr) time_zero tr) d (trig_TenantID tr)
    (default ∅ (as_map (trig_Config tr !! "input"))) s tr) as (_ & _ & Hout & _).
  destruct (IH (h ++ [d]) tr1 (cron_started w tr time_zero d s)) as [Hlen Hdue']; try done.
  - change (triggers (w_store (claimed_world w (trig_ID tr) time_zero tr)) !! trig_ID tr = Some tr1).
    unfold claimed_world; simpl. by rewrite lookup_insert_eq.
  - unfold cron_due in *. simpl. apply andb_true_iff in Hdue as [Hdue _]. rewrite Hdue. simpl. lia.
  - rewrite (resolves_again _ m) by done. exact Hres.
  - change (trig_ID tr1) with (trig_ID tr) in *. split; [|exact Hdue']. rewrite Hlen.
    assert (length (w_out (cron_started w tr time_zero d s)) = length (w_out w) + 1) as ->; [|lia].
    rewrite <-(length_fmap fst). unfold cron_started. rewrite Hout, length_app, length_fmap. done.
Qed.
End cron.
End DispatcherProps.

(** ** Witnesses *)
#[local] Existing Instance demo_env.
#[local] Existing Instance demo_laws.

Lemma demo_sends_ok : sends_ok.
Proof. by intros hist id. Qed.

Lemma demo_reached (ops : list mem_op) :
  Forall op_ok ops →
  reached (fold_left def_history ops [])
    (fold_left (λ w op, apply_op op w) ops (demo_world New)).
Proof.
  intros Hok. pose proof (reached_new (demo_world New) eq_refl) as Hr. revert Hr.
  generalize (demo_world New), (@nil WorkflowDefinition).
  induction Hok as [|op ops Hop Hops IH]; intros w h Hr; [done|]. simpl. apply IH.
  by apply reached_op.
Qed.

Lemma timer_tick_publishes_due_witness :
  let ops := [OpCreateRun (NewSagaRun 7 0 "wf" 1000 None ∅); OpPauseWakeup 7 50] in
  let w := fold_left (λ w op, apply_op op w) ops (demo_world New) in
  let n := if decide (0 = 0) then 100 else 0 in
  ∃ ids w', timer_tick mq_PublishSagaAdvance 0 w = (tt, w') ∧
    w_store w' = w_store w ∧
    (w_out w').*1 = (w_out w).*1 ++ ((λ id, MAdvance (uuid_string id)) <$> ids) ∧
    NoDup ids ∧ length ids ≤ n ∧
    (∀ id, id ∈ ids → ∃ r, runs (w_store w) !! id = Some r ∧ due (w_clk w) r = true) ∧
    (length ids < n → ∀ id r, runs (w_store w) !! id = Some r → due (w_clk w) r = true → id ∈ ids).
Proof. intros ops w. apply (timer_tick_publishes_due 0 w). Defined.

Lemma Deliver_wakes_matching_witness :
  let ops := [OpCreateRun (NewSagaRun 7 0 "wf" 1000 None ∅); OpPauseEvent 7 "orders" ∅ None] in
  let w := fold_left (λ w op, apply_op op w) ops (demo_world New) in
  let d := mkDelivery "orders" {["a" := "1"]} "" in
  ∃ w' woken, Deliver (Some mq_PublishSagaAdvance) d w = (Ok tt, w') ∧
    woken ≡ₚ filter (awaits_delivery d) (map_to_list (runs (w_store w))).*2 ∧
    (w_out w').*1 = (w_out w).*1 ++ (advance_msg <$> woken) ∧
    ∀ id, runs (w_store w') !! id =
      (λ r, if decide (awaits_delivery d r) then row_clear_awaits r else r) <$>
      runs (w_store w) !! id.
Proof.
  intros ops w d. apply (Deliver_wakes_matching d w).
  - exact demo_sends_ok.
  - repeat (apply reach_op; [|done]). by apply reach_new.
Defined.

(** The body decodes to the empty object here, so the trigger matches empty fields. *)
Definition on_transition : SagaTrigger :=
  mkTrigger 4 TriggerRecordTransition "wf" 1 ∅ true None None "" None None.
Definition trigger_ops : list mem_op :=
  [OpUpsertDefinition (small_def true "live"); OpUpsertTrigger on_transition].

Lemma Dispatch_starts_matching_witness :
  let w := fold_left (λ w op, apply_op op w) trigger_ops (demo_world New) in
  ∃ w' ids trs, Dispatch (Some mq_PublishSagaAdvance) [] (mkDelivery "t.record.transitioned.order" ∅ "{}") w
                  = (None, w') ∧
    trs ≡ₚ filter (λ t, trig_TriggerType t = TriggerRecordTransition ∧ trig_Enabled t = true)
             (map_to_list (triggers (w_store w))).*2 ∧
    (w_out w').*1 = (w_out w).*1 ++ ((λ id, MAdvance (uuid_string id)) <$> ids) ∧
    NoDup ids ∧
    Forall2 (started_as ∅ w') (omap (startable [small_def true "live"] (get_str ∅ "record_type")
      (get_str ∅ "from_state") (get_str ∅ "to_state")) trs) ids ∧
    (∀ id, id ∉ ids → runs (w_store w') !! id = runs (w_store w) !! id).
Proof.
  intros w. apply (Dispatch_starts_matching [small_def true "live"]
    (mkDelivery "t.record.transitioned.order" ∅ "{}") ∅ w).
  - exact demo_sends_ok.
  - apply (demo_reached trigger_ops). repeat constructor.
  - by vm_compute.
  - reflexivity.
Defined.

Definition every_five : SagaTrigger :=
  mkTrigger 4 TriggerCron "wf" 1 {["interval" := VStr "5s"]} true None None "" (Some 50%Z) None.
Definition never : SagaTrigger :=
  mkTrigger 4 TriggerCron "wf" 1 {["schedule" := VStr "0 0 30 2 *"]} true None None ""
    (Some time_zero) None.
Definition cron_ops (tr : SagaTrigger) : list mem_op :=
  [OpUpsertDefinition (small_def true "live"); OpUpsertTrigger tr].
Definition stored_cron (tr : SagaTrigger) : SagaTrigger :=
  mkTrigger (trig_ID tr) (trig_TriggerType tr) (trig_WorkflowID tr) (trig_Version tr) (trig_Config tr)
    (trig_Enabled tr) (trig_TenantID tr) (Some 100%Z) (trig_CreatedBy tr) (trig_NextFireAt tr)
    (trig_LastFiredAt tr).
Definition cron_world (tr : SagaTrigger) : World MemStore :=
  fold_left (λ w op, apply_op op w) (cron_ops tr) (demo_world New).
Definition no_next (s : string) (now : Z) : Z := time_zero.
Definition allow_all : LicenseResolver MemStore := λ _ _ _, ret (Ok true).

Lemma cron_fire_starts_once_witness :
  ∃ w1 run, fire_trigger Ok no_next (Some mq_PublishSagaAdvance) [] allow_all 100 (stored_cron every_five)
              (cron_world every_five) = (None, w1) ∧
    run_TriggerID run = Some 4%N ∧ run_State run = RunStatePending ∧ run_CurrentStep run = "e" ∧
    runs (w_store w1) = <[run_ID run := run]> (runs (w_store (cron_world every_five))) ∧
    (w_out w1).*1 = (w_out (cron_world every_five)).*1 ++ [MAdvance (uuid_string (run_ID run))] ∧
    triggers (w_store w1) !! 4%N =
      Some (set_fire_times (Some 5000000100) (Some 5000000100) (stored_cron every_five))%Z ∧
    fire_trigger Ok no_next (Some mq_PublishSagaAdvance) [] allow_all 101 (stored_cron every_five) w1
      = (None, w1).
Proof.
  apply (cron_fire_starts_once Ok no_next allow_all [small_def true "live"] (stored_cron every_five)
           100 101 50 5000000100 (small_def true "live") "e" (cron_world every_five)).
  - exact demo_sends_ok.
  - done.
  - apply (demo_reached (cron_ops every_five)). repeat constructor.
  - by vm_compute.
  - reflexivity.
  - by vm_compute.
  - lia.
  - by vm_compute.
Defined.

Lemma impossible_schedule_fires_forever_witness :
  let w := cron_world never in
  length (w_out (passes Ok no_next allow_all 3 4 100 w)) = length (w_out w) + 3 ∧
  ∃ t', triggers (w_store (passes Ok no_next allow_all 3 4 100 w)) !! 4%N = Some t' ∧
        cron_due 100 t' = true.
Proof.
  intros w. apply (impossible_schedule_fires_forever Ok no_next allow_all 3 [small_def true "live"]
    (stored_cron never) 100 "0 0 30 2 *" (small_def true "live") "e" w).
  - exact demo_sends_ok.
  - done.
  - apply (demo_reached (cron_ops never)). repeat constructor.
  - by vm_compute.
  - by vm_compute.
  - by vm_compute.
  - by vm_compute.
  - reflexivity.
  - by vm_compute.
  - by vm_compute.
Defined.
