(* ===== verification/RunLock.v ===== *)
(** The per-run locks of [src/engine/runlock.go], as a transition system.

    Goroutines call [lock] and later the function it returned.  The map mutex
    [l.mu] is held over a few assignments, so each of its critical sections is one
    step; taking and giving up an entry's mutex are steps of their own.  Entries
    are heap cells: a goroutine keeps the address it was given even if the map
    changes, so the model keeps addresses too. *)
From S2P Require Import Prelude.

(** [runLock]: whether the mutex is locked, and [refs]. *)
Record runLock := mkLock {
  mu_locked : bool;
  refs : Z
}.

(** Where a goroutine is in [lock] and its unlock function. *)
Inductive phase :=
| Waiting (key : string) (a : positive)     (* before rl.mu.Lock() *)
| Holding (key : string) (a : positive)     (* between lock and unlock *)
| Releasing (key : string) (a : positive).  (* after rl.mu.Unlock() *)

#[export] Instance phase_eq_dec : EqDecision phase.
Proof. solve_decision. Defined.

(** [runLocks] with its heap, and the goroutines inside it. *)
Record lock_state := mkLockState {
  locks : gmap string positive;
  heap : gmap positive runLock;
  threads : gmap nat phase
}.

Definition no_locks : lock_state := mkLockState ∅ ∅ ∅.

(** [lock], under [l.mu]: find or create the entry and count the caller. *)
Definition enter (key : string) (a : positive) (s : lock_state) : lock_state :=
  let h := match locks s !! key with
           | Some _ => heap s
           | None => <[a := mkLock false 0]> (heap s)
           end in
  let a := default a (locks s !! key) in
  mkLockState (<[key := a]> (locks s))
    (alter (λ l, mkLock (mu_locked l) (refs l + 1)) a h) (threads s).

(** The unlock function, under [l.mu]: count the caller out and drop an unused
    entry from the map. *)
Definition leave (key : string) (a : positive) (s : lock_state) : lock_state :=
  let h := alter (λ l, mkLock (mu_locked l) (refs l - 1)) a (heap s) in
  mkLockState
    (if decide (refs <$> h !! a = Some 0%Z) then delete key (locks s) else locks s)
    h (threads s).

Definition set_locked (b : bool) (a : positive) (s : lock_state) : lock_state :=
  mkLockState (locks s) (alter (λ l, mkLock b (refs l)) a (heap s)) (threads s).
Definition set_threads (m : gmap nat phase) (s : lock_state) : lock_state :=
  mkLockState (locks s) (heap s) m.

(** One step of goroutine [t]; a new entry gets any unused address. *)
Inductive lock_step : lock_state → lock_state → Prop :=
| step_enter t key a s :
    threads s !! t = None → heap s !! a = None →
    lock_step s (set_threads (<[t := Waiting key (default a (locks s !! key))]> (threads s))
                   (enter key a s))
| step_lock t key a s :
    threads s !! t = Some (Waiting key a) → mu_locked <$> heap s !! a = Some false →
    lock_step s (set_threads (<[t := Holding key a]> (threads s)) (set_locked true a s))
| step_unlock t key a s :
    threads s !! t = Some (Holding key a) →
    lock_step s (set_threads (<[t := Releasing key a]> (threads s)) (set_locked false a s))
| step_leave t key a s :
    threads s !! t = Some (Releasing key a) →
    lock_step s (set_threads (delete t (threads s)) (leave key a s)).

Definition lock_reachable (s : lock_state) : Prop := rtc lock_step no_locks s.

(** [size]: the number of entries in the map. *)
Definition size_locks (s : lock_state) : nat := size (locks s).

(** ** Counting goroutines *)
Definition phase_key (p : phase) : string :=
  match p with Waiting k _ | Holding k _ | Releasing k _ => k end.
Definition phase_addr (p : phase) : positive :=
  match p with Waiting _ a | Holding _ a | Releasing _ a => a end.
Definition holds (p : phase) : bool := match p with Holding _ _ => true | _ => false end.

(** How many goroutines satisfy [f]. *)
Definition count (f : phase → bool) (m : gmap nat phase) : nat :=
  size (filter (λ tp : nat * phase, f tp.2 = true) m).

Definition weigh (f : phase → bool) (p : option phase) : nat :=
  match p with Some p => if f p then 1 else 0 | None => 0 end.

Lemma count_delete f t (m : gmap nat phase) : count f m = count f (delete t m) + weigh f (m !! t).
Proof.
  unfold count, weigh. destruct (m !! t) as [p|] eqn:Ht.
  - rewrite <-(insert_delete_id m t p) at 1 by done.
    destruct (f p) eqn:Hf.
    + rewrite map_filter_insert_True by done. rewrite map_size_insert_None; [lia|].
      rewrite map_lookup_filter_None. left. by rewrite lookup_delete_eq.
    + rewrite map_filter_insert_False by (simpl; congruence). rewrite delete_delete_eq. lia.
  - by rewrite delete_id by done; rewrite Nat.add_0_r.
Qed.

Lemma count_insert f t p (m : gmap nat phase) :
  count f (<[t := p]> m) + weigh f (m !! t) = count f m + weigh f (Some p).
Proof.
  rewrite (count_delete f t (<[t := p]> m)), (count_delete f t m), delete_insert_eq, lookup_insert_eq.
  lia.
Qed.

Lemma count_le f g (m : gmap nat phase) :
  (∀ p, f p = true → g p = true) → count f m ≤ count g m.
Proof.
  intros Hfg. apply map_subseteq_size. apply map_filter_subseteq_ext. naive_solver.
Qed.

Lemma count_pos f (m : gmap nat phase) : 0 < count f m ↔ ∃ t p, m !! t = Some p ∧ f p = true.
Proof.
  unfold count. split.
  - intros Hs. destruct (map_choose (filter (λ tp : nat * phase, f tp.2 = true) m)) as (t & p & Hp).
    + intros Hn. rewrite Hn in Hs. rewrite map_size_empty in Hs. lia.
    + apply map_lookup_filter_Some in Hp as []. eauto.
  - intros (t & p & Ht & Hf). apply Nat.neq_0_lt_0. rewrite map_size_non_empty_iff. intros Hn.
    assert (filter (λ tp : nat * phase, f tp.2 = true) m !! t = Some p) as Hp
      by (by apply map_lookup_filter_Some).
    rewrite Hn in Hp. done.
Qed.

(** ** The invariant *)
Definition on_key (k : string) (p : phase) : bool := bool_decide (phase_key p = k).
Definition holds_key (k : string) (p : phase) : bool := holds p && on_key k p.

(** The entry of a key counts the goroutines on it, and is locked exactly when
    one of them holds it. *)
Definition entry_ok (s : lock_state) (k : string) (a : positive) : Prop :=
  ∃ l, heap s !! a = Some l ∧ refs l = Z.of_nat (count (on_key k) (threads s)) ∧
       0 < count (on_key k) (threads s) ∧
       count (holds_key k) (threads s) = if mu_locked l then 1 else 0.

Record lock_inv (s : lock_state) : Prop := {
  li_threads : ∀ t p, threads s !! t = Some p → locks s !! phase_key p = Some (phase_addr p);
  li_inj : ∀ k k' a, locks s !! k = Some a → locks s !! k' = Some a → k = k';
  li_entries : ∀ k a, locks s !! k = Some a → entry_ok s k a
}.

Lemma lock_inv_empty : lock_inv no_locks.
Proof. split; intros *; simpl; rewrite ?lookup_empty; done. Qed.

(** A key without an entry has no goroutine on it. *)
Lemma no_entry_no_thread s k :
  lock_inv s → locks s !! k = None → count (on_key k) (threads s) = 0.
Proof.
  intros Hi Hk. destruct (decide (0 < count (on_key k) (threads s))) as [Hp|]; [|lia].
  apply count_pos in Hp as (t & p & Ht & Hp). apply bool_decide_eq_true in Hp. subst.
  apply (li_threads _ Hi) in Ht. congruence.
Qed.

Lemma holds_le_on k m : count (holds_key k) m ≤ count (on_key k) m.
Proof. apply count_le. intros p [_ ?]%andb_true_iff. done. Qed.

(** Moving one goroutine on [key] changes no count of another key. *)
Lemma weigh_other f p k :
  phase_key p ≠ k → (∀ q, f q = true → on_key k q = true) → weigh f (Some p) = 0.
Proof.
  intros Hne Hf. simpl. destruct (f p) eqn:Hp; [|done]. apply Hf in Hp.
  apply bool_decide_eq_true in Hp. done.
Qed.

Lemma holds_on k q : holds_key k q = true → on_key k q = true.
Proof. by intros [_ ?]%andb_true_iff. Qed.

Lemma enter_inv t key a s :
  lock_inv s → threads s !! t = None → heap s !! a = None →
  lock_inv (set_threads (<[t := Waiting key (default a (locks s !! key))]> (threads s)) (enter key a s)).
Proof.
  intros Hi Ht Ha. set (b := default a (locks s !! key)).
  assert (∀ k c, locks s !! k = Some c → k ≠ key → c ≠ b) as Hb.
  { intros k c Hk Hne ->. unfold b in Hk. destruct (locks s !! key) as [c|] eqn:Hl; simpl in Hk.
    - apply Hne. by eapply (li_inj _ Hi).
    - destruct (li_entries _ Hi _ _ Hk) as (l & Hheap & _). congruence. }
  pose proof (λ f, count_insert f t (Waiting key b) (threads s)) as Hcount. rewrite Ht in Hcount.
  split; simpl; fold b.
  - intros t' p. rewrite lookup_insert. case_decide as Heq; [intros [= <-]; by rewrite lookup_insert_eq|].
    intros Hp. apply (li_threads _ Hi) in Hp. rewrite lookup_insert. case_decide as Hk; [|done].
    rewrite <-Hk in Hp. unfold b. by rewrite Hp.
  - intros k k' c. rewrite !lookup_insert. clearbody b.
    case_decide as Hk; case_decide as Hk'; intros Hc Hc'; [congruence|..].
    + injection Hc as <-. by destruct (Hb k' b).
    + injection Hc' as <-. by destruct (Hb k b).
    + by eapply (li_inj _ Hi).
  - intros k c. rewrite lookup_insert. case_decide as Hk.
    + intros [= <-]. subst k. unfold entry_ok; simpl. fold b.
      assert (∃ l, (match locks s !! key with Some _ => heap s | None => <[a := mkLock false 0]> (heap s) end)
                !! b = Some l ∧ refs l = Z.of_nat (count (on_key key) (threads s)) ∧
              count (holds_key key) (threads s) = if mu_locked l then 1 else 0) as (l & Hl & Hrefs & Hheld).
      { unfold b. destruct (locks s !! key) as [c|] eqn:Hc; simpl.
        - destruct (li_entries _ Hi _ _ Hc) as (l & ? & ? & ? & ?). eauto.
        - exists (mkLock false 0). rewrite lookup_insert_eq. pose proof (no_entry_no_thread _ _ Hi Hc) as H0.
          pose proof (holds_le_on key (threads s)). rewrite H0. split_and!; [done|done|simpl; lia]. }
      eexists. rewrite lookup_alter_eq, Hl. split; [done|]. simpl.
      pose proof (Hcount (on_key key)) as H1. pose proof (Hcount (holds_key key)) as H2.
      simpl in H1, H2. unfold on_key at 3 in H1. simpl in H1. rewrite bool_decide_true in H1 by done.
      split_and!; [lia|lia|]. rewrite <-Hheld. lia.
    + intros Hc. destruct (li_entries _ Hi _ _ Hc) as (l & Hl & Hrefs & Hpos & Hheld).
      exists l. simpl. fold b. pose proof (Hb _ _ Hc ltac:(done)) as Hne.
      rewrite lookup_alter_ne by done. split.
      { destruct (locks s !! key); [done|]. rewrite lookup_insert_ne; [done|]. intros ->. congruence. }
      pose proof (Hcount (on_key k)) as H1. pose proof (Hcount (holds_key k)) as H2.
      rewrite (weigh_other (on_key k) (Waiting key b) k) in H1 by (simpl; congruence).
      rewrite (weigh_other (holds_key k) (Waiting key b) k) in H2 by (simpl; congruence || apply holds_on).
      simpl in H1, H2. rewrite !Nat.add_0_r in H1, H2. by rewrite H1, H2.
Qed.

Definition b2n (b : bool) : nat := if b then 1 else 0.

Lemma weigh_holds p k : phase_key p = k → weigh (holds_key k) (Some p) = b2n (holds p).
Proof.
  intros <-. simpl. unfold holds_key, on_key. rewrite bool_decide_true, andb_true_r by done. done.
Qed.

(** A goroutine moves on within the same entry while the mutex changes hands. *)
Lemma move_inv t p q b l s :
  lock_inv s → threads s !! t = Some p →
  phase_key q = phase_key p → phase_addr q = phase_addr p →
  heap s !! phase_addr p = Some l →
  b2n b + b2n (holds p) = b2n (mu_locked l) + b2n (holds q) →
  lock_inv (set_threads (<[t := q]> (threads s)) (set_locked b (phase_addr p) s)).
Proof.
  intros Hi Ht Hk Ha Hl Hb. pose proof (li_threads _ Hi _ _ Ht) as Hp.
  pose proof (λ f, count_insert f t q (threads s)) as Hcount. rewrite Ht in Hcount.
  assert (∀ k, weigh (on_key k) (Some q) = weigh (on_key k) (Some p)) as Hw.
  { intros k. simpl. unfold on_key. by rewrite Hk. }
  split; simpl.
  - intros t' r. rewrite lookup_insert. case_decide as Heq; [|apply (li_threads _ Hi)].
    intros [= <-]. by rewrite Hk, Ha.
  - apply (li_inj _ Hi).
  - intros k c Hc. destruct (li_entries _ Hi _ _ Hc) as (l' & Hl' & Hrefs & Hpos & Hheld).
    pose proof (Hcount (on_key k)) as H1. pose proof (Hcount (holds_key k)) as H2.
    rewrite Hw in H1. unfold entry_ok; simpl. destruct (decide (phase_key p = k)) as [<-|Hne].
    + assert (c = phase_addr p) as -> by congruence. simplify_eq.
      eexists. rewrite lookup_alter_eq, Hl. split; [done|]. simpl.
      rewrite (weigh_holds q), (weigh_holds p) in H2 by done.
      change (if mu_locked l then 1 else 0) with (b2n (mu_locked l)) in Hheld.
      change (if b then 1 else 0) with (b2n b). split_and!; lia.
    + exists l'. rewrite lookup_alter_ne; [|intros Heq; apply Hne, (li_inj _ Hi _ _ _ Hp); congruence].
      rewrite (weigh_other (holds_key k) q k), (weigh_other (holds_key k) p k) in H2
        by (congruence || apply holds_on).
      split_and!; [done|lia|lia|]. rewrite <-Hheld. lia.
Qed.

Lemma leave_inv t key a s :
  lock_inv s → threads s !! t = Some (Releasing key a) →
  lock_inv (set_threads (delete t (threads s)) (leave key a s)).
Proof.
  intros Hi Ht. pose proof (li_threads _ Hi _ _ Ht) as Hka; simpl in Hka.
  destruct (li_entries _ Hi _ _ Hka) as (l & Hl & Hrefs & Hpos & Hheld).
  pose proof (λ f, count_delete f t (threads s)) as Hcount. rewrite Ht in Hcount.
  pose proof (Hcount (on_key key)) as H1. simpl in H1. unfold on_key at 3 in H1. simpl in H1.
  rewrite bool_decide_true in H1 by done.
  set (del := decide (refs <$> alter (λ l, mkLock (mu_locked l) (refs l - 1)) a (heap s) !! a = Some 0%Z)) in *.
  assert ((if del then count (on_key key) (delete t (threads s)) = 0
           else 0 < count (on_key key) (delete t (threads s)))) as Hdel.
  { destruct del as [Hd|Hd]; rewrite lookup_alter_eq, Hl in Hd; simpl in Hd.
    - injection Hd as Hd. lia.
    - apply Nat.neq_0_lt_0. intros H0. apply Hd. f_equal. lia. }
  assert (∀ k c, locks (leave key a s) !! k = Some c → locks s !! k = Some c ∧
            (k = key → 0 < count (on_key key) (delete t (threads s)))) as Hlocks.
  { intros k c. simpl. fold del. destruct del; [|by intros ?].
    rewrite lookup_delete. case_decide; [done|]. intros ?. split; [done|]. intros ->. done. }
  split; simpl.
  - intros t' p. rewrite lookup_delete. case_decide as Hne; [done|]. intros Hp.
    pose proof (li_threads _ Hi _ _ Hp) as Hlk. fold del. destruct del; [|done].
    rewrite lookup_delete. case_decide as Hk; [|done]. exfalso.
    assert (0 < count (on_key key) (delete t (threads s))); [|lia].
    apply count_pos. exists t', p. rewrite lookup_delete_ne by done. split; [done|].
    by apply bool_decide_eq_true.
  - intros k k' c Hk%Hlocks Hk'%Hlocks. destruct Hk, Hk'. by eapply (li_inj _ Hi).
  - intros k c Hk. apply Hlocks in Hk as [Hk Hpos'].
    destruct (li_entries _ Hi _ _ Hk) as (l' & Hl' & Hrefs' & Hp' & Hheld').
    pose proof (Hcount (on_key k)) as H2. pose proof (Hcount (holds_key k)) as H3.
    unfold entry_ok; simpl. destruct (decide (key = k)) as [<-|Hne].
    + assert (c = a) as -> by congruence. simplify_eq.
      eexists. rewrite lookup_alter_eq, Hl. split; [done|]. simpl in *.
      split_and!; [lia|by apply Hpos'|]. rewrite <-Hheld. lia.
    + exists l'. rewrite lookup_alter_ne; [|intros Heq; apply Hne, (li_inj _ Hi _ _ _ Hka); congruence].
      rewrite (weigh_other (on_key k) (Releasing key a) k) in H2 by (simpl; congruence).
      rewrite (weigh_other (holds_key k) (Releasing key a) k) in H3 by (simpl; congruence || apply holds_on).
      split_and!; [done|lia|lia|]. rewrite <-Hheld'. lia.
Qed.

Lemma lock_step_inv s s' : lock_inv s → lock_step s s' → lock_inv s'.
Proof.
  intros Hi Hs. revert Hi.
  destruct Hs as [t key a s0 Ht Ha|t key a s0 Ht Hl|t key a s0 Ht|t key a s0 Ht]; intros Hi.
  - by apply enter_inv.
  - apply fmap_Some in Hl as (l & Hl & Hu).
    apply (move_inv t (Waiting key a) (Holding key a) true l); try done. simpl. by rewrite <-Hu.
  - pose proof (li_threads _ Hi _ _ Ht) as Hka; simpl in Hka.
    destruct (li_entries _ Hi _ _ Hka) as (l & Hl & _ & _ & Hheld).
    apply (move_inv t (Holding key a) (Releasing key a) false l); try done. simpl.
    assert (0 < count (holds_key key) (threads s0)) as Hpos.
    { apply count_pos. exists t, (Holding key a). split; [done|]. by apply bool_decide_eq_true. }
    destruct (mu_locked l); [done|lia].
  - by apply leave_inv.
Qed.

Lemma lock_reachable_inv s : lock_reachable s → lock_inv s.
Proof.
  unfold lock_reachable. intros Hr. remember no_locks as s0 eqn:Hs.
  assert (lock_inv s0) as Hi by (subst; apply lock_inv_empty). clear Hs.
  induction Hr as [|s1 s2 s3 Hstep Hr IH]; [done|]. apply IH. by eapply lock_step_inv.
Qed.

Lemma count_unique f m t1 t2 p1 p2 :
  count f m ≤ 1 → m !! t1 = Some p1 → m !! t2 = Some p2 → f p1 = true → f p2 = true → t1 = t2.
Proof.
  intros Hc H1 H2 Hf1 Hf2. destruct (decide (t1 = t2)) as [|Hne]; [done|].
  rewrite (count_delete f t1), H1 in Hc. simpl in Hc. rewrite Hf1 in Hc.
  assert (0 < count f (delete t1 m)); [|lia].
  apply count_pos. exists t2, p2. by rewrite lookup_delete_ne.
Qed.

(** C37: one advance per run: in every reachable state at most one goroutine holds
    the lock of a run, whatever the order in which goroutines come, go and drop
    the run's entry in between. *)
Theorem run_lock_exclusive s t1 t2 key a1 a2 :
  lock_reachable s → threads s !! t1 = Some (Holding key a1) → threads s !! t2 = Some (Holding key a2) →
  t1 = t2.
Proof.
  intros Hr H1 H2. pose proof (lock_reachable_inv _ Hr) as Hi.
  destruct (li_entries _ Hi _ _ (li_threads _ Hi _ _ H1)) as (l & _ & _ & _ & Hheld). simpl in Hheld.
  apply (count_unique (holds_key key) (threads s) t1 t2 (Holding key a1) (Holding key a2));
    [destruct (mu_locked l); lia|done|done|by apply bool_decide_eq_true..].
Qed.

(** C38: the lock table neither leaks nor blocks: in every reachable state it has
    an entry for exactly the runs some goroutine is inside [lock] or its unlock
    function for (none when all are done), and a goroutine waiting for a run's
    lock can take it at once unless another one holds it. *)
Theorem run_lock_live s :
  lock_reachable s →
  (∀ key, is_Some (locks s !! key) ↔ ∃ t p, threads s !! t = Some p ∧ phase_key p = key) ∧
  (threads s = ∅ → size_locks s = 0) ∧
  (∀ t key a, threads s !! t = Some (Waiting key a) →
     (∃ t' a', threads s !! t' = Some (Holding key a')) ∨
     ∃ s', lock_step s s' ∧ threads s' !! t = Some (Holding key a)).
Proof.
  intros Hr. pose proof (lock_reachable_inv _ Hr) as Hi.
  assert (∀ key, is_Some (locks s !! key) ↔ ∃ t p, threads s !! t = Some p ∧ phase_key p = key) as Hkeys.
  { intros key. split.
    - intros [a Ha]. destruct (li_entries _ Hi _ _ Ha) as (_ & _ & _ & Hpos & _).
      apply count_pos in Hpos as (t & p & Ht & Hp). apply bool_decide_eq_true in Hp. eauto.
    - intros (t & p & Ht & <-). apply (li_threads _ Hi) in Ht. eauto. }
  split; [exact Hkeys|]. split.
  - intros Hn. unfold size_locks. apply map_size_empty_iff, map_empty. intros key.
    apply eq_None_not_Some. rewrite Hkeys. intros (t & p & Ht & _). by rewrite Hn in Ht.
  - intros t key a Ht. destruct (li_entries _ Hi _ _ (li_threads _ Hi _ _ Ht)) as (l & Hl & _ & _ & Hheld).
    simpl in Hl, Hheld. destruct (mu_locked l) eqn:Hm.
    + left. assert (0 < count (holds_key key) (threads s)) as Hpos by lia.
      apply count_pos in Hpos as (t' & p & Ht' & [Hh Hk]%andb_true_iff).
      apply bool_decide_eq_true in Hk. destruct p; try done. simpl in Hk. subst. eauto.
    + right. eexists. split; [by eapply step_lock; [|rewrite Hl; simpl; rewrite Hm]|].
      simpl. by rewrite lookup_insert_eq.
Qed.

(** ** Witnesses: two advances of one run, the second waiting *)
Definition two_in : lock_state :=
  mkLockState {["r" := 1%positive]} {[1%positive := mkLock true 2]}
    (<[1 := Waiting "r" 1]> {[0 := Holding "r" 1]}).

Lemma two_in_reachable : lock_reachable two_in.
Proof.
  unfold lock_reachable.
  eapply rtc_l; [apply (step_enter 0 "r" 1); done|].
  eapply rtc_l; [apply (step_lock 0 "r" 1); done|].
  eapply rtc_l; [apply (step_enter 1 "r" 2); done|]. by vm_compute.
Qed.

Lemma run_lock_exclusive_witness : threads two_in !! 0 = Some (Holding "r" 1) ∧ 0 = 0.
Proof.
  split; [reflexivity|].
  apply (run_lock_exclusive two_in 0 0 "r" 1 1 two_in_reachable); reflexivity.
Defined.

Lemma run_lock_live_witness : is_Some (locks two_in !! "r").
Proof.
  apply (proj1 (run_lock_live two_in two_in_reachable) "r"). exists 0, (Holding "r" 1%positive).
  split; reflexivity.
Defined.
