(* ===== verification/Saga.v ===== *)
(** The embedded API: [src/saga].

    A [Saga] is a coordinator on a store, used in process.  The in-process
    publisher starts a goroutine per advance; starting it is recorded like a call to
    a broker that always accepts, and what the goroutine does is an [Advance] of
    its own.  How these goroutines end is in [Shutdown]. *)
From S2P Require Import Prelude Values Domain World StoreApi VerbsData Join Fanout VerbsEffect.
From S2P Require Import Action Registry Retry Engine Dispatchers.

Section Saga.
Context `{Env} `{Store St}.
Abbreviation M := (M (World St)).

(** ** publisher.go *)

(** [InProcessPublisher.PublishSagaAdvance]: the goroutine is started. *)
Definition inproc_PublishSagaAdvance : Publisher St := λ runID w,
  (Ok tt, mkWorld (w_store w) (w_now w) (w_clk w) (w_ids w) (w_polls w) (w_rands w)
            (w_out w ++ [(MAdvance runID, None)])).

Definition inproc_PublishActionDispatch : ActionDispatchPublisher St := λ _ _,
  ret (Err (EMsg
    "saga: in-process publisher cannot dispatch actions; run a worker or use the service mode")).

(** ** event_emitter.go *)

(** [inprocHeadersSubset]. *)
Definition inprocHeadersSubset (want have : gmap string string) : bool :=
  forallb (λ kv, bool_decide (have !! kv.1 = Some kv.2)) (map_to_list want).

(** One run of the wake loop: a run that fails does not stop the others. *)
Definition emit_run (pub : option (Publisher St)) (headers : gmap string string) (r : SagaRun)
    : M unit :=
  if negb (inprocHeadersSubset (run_AwaitedEventHeaders r) headers) then ret tt
  else
    let* woken := WakeFromExternal (run_ID r) in
    match woken with
    | Err _ => ret tt
    | Ok _ => match pub with
              | None => ret tt
              | Some publish => do* publish (uuid_string (run_ID r)) in ret tt
              end
    end.

(** [InProcessEventEmitter.EmitEvent]; a dispatcher is its startup providers. *)
Definition EmitEvent (pub : option (Publisher St))
    (dispatcher : option (list (StartupVariableProvider St))) : EventEmitter St :=
  λ topic headers payload,
  try* runs := FindRunsByAwaitedEvent topic else id in
  do* for_each (emit_run pub headers) runs in
  match dispatcher with
  | None => ret (Ok tt)
  | Some providers =>
      match json_marshal (VMap payload) with
      | Err _ => ret (Ok tt)
      | Ok body => do* Dispatch pub providers (mkDelivery topic headers body) in ret (Ok tt)
      end
  end.

(** ** saga.go *)

(** The options that matter to the model; [o_ActionPublisher] is the action side of
    the given publisher when it has one. *)
Record Options := mkOptions {
  o_Store : bool;      (* a store is set *)
  o_Licensing : option (LicenseResolver St);
  o_Secrets : option SecretsResolver;
  o_Publisher : option (Publisher St);
  o_ActionPublisher : option (ActionDispatchPublisher St);
  o_StartupProviders : list (StartupVariableProvider St)
}.

Record Saga := mkSaga {
  s_coord : Coordinator St;
  s_providers : list (StartupVariableProvider St)
}.

Definition actionPublisher (o : Options) : ActionDispatchPublisher St :=
  match o_Publisher o, o_ActionPublisher o with
  | Some _, Some ap => ap
  | _, _ => inproc_PublishActionDispatch
  end.

(** [New]. *)
Definition saga_New (opts : Options) : res Saga :=
  if negb (o_Store opts) then Err (EMsg "saga: Options.Store is required")
  else
    let sec := default (memory_Get ∅) (o_Secrets opts) in
    let pub := default inproc_PublishSagaAdvance (o_Publisher opts) in
    let actionPub := actionPublisher opts in
    let emitter := EmitEvent (Some pub) (Some (o_StartupProviders opts)) in
    let coord := NewCoordinator (Some pub) (Some sec) (o_Licensing opts) (Some actionPub)
                   (Some emitter) None None in
    Ok (mkSaga coord (o_StartupProviders opts)).

Definition Register (def : WorkflowDefinition) : M (res unit) :=
  try* _ := UpsertWorkflowDefinition def else id in ret (Ok tt).

Definition saga_RegisterVerb (s : Saga) (stepType licenseGroup : string) (h : Handler St) : Saga :=
  mkSaga (RegisterVerb (s_coord s) stepType (plain h licenseGroup)) (s_providers s).

(** The run [StartAt] creates. *)
Definition entry_run (id_ : uuid) (now : Z) (def : WorkflowDefinition) (defRowID : uuid)
    (inputs : Vars) (startStep : string) : SagaRun :=
  set_run_CurrentStep startStep (NewSagaRun id_ now (def_ID def) defRowID None inputs).

(** [StartAt]: the run id and the error; [None] is running out of fuel. *)
Definition StartAt (fuel : nat) (s : Saga) (workflowID entrypoint : string) (inputs : Vars)
    : M (option (uuid * res unit)) :=
  let* rd := GetPublishedWorkflowByID workflowID None in
  match rd with
  | Err e => ret (Some (uuid_Nil, Err e))
  | Ok def =>
      match ResolveEntry quote def entrypoint with
      | Err e => ret (Some (uuid_Nil, Err e))
      | Ok startStep =>
          let* ru := UpsertWorkflowDefinition def in
          match ru with
          | Err e => ret (Some (uuid_Nil, Err e))
          | Ok defRowID =>
              let* id_ := uuidNew in
              let* now := timeNow in
              let run := entry_run id_ now def defRowID inputs startStep in
              let* rc := CreateRun run in
              match rc with
              | Err e => ret (Some (uuid_Nil, Err e))
              | Ok _ =>
                  do* InjectStartupVariables (run_ID run) None (s_providers s) in
                  let* ra := Advance fuel (s_coord s) (uuid_string (run_ID run)) in
                  ret (pair (run_ID run) <$> ra)
              end
          end
      end
  end.
Definition Start (fuel : nat) (s : Saga) (workflowID : string) (inputs : Vars)
    : M (option (uuid * res unit)) :=
  StartAt fuel s workflowID "" inputs.

Definition saga_Get (runID : uuid) : M (res SagaRun) := GetRun runID.
Definition saga_Cancel (s : Saga) (runID : uuid) (reason : string) : M (res unit) :=
  Engine.Cancel (s_coord s) runID reason.

(** [Signal]; [None] is running out of fuel. *)
Definition Signal (fuel : nat) (s : Saga) (runID : uuid) (name : string) (payload : Vars)
    : M (option (res unit)) :=
  let* id_ := uuidNew in
  let* now := timeNow in
  let* ra := AppendSignal (mkSignal id_ runID name payload now None) in
  match ra with
  | Err e => ret (Some (Err e))
  | Ok _ =>
      let* rc := TryConsumeAwaitedSignal runID name in
      match rc with
      | Err e => ret (Some (Err e))
      | Ok true => Advance fuel (s_coord s) (uuid_string runID)
      | Ok false => ret (Some (Ok tt))
      end
  end.
End Saga.
