(* ===== verification/SagaProps.v ===== *)
(** Properties of the embedded API: an emitted event does what service mode does,
    and a signal carries its run on in the same call. *)
From S2P Require Import Prelude Values Domain World Demo StoreApi Rows StoreSpec MemStore MemSpec.
From S2P Require Import VerbsData Join Fanout VerbsEffect Action Registry Retry Engine.
From S2P Require Import EngineLemmas EngineStep EngineRounds EngineProps MemInv MemProps.
From S2P Require Import EngineTermination Dispatchers DispatcherProps Saga.

(** ** Events *)
Section Events.
Context `{Env} `{Store St}.
Implicit Types w : World St.

Lemma inproc_subset want have : inprocHeadersSubset want have = headersSubset want have.
Proof.
  unfold inprocHeadersSubset, headersSubset. apply eq_true_iff_eq.
  rewrite forallb_forall, bool_decide_eq_true. split.
  - intros Hf k v Hk. specialize (Hf (k, v)). simpl in Hf. rewrite bool_decide_eq_true in Hf.
    apply Hf. apply list_elem_of_In. by apply elem_of_map_to_list.
  - intros Hm [k v] Hk. apply bool_decide_eq_true. apply Hm.
    apply elem_of_map_to_list. by apply list_elem_of_In.
Qed.

Lemma emit_like_deliver pub headers r w w' :
  deliver_run pub headers r w = (Ok tt, w') → emit_run pub headers r w = (tt, w').
Proof.
  unfold deliver_run, emit_run. rewrite inproc_subset. destruct (negb _); [by intros [= <-]|].
  unfold bind. destruct (WakeFromExternal (run_ID r) w) as [[[]|e] w1]; [|done].
  destruct pub as [publish|]; [|by intros [= <-]].
  destruct (publish _ w1) as [[[]|e] w2]; [by intros [= <-]|done].
Qed.

Lemma emit_all_like_deliver pub headers l w w' :
  for_each_err (deliver_run pub headers) l w = (Ok tt, w') →
  for_each (emit_run pub headers) l w = (tt, w').
Proof.
  revert w. induction l as [|r l IH]; intros w; cbn [for_each_err for_each]; [by intros [= <-]|].
  unfold bind. destruct (deliver_run pub headers r w) as [[[]|e] w1] eqn:E; [|done].
  rewrite (emit_like_deliver _ _ _ _ _ E). apply IH.
Qed.

(** C27: In process, emitting an event does what the two consumers of service mode do
    with it.  Whenever the subscriber's delivery succeeds, [EmitEvent] leaves the
    process exactly as that delivery followed by the trigger dispatch of the same
    event leaves it; and where the delivery would give up on a run that cannot be
    woken or published, [EmitEvent] goes on to the others: once the waiting runs are
    listed it always succeeds. *)
Theorem EmitEvent_is_service_mode pub providers topic headers payload body w :
  json_marshal (VMap payload) = Ok body →
  let evt := mkDelivery topic headers body in
  (∀ w1, Deliver pub evt w = (Ok tt, w1) →
     EmitEvent pub (Some providers) topic headers payload w =
       (Ok tt, (Dispatch pub providers evt w1).2)) ∧
  (∀ l w1, FindRunsByAwaitedEvent topic w = (Ok l, w1) →
     (EmitEvent pub (Some providers) topic headers payload w).1 = Ok tt).
Proof.
  intros Hb evt. unfold EmitEvent, Deliver. cbn [ed_Topic ed_Headers evt]. rewrite Hb. split.
  - intros w1. unfold bind. destruct (FindRunsByAwaitedEvent topic w) as [[l|e] w0]; [|done].
    intros E%emit_all_like_deliver. rewrite E. by destruct (Dispatch _ _ _ w1).
  - intros l w1 E. unfold bind. rewrite E.
    destruct (for_each _ l w1) as [[] w2]. by destruct (Dispatch _ _ _ w2).
Qed.
End Events.

(** ** Signals and starts, on the in-memory store *)
Section MemSaga.
Context `{EnvLaws}.
Implicit Types w : World MemStore.

(** A store operation that leaves the rest of the process alone, for a row. *)
Lemma Signal_consumes n s id name payload w :
  ∃ sg, sig_RunID sg = id ∧ sig_SignalName sg = name ∧ sig_Payload sg = payload ∧
    Signal n s id name payload w =
    (let w1 := set_store (signalled w sg) (uuidNew w).2 in
     if waits_for w id name then Advance n (s_coord s) (uuid_string id) w1
     else (Some (Ok tt), w1)).
Proof.
  set (sg := mkSignal (uuid_New (w_ids w)) id name payload (w_now w) None). exists sg.
  split_and!; try done. unfold Signal. unfold bind at 1, uuidNew. rewrite bind_timeNow.
  set (w0 := (uuidNew w).2). destruct (append_and_consume sg w0) as (w1 & E1 & E2).
  change (AppendSignal ?x) with (mem_AppendSignal x). mstep E1.
  change (TryConsumeAwaitedSignal ?a ?b) with (mem_TryConsumeAwaitedSignal a b). mstep E2.
  change (waits_for w0 (sig_RunID sg) (sig_SignalName sg)) with (waits_for w id name).
  by destruct (waits_for w id name).
Qed.

(** The run at the step after the one it waited at. *)
Definition resumed (step : Step) (r : SagaRun) : SagaRun :=
  row_UpdateRunState RunStateRunning (step_Next step) (row_ClearPause (row_clear_awaits r)).

(** C28: A signal carries its run on within the same call.  When the run is paused on that very
    name, at a step with a successor, [Signal] consumes the signal, wakes the run at the
    successor (running, its markers cleared, variables and frames as they were, the success of
    the waiting step on its trail, every other run's row and trail as before) and goes on with
    the rounds of [Advance] from there, returning what they return: with a definition whose
    edges lead forward it always returns, and when the successor is an [end] step it returns
    without error and the run has succeeded.  A signal of another name is stored and leaves the
    runs alone. *)
Theorem Signal_resumes n s id name payload w r d step :
  (∀ k, ctx_err k = None) → runs (w_store w) !! id = Some r → run_ID r = id →
  run_State r = RunStatePaused → run_AwaitedSignal r = Some name →
  defs (w_store w) !! run_DefinitionID r = Some d →
  StepByID d (run_CurrentStep r) = Some step → ¬ spawns_children (step_Type step) →
  step_Next step ≠ "" →
  (∃ w2 es, Signal (S n) s id name payload w = advance_loop n (s_coord s) id w2 ∧
    runs (w_store w2) !! id = Some (resumed step r) ∧
    (∀ j, j ≠ id → runs (w_store w2) !! j = runs (w_store w) !! j ∧
                   events_of (V w2) j = events_of (V w) j) ∧
    defs (w_store w2) = defs (w_store w) ∧
    events_of (V w2) id = events_of (V w) id ++ es ∧
    stamp <$> es = [(EventStepSucceeded, step_ID step, "engine")]) ∧
  (∀ rank, forward rank d → tame_coord rank id d (s_coord s) →
     Forall (λ f, frame_CatchStep f ≠ "") (run_TryCatchStack r) → weight rank d (resumed step r) < n →
     ∃ o, (Signal (S n) s id name payload w).1 = Some o) ∧
  (∀ last m, n = S m → StepByID d (step_Next step) = Some last → step_Type last = StepTypeEnd →
     quiet (c_publisher (s_coord s)) → run_ParentRunID r ≠ Some id →
     ∃ w' r' es, Signal (S n) s id name payload w = (Some (Ok tt), w') ∧
       runs (w_store w') !! id = Some r' ∧ run_State r' = RunStateSucceeded ∧
       run_Variables r' = run_Variables r ∧
       events_of (V w') id = events_of (V w) id ++ es ∧
       stamp <$> es = [(EventStepSucceeded, step_ID step, "engine");
                       (EventStepDispatched, step_ID last, "engine");
                       (EventStepSucceeded, step_ID last, "engine");
                       (EventRunSucceeded, "", "engine")]) ∧
  (∀ other, other ≠ name → ∃ w', Signal n s id other payload w = (Some (Ok tt), w') ∧
     runs (w_store w') = runs (w_store w) ∧ v_events (V w') = v_events (V w)).
Proof.
  intros Hctx Hr Hid Hp Hs Hd Hstep Hty Hn.
  destruct (Signal_consumes (S n) s id name payload w) as (sg & Hsg & Hsn & _ & HS).
  assert (waits_for w id name = true) as Hw by (by apply (waits_for_row _ _ _ r)). rewrite Hw in HS.
  cbv zeta in HS. set (w1 := set_store _ _) in HS. set (r0 := row_clear_awaits r).
  assert (v_runs (V w1) !! id = Some r0) as Hr1.
  { cbn. unfold signalled. rewrite Hsg, Hsn, Hw; cbn. by rewrite lookup_alter_eq, Hr. }
  assert (∀ j, j ≠ id → v_runs (V w1) !! j = v_runs (V w) !! j) as Hj1.
  { intros j Hj. cbn. unfold signalled. rewrite Hsg, Hsn, Hw; cbn. by rewrite lookup_alter_ne. }
  assert (v_defs (V w1) = v_defs (V w)) as Hd1 by (cbn; unfold signalled; by rewrite Hsg, Hsn, Hw).
  assert (∀ j, events_of (V w1) j = events_of (V w) j) as Hev.
  { intros j. cbn. unfold signalled. by rewrite Hsg, Hsn, Hw. }
  rewrite (Advance_parsed _ _ _ _ _ (uuid_parse_string id)) in HS.
  destruct (iter_external_wake (s_coord s) id w1 r0 d step) as (w2 & E2 & M2); try done;
    [by apply Hctx|by rewrite Hd1|]. fold (resumed step r) in M2.
  change (advance_loop (S n) (s_coord s) id w1)
    with ((let* i := advance_iter (s_coord s) id in
           match i with Stop r => ret (Some r) | Continue => advance_loop n (s_coord s) id end) w1) in HS.
  rewrite (bind_step _ _ _ _ _ E2) in HS.
  pose proof M2 as (_ & _ & Hr2 & Ho2 & Hd2 & (es2 & He2 & Hst2) & Hoe2). split_and!.
  - exists w2, es2. split_and!; [exact HS|exact Hr2| |exact (eq_trans Hd2 Hd1)| |done].
    + intros j Hj. split; [exact (eq_trans (Ho2 j Hj) (Hj1 j Hj))|exact (eq_trans (Hoe2 j Hj) (Hev j))].
    + by rewrite <- Hev.
  - intros rank Hf Ht Hfr Hlt. rewrite HS.
    apply (advance_loop_ends rank id d Hf (s_coord s) n w2 (resumed step r)); [done| |done].
    split; [done|done| |done]. by rewrite Hd2, Hd1.
  - intros last m -> Hlast Hend Hq Hpar. rewrite HS.
    destruct (loop_end_completes m (s_coord s) id w2 (resumed step r) d last)
      as (w3 & E3 & Hr3 & es & He & Hst); try done.
    { by apply Hctx. }
    { split; [done|done|by rewrite Hd2, Hd1|]. unfold current_step_id. by rewrite decide_False. }
    exists w3, (row_UpdateRunState RunStateSucceeded "" (resumed step r)), (es2 ++ es).
    split_and!; try done.
    + by rewrite He, He2, Hev, <-app_assoc.
    + by rewrite fmap_app, Hst, Hst2.
  - intros other Ho. destruct (Signal_consumes n s id other payload w) as (sg' & Hsg' & Hsn' & _ & ->).
    assert (waits_for w id other = false) as Hw'.
    { unfold waits_for. rewrite Hr. apply bool_decide_eq_false. naive_solver. }
    rewrite Hw'. eexists. split; [done|]. cbn. unfold signalled. by rewrite Hsg', Hsn', Hw'.
Qed.

(** A started run of a definition whose edges lead forward: [StartAt] always
    returns, within the rounds its entry step's rank allows, with the new run's id
    unless the workflow or the entry point is unknown. *)
Theorem StartAt_returns rank fuel s h w wf entry inputs :
  reached h w → s_providers s = [] →
  (∀ d step, latest_def wf h = Some d → ResolveEntry quote d entry = Ok step → step ≠ "" →
     forward rank d ∧ (∀ id, tame_coord rank id d (s_coord s)) ∧ 3 ^ rank step < fuel) →
  (∀ d, latest_def wf h = Some d → ResolveEntry quote d entry ≠ Ok "") →
  ∃ id r, (StartAt fuel s wf entry inputs w).1 = Some (id, r) ∧
    ((∃ d step, latest_def wf h = Some d ∧ ResolveEntry quote d entry = Ok step) ∨
     (id = uuid_Nil ∧ is_Ok r = false)).
Proof.
  intros Hre Hprov Hok Hne. unfold StartAt.
  pose proof (published_lookup h w wf None Hre) as E.
  change (GetPublishedWorkflowByID wf None) with (mem_GetPublishedWorkflowByID wf None).
  mstep E. destruct (latest_def wf h) as [d|]; [|by eexists _, _; split; [done|by right]].
  destruct (ResolveEntry quote d entry) as [step|e] eqn:Hent;
    [|by eexists _, _; split; [done|by right]].
  assert (step ≠ "") as Hs by (intros ->; by apply (Hne d)).
  destruct (Hok d step eq_refl Hent Hs) as (Hf & Ht & Hlt).
  set (did := uuid_New (w_ids w)). set (id := uuid_New (S (w_ids w))).
  set (run := entry_run id (w_now w) d did inputs step).
  set (w1 := exec uuidNew (exec (mem_UpsertWorkflowDefinition d) w)).
  set (w2 := exec (mem_CreateRun run) w1).
  assert (mem_UpsertWorkflowDefinition d w = (Ok did, exec (mem_UpsertWorkflowDefinition d) w)) as E1 by done.
  change (UpsertWorkflowDefinition d) with (mem_UpsertWorkflowDefinition d). mstep E1.
  assert (uuidNew (exec (mem_UpsertWorkflowDefinition d) w) = (id, w1)) as E1' by done. mstep E1'.
  rewrite bind_timeNow. cbv zeta. change (w_now w1) with (w_now w). fold run.
  assert (mem_CreateRun run w1 = (Ok tt, w2)) as E2 by done.
  change (CreateRun run) with (mem_CreateRun run). mstep E2.
  unfold InjectStartupVariables. rewrite Hprov, decide_True by done. rewrite bind_ret.
  change (run_ID run) with id.
  assert (stored id d w2 run) as Hst.
  { split; [apply lookup_insert_eq|done|apply lookup_insert_eq|by constructor]. }
  destruct (advance_loop_ends rank id d Hf (s_coord s) fuel w2 run (Ht id) Hst) as [o Ho].
  { unfold weight, current_step_id, frames_weight. change (run_CurrentStep run) with step.
    rewrite decide_False by done. change (run_TryCatchStack run) with (@nil TryCatchFrame).
    unfold sum_list; cbn [fmap list_fmap foldr]. lia. }
  exists id, o. split; [|left; by exists d, step].
  rewrite <-(Advance_parsed fuel (s_coord s) _ _ w2 (uuid_parse_string id)) in Ho. unfold bind.
  destruct (Advance fuel (s_coord s) (uuid_string id) w2) as [x w3]. simpl in *. by subst.
Qed.
End MemSaga.

(** ** Witnesses *)
#[local] Existing Instance demo_env.
#[local] Existing Instance demo_laws.

Definition listening_w : World MemStore :=
  fold_left (λ w op, apply_op op w)
    [OpCreateRun (NewSagaRun 7 0 "wf" 1000 None ∅); OpPauseEvent 7 "orders" ∅ None] (demo_world New).

Lemma EmitEvent_is_service_mode_witness :
  let evt := mkDelivery "orders" ∅ (type_name (VMap ∅)) in
  let pub := Some (inproc_PublishSagaAdvance (St := MemStore)) in
  (Deliver pub evt listening_w).1 = Ok tt ∧
  (∀ w1, Deliver pub evt listening_w = (Ok tt, w1) →
     EmitEvent pub (Some []) "orders" ∅ ∅ listening_w = (Ok tt, (Dispatch pub [] evt w1).2)) ∧
  (∀ l w1, FindRunsByAwaitedEvent "orders" listening_w = (Ok l, w1) →
     (EmitEvent pub (Some []) "orders" ∅ ∅ listening_w).1 = Ok tt).
Proof.
  intros evt pub. split; [by vm_compute|].
  apply (EmitEvent_is_service_mode pub [] "orders" ∅ ∅ (type_name (VMap ∅)) listening_w). reflexivity.
Defined.

Definition demo_saga : Saga := mkSaga (demo_coord None) [].

Lemma Signal_resumes_witness :
  (∃ w' r' es, Signal 2 demo_saga 7 "go" ∅ (demo_w waiting) = (Some (Ok tt), w') ∧
    runs (w_store w') !! 7%N = Some r' ∧ run_State r' = RunStateSucceeded ∧
    run_Variables r' = run_Variables waiting ∧
    events_of (V w') 7 = events_of (V (demo_w waiting)) 7 ++ es ∧
    stamp <$> es = [(EventStepSucceeded, "w", "engine");
                    (EventStepDispatched, "e", "engine");
                    (EventStepSucceeded, "e", "engine");
                    (EventRunSucceeded, "", "engine")]) ∧
  (∃ w', Signal 1 demo_saga 7 "stop" ∅ (demo_w waiting) = (Some (Ok tt), w') ∧
    runs (w_store w') = runs (w_store (demo_w waiting)) ∧
    v_events (V w') = v_events (V (demo_w waiting))).
Proof.
  destruct (Signal_resumes 1 demo_saga 7 "go" ∅ (demo_w waiting) waiting demo_def
              (wait_step "w" "e" "late")) as (_ & _ & Hend & Hother).
  - done.
  - reflexivity.
  - reflexivity.
  - reflexivity.
  - reflexivity.
  - reflexivity.
  - reflexivity.
  - by intros [|[|]].
  - discriminate.
  - split; [|by apply Hother].
    apply (Hend (end_step "e") 0 eq_refl); [reflexivity|reflexivity|exact demo_quiet|discriminate].
Defined.
