(* ===== verification/Liveness.v ===== *)
(** The liveness service: [src/liveness/reporter.go] (what a worker's report
    does to the run) and [server.go] (the frame protocol of one stream).

    The protobuf types of [src/proto/livenesspb] are generated; the frames carry
    their fields.  A stream is the list of what [Recv] returns: frames, then the
    end of the stream or a transport error.  Logging is not modelled. *)
From S2P Require Import Prelude Values Domain World StoreApi Engine.

(** ** Frames and statuses *)

(** [pb.WorkerEvent]; a frame without an event is [EvNone]. *)
Inductive WorkerEvent :=
| EvStart (run_id step_id : string) (attempt : Z)
| EvHeartbeat (progress_pct : Z)
| EvComplete (result_json : string)
| EvError (code message : string) (retryable : bool)
| EvNone.

(** How [Recv] ends a stream. *)
Inductive stream_end := StreamEOF | StreamError (e : err).

(** [codes.Code], as far as the server uses it. *)
Inductive grpc_code := CodeNotFound | CodeFailedPrecondition | CodeInvalidArgument | CodeInternal.
#[export] Instance grpc_code_eq_dec : EqDecision grpc_code.
Proof. solve_decision. Defined.

(** What the handler returns to gRPC: nil, a status, or the transport's error. *)
Inductive rpc_result :=
| RpcOK
| RpcStatus (c : grpc_code) (message : string)
| RpcTransport (e : err).

Section Liveness.
Context `{Env} `{Store St}.
Abbreviation M := (M (World St)).

(** [statusOf]. *)
Definition statusOf (e : err) : rpc_result :=
  if errors_Is e ErrRunNotFound then RpcStatus CodeNotFound (err_Error e)
  else if errors_Is e ErrStepNotAwaited then RpcStatus CodeFailedPrecondition (err_Error e)
  else RpcStatus CodeInternal "liveness: the report could not be recorded".

(** ** reporter.go *)

(** [StoreReporter]: its optional publisher and compensator. *)
Record StoreReporter := mkReporter {
  rep_Advance : option (Publisher St);
  rep_Compensator : option (uuid → string → M (res unit))
}.

(** The run waits for the report of [stepID] at [attempt]. *)
Definition awaits_report (run : SagaRun) (stepID : string) (attempt : Z) : Prop :=
  run_State run = RunStatePaused ∧ run_AwaitedActionDispatch run ≠ None ∧
  run_CurrentStep run = stepID ∧ run_CurrentAttempt run = attempt.
#[export] Instance awaits_report_dec run s a : Decision (awaits_report run s a).
Proof. unfold awaits_report. apply _. Defined.

Definition CheckStep (runID : uuid) (stepID : string) (attempt : Z) : M (res unit) :=
  let* r := GetRun runID in
  match r with
  | Err e =>
      if errors_As_NotFound e then ret (Err (EDetail ErrRunNotFound (uuid_string runID)))
      else ret (Err (EWrap ("liveness: read run " +:+ uuid_string runID) e))
  | Ok run =>
      if decide (awaits_report run stepID attempt) then ret (Ok tt)
      else ret (Err (EDetail ErrStepNotAwaited
                       ("run " +:+ uuid_string runID +:+ " step " +:+ stepID +:+
                        " attempt " +:+ itoa attempt)))
  end.

(** [CompleteStep]: merge the result, then wake the run; a failed publish is
    only logged. *)
Definition CompleteStep (r : StoreReporter) (runID : uuid) (stepID : string) (attempt : Z)
    (result : Vars) : M (res unit) :=
  try* _ := CheckStep runID stepID attempt else id in
  try* _ := CompleteAction runID attempt result
    else EWrap ("liveness: complete " +:+ uuid_string runID +:+ "/" +:+ stepID) in
  match rep_Advance r with
  | Some publish => do* publish (uuid_string runID) in ret (Ok tt)
  | None => ret (Ok tt)
  end.

(** [FailStep]: fail the run, then roll back; a failed rollback is only logged. *)
Definition FailStep (r : StoreReporter) (runID : uuid) (stepID : string) (attempt : Z)
    (code message : string) (retryable : bool) : M (res unit) :=
  try* _ := CheckStep runID stepID attempt else id in
  try* _ := FailAction runID attempt code message retryable
    else EWrap ("liveness: fail " +:+ uuid_string runID +:+ "/" +:+ stepID) in
  match rep_Compensator r with
  | Some compensateFailed => do* compensateFailed runID stepID in ret (Ok tt)
  | None => ret (Ok tt)
  end.

(** ** server.go *)

(** The map [complete] hands over: what does not decode is kept as text. *)
Definition complete_result (b : string) : Vars :=
  if decide (b = "") then ∅
  else match json_object b with
       | Ok result => result
       | Err _ => {["_raw_result" := VStr b]}
       end.

(** [Server.complete]. *)
Definition complete (r : StoreReporter) (runID : uuid) (stepID : string) (attempt : Z)
    (result_json : string) : M rpc_result :=
  let* e := CompleteStep r runID stepID attempt (complete_result result_json) in
  match e with
  | Err e => ret (statusOf e)
  | Ok _ => ret RpcOK
  end.

(** The variables [StartJob] sets; [None] before it. *)
Definition job : Type := option (uuid * string * Z).

(** Whether the loop goes on, or the handler has returned. *)
Inductive served := Serving (j : job) | Ended (res : rpc_result).

(** The loop body of [ExecuteStep] on one frame. *)
Definition server_event (r : StoreReporter) (j : job) (ev : WorkerEvent) : M served :=
  match ev, j with
  | EvStart _ _ _, Some _ =>
      ret (Ended (RpcStatus CodeInvalidArgument "liveness: duplicate StartJob"))
  | EvStart run_id step_id attempt, None =>
      match uuid_parse run_id with
      | Err _ => ret (Ended (RpcStatus CodeInvalidArgument "liveness: run_id is not a uuid"))
      | Ok runID =>
          let* c := CheckStep runID step_id attempt in
          match c with
          | Err e => ret (Ended (statusOf e))
          | Ok _ =>
              let* s := send MAck in
              match s with
              | Err e => ret (Ended (RpcTransport e))
              | Ok _ => ret (Serving (Some (runID, step_id, attempt)))
              end
          end
      end
  | EvHeartbeat _, _ | EvNone, _ => ret (Serving j)
  | EvComplete _, None =>
      ret (Ended (RpcStatus CodeInvalidArgument "liveness: Complete before StartJob"))
  | EvComplete result_json, Some (runID, stepID, attempt) =>
      let* c := complete r runID stepID attempt result_json in ret (Ended c)
  | EvError _ _ _, None =>
      ret (Ended (RpcStatus CodeInvalidArgument "liveness: Error before StartJob"))
  | EvError code message retryable, Some (runID, stepID, attempt) =>
      let* e := FailStep r runID stepID attempt code message retryable in
      match e with
      | Err e => ret (Ended (statusOf e))
      | Ok _ => ret (Ended RpcOK)
      end
  end.

(** The loop over the rest of the stream. *)
Fixpoint serve (r : StoreReporter) (j : job) (evs : list WorkerEvent) (eos : stream_end)
    : M rpc_result :=
  match evs with
  | [] =>
      match eos with
      | StreamEOF => ret RpcOK
      | StreamError e => ret (RpcTransport e)
      end
  | ev :: evs =>
      let* s := server_event r j ev in
      match s with
      | Serving j => serve r j evs eos
      | Ended res => ret res
      end
  end.

Definition ExecuteStep (r : StoreReporter) (evs : list WorkerEvent) (eos : stream_end)
    : M rpc_result :=
  serve r None evs eos.

(** [Coordinator] is a [Compensator]; the reporter the engine's binary wires. *)
Definition engine_reporter (c : Coordinator St) : StoreReporter :=
  mkReporter (c_publisher c) (Some (CompensateFailedStep c)).
End Liveness.
Arguments StoreReporter St : clear implicits.
Arguments mkReporter {St}.
Arguments rep_Advance {St}.
Arguments rep_Compensator {St}.
