(* ===== verification/Worker.v ===== *)
(** The Go worker client: [src/clients/go/worker].

    [types.go], [idempotency.go] and [runtime.go]: how one delivery is decoded,
    matched to a handler, reported over a liveness stream and settled, and
    [registration.go]: the worker's configuration.  A worker runs in a process
    state [W] of its own; the stream, the idempotency store and the handlers are
    computations on it.  How a worker starts is in [Bootstrap]; logging is left out. *)
From S2P Require Import Prelude Values Domain World StoreApi Engine Liveness.

(** ** types.go *)

(** [ActionPayload], the body of a dispatch. *)
Record WorkerPayload := mkPayload {
  wp_RunID : string;
  wp_StepID : string;
  wp_Attempt : Z;
  wp_IdempotencyKey : string;
  wp_Action : string;
  wp_Inputs : Vars;
  wp_DryRun : bool;
  wp_Compensation : bool
}.

Definition IsCompensation (p : WorkerPayload) : bool :=
  wp_Compensation p || bool_decide (wp_Attempt p = 0%Z).

(** What a handler returns: a result, a plain error, or one with a code
    ([CodedError], or anything with [Code] and [Retryable]). *)
Inductive handler_result :=
| HResult (r : Vars)
| HError (msg : string)
| HCoded (code msg : string) (retryable : bool).

Definition WorkerHandler (W : Type) : Type := WorkerPayload → M W handler_result.

(** ** idempotency.go *)
Record IdempotencyStore (W : Type) := mkIdem {
  idem_Get : string → M W (res (option Vars));
  idem_Put : string → Vars → M W (res unit)
}.
Arguments mkIdem {W}.
Arguments idem_Get {W}.
Arguments idem_Put {W}.

(** [MemoryIdempotencyStore], a map kept in the part of the state that [get]
    and [put] reach. *)
Definition MemoryIdempotencyStore {W} (get : W → gmap string Vars)
    (put : gmap string Vars → W → W) : IdempotencyStore W :=
  mkIdem (λ key w, (Ok (get w !! key), w))
         (λ key result w, (Ok tt, put (<[key := result]> (get w)) w)).

Definition Wrap {W} (store : IdempotencyStore W) (inner : WorkerHandler W) : WorkerHandler W :=
  λ payload,
    let key := wp_IdempotencyKey payload in
    let* hit := (if decide (key = "") then ret None
                 else let* r := idem_Get store key in
                      ret (match r with Ok cached => cached | Err _ => None end)) in
    match hit with
    | Some cached => ret (HResult cached)
    | None =>
        let* r := inner payload in
        match r with
        | HResult result =>
            if decide (key = "") then ret (HResult result)
            else do* idem_Put store key result in ret (HResult result)
        | _ => ret r
        end
    end.

(** ** runtime.go *)

(** An error of the stream, with its gRPC status if that is one of the
    server's. *)
Definition rpc_err : Type := option grpc_code * string.

(** What [stream.Recv] gives the client. *)
Inductive received := RecvAck | RecvOther | RecvErr (e : rpc_err).

(** A stream of the [WorkerLivenessClient]. *)
Record LivenessClient (W : Type) := mkClient {
  client_ExecuteStep : M W (option rpc_err);
  stream_Send : WorkerEvent → M W (option rpc_err);
  stream_Recv : M W received
}.
Arguments mkClient {W}.
Arguments client_ExecuteStep {W}.
Arguments stream_Send {W}.
Arguments stream_Recv {W}.

Definition MaxInt32 : Z := 2147483647.
Definition attemptInt32 (n : Z) : Z :=
  if decide (n < 0)%Z then 0%Z else if decide (MaxInt32 < n)%Z then MaxInt32 else n.

(** [refused]: the engine does not wait for this report. *)
Definition refused (e : rpc_err) : bool :=
  bool_decide (e.1 = Some CodeNotFound ∨ e.1 = Some CodeFailedPrecondition).

(** How a delivery leaves the queue; a nack without requeue dead-letters it. *)
Inductive settled := Ack | Nack (requeue : bool).

Section Worker.
Context `{Env} {W : Type}.
Context (decode_payload : string → res WorkerPayload).
Abbreviation M := (M W).

(** The terminal frame that reports [r]. *)
Definition report_frame (r : handler_result) : WorkerEvent :=
  match r with
  | HResult result =>
      EvComplete (match json_marshal (VMap result) with Ok bs => bs | Err _ => "" end)
  | HError msg => EvError "handler_error" msg true
  | HCoded code msg retryable => EvError code msg retryable
  end.

(** [driveStream]; the outcome of the terminal send is only logged. *)
Definition driveStream (client : LivenessClient W) (payload : WorkerPayload)
    (h : WorkerHandler W) : M (option rpc_err) :=
  let wrap what := λ e : rpc_err, Some (e.1, what +:+ e.2) in
  let* opened := client_ExecuteStep client in
  match opened with
  | Some e => ret (wrap "open stream: " e)
  | None =>
      let* s := stream_Send client
        (EvStart (wp_RunID payload) (wp_StepID payload) (attemptInt32 (wp_Attempt payload))) in
      match s with
      | Some e => ret (wrap "send start: " e)
      | None =>
          let* ev := stream_Recv client in
          match ev with
          | RecvErr e => ret (wrap "recv ack: " e)
          | RecvOther => ret (Some (None, "expected ack"))
          | RecvAck =>
              let* r := h payload in
              do* stream_Send client (report_frame r) in
              ret None
          end
      end
  end.

Definition runCompensation (payload : WorkerPayload) (h : WorkerHandler W) : M settled :=
  let* r := h payload in
  match r with
  | HResult _ => ret Ack
  | _ => ret (Nack false)
  end.

Definition processDelivery (handlers : gmap string (WorkerHandler W))
    (client : LivenessClient W) (body : string) : M settled :=
  match decode_payload body with
  | Err _ => ret (Nack false)
  | Ok payload =>
      match handlers !! wp_Action payload with
      | None => ret (Nack false)
      | Some h =>
          if IsCompensation payload then runCompensation payload h
          else
            let* e := driveStream client payload h in
            match e with
            | Some e => if refused e then ret Ack else ret (Nack true)
            | None => ret Ack
            end
      end
  end.

(** ** registration.go *)
Record Action := mkWAction {
  wa_Name : string;
  wa_Description : string;
  wa_Category : string;
  wa_Compensable : bool;
  wa_InputSchema : Vars;
  wa_OutputSchema : Vars;
  wa_ErrorCodes : list string;
  wa_DefaultRetry : Vars;
  wa_DefaultTimeoutMS : Z;
  wa_LicenseGroup : string;
  wa_DryRunSupported : bool;
  wa_Handler : option (WorkerHandler W)
}.
Record BootstrapConfig := mkConfig {
  bc_Service : string;
  bc_ServiceVersion : string;
  bc_RegistryURL : string;
  bc_RmqURL : string;
  bc_GrpcURL : string;
  bc_Actions : list Action;
  bc_SkipRegistration : bool;
  bc_QualifiedActionNames : bool;
  bc_Queue : string
}.

Definition routingKey (c : BootstrapConfig) (a : Action) : string :=
  if bc_QualifiedActionNames c then wa_Name a else bc_Service c +:+ "." +:+ wa_Name a.
Definition RoutingKeys (c : BootstrapConfig) : list string := routingKey c <$> bc_Actions c.
Definition QueueName (c : BootstrapConfig) : string :=
  if decide (bc_Queue c = "") then bc_Service c +:+ ".actions" else bc_Queue c.

(** The loop of [Validate] over the actions. *)
Fixpoint validate_actions (qualified : bool) (i : nat) (seen : gset string) (l : list Action)
    : option err :=
  match l with
  | [] => None
  | a :: l =>
      let n := wa_Name a in
      let at_ := "worker: Actions[" +:+ itoa (Z.of_nat i) +:+ "]" in
      if decide (n = "") then Some (EMsg (at_ +:+ ".Name required"))
      else if decide (n ∈ seen) then Some (EMsg ("worker: duplicate Action name " +:+ quote n))
      else
        match wa_Handler a with
        | None => Some (EMsg (at_ +:+ " (" +:+ n +:+ ") missing Handler"))
        | Some _ =>
            if qualified && negb (strings_Contains n ".") then
              Some (EMsg (at_ +:+ " qualified name " +:+ quote n +:+
                          " has no dot (want service.name)"))
            else validate_actions qualified (S i) ({[n]} ∪ seen) l
        end
  end.

Definition Validate (c : BootstrapConfig) : option err :=
  if decide (bc_Service c = "") then Some (EMsg "worker: Service required")
  else if decide (bc_RegistryURL c = "" ∧ bc_SkipRegistration c = false) then
    Some (EMsg "worker: RegistryURL required (or set SkipRegistration)")
  else if decide (bc_RmqURL c = "") then Some (EMsg "worker: RmqURL required")
  else if decide (bc_GrpcURL c = "") then Some (EMsg "worker: GrpcURL required")
  else if decide (bc_Actions c = []) then Some (EMsg "worker: at least one Action required")
  else validate_actions (bc_QualifiedActionNames c) 0 ∅ (bc_Actions c).

(** The handler table of [Bootstrap]: a later action replaces an earlier one
    with the same key. *)
Definition handler_table (c : BootstrapConfig) : gmap string (WorkerHandler W) :=
  fold_left (λ m a, match wa_Handler a with
                    | Some h => <[routingKey c a := h]> m
                    | None => m
                    end) (bc_Actions c) ∅.
End Worker.
