(* ===== verification/LivenessProps.v ===== *)
(** Properties of the liveness service: what an accepted report does, and what a
    delivery does end to end when a worker handles it against the engine's
    server. *)
From S2P Require Import Prelude Values Domain World Demo StoreApi Rows StoreSpec MemStore MemSpec.
From S2P Require Import VerbsData Join Fanout VerbsEffect Action Registry Retry Engine.
From S2P Require Import EngineLemmas EngineStep EngineRounds EngineProps Liveness Worker.

Section LivenessProps.
Context `{StoreSpec St}.
Implicit Types w : World St.

(** ** Reports *)

(** The verdict of [CheckStep] on the rows of a view. *)
Definition check_verdict (v : SView) (id : uuid) (sid : string) (a : Z) : res unit :=
  match v_runs v !! id with
  | None => Err (EDetail ErrRunNotFound (uuid_string id))
  | Some run =>
      if decide (awaits_report run sid a) then Ok tt
      else Err (EDetail ErrStepNotAwaited
                  ("run " +:+ uuid_string id +:+ " step " +:+ sid +:+ " attempt " +:+ itoa a))
  end.

Lemma CheckStep_spec id sid a w :
  implements view (CheckStep id sid a) w (check_verdict (V w) id sid a) (V w).
Proof.
  unfold CheckStep. eapply implements_bind; [apply spec_GetRun|]. intros w1 _ Hv1.
  fold (V w). unfold check_verdict, found, V in *.
  destruct (v_runs (view (w_store w)) !! id) as [run|]; [case_decide|];
    rewrite <-Hv1; apply implements_ret.
Qed.

Lemma awaited_checks id sid a w r :
  v_runs (V w) !! id = Some r → awaits_report r sid a → check_verdict (V w) id sid a = Ok tt.
Proof. intros Hr Ha. unfold check_verdict. by rewrite Hr, decide_True. Qed.

(** The engine waits for the report of [sid] at [a]. *)
Definition awaited (v : SView) (id : uuid) (sid : string) (a : Z) : Prop :=
  ∃ r, v_runs v !! id = Some r ∧ awaits_report r sid a.

#[global] Instance awaited_dec v id sid a : Decision (awaited v id sid a).
Proof.
  refine (match v_runs v !! id as o return v_runs v !! id = o → _ with
          | Some r => λ E, cast_if (decide (awaits_report r sid a))
          | None => λ E, right _
          end eq_refl); unfold awaited; naive_solver.
Defined.

Lemma not_awaited_verdict v id sid a :
  ¬ awaited v id sid a →
  ∃ e c, check_verdict v id sid a = Err e ∧ statusOf e = RpcStatus c (err_Error e) ∧
         refused (Some c, err_Error e) = true ∧ (c = CodeNotFound ↔ v_runs v !! id = None).
Proof.
  intros Hn. unfold check_verdict. destruct (v_runs v !! id) as [r|] eqn:Hr.
  - rewrite decide_False by (intros ?; apply Hn; by exists r).
    eexists _, CodeFailedPrecondition. split_and!; try done.
  - eexists _, CodeNotFound. split_and!; try done.
Qed.

(** An accepted completion: the row takes the result and a due wakeup, nothing
    else moves, and the run is published. *)
Lemma CompleteStep_accepted comp id sid a result w r :
  v_runs (V w) !! id = Some r → awaits_report r sid a →
  ∃ w', CompleteStep (mkReporter (Some mq_PublishSagaAdvance) comp) id sid a result w = (Ok tt, w') ∧
    V w' = alter_run (λ _, row_CompleteAction (w_now w) result r) id (V w) ∧
    w_now w' = w_now w ∧ (w_out w').*1 = (w_out w).*1 ++ [MAdvance (uuid_string id)].
Proof.
  intros Hr Ha. unfold CompleteStep.
  pose proof (CheckStep_spec id sid a w) as Hc. rewrite (awaited_checks _ _ _ _ _ Hr Ha) in Hc.
  sexec Hc. destruct (spec_CompleteAction id a result w0) as (w1 & E1 & He1 & Hv1).
  rewrite Hv, (found_Some _ (V w) _ r) in E1 by done. mstep E1. clear E1. simpl.
  eexists. split; [reflexivity|].
  destruct He as (Hn & _ & _ & _ & Ho), He1 as (Hn1 & _ & _ & _ & Ho1). split_and!; simpl.
  - unfold V at 1; simpl. rewrite Hv1, Hv, Hn. unfold alter_run. f_equal. simpl.
    rewrite !(alter_insert_lookup _ _ r) by done. unfold Complete_row.
    rewrite decide_False; [done|]. destruct Ha as (_ & _ & _ & ?). naive_solver.
  - congruence.
  - rewrite fmap_app, Ho1, Ho. done.
Qed.

(** *** Failures *)

Lemma moves_FailAction id a code msg retryable w r :
  v_runs (V w) !! id = Some r → run_CurrentAttempt r = a →
  moves id (FailAction id a code msg retryable) w r (Ok tt)
    [(EventStepFailed, run_CurrentStep r, "engine")] (row_FailAction (w_now w) msg r).
Proof.
  intros Hr Ha. pose proof (spec_FailAction id a code msg retryable w) as Hs.
  unfold V in *. rewrite Hr, decide_True in Hs by done.
  destruct Hs as (e & (w' & E & (E1 & E2 & _ & _ & E5) & Hv) & <- & Hty & Hsid & Hact).
  exists w'. split; [done|]. unfold moved, V. rewrite Hv. split_and!; try done.
  - by rewrite add_event_runs, (alter_run_lookup _ _ _ r).
  - intros j Hj. by rewrite add_event_runs, alter_run_lookup_ne.
  - exists [e]. rewrite add_event_events, alter_run_events. split; [done|]. cbn. unfold stamp. congruence.
  - intros j Hj. by rewrite add_event_events_ne, alter_run_events.
Qed.

(** The row a failed report leaves: failed at the reported step, with the
    worker's message, no awaited action, and the try_catch frames untouched. *)
Definition failed_by_report (msg : string) (r r' : SagaRun) : Prop :=
  run_State r' = RunStateFailed ∧ run_CurrentStep r' = run_CurrentStep r ∧
  run_AwaitedActionDispatch r' = None ∧ run_TryCatchStack r' = run_TryCatchStack r ∧
  run_LastError r' = (if decide (msg = "") then run_LastError r else Some msg).

Lemma row_FailAction_failed now msg r : failed_by_report msg r (row_FailAction now msg r).
Proof. unfold failed_by_report, row_FailAction. by case_decide. Qed.

(** The rollback of a run that a report failed: it settles back to failed. *)
Lemma CompensateFailedStep_settles c id sid w r d :
  v_runs (V w) !! id = Some r → run_ID r = id → run_State r = RunStateFailed →
  v_defs (V w) !! run_DefinitionID r = Some d → quiet (c_publisher c) →
  quiet_dispatch (compensation_verb (c_verbs c)) → run_ParentRunID r ≠ Some id →
  ∃ w' r', CompensateFailedStep c id sid w = (Ok tt, w') ∧
    v_runs (V w') !! id = Some r' ∧
    (r' = r ∨ r' = row_UpdateRunState RunStateFailed (run_CurrentStep r)
                     (row_UpdateRunState RunStateCompensating (run_CurrentStep r) r)) ∧
    ∃ es, events_of (V w') id = events_of (V w) id ++ es ∧
      stamp <$> es =
        if decide (completed_steps d sid (events_of (V w) id) ∅ = []) then []
        else [(EventCompensationStarted, sid, "engine")].
Proof.
  intros Hr Hid Hst Hd Hq Hqd Hp. unfold CompensateFailedStep.
  destruct (moves_GetRun id w r Hr) as (w1 & E1 & M1). mstep E1. rewrite Hst.
  rewrite decide_False by naive_solver.
  pose proof (moved_row _ _ _ _ _ _ M1) as Hr1. pose proof (moved_defs _ _ _ _ _ _ M1) as Hd1.
  destruct (moves_GetDef id _ d w1 r Hr1 ltac:(by rewrite Hd1)) as (w2 & E2 & M2). mstep E2.
  set (step := default (bare_step sid) (StepByID d sid)). assert (step_ID step = sid) as Hsid.
  { unfold step, StepByID. destruct (find_step sid (def_Steps d)) eqn:Hf; [|done].
    by apply find_step_Some in Hf as [_ ?]. }
  pose proof (moved_trans _ _ _ _ _ _ _ _ _ M1 M2) as M12. simpl in M12.
  pose proof M12 as (_ & _ & Hr2 & _ & _ & (es2 & He2 & Hst2) & _).
  apply fmap_nil_inv in Hst2 as ->. rewrite app_nil_r in He2.
  destruct (compensate_spec c id w2 r r d step Hid Hr2 Hqd) as (w3 & w3' & E3 & _ & HV3 & Hc).
  mstep E3. rewrite bool_decide_eq_true_2 by done. rewrite bind_assoc.
  rewrite Hsid, He2 in Hc. case_decide as Hnone.
  - destruct Hc as [M3 _]. pose proof M3 as (_ & _ & Hr3 & _ & _ & (es3 & He3 & Hst3) & _).
    rewrite <-HV3 in Hr3, He3. destruct (moves_GetRun id w3 r Hr3) as (w4 & E4 & M4). mstep E4.
    rewrite decide_False by (rewrite Hst; done). rewrite bind_ret.
    exists (checkParentJoin (c_publisher c) r w4).2, r. split_and!; [|  |by left|].
    + unfold bind. by destruct (checkParentJoin _ _ _) as [[] ?].
    + unfold V in *. rewrite checkParentJoin_row by done. by eapply moved_row.
    + exists es3. unfold V in *. rewrite checkParentJoin_events by done.
      destruct M4 as (_ & _ & _ & _ & _ & (es4 & He4 & Hst4) & _). apply fmap_nil_inv in Hst4 as ->.
      unfold V in *. rewrite He4, app_nil_r, He3, He2. by split.
  - destruct Hc as [M3 _]. pose proof M3 as (_ & _ & Hr3 & _ & _ & (es3 & He3 & Hst3) & _).
    rewrite <-HV3 in Hr3, He3. destruct (moves_GetRun id w3 _ Hr3) as (w4 & E4 & M4). mstep E4.
    rewrite decide_True by done. pose proof (moved_row _ _ _ _ _ _ M4) as Hr4.
    destruct (moves_UpdateRunState id RunStateFailed (run_CurrentStep r) w4 _ Hr4) as (w5 & E5 & M5).
    rewrite bind_assoc. mstep E5. rewrite bind_ret.
    exists (checkParentJoin (c_publisher c) r w5).2. eexists. split_and!; [|  |by right|].
    + unfold bind. by destruct (checkParentJoin _ _ _) as [[] ?].
    + unfold V in *. rewrite checkParentJoin_row by done. by eapply moved_row.
    + exists es3. unfold V in *. rewrite checkParentJoin_events by done.
      pose proof (moved_trans _ _ _ _ _ _ _ _ _ M4 M5) as (_ & _ & _ & _ & _ & (es4 & He4 & Hst4) & _).
      apply fmap_nil_inv in Hst4 as ->. unfold V in *. rewrite He4, app_nil_r, He3, He2. by split.
Qed.

Lemma FailStep_outcome c id sid a code msg retryable w r d :
  v_runs (V w) !! id = Some r → run_ID r = id → awaits_report r sid a →
  v_defs (V w) !! run_DefinitionID r = Some d → quiet (c_publisher c) →
  quiet_dispatch (compensation_verb (c_verbs c)) → run_ParentRunID r ≠ Some id →
  ∃ w' r', FailStep (engine_reporter c) id sid a code msg retryable w = (Ok tt, w') ∧
    v_runs (V w') !! id = Some r' ∧ failed_by_report msg r r' ∧
    ∃ es, events_of (V w') id = events_of (V w) id ++ es ∧
      stamp <$> es = (EventStepFailed, sid, "engine") ::
        (if decide (completed_steps d sid (events_of (V w) id) ∅ = []) then []
         else [(EventCompensationStarted, sid, "engine")]).
Proof.
  intros Hr Hid Ha Hd Hq Hqd Hp. unfold FailStep.
  pose proof (CheckStep_spec id sid a w) as Hc. rewrite (awaited_checks _ _ _ _ _ Hr Ha) in Hc.
  sexec Hc. destruct Ha as (_ & _ & Hsid & Hatt). rewrite <-Hv in Hr, Hd.
  destruct (moves_FailAction id a code msg retryable w0 r Hr Hatt) as (w1 & E1 & M1). mstep E1.
  simpl. pose proof (row_FailAction_failed (w_now w0) msg r) as Hf.
  set (r1 := row_FailAction (w_now w0) msg r) in *.
  assert (run_ID r1 = run_ID r ∧ run_DefinitionID r1 = run_DefinitionID r ∧
          run_ParentRunID r1 = run_ParentRunID r) as (Hi1 & Hd1 & Hp1).
  { unfold r1, row_FailAction. by case_decide. }
  clearbody r1. pose proof M1 as (_ & _ & _ & _ & _ & (es1 & He1 & Hst1) & _).
  destruct (CompensateFailedStep_settles c id sid w1 r1 d) as (w2 & r2 & E2 & Hr2 & Hcase & es2 & He2 & Hst2);
    [by eapply moved_row|congruence|by destruct Hf as (?&_)|
     by rewrite (moved_defs _ _ _ _ _ _ M1), Hd1|done|done|congruence|].
  mstep E2. exists w2, r2. split; [done|]. split; [done|]. split.
  - destruct Hcase as [->| ->]; [done|]. destruct Hf as (? & ? & ? & ? & ?).
    by split_and!.
  - exists (es1 ++ es2). rewrite He2, He1, <-app_assoc, fmap_app, Hst1, Hst2, Hsid.
    unfold V at 1. rewrite Hv. split; [done|]. simpl. f_equal.
    assert (completed_steps d sid (events_of (V w1) id) ∅ =
            completed_steps d sid (events_of (V w) id) ∅) as ->; [|done].
    rewrite He1. unfold V at 1. rewrite Hv. fold (V w). apply completed_steps_app.
    destruct es1 as [|e [|]]; [done| |done]. constructor; [|constructor].
    injection Hst1 as Hty _ _. by rewrite Hty.
Qed.

(** C34: a worker's failure report ends the run, whatever the policy: an accepted
    report fails the run at the reported step with the worker's message and rolls
    back the steps that had succeeded; the [retryable] flag is not consulted, and
    the run's try_catch frames neither catch the error nor are popped. *)
Theorem FailStep_fails_run c id sid a code msg retryable w r d :
  v_runs (V w) !! id = Some r → run_ID r = id → awaits_report r sid a →
  v_defs (V w) !! run_DefinitionID r = Some d → quiet (c_publisher c) →
  quiet_dispatch (compensation_verb (c_verbs c)) → run_ParentRunID r ≠ Some id →
  ∃ w' r', FailStep (engine_reporter c) id sid a code msg retryable w = (Ok tt, w') ∧
    v_runs (V w') !! id = Some r' ∧ failed_by_report msg r r' ∧
    ∃ es, events_of (V w') id = events_of (V w) id ++ es ∧
      stamp <$> es = (EventStepFailed, sid, "engine") ::
        (if decide (completed_steps d sid (events_of (V w) id) ∅ = []) then []
         else [(EventCompensationStarted, sid, "engine")]).
Proof. apply FailStep_outcome. Qed.

(** ** A delivery, end to end

    The process that hosts the engine and one worker: the engine's world, the calls the
    handlers received, the open stream, with whether the server has acknowledged and the
    client not yet read it, the terminal frames the transport has taken and not yet handed to
    the server, and what the network does with the next calls of the client. *)
(** A call goes through; the stream breaks before the server sees the frame, or after; or the
    frame is taken and the stream breaks later, so that it arrives later or never. *)
Inductive net := Arrives | Breaks (msg : string) | BreaksAfter (msg : string) | Delayed.
Record Proc := mkProc {
  p_world : World St;
  p_calls : list WorkerPayload;
  p_stream : option (served * bool);
  p_flight : list ((uuid * string * Z) * WorkerEvent);
  p_net : list net
}.

Definition on_world {A} (c : M (World St) A) : M Proc A := λ p,
  let '(a, w) := c (p_world p) in (a, mkProc w (p_calls p) (p_stream p) (p_flight p) (p_net p)).
Definition set_stream (s : option (served * bool)) : M Proc unit := λ p,
  (tt, mkProc (p_world p) (p_calls p) s (p_flight p) (p_net p)).
Definition set_flight l : M Proc unit := λ p,
  (tt, mkProc (p_world p) (p_calls p) (p_stream p) l (p_net p)).
(** What the network does next; nothing goes wrong when nothing is said. *)
Definition next_net : M Proc net := λ p,
  match p_net p with
  | [] => (Arrives, p)
  | n :: ns => (n, mkProc (p_world p) (p_calls p) (p_stream p) (p_flight p) ns)
  end.

(** The status a client sees when the server's handler has returned. *)
Definition rpc_status (res : rpc_result) : rpc_err :=
  match res with
  | RpcOK => (None, "EOF")
  | RpcStatus c m => (Some c, m)
  | RpcTransport e => (None, err_Error e)
  end.

(** The server handles a frame of the open stream. *)
Definition serve_frame (r : StoreReporter St) (ev : WorkerEvent) : M Proc (option rpc_err) := λ p,
  match p_stream p with
  | Some (Serving j, _) =>
      (let* s := on_world (server_event r j ev) in
       do* set_stream (Some (s, match s, ev with Serving _, EvStart _ _ _ => true | _, _ => false end)) in
       ret None) p
  | _ => (Some (None, "EOF"), p)
  end.
(** The transport keeps the terminal frame of a started job; a [StartJob] that comes too late
    for its stream makes the server read and answer nobody. *)
Definition delay_frame (ev : WorkerEvent) : M Proc unit := λ p,
  match p_stream p, ev with
  | Some (Serving (Some job), _), (EvComplete _ | EvError _ _ _) =>
      set_flight (p_flight p ++ [(job, ev)]) p
  | _, _ => (tt, p)
  end.
Definition read_stream : M Proc received := λ p,
  match p_stream p with
  | Some (s, true) => (do* set_stream (Some (s, false)) in ret RecvAck) p
  | Some (Ended res, false) => (RecvErr (rpc_status res), p)
  | _ => (RecvErr (None, "stream not open"), p)
  end.

(** A stream to [server_event] over the network; a broken stream is an error without a status
    of the server. *)
Definition engine_client (r : StoreReporter St) : LivenessClient Proc :=
  mkClient
    (let* n := next_net in
     match n with
     | Breaks msg | BreaksAfter msg => ret (Some (None, msg))
     | Arrives | Delayed => do* set_stream (Some (Serving None, false)) in ret None
     end)
    (λ ev,
     let* n := next_net in
     match n with
     | Arrives => serve_frame r ev
     | Breaks msg => do* set_stream None in ret (Some (None, msg))
     | BreaksAfter msg => do* serve_frame r ev in do* set_stream None in ret (Some (None, msg))
     | Delayed => do* delay_frame ev in do* set_stream None in ret None
     end)
    (let* n := next_net in
     match n with
     | Arrives | Delayed => read_stream
     | Breaks msg | BreaksAfter msg => do* set_stream None in ret (RecvErr (None, msg))
     end).

(** The server gets the [k]-th of the delayed frames. *)
Definition arrival (r : StoreReporter St) (k : nat) : M Proc unit := λ p,
  match p_flight p !! k with
  | None => (tt, p)
  | Some (job, ev) =>
      (do* on_world (server_event r (Some job) ev) in set_flight (delete k (p_flight p))) p
  end.

(** A handler that records its calls; what it returns may differ from call to call. *)
Definition recording (h : nat → WorkerPayload → handler_result) : WorkerHandler Proc := λ payload p,
  (h (length (p_calls p)) payload,
   mkProc (p_world p) (p_calls p ++ [payload]) (p_stream p) (p_flight p) (p_net p)).

(** Nothing the engine or another process can see changed. *)
Definition unseen w w' : Prop :=
  V w' = V w ∧ w_now w' = w_now w ∧ (w_out w').*1 = (w_out w).*1.
(** What was sent but acknowledgements. *)
Definition is_ack (m : Msg) : bool := match m with MAck => true | _ => false end.
Definition said w : list Msg := filter (λ m, is_ack m = false) (w_out w).*1.
(** Nothing but acknowledgements changed. *)
Definition same w w' : Prop := V w' = V w ∧ w_now w' = w_now w ∧ said w' = said w.
Lemma unseen_same w w' : unseen w w' → same w w'.
Proof. intros (Hv & Hn & Ho). split_and!; [done..|]. unfold said. by rewrite Ho. Qed.
Lemma unseen_trans w1 w2 w3 : unseen w1 w2 → unseen w2 w3 → unseen w1 w3.
Proof. intros (? & ? & ?) (? & ? & ?). split_and!; congruence. Qed.
Lemma same_trans w1 w2 w3 : same w1 w2 → same w2 w3 → same w1 w3.
Proof. intros (? & ? & ?) (? & ? & ?). split_and!; congruence. Qed.

(** What the server does with [StartJob]: it acknowledges a step the run waits for (the
    transport may refuse to take the acknowledgement), and refuses any other. *)
Lemma server_start r rid id sid a w :
  uuid_parse rid = Ok id →
  ∃ s w', server_event r None (EvStart rid sid a) w = (s, w') ∧
   if decide (awaited (V w) id sid a) then
     same w w' ∧ ((s = Serving (Some (id, sid, a)) ∧ (w_out w').*1 = (w_out w).*1 ++ [MAck]) ∨
                  ∃ e, s = Ended (RpcTransport e))
   else unseen w w' ∧ ∃ c m, s = Ended (RpcStatus c m) ∧ refused (Some c, m) = true.
Proof.
  intros Hid. pose proof (CheckStep_spec id sid a w) as Hc. cbn. rewrite Hid. case_decide as Ha.
  - destruct Ha as (run & Hr & Ha). rewrite (awaited_checks _ _ _ _ _ Hr Ha) in Hc.
    destruct Hc as (w0 & E0 & (Hn0 & _ & _ & _ & Ho) & Hv). mstep E0. unfold bind, send.
    assert (∀ x, same w (mkWorld (w_store w0) (w_now w0) (w_clk w0) (w_ids w0) (w_polls w0)
                   (w_rands w0) (w_out w0 ++ [(MAck, x)]))) as Hs.
    { intros x. split_and!; [exact Hv|exact Hn0|]. unfold said; simpl.
      by rewrite fmap_app, filter_app, Ho, app_nil_r. }
    destruct (ext_result (w_out w0) MAck) as [e|]; eexists _, _; (split; [reflexivity|]);
      (split; [apply Hs|]); [right; by eexists|left]. split; [done|]. simpl. by rewrite fmap_app, Ho.
  - destruct (not_awaited_verdict (V w) id sid a Ha) as (e & c & He & Hs & Hrf & _).
    rewrite He in Hc. destruct Hc as (w0 & E0 & (Hn0 & _ & _ & _ & Ho) & Hv). mstep E0. rewrite Hs.
    eexists _, w0. split; [reflexivity|]. split; [split_and!; [done|done|by rewrite Ho]|].
    by exists c, (err_Error e).
Qed.

Definition acks_arrive : Prop := ∀ hist, ext_result hist MAck = None.
Lemma server_start_accepted r rid id sid a w :
  acks_arrive → uuid_parse rid = Ok id → awaited (V w) id sid a →
  ∃ w', server_event r None (EvStart rid sid a) w = (Serving (Some (id, sid, a)), w') ∧ same w w'.
Proof.
  intros Hack Hid (run & Hr & Ha). pose proof (CheckStep_spec id sid a w) as Hc.
  rewrite (awaited_checks _ _ _ _ _ Hr Ha) in Hc. cbn. rewrite Hid.
  destruct Hc as (w0 & E0 & (Hn0 & _ & _ & _ & Ho) & Hv). mstep E0.
  unfold bind, send. rewrite Hack. eexists. split; [reflexivity|].
  split_and!; [exact Hv|exact Hn0|]. unfold said; simpl. by rewrite fmap_app, filter_app, Ho, app_nil_r.
Qed.

(** What the server does with the terminal frame of a started job. *)
Lemma server_terminal r job ev w :
  match ev with EvComplete _ | EvError _ _ _ => True | _ => False end →
  ∃ res w', server_event r (Some job) ev w = (Ended res, w').
Proof.
  destruct job as [[id sid] a]. destruct ev; try done; intros _; cbn; unfold bind, ret.
  - destruct (complete _ _ _ _ _ _). eauto.
  - destruct (FailStep _ _ _ _ _ _ _ _) as [[] ?]; eauto.
Qed.
(** A report of a step the run does not wait for is refused. *)
Lemma server_report_refused r id sid a res w :
  ¬ awaited (V w) id sid a →
  ∃ verdict w', server_event r (Some (id, sid, a)) (report_frame res) w = (Ended verdict, w') ∧
    unseen w w'.
Proof.
  intros Ha. destruct (not_awaited_verdict (V w) id sid a Ha) as (e & c & He & _).
  pose proof (CheckStep_spec id sid a w) as Hc. rewrite He in Hc.
  destruct Hc as (w0 & E0 & (Hn0 & _ & _ & _ & Ho) & Hv).
  assert (unseen w w0) as Hu by (split_and!; [done|done|by rewrite Ho]).
  destruct res; cbn; [unfold complete, CompleteStep|unfold FailStep..]; rewrite !bind_assoc;
    mstep E0; unfold bind, ret; by eexists _, w0.
Qed.

#[local] Arguments server_event : simpl never.
Implicit Types (p : Proc) (payload : WorkerPayload).

Lemma attemptInt32_id n : (0 ≤ n ≤ MaxInt32)%Z → attemptInt32 n = n.
Proof. intros Hn. unfold attemptInt32. by rewrite !decide_False by lia. Qed.

Definition fits payload : Prop := (0 ≤ wp_Attempt payload ≤ MaxInt32)%Z.

(** *** The calls of the client, over any network *)
Lemma open_stream r p : ∃ ns,
  (∃ msg, client_ExecuteStep (engine_client r) p =
     (Some (None, msg), mkProc (p_world p) (p_calls p) (p_stream p) (p_flight p) ns)) ∨
  client_ExecuteStep (engine_client r) p =
    (None, mkProc (p_world p) (p_calls p) (Some (Serving None, false)) (p_flight p) ns).
Proof.
  destruct p as [w cs st fl [|[|m|m|] ns]]; cbn; [exists []; by right|exists ns..];
    [by right|left; by eexists|left; by eexists|by right].
Qed.
Lemma send_frame r ev p j b : p_stream p = Some (Serving j, b) →
  ∃ ns s w', server_event r j ev (p_world p) = (s, w') ∧
  ((∃ msg, stream_Send (engine_client r) ev p =
      (Some (None, msg), mkProc (p_world p) (p_calls p) None (p_flight p) ns)) ∨
   (∃ msg, stream_Send (engine_client r) ev p =
      (Some (None, msg), mkProc w' (p_calls p) None (p_flight p) ns)) ∨
   stream_Send (engine_client r) ev p =
     (None, mkProc (p_world p) (p_calls p) None (p_flight (delay_frame ev p).2) ns) ∨
   stream_Send (engine_client r) ev p =
     (None, mkProc w' (p_calls p)
              (Some (s, match s, ev with Serving _, EvStart _ _ _ => true | _, _ => false end))
              (p_flight p) ns)).
Proof.
  destruct p as [w cs st fl ns]; simpl. intros ->. destruct (server_event r j ev w) as [s w'] eqn:E.
  assert (∀ ns', serve_frame r ev (mkProc w cs (Some (Serving j, b)) fl ns') =
    (None, mkProc w' cs (Some (s, match s, ev with Serving _, EvStart _ _ _ => true | _, _ => false end)) fl ns'))
    as Hs.
  { intros ns'. unfold serve_frame, on_world, bind, set_stream, ret; simpl. by rewrite E. }
  assert (∀ ns', delay_frame ev (mkProc w cs (Some (Serving j, b)) fl ns') =
    (tt, mkProc w cs (Some (Serving j, b))
           (p_flight (delay_frame ev (mkProc w cs (Some (Serving j, b)) fl ns)).2) ns')) as Hd.
  { intros ns'. unfold delay_frame, set_flight; simpl. by destruct j as [job|], ev. }
  destruct ns as [|[|m|m|] ns]; [exists []|exists ns..]; exists s, w'; (split; [done|]);
    unfold engine_client, next_net, bind; cbn [stream_Send p_net p_world p_calls p_stream p_flight].
  - right; right; right. exact (Hs []).
  - right; right; right. exact (Hs ns).
  - left. by exists m.
  - right; left. exists m. by rewrite Hs.
  - right; right; left. by rewrite Hd.
Qed.
Lemma recv_frame r p : ∃ ns,
  (∃ msg, stream_Recv (engine_client r) p =
     (RecvErr (None, msg), mkProc (p_world p) (p_calls p) None (p_flight p) ns)) ∨
  stream_Recv (engine_client r) p =
    read_stream (mkProc (p_world p) (p_calls p) (p_stream p) (p_flight p) ns).
Proof.
  destruct p as [w cs st fl [|[|m|m|] ns]]; cbn; [exists []; by right|exists ns..];
    [by right|left; by eexists|left; by eexists|by right].
Qed.

(** The job ends before the handler is called; only a refusal of the engine looks like one. *)
Definition not_run payload id p (o : option rpc_err) p' : Prop :=
  let Aw := awaited (V (p_world p)) id (wp_StepID payload) (wp_Attempt payload) in
  (∃ e, o = Some e ∧ (refused e = true → ¬ Aw)) ∧
  p_calls p' = p_calls p ∧ p_flight p' = p_flight p ∧ same (p_world p) (p_world p') ∧
  (¬ Aw → unseen (p_world p) (p_world p')).
(** The engine acknowledged and the handler was called: its report was lost, is on its way, or
    reached the server. *)
Definition ran r payload id (h : nat → WorkerPayload → handler_result) p (o : option rpc_err) p' : Prop :=
  let job := (id, wp_StepID payload, wp_Attempt payload) in
  let fr := report_frame (h (length (p_calls p)) payload) in
  awaited (V (p_world p)) id (wp_StepID payload) (wp_Attempt payload) ∧ o = None ∧
  p_calls p' = p_calls p ++ [payload] ∧
  ∃ w1, same (p_world p) w1 ∧
    ((p_world p' = w1 ∧ (p_flight p' = p_flight p ∨ p_flight p' = p_flight p ++ [(job, fr)])) ∨
     ∃ res, server_event r (Some job) fr w1 = (Ended res, p_world p') ∧ p_flight p' = p_flight p).

Lemma report_frame_terminal res :
  match report_frame res with EvComplete _ | EvError _ _ _ => True | _ => False end.
Proof. by destruct res. Qed.
Lemma same_refl w : same w w.
Proof. done. Qed.
Lemma unseen_refl w : unseen w w.
Proof. done. Qed.

Lemma driveStream_any r payload id h p :
  fits payload → uuid_parse (wp_RunID payload) = Ok id →
  ∃ o p', driveStream (engine_client r) payload (recording h) p = (o, p') ∧
    (not_run payload id p o p' ∨ ran r payload id h p o p').
Proof.
  intros Hf Hid. unfold driveStream.
  destruct (open_stream r p) as (ns1 & [[m E1]|E1]); mstep E1.
  { eexists _, _. split; [reflexivity|left]. split_and!; [by eexists|done..]. }
  rewrite attemptInt32_id by done.
  set (start := EvStart _ _ _). set (p1 := mkProc _ _ _ _ _).
  destruct (send_frame r start p1 None false eq_refl) as (ns2 & s & w2 & Es & Hsend).
  destruct (server_start r _ id (wp_StepID payload) (wp_Attempt payload) (p_world p) Hid)
    as (s' & w2' & Es' & Hst).
  change (p_world p1) with (p_world p) in *. fold start in Es'. rewrite Es in Es'. injection Es' as <- <-.
  assert (same (p_world p) w2 ∧
          (¬ awaited (V (p_world p)) id (wp_StepID payload) (wp_Attempt payload) → unseen (p_world p) w2))
    as [Hsame Hun].
  { case_decide; destruct Hst as [Hw _]; [by split|split; [by apply unseen_same|done]]. }
  destruct Hsend as [[m E2]|[[m E2]|[E2|E2]]]; mstep E2.
  { eexists _, _. split; [reflexivity|left]. split_and!; [by eexists|done..]. }
  { eexists _, _. split; [reflexivity|left]. split_and!; [by eexists|done..]. }
  { set (p2 := mkProc _ _ _ _ _). destruct (recv_frame r p2) as (ns3 & [[m E3]|E3]); mstep E3;
      (eexists _, _; split; [reflexivity|left]; split_and!; [by eexists|done..]). }
  set (p2 := mkProc _ _ _ _ _). destruct (recv_frame r p2) as (ns3 & [[m E3]|E3]).
  { mstep E3. eexists _, _. split; [reflexivity|left]. split_and!; [by eexists|done..]. }
  case_decide as Ha.
  2:{ destruct Hst as (_ & c & m & -> & Hrf). mstep E3.
      eexists _, _. split; [reflexivity|left]. split_and!; [by eexists|done|done|done|done]. }
  destruct Hst as [_ [[-> Ho]|[e ->]]].
  2:{ mstep E3. eexists _, _. split; [reflexivity|left].
      split_and!; [by eexists|done|done|done|done]. }
  mstep E3. set (p3 := mkProc _ (p_calls p2) _ _ _). unfold bind at 1, recording at 1.
  change (p_calls p3) with (p_calls p). set (p4 := mkProc _ (_ ++ _) _ _ _).
  set (fr := report_frame _).
  destruct (send_frame r fr p4 (Some (id, wp_StepID payload, wp_Attempt payload)) false eq_refl)
    as (ns4 & s4 & w4 & Es4 & Hsend4).
  destruct (server_terminal r (id, wp_StepID payload, wp_Attempt payload) fr w2
    (report_frame_terminal _)) as (res & w4' & Et).
  change (p_world p4) with w2 in *. rewrite Et in Es4. injection Es4 as <- <-.
  destruct Hsend4 as [[m E4]|[[m E4]|[E4|E4]]]; mstep E4;
    (eexists _, _; split; [reflexivity|right]; split_and!; [done|done|done|]; exists w2; split; [done|]).
  - left. by split; [|left].
  - right. by exists res.
  - left. split; [done|right]. simpl. unfold delay_frame. simpl. subst fr. by destruct (h _ _).
  - right. by exists res.
Qed.
(** ** Deliveries *)
Context (decode_payload : string → res WorkerPayload).

(** The delivery [body] carries [payload] for the run [id], and the worker has
    the recording handler [h] for its action. *)
Record delivers (handlers : gmap string (WorkerHandler Proc)) (body : string) payload (id : uuid)
    (h : nat → WorkerPayload → handler_result) : Prop := {
  del_decode : decode_payload body = Ok payload;
  del_handler : handlers !! wp_Action payload = Some (recording h);
  del_action : IsCompensation payload = false;
  del_fits : fits payload;
  del_run : uuid_parse (wp_RunID payload) = Ok id
}.

Lemma processDelivery_drives handlers body payload id h client p :
  delivers handlers body payload id h →
  processDelivery decode_payload handlers client body p =
  (let* e := driveStream client payload (recording h) in
   match e with
   | Some e => if refused e then ret Ack else ret (Nack true)
   | None => ret Ack
   end) p.
Proof. intros [Hd Hh Hc _ _]. unfold processDelivery. by rewrite Hd, Hh, Hc. Qed.

Lemma refused_delivery r handlers body payload id h p :
  delivers handlers body payload id h →
  ¬ awaited (V (p_world p)) id (wp_StepID payload) (wp_Attempt payload) →
  ∃ s p', processDelivery decode_payload handlers (engine_client r) body p = (s, p') ∧
    (s = Ack ∨ s = Nack true ∧ p_net p ≠ []) ∧
    p_calls p' = p_calls p ∧ unseen (p_world p) (p_world p').
Proof.
  intros Hdel Hn. rewrite (processDelivery_drives _ _ _ _ _ _ _ Hdel).
  destruct (driveStream_any r payload id h p (del_fits _ _ _ _ _ Hdel) (del_run _ _ _ _ _ Hdel))
    as (o & p' & E & [((e & -> & _) & Hc & _ & _ & Hu)|(Ha & _)]); [|done].
  exists (if refused e then Ack else Nack true), p'. mstep E. split; [by destruct (refused e)|].
  split; [|by split; [|apply Hu]]. destruct (refused e) eqn:Hr; [by left|right]. split; [done|].
  intros Hnet. destruct (server_start r _ id (wp_StepID payload) (wp_Attempt payload) (p_world p)
    (del_run _ _ _ _ _ Hdel)) as (s & w' & Es & Hst). rewrite decide_False in Hst by done.
  destruct Hst as (_ & c & m & -> & Hrf). destruct p as [w cs st fl ns]; simpl in *. subst ns.
  unfold driveStream, engine_client, next_net, serve_frame, read_stream, set_stream, on_world,
    bind, ret in E; simpl in E.
  rewrite attemptInt32_id in E by (apply Hdel). rewrite Es in E; simpl in E. injection E as <- <-.
  unfold refused in *. simpl in *. congruence.
Qed.
(** A delivery whose run does not wait for it (an unknown run, another step, another attempt, a
    run that is no longer paused on the action) is acknowledged or requeued without calling the
    handler, and nothing changes or is sent; over a network that does not fail it is
    acknowledged. *)
Theorem stale_delivery_dropped r handlers body payload id h p :
  delivers handlers body payload id h →
  ¬ awaited (V (p_world p)) id (wp_StepID payload) (wp_Attempt payload) →
  ∃ s p', processDelivery decode_payload handlers (engine_client r) body p = (s, p') ∧
    (s = Ack ∨ s = Nack true ∧ p_net p ≠ []) ∧
    p_calls p' = p_calls p ∧ unseen (p_world p) (p_world p').
Proof. apply refused_delivery. Qed.

(** What the server decodes from the bytes a result is sent as. *)
Definition received_result (result : Vars) : Vars :=
  complete_result (match json_marshal (VMap result) with Ok bs => bs | Err _ => "" end).

(** The row of the run after the report of [res]. *)
Definition reported (now : Z) (res : handler_result) (r r' : SagaRun) : Prop :=
  match res with
  | HResult result => r' = row_CompleteAction now (received_result result) r
  | HError msg | HCoded _ msg _ => failed_by_report msg r r'
  end.

Lemma reported_not_awaited now res r r' sid a : reported now res r r' → ¬ awaits_report r' sid a.
Proof.
  intros Hr (Hst & Haw & _). destruct res; simpl in Hr.
  - by subst r'.
  - by destruct Hr as (? & _ & ? & _).
  - by destruct Hr as (? & _ & ? & _).
Qed.

Lemma mq_quiet : quiet (St := St) (Some mq_PublishSagaAdvance).
Proof. by intros id w. Qed.

Lemma alter_const (f : SagaRun → SagaRun) (id : uuid) (v : SView) r :
  v_runs v !! id = Some r → v_runs (alter_run (λ _, f r) id v) !! id = Some (f r).
Proof. intros Hr. by rewrite (alter_run_lookup _ _ _ r). Qed.

(** The report of a started job in the world the server sees. *)
Lemma report_reaches_run c id sid a res w r d verdict w' :
  c_publisher c = Some mq_PublishSagaAdvance →
  v_runs (V w) !! id = Some r → run_ID r = id → awaits_report r sid a →
  v_defs (V w) !! run_DefinitionID r = Some d →
  quiet_dispatch (compensation_verb (c_verbs c)) → run_ParentRunID r ≠ Some id →
  server_event (engine_reporter c) (Some (id, sid, a)) (report_frame res) w = (Ended verdict, w') →
  verdict = RpcOK ∧
  (∃ r', v_runs (V w') !! id = Some r' ∧ reported (w_now w) res r r') ∧
  match res with
  | HResult _ => (w_out w').*1 = (w_out w).*1 ++ [MAdvance (uuid_string id)]
  | _ => True
  end.
Proof.
  intros Hpub Hr Hid Ha Hd Hqd Hp E.
  assert (∀ code msg retryable,
    ∃ w1 r', FailStep (engine_reporter c) id sid a code msg retryable w = (Ok tt, w1) ∧
      v_runs (V w1) !! id = Some r' ∧ failed_by_report msg r r') as Hfail.
  { intros. destruct (FailStep_outcome c id sid a code msg retryable w r d)
      as (w1 & r' & E1 & ? & ? & _); try done; [rewrite Hpub; apply mq_quiet|]. by exists w1, r'. }
  destruct res as [result|msg|code msg retryable];
    cbn [report_frame] in E; unfold server_event in E; cbn beta iota in E.
  - unfold complete in E.
    destruct (CompleteStep_accepted (Some (CompensateFailedStep c)) id sid a
                (received_result result) w r Hr Ha) as (w1 & E1 & HV & _ & Ho).
    unfold engine_reporter in E. rewrite Hpub in E. fold (received_result result) in E.
    unfold bind in E. rewrite E1 in E. unfold ret in E. simplify_eq. split; [done|].
    split; [|done]. eexists. split; [|done]. rewrite HV. by apply (alter_const (row_CompleteAction _ _)).
  - destruct (Hfail "handler_error" msg true) as (w1 & r' & E1 & Hr' & Hf).
    rewrite (bind_step _ _ _ _ _ E1) in E. unfold ret in E. simplify_eq. eauto.
  - destruct (Hfail code msg retryable) as (w1 & r' & E1 & Hr' & Hf).
    rewrite (bind_step _ _ _ _ _ E1) in E. unfold ret in E. simplify_eq. eauto.
Qed.

(** *** Any number of deliveries, over any network *)

(** The queue delivers the message (again), or a delayed frame arrives. *)
Inductive happening := Delivery | Arrival (k : nat).
Section History.
Context (process : M Proc settled) (r : StoreReporter St).
Definition happens (x : happening) : M Proc (list settled) :=
  match x with
  | Delivery => let* s := process in ret [s]
  | Arrival k => do* arrival r k in ret []
  end.
Fixpoint history (xs : list happening) : M Proc (list settled) :=
  match xs with
  | [] => ret []
  | x :: xs => let* s := happens x in let* ss := history xs in ret (s ++ ss)
  end.
End History.

Section Deliveries.
Context (c : Coordinator St) (handlers : gmap string (WorkerHandler Proc)) (body : string).
Context (payload : WorkerPayload) (id : uuid) (h : nat → WorkerPayload → handler_result).
Context (Hdel : delivers handlers body payload id h).
Context (Hpub : c_publisher c = Some mq_PublishSagaAdvance).
Context (Hqd : quiet_dispatch (compensation_verb (c_verbs c))).
(** What the deliveries find: the run waits for the report of this step and attempt. *)
Context (p0 : Proc) (run : SagaRun) (d : WorkflowDefinition).
Context (Hrow : v_runs (V (p_world p0)) !! id = Some run) (Hrid : run_ID run = id).
Context (Hpar : run_ParentRunID run ≠ Some id).
Context (Haw : awaits_report run (wp_StepID payload) (wp_Attempt payload)).
Context (Hdef : v_defs (V (p_world p0)) !! run_DefinitionID run = Some d).

Definition rep : StoreReporter St := engine_reporter c.
Definition process : M Proc settled :=
  processDelivery decode_payload handlers (engine_client rep) body.
Definition waits p : Prop := awaited (V (p_world p)) id (wp_StepID payload) (wp_Attempt payload).

(** No report was accepted: the engine's side is as it was. *)
Definition unreported p : Prop := same (p_world p0) (p_world p).
(** One report was accepted, of the result of one of the calls: the run's row is the one it
    leaves, and a completion was published once. *)
Definition reported_once p : Prop :=
  ∃ r' k, v_runs (V (p_world p)) !! id = Some r' ∧ length (p_calls p0) ≤ k < length (p_calls p) ∧
    reported (w_now (p_world p0)) (h k payload) run r' ∧
    match h k payload with
    | HResult _ => said (p_world p) = said (p_world p0) ++ [MAdvance (uuid_string id)]
    | _ => True
    end.
(** The delayed frames report results of calls. *)
Definition flights_ok p : Prop :=
  Forall (λ f, f.1 = (id, wp_StepID payload, wp_Attempt payload) ∧
    ∃ k, length (p_calls p0) ≤ k < length (p_calls p) ∧ f.2 = report_frame (h k payload)) (p_flight p).
Definition called n p : Prop := p_calls p = p_calls p0 ++ replicate n payload.

Lemma unreported_waits p : unreported p → waits p.
Proof. intros (Hv & _). unfold waits. rewrite Hv. by exists run. Qed.
Lemma reported_waits p : reported_once p → ¬ waits p.
Proof.
  intros (r' & k & Hr' & _ & Hrep & _) (r1 & Hr1 & Ha). rewrite Hr' in Hr1. simplify_eq.
  by eapply reported_not_awaited.
Qed.

(** The report of a result reaches a run that still waits. *)
Lemma report_arrives w1 k res w2 :
  same (p_world p0) w1 →
  server_event rep (Some (id, wp_StepID payload, wp_Attempt payload)) (report_frame (h k payload)) w1 =
    (Ended res, w2) →
  ∃ r', v_runs (V w2) !! id = Some r' ∧ reported (w_now (p_world p0)) (h k payload) run r' ∧
    match h k payload with
    | HResult _ => said w2 = said (p_world p0) ++ [MAdvance (uuid_string id)]
    | _ => True
    end.
Proof.
  intros (Hv & Hn & Ho) E.
  destruct (report_reaches_run c id (wp_StepID payload) (wp_Attempt payload) (h k payload) w1 run d res w2)
    as (_ & (r' & Hr' & Hrep) & Hout); try done; [by rewrite Hv..|].
  rewrite Hn in Hrep. exists r'. split_and!; [done|done|]. destruct (h k payload); [|done..].
  unfold said in *. rewrite Hout, filter_app, Ho. done.
Qed.

(** What holds after any deliveries and arrivals. *)
Record delivered (n : nat) p : Prop := {
  dl_calls : called n p;
  dl_flight : flights_ok p;
  dl_state : unreported p ∨ reported_once p
}.
Lemma flights_more p p' : p_flight p' = p_flight p → length (p_calls p) ≤ length (p_calls p') →
  flights_ok p → flights_ok p'.
Proof.
  intros Hf Hl. unfold flights_ok. rewrite Hf. intros Hp. eapply Forall_impl; [exact Hp|]. intros f (? & k & ? & ?).
  split; [done|]. exists k. split; [lia|done].
Qed.
Lemma reported_unseen p p' : unseen (p_world p) (p_world p') → length (p_calls p) ≤ length (p_calls p') →
  reported_once p → reported_once p'.
Proof.
  intros Hu%unseen_same Hl (r' & k & Hr' & Hk & Hrep & Ho). destruct Hu as (Hv & Hn & Hs).
  exists r', k. rewrite Hv, Hs. split_and!; [done|lia|lia|done|done].
Qed.

(** One delivery: the handler is called at most once, and not when a report was accepted; the
    message is acknowledged or requeued. *)
Lemma delivery_step n p : delivered n p →
  ∃ s p' m, process p = (s, p') ∧ (s = Ack ∨ s = Nack true) ∧ m ≤ 1 ∧ delivered (m + n) p' ∧
    (¬ waits p → p_calls p' = p_calls p ∧ unseen (p_world p) (p_world p')).
Proof.
  intros [Hc Hf Hs]. unfold process. rewrite (processDelivery_drives _ _ _ _ _ _ _ Hdel).
  destruct (driveStream_any rep payload id h p (del_fits _ _ _ _ _ Hdel) (del_run _ _ _ _ _ Hdel))
    as (o & p' & E & Ho). mstep E.
  destruct Ho as [((e & -> & Hrf) & Hc' & Hf' & Hsame & Hun)|(Ha & -> & Hc' & w1 & Hsame & Hw)].
  - assert (delivered (0 + n) p') as Hd.
    { split; [unfold called; by rewrite Hc'|by apply (flights_more p); rewrite ?Hc'|].
      destruct Hs as [Hu|Hr]; [left; by eapply same_trans|right].
      apply (reported_unseen p); [|by rewrite Hc'|done]. by apply Hun, reported_waits. }
    destruct (refused e); (eexists _, p', 0; split; [reflexivity|]); split_and!; auto.
  - exists Ack, p', 1. split; [done|]. split; [by left|]. split; [done|].
    split; [|by intros Hn].
    assert (called (1 + n) p') as Hc1.
    { unfold called. by rewrite Hc', Hc, <- app_assoc, <- replicate_cons_app. }
    assert (length (p_calls p0) ≤ length (p_calls p) < length (p_calls p')) as Hl.
    { rewrite Hc', Hc, !length_app. simpl. lia. }
    destruct Hs as [Hu|Hr]; [|by destruct (reported_waits p Hr)].
    destruct Hw as [[Hw Hf']|(res & Er & Hf')].
    + split; [done| |left; by rewrite <- Hw in Hsame; eapply same_trans].
      destruct Hf' as [Hf'|Hf']; [apply (flights_more p); [done|lia|done]|].
      unfold flights_ok. rewrite Hf'. apply Forall_app. split.
      * eapply Forall_impl; [exact Hf|]. intros f (? & k & ? & ?). split; [done|]. exists k. split; [lia|done].
      * constructor; [|done]. split; [done|]. exists (length (p_calls p)). split; [lia|done].
    + split; [done|apply (flights_more p); [done|lia|done]|right].
      destruct (report_arrives w1 (length (p_calls p)) res (p_world p')) as (r' & Hr' & Hrep & Hout);
        [by eapply same_trans|exact Er|]. exists r', (length (p_calls p)). split_and!; [done|lia|lia|done|done].
Qed.

Lemma arrival_step n k p : delivered n p →
  ∃ p', arrival rep k p = (tt, p') ∧ delivered n p' ∧
    (¬ waits p → p_calls p' = p_calls p ∧ unseen (p_world p) (p_world p')).
Proof.
  intros [Hc Hf Hs]. unfold arrival. destruct (p_flight p !! k) as [[job ev]|] eqn:Hk;
    [|by exists p; split; [|split; [by split|]]].
  pose proof (proj1 (Forall_lookup _ _) Hf k _ Hk) as (Hjob & i & Hi & Hev). simpl in Hjob, Hev. subst job ev.
  assert (Forall (λ f, f.1 = (id, wp_StepID payload, wp_Attempt payload) ∧
    ∃ k, length (p_calls p0) ≤ k < length (p_calls p) ∧ f.2 = report_frame (h k payload))
    (delete k (p_flight p))) as Hf' by (by apply Forall_delete).
  destruct (server_terminal rep (id, wp_StepID payload, wp_Attempt payload) (report_frame (h i payload))
    (p_world p) (report_frame_terminal _)) as (res & w' & E).
  assert (arrival rep k p = (tt, mkProc w' (p_calls p) (p_stream p) (delete k (p_flight p)) (p_net p))) as E'.
  { unfold arrival. rewrite Hk. unfold bind, on_world, set_flight. by rewrite E. }
  unfold arrival in E'. rewrite Hk in E'. eexists. split; [exact E'|]. split.
  - split; [done|exact Hf'|]. destruct Hs as [Hu|Hr].
    + right. destruct (report_arrives (p_world p) i res w' Hu E) as (r' & Hr' & Hrep & Hout).
      by exists r', i.
    + right. destruct (server_report_refused rep id (wp_StepID payload) (wp_Attempt payload) (h i payload)
        (p_world p) (reported_waits p Hr)) as (v & w2 & E2 & Hu). rewrite E in E2. injection E2 as <- <-.
      by apply (reported_unseen p).
  - intros Hn. split; [done|]. destruct (server_report_refused rep id (wp_StepID payload) (wp_Attempt payload)
      (h i payload) (p_world p) Hn) as (v & w2 & E2 & Hu). rewrite E in E2. by injection E2 as <- <-.
Qed.

Definition settled_ok (s : settled) : Prop := s = Ack ∨ s = Nack true.
Definition idle_from p p' : Prop := p_calls p' = p_calls p ∧ unseen (p_world p) (p_world p').
Lemma idle_waits p p' : idle_from p p' → ¬ waits p → ¬ waits p'.
Proof. intros (_ & Hv & _). unfold waits. by rewrite Hv. Qed.

Lemma happens_step n x p : delivered n p →
  ∃ ss p' m, happens process rep x p = (ss, p') ∧ Forall settled_ok ss ∧ m ≤ length ss ∧
    delivered (m + n) p' ∧ (¬ waits p → idle_from p p').
Proof.
  intros Hd. destruct x as [|k]; unfold happens.
  - destruct (delivery_step n p Hd) as (s & p' & m & E & Hs & Hm & Hd' & Hi). mstep E.
    exists [s], p', m. split; [done|]. split; [by constructor|]. by split_and!.
  - destruct (arrival_step n k p Hd) as (p' & E & Hd' & Hi). mstep E.
    exists [], p', 0. split; [done|]. split; [constructor|]. by split_and!.
Qed.
Lemma history_steps xs n p : delivered n p →
  ∃ ss p' m, history process rep xs p = (ss, p') ∧ Forall settled_ok ss ∧ m ≤ length ss ∧
    delivered (m + n) p' ∧ (¬ waits p → idle_from p p').
Proof.
  revert n p. induction xs as [|x xs IH]; intros n p Hd; cbn [history].
  { exists [], p, 0. by split_and!. }
  destruct (happens_step n x p Hd) as (s1 & p1 & m1 & E1 & Hs1 & Hm1 & Hd1 & Hi1). mstep E1.
  destruct (IH _ _ Hd1) as (s2 & p2 & m2 & E2 & Hs2 & Hm2 & Hd2 & Hi2). mstep E2.
  exists (s1 ++ s2), p2, (m2 + m1). split; [done|]. rewrite length_app. split_and!.
  - by apply Forall_app.
  - lia.
  - by rewrite <- Nat.add_assoc.
  - intros Hn. pose proof (Hi1 Hn) as H1'. destruct (Hi2 (idle_waits _ _ H1' Hn)) as [Hc2 Hu2], H1' as [Hc1 Hu1].
    split; [congruence|by eapply unseen_trans].
Qed.

(** The network that loses nothing, and a server whose acknowledgement the transport takes. *)
Lemma delivery_faultless :
  p_net p0 = [] → acks_arrive → p_flight p0 = [] →
  ∃ p1, process p0 = (Ack, p1) ∧ delivered 1 p1 ∧ reported_once p1 ∧ p_flight p1 = [].
Proof.
  intros Hnet Hack Hfl. set (job := (id, wp_StepID payload, wp_Attempt payload)).
  set (fr := report_frame (h (length (p_calls p0)) payload)).
  destruct (server_start_accepted rep _ id (wp_StepID payload) (wp_Attempt payload) (p_world p0) Hack
    (del_run _ _ _ _ _ Hdel)) as (w1 & E & Hsame); [by exists run|].
  destruct (server_terminal rep job fr w1 (report_frame_terminal _)) as (res & w2 & E2).
  set (p1 := mkProc w2 (p_calls p0 ++ [payload]) (Some (Ended res, false)) [] []).
  assert (process p0 = (Ack, p1)) as Ep.
  { unfold process. rewrite (processDelivery_drives _ _ _ _ _ _ _ Hdel).
    assert (driveStream (engine_client rep) payload (recording h) p0 = (None, p1)) as Ed; [|by mstep Ed].
    destruct p0 as [w cs st fl ns]; simpl in *. subst ns fl.
    unfold driveStream, engine_client, next_net, serve_frame, read_stream, recording, set_stream,
      on_world, bind, ret; simpl.
    rewrite attemptInt32_id by (apply Hdel). rewrite E; simpl. fold job fr. by rewrite E2. }
  destruct (report_arrives w1 (length (p_calls p0)) res w2 Hsame E2) as (r' & Hr' & Hrep & Hout).
  assert (reported_once p1) as Hro.
  { exists r', (length (p_calls p0)). simpl. rewrite length_app; simpl. split_and!; [done|lia|lia|done|done]. }
  exists p1. split; [done|]. split; [|done]. split; [done|by constructor|by right].
Qed.

End Deliveries.

End LivenessProps.

(** ** Witnesses: step [a] of the demo workflow awaits its first attempt *)
#[local] Existing Instance demo_env.
#[local] Existing Instance demo_laws.

Definition acting : SagaRun := row_MarkAwaitingAction "svc.do" 1 (row_at RunStateRunning "a").
Definition acting_p : Proc (St := MemStore) := mkProc (demo_w acting) [] None [] [].
Definition demo_payload : WorkerPayload :=
  mkPayload demo_id "a" 1 "key" "svc.do" ∅ false false.
Definition stale_payload : WorkerPayload :=
  mkPayload demo_id "a" 2 "key2" "svc.do" ∅ false false.
Definition demo_decode (body : string) : res WorkerPayload :=
  if decide (body = "job") then Ok demo_payload
  else if decide (body = "stale") then Ok stale_payload
  else Err (EMsg "bad payload").
Definition demo_handlers (h : nat → WorkerPayload → handler_result)
    : gmap string (WorkerHandler (Proc (St := MemStore))) := {["svc.do" := recording h]}.
Definition ok_handler (_ : nat) (_ : WorkerPayload) : handler_result :=
  HResult {["done" := VBool true]}.
(** Its second call fails. *)
Definition second_fails (n : nat) (_ : WorkerPayload) : handler_result :=
  if decide (n = 1) then HCoded "E1" "card declined" true else HResult {["done" := VBool true]}.

Lemma demo_acks : acks_arrive.
Proof. by intros hist. Qed.

Lemma acting_row : v_runs (V (demo_w acting)) !! 7%N = Some acting.
Proof. reflexivity. Qed.

Lemma FailStep_fails_run_witness :
  ∃ w' r', FailStep (engine_reporter (demo_coord None)) 7 "a" 1 "E1" "card declined" true (demo_w acting) =
             (Ok tt, w') ∧
    v_runs (V w') !! 7%N = Some r' ∧ failed_by_report "card declined" acting r' ∧
    ∃ es, events_of (V w') 7 = events_of (V (demo_w acting)) 7 ++ es ∧
      stamp <$> es = (EventStepFailed, "a", "engine") ::
        (if decide (completed_steps demo_def "a" (events_of (V (demo_w acting)) 7) ∅ = []) then []
         else [(EventCompensationStarted, "a", "engine")]).
Proof.
  apply (FailStep_fails_run (demo_coord None) 7 "a" 1 "E1" "card declined" true (demo_w acting) acting demo_def).
  - exact acting_row.
  - reflexivity.
  - by split_and!.
  - reflexivity.
  - exact demo_quiet.
  - apply mem_quiet_dispatch.
  - discriminate.
Defined.

Lemma stale_delivery_dropped_witness :
  ∃ s p', processDelivery demo_decode (demo_handlers ok_handler)
          (engine_client (engine_reporter (demo_coord None))) "stale" acting_p = (s, p') ∧
    (s = Ack ∨ s = Nack true ∧ p_net acting_p ≠ []) ∧
    p_calls p' = [] ∧ unseen (demo_w acting) (p_world p').
Proof.
  apply (stale_delivery_dropped demo_decode (engine_reporter (demo_coord None)) (demo_handlers ok_handler)
           "stale" stale_payload 7 ok_handler acting_p).
  - by split.
  - intros (r & Hr & Ha). simpl in Hr. change (Some acting = Some r) in Hr. injection Hr as <-.
    destruct Ha as (_ & _ & _ & Ha). discriminate Ha.
Defined.

