(* ===== verification/LivenessRaces.v ===== *)
(** A dispatched attempt is reported once per dispatch: after an accepted report, every later
    check of that attempt is refused until the attempt is dispatched again. *)
From S2P Require Import Prelude Values Domain World Demo StoreApi Rows StoreSpec MemStore MemSpec.
From S2P Require Import MemInv MemRows Engine Liveness.

Section LivenessRaces.
Context `{Env}.
Implicit Types w : World MemStore.

(** No dispatch of attempt [a] is waiting for its report. *)
Definition settled (a : Z) (r : SagaRun) : Prop :=
  run_AwaitedActionDispatch r ≠ None → run_CurrentAttempt r ≠ a.

(** The engine dispatches attempt [a] of run [id].  [ActionVerb] takes the attempt after that of
    the run as [Advance] read it, so the retries of one execution of a step, which keep that
    run, all take the same. *)
Definition dispatches (id : uuid) (a : Z) (op : mem_op) : bool :=
  match op with OpMarkAwaiting j _ b => bool_decide (j = id ∧ b = a) | _ => false end.

(** New rows have ids of their own. *)
Definition own_id (id : uuid) (op : mem_op) w : Prop := ∀ r, op_new w op = Some r → run_ID r ≠ id.
Fixpoint own_ids (id : uuid) (ops : list mem_op) w : Prop :=
  match ops with
  | [] => True
  | op :: ops => own_id id op w ∧ own_ids id ops (apply_op op w)
  end.

(** Run [id] has a row, and no dispatch of attempt [a] waits. *)
Definition run_settled (id : uuid) (a : Z) w : Prop :=
  ∃ r, runs (w_store w) !! id = Some r ∧ settled a r.

Definition is_dispatch (op : mem_op) : bool :=
  match op with OpMarkAwaiting _ _ _ => true | _ => false end.

(** Only a dispatch sets the awaited action or the attempt of a row. *)
Lemma op_row_attempt now op r :
  is_dispatch op = false →
  run_CurrentAttempt (op_row now op r) = run_CurrentAttempt r ∧
  (run_AwaitedActionDispatch (op_row now op r) ≠ None → run_AwaitedActionDispatch r ≠ None).
Proof.
  destruct op; try done; intros _; cbn [op_row];
    unfold MarkFailed_row, Complete_row, row_Cancel, row_MarkRunFailed, row_FailAction,
      row_SetPausedAwaitingSignal; cbv zeta; repeat case_match; done.
Qed.

Lemma settled_op id a op w :
  run_settled id a w → own_id id op w → dispatches id a op = false → run_settled id a (apply_op op w).
Proof.
  intros (r & Hr & Hp) Hf Hd. unfold run_settled. rewrite apply_op_rows. unfold rows_after.
  destruct (op_new w op) as [n|] eqn:Hnew.
  { rewrite lookup_insert_ne by (by apply Hf). by exists r. }
  destruct (op_run op) as [j|] eqn:Hrun; [|by exists r].
  destruct (decide (j = id)) as [->|Hj]; [|rewrite lookup_alter_ne by done; by exists r].
  rewrite lookup_alter_eq, Hr. eexists. split; [done|].
  destruct (is_dispatch op) eqn:Hop.
  - destruct op as [| | | | | | | | | | | | | | | | | | | | |j d b| | | | | |]; try done.
    simpl in Hrun. injection Hrun as ->.
    unfold dispatches in Hd. apply bool_decide_eq_false in Hd.
    unfold settled. cbn [op_row]. unfold row_MarkAwaitingAction. case_decide as E; simpl; naive_solver.
  - destruct (op_row_attempt (w_now w) op r Hop) as [Ha Hw].
    unfold settled. rewrite Ha. auto.
Qed.

Lemma settled_ops id a ops w :
  run_settled id a w → own_ids id ops w → Forall (λ op, dispatches id a op = false) ops →
  run_settled id a (fold_left (λ w op, apply_op op w) ops w).
Proof.
  revert w. induction ops as [|op ops IH]; intros w Hp Hg Hd; [done|]; simpl.
  destruct Hg as [Hop Hg]. apply Forall_cons in Hd as [Hd Hds]. by apply IH; [apply settled_op|..].
Qed.

(** The two operations a report makes. *)
Definition reports (id : uuid) (a : Z) (op : mem_op) : Prop :=
  match op with
  | OpCompleteAction id' a' _ | OpFailAction id' a' _ _ _ => id' = id ∧ a' = a
  | _ => False
  end.

Lemma mem_CheckStep id sid a w :
  CheckStep id sid a w =
  (match runs (w_store w) !! id with
   | None => Err (EDetail ErrRunNotFound (uuid_string id))
   | Some run =>
       if decide (awaits_report run sid a) then Ok tt
       else Err (EDetail ErrStepNotAwaited
                   ("run " +:+ uuid_string id +:+ " step " +:+ sid +:+ " attempt " +:+ itoa a))
   end, w).
Proof.
  unfold CheckStep. change (GetRun id) with (mem_GetRun id). unfold mem_GetRun.
  unfold bind, get_store, ret. destruct (runs _ !! id); [by case_decide|done].
Qed.

(** C6: A dispatched attempt is reported once.  Once a report of an attempt has reached the
    store, however other store operations interleave, before or after it, every later check of
    the same attempt, for whatever step, is refused as not awaited, unless the engine has
    dispatched that very attempt again in between (a retry of the action verb does; every other
    dispatch takes a later attempt).  So a worker that reports, or asks for, an attempt that
    was reported before is turned away. *)
Theorem report_accepted_once id a op ops w :
  is_Some (runs (w_store w) !! id) → reports id a op → own_ids id ops (apply_op op w) →
  let w' := fold_left (λ w op, apply_op op w) ops (apply_op op w) in
  (∃ again, again ∈ ops ∧ dispatches id a again = true) ∨
  ∀ sid, ∃ e, CheckStep id sid a w' = (Err e, w') ∧ errors_Is e ErrStepNotAwaited = true.
Proof.
  intros [r Hr] Hop Hg w'.
  destruct (decide (Forall (λ op, dispatches id a op = false) ops)) as [Hd|Hd].
  2:{ left. apply not_Forall_Exists in Hd; [|apply _]. apply Exists_exists in Hd as (o & Ho & Hn).
      exists o. split; [done|]. by apply not_false_is_true. }
  right. intros sid. assert (run_settled id a (apply_op op w)) as Hp.
  { unfold run_settled. rewrite apply_op_rows. unfold rows_after.
    destruct op; try done; destruct Hop as [-> ->]; cbn [op_new op_run];
      rewrite lookup_alter_eq, Hr; (eexists; split; [done|]); cbn [op_row];
      unfold Complete_row, row_FailAction, settled; cbv zeta; repeat case_decide; done. }
  destruct (settled_ops _ _ _ _ Hp Hg Hd) as (r' & Hr' & Hset). fold w' in Hr'.
  rewrite mem_CheckStep, Hr'. rewrite decide_False; [by eexists|].
  intros (_ & Haw & _ & Hatt). by apply (Hset Haw).
Qed.
End LivenessRaces.

(** ** Witness *)
#[local] Existing Instance demo_env.
#[local] Existing Instance demo_laws.

Definition charging : SagaRun :=
  row_MarkAwaitingAction "billing.charge" 1
    (row_UpdateRunState RunStateRunning "charge" (NewSagaRun 7 0 "wf" 1000 None ∅)).
Definition charging_w : World MemStore :=
  demo_world (set_runs {[7%N := charging]} New).
Definition later_ops : list mem_op :=
  [OpClearPause 7; OpUpdateRunState 7 RunStateRunning "ship"; OpMarkAwaiting 7 "stock.ship" 2].

(** The next dispatch takes attempt 2; a retry that dispatches attempt 1 again has it reported
    again. *)
Lemma report_accepted_once_witness :
  let op := OpCompleteAction 7 1 {["paid" := VBool true]} in
  let after ops := fold_left (λ w op, apply_op op w) ops (apply_op op charging_w) in
  (∃ e, CheckStep 7 "charge" 1 (after later_ops) = (Err e, after later_ops) ∧
        errors_Is e ErrStepNotAwaited = true) ∧
  (CheckStep 7 "charge" 1 (after [OpMarkAwaiting 7 "billing.charge" 1])).1 = Ok tt.
Proof.
  intros op after. split; [|reflexivity].
  destruct (report_accepted_once 7 1 op later_ops charging_w) as [(o & Ho & Hd)|Hr];
    [by eexists|by split|by repeat split| |exact (Hr "charge")].
  exfalso. unfold later_ops in Ho. rewrite !elem_of_cons in Ho.
  destruct Ho as [->|[->|[->|Ho]]]; [discriminate Hd..|by apply elem_of_nil in Ho].
Defined.
