(* ===== verification/WorkerProps.v ===== *)
(** Properties of the Go worker client: idempotent execution, the handler table of
    a valid configuration, and the names actions are dispatched under. *)
From S2P Require Import Prelude Values Domain World Demo StoreApi Action Liveness Worker.

(** ** Idempotency *)
Section idempotency.
Context (inner : WorkerPayload → handler_result).

(** A worker state that shows what the wrapper touches: the keys and the calls that
    reached the handler. *)
Record WState := mkWState {
  ws_keys : gmap string Vars;
  ws_calls : list WorkerPayload
}.

Definition call_log : WorkerHandler WState := λ payload s,
  (inner payload, mkWState (ws_keys s) (ws_calls s ++ [payload])).
Definition keys_store : IdempotencyStore WState :=
  MemoryIdempotencyStore ws_keys (λ m s, mkWState m (ws_calls s)).

(** Deliveries handled one after the other. *)
Fixpoint handle_all (payloads : list WorkerPayload) : M WState (list handler_result) :=
  match payloads with
  | [] => ret []
  | p :: ps =>
      let* r := Wrap keys_store call_log p in
      let* rs := handle_all ps in ret (r :: rs)
  end.

Definition keyed (k : string) (p : WorkerPayload) : Prop := wp_IdempotencyKey p = k.
#[global] Instance keyed_dec k p : Decision (keyed k p).
Proof. unfold keyed. apply _. Defined.

(** The results of the deliveries with key [k]. *)
Definition results_of (k : string) (payloads : list WorkerPayload) (rs : list handler_result)
    : list handler_result :=
  (filter (λ pr, keyed k pr.1) (zip payloads rs)).*2.

Definition fails (p : WorkerPayload) : Prop :=
  match inner p with HResult _ => False | _ => True end.

Lemma wrap_hit p s c :
  wp_IdempotencyKey p ≠ "" → ws_keys s !! wp_IdempotencyKey p = Some c →
  Wrap keys_store call_log p s = (HResult c, s).
Proof. intros Hk Hc. unfold Wrap. rewrite decide_False by done. unfold bind, ret; simpl. by rewrite Hc. Qed.

(** The keys after a call that reached the handler. *)
Definition keys_after (p : WorkerPayload) (m : gmap string Vars) : gmap string Vars :=
  match inner p with
  | HResult r => if decide (wp_IdempotencyKey p = "") then m else <[wp_IdempotencyKey p := r]> m
  | _ => m
  end.

Lemma wrap_miss p s :
  wp_IdempotencyKey p = "" ∨ ws_keys s !! wp_IdempotencyKey p = None →
  Wrap keys_store call_log p s =
  (inner p, mkWState (keys_after p (ws_keys s)) (ws_calls s ++ [p])).
Proof.
  intros Hm. unfold Wrap, keys_after. destruct (decide (wp_IdempotencyKey p = "")) as [Hk|Hk].
  - unfold bind, ret; simpl. by destruct (inner p).
  - destruct Hm as [?|Hm]; [done|]. unfold bind, ret; simpl. rewrite Hm. by destruct (inner p).
Qed.

Lemma results_of_cons k p ps r rs :
  results_of k (p :: ps) (r :: rs) =
  (if decide (keyed k p) then [r] else []) ++ results_of k ps rs.
Proof. unfold results_of; simpl. rewrite filter_cons; simpl. by case_decide. Qed.

(** One delivery, then the rest. *)
Lemma handle_all_cons p ps s r s1 rs s2 :
  Wrap keys_store call_log p s = (r, s1) → handle_all ps s1 = (rs, s2) →
  handle_all (p :: ps) s = (r :: rs, s2).
Proof. intros E1 E2. simpl. mstep E1. by mstep E2. Qed.

(** A delivery of another key neither reads nor writes the key [k]. *)
Lemma wrap_other k p s r s1 :
  ¬ keyed k p → Wrap keys_store call_log p s = (r, s1) →
  ws_keys s1 !! k = ws_keys s !! k ∧
  filter (keyed k) (ws_calls s1) = filter (keyed k) (ws_calls s).
Proof.
  intros Hk E. destruct (decide (wp_IdempotencyKey p = "" ∨ ws_keys s !! wp_IdempotencyKey p = None)) as [Hm|Hm].
  - rewrite (wrap_miss _ _ Hm) in E. injection E as _ <-. simpl. split.
    + unfold keys_after. destruct (inner p); try done. case_decide; [done|].
      by rewrite lookup_insert_ne.
    + rewrite filter_app, filter_cons_False by done. by rewrite filter_nil, app_nil_r.
  - destruct (ws_keys s !! wp_IdempotencyKey p) as [c|] eqn:Hc; [|naive_solver].
    rewrite (wrap_hit _ _ c) in E by naive_solver. by injection E as _ <-.
Qed.

(** Once the key has a result, its deliveries return it and reach no handler. *)
Lemma handled_cached k r payloads s :
  k ≠ "" → ws_keys s !! k = Some r →
  ∃ rs s', handle_all payloads s = (rs, s') ∧ ws_keys s' !! k = Some r ∧
    filter (keyed k) (ws_calls s') = filter (keyed k) (ws_calls s) ∧
    results_of k payloads rs = replicate (length (filter (keyed k) payloads)) (HResult r).
Proof.
  intros Hk. revert s. induction payloads as [|p ps IH]; intros s Hr; [by exists [], s|].
  destruct (decide (keyed k p)) as [Hp|Hp].
  - assert (Wrap keys_store call_log p s = (HResult r, s)) as E
      by (unfold keyed in Hp; subst k; by apply wrap_hit).
    destruct (IH s Hr) as (rs & s' & E' & Hr' & Hc & Hres). exists (HResult r :: rs), s'.
    split_and!; [by eapply handle_all_cons|done|done|].
    rewrite results_of_cons, filter_cons, !decide_True by done. simpl. by rewrite Hres.
  - destruct (Wrap keys_store call_log p s) as [r1 s1] eqn:E.
    destruct (wrap_other _ _ _ _ _ Hp E) as [Hk1 Hc1].
    destruct (IH s1) as (rs & s' & E' & Hr' & Hc & Hres); [congruence|]. exists (r1 :: rs), s'.
    split_and!; [by eapply handle_all_cons|done|congruence|].
    by rewrite results_of_cons, filter_cons, !decide_False.
Qed.

(** C9: A keyed action takes effect once: among any sequence of deliveries, those of
    one idempotency key reach the handler until it first succeeds and never again;
    every later delivery of the key returns that first result, and a failed
    attempt is never cached.  Deliveries of other keys may come in between. *)
Theorem Wrap_runs_once k payloads pre p post r s :
  k ≠ "" → ws_keys s !! k = None → filter (keyed k) payloads = pre ++ p :: post →
  Forall fails pre → inner p = HResult r →
  ∃ rs s', handle_all payloads s = (rs, s') ∧ ws_keys s' !! k = Some r ∧
    filter (keyed k) (ws_calls s') = filter (keyed k) (ws_calls s) ++ pre ++ [p] ∧
    results_of k payloads rs = (inner <$> pre) ++ replicate (S (length post)) (HResult r).
Proof.
  intros Hk Hn Hf Hpre Hp. revert s pre Hn Hf Hpre.
  induction payloads as [|q qs IH]; intros s pre Hn Hf Hpre; [by destruct pre|].
  rewrite filter_cons in Hf. destruct (decide (keyed k q)) as [Hq|Hq].
  - assert (wp_IdempotencyKey q = k) as Hkq by done.
    assert (Wrap keys_store call_log q s =
            (inner q, mkWState (keys_after q (ws_keys s)) (ws_calls s ++ [q]))) as E
      by (apply wrap_miss; right; by rewrite Hkq).
    destruct pre as [|q' pre]; simplify_eq/=.
    + destruct (handled_cached (wp_IdempotencyKey p) r qs (mkWState (keys_after p (ws_keys s)) (ws_calls s ++ [p])))
        as (rs & s' & E' & Hr' & Hc & Hres); [done| |].
      { unfold keys_after; simpl. rewrite Hp, decide_False by done. by rewrite lookup_insert_eq. }
      exists (inner p :: rs), s'. split_and!; [by eapply handle_all_cons|done| |].
      * rewrite Hc; simpl. by rewrite filter_app, filter_cons_True.
      * rewrite results_of_cons, decide_True, Hres, Hp by done. done.
    + apply Forall_cons in Hpre as [Hq1 Hpre].
      destruct (IH (mkWState (keys_after q' (ws_keys s)) (ws_calls s ++ [q'])) pre)
        as (rs & s' & E' & Hr' & Hc & Hres); [|done|done|].
      { simpl. unfold keys_after, fails in *. by destruct (inner q'). }
      exists (inner q' :: rs), s'. split_and!; [by eapply handle_all_cons|done| |].
      * rewrite Hc; simpl. by rewrite filter_app, filter_cons_True, <-app_assoc.
      * by rewrite results_of_cons, decide_True, Hres.
  - destruct (Wrap keys_store call_log q s) as [r1 s1] eqn:E.
    destruct (wrap_other _ _ _ _ _ Hq E) as [Hk1 Hc1].
    destruct (IH s1 pre) as (rs & s' & E' & Hr' & Hc & Hres); [congruence|done|done|].
    exists (r1 :: rs), s'. split_and!; [by eapply handle_all_cons|done|congruence|].
    by rewrite results_of_cons, decide_False.
Qed.
End idempotency.

(** ** Configurations *)
Section config.
Context `{Env} {W : Type}.
Implicit Types c : BootstrapConfig (W := W).

Lemma validate_actions_ok q i seen (l : list (Action (W := W))) :
  validate_actions q i seen l = None →
  NoDup (wa_Name <$> l) ∧ (∀ a, a ∈ l → wa_Name a ∉ seen) ∧
  Forall (λ a, wa_Name a ≠ "" ∧ is_Some (wa_Handler a) ∧
               (q = true → strings_Contains (wa_Name a) "." = true)) l.
Proof.
  revert i seen. induction l as [|a l IH]; intros i seen Hv; simpl in Hv.
  { split_and!; [constructor|by intros ? ?%elem_of_nil|constructor]. }
  case_decide as Hn; [done|]. case_decide as Hs; [done|].
  destruct (wa_Handler a) as [h|] eqn:Hh; [|done].
  destruct (q && negb (strings_Contains (wa_Name a) ".")) eqn:Hq; [done|].
  destruct (IH _ _ Hv) as (Hnd & Hseen & Hall). split_and!.
  - rewrite fmap_cons. apply NoDup_cons. split; [|done].
    intros (b & Heq & Hb)%list_elem_of_fmap. apply (Hseen b Hb). rewrite <-Heq. set_solver.
  - intros b [->|Hb]%elem_of_cons; [done|]. specialize (Hseen b Hb). set_solver.
  - constructor; [|done]. split_and!; [done|by eexists|]. intros ->.
    by destruct (strings_Contains (wa_Name a) ".").
Qed.

Lemma Validate_actions c :
  Validate c = None → validate_actions (bc_QualifiedActionNames c) 0 ∅ (bc_Actions c) = None.
Proof. unfold Validate. intros Hv. by repeat case_decide. Qed.

Lemma routingKey_inj c a b : routingKey c a = routingKey c b → wa_Name a = wa_Name b.
Proof.
  unfold routingKey. destruct (bc_QualifiedActionNames c); [done|].
  intros E%string_app_inj_l. by apply string_app_inj_l in E.
Qed.

Lemma fold_handlers c l (m : gmap string (WorkerHandler W)) (k : string) :
  k ∉ routingKey c <$> l →
  fold_left (λ (m : gmap string (WorkerHandler W)) a,
      match wa_Handler a with Some h => <[routingKey c a := h]> m | None => m end) l m !! k
  = m !! k.
Proof.
  revert m. induction l as [|a l IH]; intros m Hk; simpl; [done|].
  rewrite fmap_cons, not_elem_of_cons in Hk. destruct Hk as [Hk1 Hk2].
  rewrite IH by done. destruct (wa_Handler a); [|done]. by rewrite lookup_insert_ne.
Qed.

(** With a configuration that [Validate] accepts, the queue is bound to distinct
    routing keys, one per action in order, and every action's own handler answers
    to its key; no delivery routed to the worker is nacked for want of a handler. *)
Theorem validated_config_routes c :
  Validate c = None →
  NoDup (RoutingKeys c) ∧
  (∀ a, a ∈ bc_Actions c → is_Some (wa_Handler a) ∧
        handler_table c !! routingKey c a = wa_Handler a) ∧
  (∀ k, k ∈ RoutingKeys c ↔ is_Some (handler_table c !! k)).
Proof.
  intros Hv%Validate_actions%validate_actions_ok. destruct Hv as (Hnd & _ & Hall).
  assert (NoDup (RoutingKeys c)) as Hkeys.
  { unfold RoutingKeys. clear Hall. induction (bc_Actions c) as [|a l IH]; [constructor|].
    rewrite fmap_cons in *. apply NoDup_cons in Hnd as [Ha Hnd]. apply NoDup_cons. split; [|auto].
    intros (b & Heq & Hb)%list_elem_of_fmap. apply Ha. apply list_elem_of_fmap. exists b.
    by apply routingKey_inj in Heq. }
  assert (∀ a, a ∈ bc_Actions c → is_Some (wa_Handler a) ∧
            handler_table c !! routingKey c a = wa_Handler a) as Htab.
  { unfold handler_table, RoutingKeys in *. clear Hnd. generalize (∅ : gmap string (WorkerHandler W)).
    induction (bc_Actions c) as [|b l IH]; intros m a Ha; [by apply elem_of_nil in Ha|]. simpl.
    rewrite fmap_cons in Hkeys. apply NoDup_cons in Hkeys as [Hb Hkeys].
    apply Forall_cons in Hall as [(_ & [h Hh] & _) Hall]. rewrite Hh.
    apply elem_of_cons in Ha as [->|Ha]; [|by apply IH].
    rewrite fold_handlers, Hh by done. split; [by eexists|]. by rewrite lookup_insert_eq. }
  split_and!; [done|done|]. intros k. split.
  - intros (a & -> & Ha)%list_elem_of_fmap. destruct (Htab a Ha) as [Hs ->]. done.
  - intros [h Hh]. destruct (decide (k ∈ RoutingKeys c)) as [|Hk]; [done|].
    unfold handler_table in Hh. rewrite fold_handlers in Hh by done. by rewrite lookup_empty in Hh.
Qed.
End config.

(** ** Action names *)
Lemma string_length_0 (s : string) : String.length s = 0 → s = "".
Proof. by destruct s. Qed.

(** The action names the two sides exchange: the name a worker's action answers
    to, service and name joined by a dot, is split by the engine into that service
    and that name; conversely whatever the engine accepts as an action name is such
    a join, of a dot-free service with a non-empty name. *)
Theorem action_name_roundtrip :
  (∀ s n, char_free dot s → s ≠ "" → n ≠ "" → splitAction (s +:+ "." +:+ n) = Some (s, n)) ∧
  (∀ a s n, splitAction a = Some (s, n) →
     a = s +:+ "." +:+ n ∧ char_free dot s ∧ s ≠ "" ∧ n ≠ "").
Proof.
  split.
  - intros s n Hf Hs Hn. change ("." +:+ n) with (String dot n). unfold splitAction.
    rewrite Index_app by done. rewrite decide_False.
    + by rewrite strings_take_app, drop_app_S.
    + rewrite length_string_app; simpl. intros [Hl|Hl].
      * by apply string_length_0 in Hl.
      * apply Hn, string_length_0. lia.
  - intros a s n Ha. unfold splitAction in Ha.
    destruct (strings_Index a dot) as [i|] eqn:Hi; [|done]. case_decide as Hb; [done|].
    apply Index_cut in Hi as (E & Hf & Hl). injection Ha as <- <-.
    split_and!; [exact E|done| |]; intros Hz; apply Hb; [left; by rewrite <-Hl, Hz|right].
    pose proof (f_equal String.length E) as El. rewrite length_string_app, Hl in El.
    change (String.length a = i + S (String.length (strings_drop (S i) a))) in El.
    change (strings_drop (S i) a = "") in Hz. rewrite Hz in El. simpl in El. lia.
Qed.

(** ** A lost report *)
Section lost.
Context `{Env} {W : Type} (decode_payload : string → res WorkerPayload).

(** A completion that cannot be sent is lost: when the terminal send of a started
    job fails, the worker still acknowledges the delivery, so the queue does not
    deliver it again. *)
Theorem lost_report_acked (handlers : gmap string (WorkerHandler W)) (client : LivenessClient W) body payload (h : WorkerHandler W) w w1 w2 w3 w4 r e w5 :
  decode_payload body = Ok payload → handlers !! wp_Action payload = Some h →
  IsCompensation payload = false →
  client_ExecuteStep client w = (None, w1) →
  stream_Send client (EvStart (wp_RunID payload) (wp_StepID payload) (attemptInt32 (wp_Attempt payload))) w1
    = (None, w2) →
  stream_Recv client w2 = (RecvAck, w3) → h payload w3 = (r, w4) →
  stream_Send client (report_frame r) w4 = (Some e, w5) →
  processDelivery decode_payload handlers client body w = (Ack, w5).
Proof.
  intros Hd Hh Hc E1 E2 E3 E4 E5. unfold processDelivery. rewrite Hd, Hh, Hc.
  unfold driveStream, bind, ret. by rewrite E1, E2, E3, E4, E5.
Qed.
End lost.

(** ** Witnesses *)
#[local] Existing Instance demo_env.
#[local] Existing Instance demo_laws.

Definition keyed_job (k : string) (attempt : Z) : WorkerPayload :=
  mkPayload "r" "charge" attempt k "billing.charge" ∅ false false.
(** Fails at the first attempt. *)
Definition flaky (p : WorkerPayload) : handler_result :=
  if decide (wp_Attempt p = 1%Z) then HError "timeout" else HResult {["ok" := VInt (wp_Attempt p)]}.

Lemma Wrap_runs_once_witness :
  let jobs := [keyed_job "k" 1; keyed_job "j" 2; keyed_job "k" 2; keyed_job "k" 3] in
  ∃ rs s', handle_all flaky jobs (mkWState ∅ []) = (rs, s') ∧
    ws_keys s' !! "k" = Some {["ok" := VInt 2]} ∧
    filter (keyed "k") (ws_calls s') = filter (keyed "k") [] ++ [keyed_job "k" 1] ++ [keyed_job "k" 2] ∧
    results_of "k" jobs rs = [HError "timeout"; HResult {["ok" := VInt 2]}; HResult {["ok" := VInt 2]}].
Proof.
  intros jobs.
  apply (Wrap_runs_once flaky "k" jobs [keyed_job "k" 1] (keyed_job "k" 2) [keyed_job "k" 3]
           {["ok" := VInt 2]} (mkWState ∅ [])).
  - discriminate.
  - reflexivity.
  - reflexivity.
  - by constructor.
  - reflexivity.
Defined.

Definition plain_action (name : string) (h : WorkerHandler unit) : Action :=
  mkWAction name "" "" false ∅ ∅ [] ∅ 0 "" false (Some h).
Definition demo_config : BootstrapConfig (W := unit) :=
  mkConfig "billing" "1.0.0" "http://api" "amqp://mq" "engine:9090"
    [plain_action "charge" (λ _, ret (HResult ∅)); plain_action "refund" (λ _, ret (HError "no"))]
    false false "".

Lemma validated_config_routes_witness :
  NoDup (RoutingKeys demo_config) ∧ is_Some (handler_table demo_config !! "billing.refund").
Proof.
  destruct (validated_config_routes demo_config eq_refl) as (Hnd & _ & Hk). split; [exact Hnd|].
  apply Hk. right. left.
Defined.

Lemma action_name_roundtrip_witness : splitAction ("billing" +:+ "." +:+ "charge.v2") = Some ("billing", "charge.v2").
Proof. apply (proj1 action_name_roundtrip); [by repeat split|discriminate|discriminate]. Defined.
