(* ===== verification/Api.v ===== *)
(** The REST handlers: [src/api].

    A handler reads the decoded request and returns a [response]; routing, header
    writing and JSON encoding are the framework's.  Decoding a body into a request
    struct is [encoding/json]'s: each handler takes the decoder of its body.  The
    websocket handler ([handler_stream.go]) tails Postgres notifications and is
    not modelled; neither are the health endpoints and the request logger. *)
From S2P Require Import Prelude Values Domain World StoreApi Cel VerbsData Join Fanout VerbsEffect.
From S2P Require Import Action Registry Retry Engine Dispatchers.

(** ** errors.go, response.go *)
Definition CodeBadRequest : string := "bad_request".
Definition CodeNotFound_ : string := "not_found".
Definition CodeForbidden : string := "forbidden".
Definition CodeInternal_ : string := "internal".
Definition CodeInvalidConfig : string := "invalid_config".
Definition CodePublishFailed : string := "publish_failed".
Definition CodeUnprocessable : string := "unprocessable".
Definition CodeConflict : string := "conflict".
Definition genericInternalMessage : string := "internal error".

(** What a handler writes: the error envelope, a bare status, or a JSON body. *)
Inductive response (A : Type) :=
| WriteError (status : Z) (code message : string)
| WriteHeader (status : Z)
| WriteJSON (status : Z) (body : A).
Arguments WriteError {A}.
Arguments WriteHeader {A}.
Arguments WriteJSON {A}.

Definition response_status {A} (r : response A) : Z :=
  match r with WriteError s _ _ | WriteHeader s | WriteJSON s _ => s end.

Definition internal {A} : response A := WriteError 500 CodeInternal_ genericInternalMessage.
Definition bad_request {A} (message : string) : response A :=
  WriteError 400 CodeBadRequest message.

(** [if err != nil { write f(err); return }]. *)
Notation "'tryw*' x := c 'else' f 'in' k" :=
  (bind c (λ r, match r with Ok x => k | Err e => ret (f e) end))
  (at level 10, x pattern, c at level 100, f at level 100, k at level 200) : saga_scope.

(** ** Query parameters *)

(** [strings.TrimSpace], on ASCII white space. *)
Definition is_space (c : ascii) : bool :=
  let n := Ascii.nat_of_ascii c in bool_decide (n = 32 ∨ 9 ≤ n ≤ 13).
Fixpoint trim_left (s : string) : string :=
  match s with
  | String c s' => if is_space c then trim_left s' else s
  | EmptyString => ""
  end.
Fixpoint string_rev_onto (s acc : string) : string :=
  match s with EmptyString => acc | String c s => string_rev_onto s (String c acc) end.
Definition string_reverse (s : string) : string := string_rev_onto s "".
Definition strings_TrimSpace (s : string) : string :=
  string_reverse (trim_left (string_reverse (trim_left s))).

(** [strconv.Atoi]: an optional sign and decimal digits, within 64 bits. *)
Definition digit (c : ascii) : option Z :=
  let n := Z.of_nat (Ascii.nat_of_ascii c) in
  if decide (48 ≤ n ≤ 57)%Z then Some (n - 48)%Z else None.
Fixpoint digits (s : string) (acc : Z) : option Z :=
  match s with
  | EmptyString => Some acc
  | String c s => match digit c with Some d => digits s (acc * 10 + d)%Z | None => None end
  end.
Definition unsigned (s : string) : option Z :=
  if decide (s = "") then None else digits s 0.
Definition strconv_Atoi (s : string) : option Z :=
  let v := match s with
           | String c s' =>
               if decide (c = "-"%char) then Z.opp <$> unsigned s'
               else if decide (c = "+"%char) then unsigned s'
               else unsigned s
           | EmptyString => None
           end in
  match v with
  | Some v => if decide (in_int64 v) then Some v else None
  | None => None
  end.

Definition strconv_ParseBool (s : string) : option bool :=
  if decide (s ∈ ["1"; "t"; "T"; "TRUE"; "true"; "True"]) then Some true
  else if decide (s ∈ ["0"; "f"; "F"; "FALSE"; "false"; "False"]) then Some false
  else None.

(** The paging parameters of both list endpoints: the limit and the offset, or the
    message of the 400. *)
Definition parse_paging (limit offset : string) : res (Z * Z) :=
  let lim := if decide (limit = "") then Ok 50%Z
             else match strconv_Atoi limit with
                  | Some v => if decide (v < 1)%Z then Err (EMsg "limit must be an integer >= 1")
                              else if decide (500 < v)%Z then Err (EMsg "limit must be <= 500")
                              else Ok v
                  | None => Err (EMsg "limit must be an integer >= 1")
                  end in
  tryp* l := lim else id in
  let off := if decide (offset = "") then Ok 0%Z
             else match strconv_Atoi offset with
                  | Some v => if decide (v < 0)%Z then Err (EMsg "offset must be an integer >= 0")
                              else Ok v
                  | None => Err (EMsg "offset must be an integer >= 0")
                  end in
  tryp* o := off else id in
  Ok (l, o).

(** An optional boolean parameter. *)
Definition parse_opt_bool (name raw : string) : res (option bool) :=
  if decide (raw = "") then Ok None
  else match strconv_ParseBool raw with
       | Some v => Ok (Some v)
       | None => Err (EMsg (name +:+ " must be true or false"))
       end.

(** ** handler_sagas.go: the feature override header *)

(** One comma-separated entry: the feature and its value. *)
Definition override_entry (pair : string) : option (string * bool) :=
  let pair := strings_TrimSpace pair in
  match strings_Index pair "="%char with
  | None => None
  | Some eq =>
      if decide (eq < 1 ∨ S eq = String.length pair) then None
      else
        let feature := strings_TrimSpace (strings_take eq pair) in
        let v := strings_ToLower (strings_TrimSpace (strings_drop (S eq) pair)) in
        if decide (v = "on" ∨ v = "true" ∨ v = "1") then Some (feature, true)
        else if decide (v = "off" ∨ v = "false" ∨ v = "0") then Some (feature, false)
        else None
  end.

(** [parseFeatureOverrideHeader]: a later entry replaces an earlier one; no entry
    gives the nil map. *)
Definition parseFeatureOverrideHeader (h : string) : gmap string bool :=
  fold_left (λ m p, match override_entry p with Some (f, v) => <[f := v]> m | None => m end)
    (strings_Split h ","%char) ∅.

(** ** Request bodies *)
Record startRequest := mkStart {
  sr_WorkflowID : string;
  sr_Inputs : Vars;
  sr_TenantID : option uuid;
  sr_DryRun : bool
}.
Record actionErrorBody := mkActionError {
  ae_Code : string;
  ae_Message : string;
  ae_Retryable : bool
}.
Record actionResultReq := mkActionResult {
  ar_Attempt : option Z;
  ar_Result : option Vars;        (* None: nil *)
  ar_Error : option actionErrorBody
}.
Record userTaskSubmitReq := mkSubmit {
  us_SubmittedBy : string;
  us_Result : Vars
}.
Record registerReq := mkRegister {
  rg_Service : string;
  rg_ServiceVersion : string;
  rg_Actions : list ActionRegistration
}.
Record triggerCreateReq := mkTriggerCreate {
  tc_TriggerType : string;
  tc_WorkflowID : string;
  tc_Version : Z;
  tc_Config : option Vars;        (* None: nil *)
  tc_Enabled : bool;
  tc_TenantID : option string;
  tc_CreatedBy : string
}.
Record rulesEvalReq := mkRulesEval {
  re_Inputs : Vars;
  re_TenantID : option string
}.
(** The query parameters of [GET /sagas], "" when absent. *)
Record listQuery := mkQuery {
  q_limit : string; q_offset : string; q_workflow_id : string; q_state : string;
  q_trigger_type : string; q_since : string; q_has_error : string; q_requires_review : string
}.

Section Api.
Context `{Env} `{Store St}.
Context {Schedule : Type} (cron_ParseStandard : string → res Schedule)
        (cron_Next : Schedule → Z → Z).
Abbreviation M := (M (World St)).
Implicit Types pub : option (Publisher St).

(** Publish the run's advance if there is a publisher. *)
Definition publish_opt pub (runID : uuid) : M (res unit) :=
  match pub with
  | Some publish => publish (uuid_string runID)
  | None => ret (Ok tt)
  end.
Definition publish_failed {A} : response A :=
  WriteError 500 CodePublishFailed genericInternalMessage.

(** *** handler_signals.go *)

(** Record a signal, try to hand it to the run, and publish the run when it was
    waiting: the part that [SignalHandler.Post] and [UserTaskHandler.Submit]
    share after the append. *)
Definition deliver_signal pub (runID : uuid) (name : string) : M (sum (response unit) bool) :=
  let* r := TryConsumeAwaitedSignal runID name in
  match r with
  | Err _ => ret (inl internal)
  | Ok true =>
      let* p := publish_opt pub runID in
      ret (match p with Err _ => inl publish_failed | Ok _ => inr true end)
  | Ok false => ret (inr false)
  end.

(** The signal row both handlers append. *)
Definition new_signal (runID : uuid) (name : string) (payload : Vars) : M SagaSignal :=
  let* id := uuidNew in
  let* now := timeNow in
  ret (mkSignal id runID name payload now None).

(** [SignalHandler.Post]; [payload] is what decoding the body left in
    [body.Payload], whose error is ignored. *)
Definition SignalHandler_Post pub (runIDStr name : string) (payload : Vars) : M (response unit) :=
  match uuid_parse runIDStr with
  | Err _ => ret (bad_request "bad run id")
  | Ok runID =>
      let* sig := new_signal runID name payload in
      tryw* _ := AppendSignal sig
        else (λ e, match e with
                   | ErrNotFound _ _ => WriteError 404 CodeNotFound_ "run not found"
                   | _ => internal
                   end) in
      let* d := deliver_signal pub runID name in
      ret (match d with
           | inl resp => resp
           | inr true => WriteHeader 202
           | inr false =>
               WriteError 409 CodeConflict "signal recorded but run was not awaiting it"
           end)
  end.

(** *** handler_user_tasks.go *)
Definition task_signal (taskID : uuid) : string :=
  "user_task." +:+ uuid_string taskID +:+ ".submitted".

Definition UserTaskHandler_Submit pub (taskIDStr : string) (body : res userTaskSubmitReq)
    : M (response unit) :=
  match uuid_parse taskIDStr with
  | Err _ => ret (bad_request "bad task id")
  | Ok taskID =>
      match body with
      | Err _ => ret (bad_request "bad request body")
      | Ok body =>
          if decide (us_SubmittedBy body = "") then ret (bad_request "submitted_by required")
          else
            tryw* task := GetUserTask taskID
              else (λ _, WriteError 404 CodeNotFound_ "task not found") in
            tryw* _ := SubmitUserTask taskID (us_SubmittedBy body) (us_Result body)
              else (λ _, internal) in
            let* sig := new_signal (task_RunID task) (task_signal taskID) (us_Result body) in
            tryw* _ := AppendSignal sig else (λ _, internal) in
            let* d := deliver_signal pub (task_RunID task) (task_signal taskID) in
            ret (match d with inl resp => resp | inr _ => WriteHeader 202 end)
      end
  end.

(** *** handler_action_result.go *)
Definition resolveAttempt (runID : uuid) (explicit : option Z) : M (res Z) :=
  match explicit with
  | Some a => ret (Ok a)
  | None => try* run := GetRun runID else id in ret (Ok (run_CurrentAttempt run))
  end.

Definition ActionResultHandler_Post pub (runIDStr : string) (body : res actionResultReq)
    : M (response unit) :=
  match uuid_parse runIDStr with
  | Err _ => ret (bad_request "bad run id")
  | Ok runID =>
      match body with
      | Err _ => ret (bad_request "bad request body")
      | Ok body =>
          match ar_Result body, ar_Error body with
          | None, None | Some _, Some _ =>
              ret (bad_request "exactly one of result or error required")
          | None, Some e =>
              tryw* attempt := resolveAttempt runID (ar_Attempt body)
                else (λ _, bad_request "run not found") in
              tryw* _ := FailAction runID attempt (ae_Code e) (ae_Message e) (ae_Retryable e)
                else (λ _, internal) in
              ret (WriteHeader 202)
          | Some result, None =>
              tryw* attempt := resolveAttempt runID (ar_Attempt body)
                else (λ _, bad_request "run not found") in
              tryw* _ := CompleteAction runID attempt result else (λ _, internal) in
              tryw* _ := publish_opt pub runID else (λ _, publish_failed) in
              ret (WriteHeader 202)
          end
      end
  end.

(** *** handler_sagas.go *)

(** The run [Start] creates. *)
Definition started_run (id_ : uuid) (now : Z) (def : WorkflowDefinition) (defRowID : uuid)
    (req : startRequest) (override : string) : SagaRun :=
  set_run_FeatureOverrides (parseFeatureOverrideHeader override)
    (set_run_DryRun (sr_DryRun req)
       (NewSagaRun id_ now (def_ID def) defRowID (sr_TenantID req) (sr_Inputs req))).

(** [SagaHandler.Start]; the body of the 202 is the run id. *)
Definition SagaHandler_Start (publish : Publisher St)
    (providers : list (StartupVariableProvider St)) (body : res startRequest) (override : string)
    : M (response uuid) :=
  match body with
  | Err _ => ret (bad_request "bad request body")
  | Ok req =>
      if decide (sr_WorkflowID req = "") then ret (bad_request "workflow_id is required")
      else
        tryw* def := GetPublishedWorkflowByID (sr_WorkflowID req) (sr_TenantID req)
          else (λ e, if errors_As_NotFound e
                     then WriteError 404 "workflow_not_found" (sr_WorkflowID req)
                     else internal) in
        tryw* defRowID := UpsertWorkflowDefinition def else (λ _, internal) in
        let* id_ := uuidNew in
        let* now := timeNow in
        let run := started_run id_ now def defRowID req override in
        tryw* _ := CreateRun run else (λ _, internal) in
        do* InjectStartupVariables (run_ID run) (sr_TenantID req) providers in
        tryw* _ := publish (uuid_string (run_ID run)) else (λ _, publish_failed) in
        ret (WriteJSON 202 (run_ID run))
  end.

Definition not_found_or_internal {A} (code idStr : string) (e : err) : response A :=
  if errors_As_NotFound e then WriteError 404 code idStr else internal.

Definition SagaHandler_Get (idStr : string) : M (response SagaRun) :=
  match uuid_parse idStr with
  | Err _ => ret (bad_request "invalid id")
  | Ok id_ =>
      tryw* run := GetRun id_ else not_found_or_internal "saga_not_found" idStr in
      ret (WriteJSON 200 run)
  end.

(** [SagaHandler.Cancel]; [reason] is the decoded body, with an empty one for an
    empty body. *)
Definition SagaHandler_Cancel (canceller : option (uuid → string → M (res unit)))
    (idStr : string) (reason : res string) : M (response unit) :=
  match uuid_parse idStr with
  | Err _ => ret (bad_request "invalid id")
  | Ok id_ =>
      match reason with
      | Err _ => ret (bad_request "bad request body")
      | Ok reason =>
          match canceller with
          | None => ret (WriteError 501 "not_implemented" "cancel is not available")
          | Some cancel =>
              tryw* _ := cancel id_ reason else not_found_or_internal "saga_not_found" idStr in
              ret (WriteHeader 202)
          end
      end
  end.

(** The filter of [List], or the message of the 400. *)
Definition list_filter (q : listQuery) : res RunFilter :=
  tryp* p := parse_paging (q_limit q) (q_offset q) else id in
  let since := if decide (q_since q = "") then Ok None
               else match parse_rfc3339 (q_since q) with
                    | Ok t => Ok (Some t)
                    | Err _ => Err (EMsg "since must be an RFC3339 timestamp")
                    end in
  tryp* s := since else id in
  tryp* he := parse_opt_bool "has_error" (q_has_error q) else id in
  tryp* rr := parse_opt_bool "requires_review" (q_requires_review q) else id in
  Ok (mkRunFilter (q_workflow_id q) (q_state q) (q_trigger_type q) s he rr p.1 p.2).

Record listResponse := mkListResponse {
  lr_Sagas : list SagaRun; lr_Total : Z; lr_Limit : Z; lr_Offset : Z
}.

Definition SagaHandler_List (q : listQuery) : M (response listResponse) :=
  match list_filter q with
  | Err e => ret (bad_request (err_Error e))
  | Ok filter =>
      tryw* runs := ListRuns filter else (λ _, internal) in
      tryw* total := CountRuns filter else (λ _, internal) in
      ret (WriteJSON 200 (mkListResponse runs total (rf_Limit filter) (rf_Offset filter)))
  end.

(** *** handler_triggers.go *)
Fixpoint validate_fields (cfg : Vars) (required : list string) : res unit :=
  match required with
  | [] => Ok tt
  | key :: required =>
      match cfg !! key with
      | None => Err (EMsg ("config." +:+ key +:+ " is required for trigger_type record_transition"))
      | Some v =>
          if decide (default "" (as_str (Some v)) = "")
          then Err (EMsg ("config." +:+ key +:+ " must be a non-empty string"))
          else validate_fields cfg required
      end
  end.
Definition validateRecordTransitionConfig (cfg : Vars) : res unit :=
  validate_fields cfg ["record_type"; "from_state"; "to_state"].

(** An optional tenant: what does not parse is dropped. *)
Definition parse_tenant (s : option string) : option uuid :=
  match s with
  | Some s => if decide (s = "") then None
              else match uuid_parse s with Ok u => Some u | Err _ => None end
  | None => None
  end.

Definition dquote : string := String (Ascii.ascii_of_nat 34) "".
Definition invalid_interval : string :=
  "invalid cron interval: must be a positive Go duration (e.g. " +:+ dquote +:+ "30s" +:+
  dquote +:+ ")".

(** The first fire time of a cron trigger, or the message of the 400. *)
Definition first_fire (cfg : Vars) (now : Z) : res Z :=
  match cfg !! "schedule", cfg !! "interval" with
  | Some _, Some _ => Err (EMsg "cron config must have exactly one of schedule or interval, not both")
  | _, Some _ =>
      match parse_duration (get_str cfg "interval") with
      | Ok d =>
          if decide (d ≤ 0)%Z
          then Err (EMsg invalid_interval)
          else Ok (now + d)%Z
      | Err _ => Err (EMsg invalid_interval)
      end
  | Some _, None =>
      match cron_ParseStandard (get_str cfg "schedule") with
      | Ok sched => Ok (cron_Next sched now)
      | Err _ => Err (EMsg "invalid cron schedule")
      end
  | None, None => Err (EMsg "cron config must have exactly one of schedule or interval")
  end.

(** The field checks of [Create], up to the type-specific ones. *)
Definition trigger_fields (body : triggerCreateReq) : res Vars :=
  if decide (tc_TriggerType body = "") then Err (EMsg "trigger_type required")
  else if decide (tc_WorkflowID body = "") then Err (EMsg "workflow_id required")
  else if decide (tc_Version body < 1)%Z then Err (EMsg "version must be >= 1")
  else
    match tc_Config body with
    | None => Err (EMsg "config field must be present (use {} for empty)")
    | Some cfg =>
        if decide (tc_CreatedBy body = "") then Err (EMsg "created_by required") else Ok cfg
    end.

(** The cron part of [Create]: the fire time to store, or the response. *)
Definition cron_check (licensing : LicenseResolver St) (body : triggerCreateReq) (cfg : Vars)
    : M (sum (response SagaTrigger) (option Z)) :=
  if decide (tc_TriggerType body = TriggerCron) then
    let* now := Clock_Now in
    match first_fire cfg now with
    | Err e => ret (inl (bad_request (err_Error e)))
    | Ok next =>
        let* ok := licensing (parse_tenant (tc_TenantID body)) FeatureCronTriggers ∅ in
        ret (match ok with
             | Ok true => inr (Some next)
             | _ => inl (WriteError 403 CodeForbidden "cron triggers not licensed")
             end)
    end
  else ret (inr None).

(** The trigger row [Create] upserts; the store assigns the id and the time. *)
Definition created_trigger (body : triggerCreateReq) (cfg : Vars) (next : option Z) : SagaTrigger :=
  mkTrigger uuid_Nil (tc_TriggerType body) (tc_WorkflowID body) (tc_Version body) cfg
    (tc_Enabled body) (parse_tenant (tc_TenantID body)) None (tc_CreatedBy body) next None.

Definition TriggerHandler_Create (licensing : LicenseResolver St) (body : res triggerCreateReq)
    : M (response SagaTrigger) :=
  match body with
  | Err e => ret (bad_request ("bad body: " +:+ err_Error e))
  | Ok body =>
      match trigger_fields body with
      | Err e => ret (bad_request (err_Error e))
      | Ok cfg =>
          match (if decide (tc_TriggerType body = TriggerRecordTransition)
                 then validateRecordTransitionConfig cfg else Ok tt) with
          | Err e => ret (WriteError 422 CodeInvalidConfig (err_Error e))
          | Ok _ =>
              let* c := cron_check licensing body cfg in
              match c with
              | inl resp => ret resp
              | inr next =>
                  tryw* id_ := UpsertTrigger (created_trigger body cfg next) else (λ _, internal) in
                  tryw* created := GetTrigger id_ else (λ _, internal) in
                  ret (WriteJSON 201 created)
              end
          end
      end
  end.

Definition TriggerHandler_Get (idStr : string) : M (response SagaTrigger) :=
  match uuid_parse idStr with
  | Err _ => ret (bad_request "invalid id")
  | Ok id_ =>
      tryw* trigger := GetTrigger id_ else not_found_or_internal "trigger_not_found" idStr in
      ret (WriteJSON 200 trigger)
  end.

(** The [enabled] parameter: what is not a known word is ignored. *)
Definition enabled_param (e : string) : option bool :=
  if decide (e = "true" ∨ e = "1") then Some true
  else if decide (e = "false" ∨ e = "0") then Some false
  else None.

Definition TriggerHandler_List (type_ enabled : string) : M (response (list SagaTrigger)) :=
  tryw* triggers := ListTriggers (mkTriggerFilter type_ (enabled_param enabled) None)
    else (λ _, internal) in
  ret (WriteJSON 200 triggers).

Definition TriggerHandler_Delete (idStr : string) : M (response unit) :=
  match uuid_parse idStr with
  | Err _ => ret (bad_request "invalid id")
  | Ok id_ =>
      tryw* _ := DeleteTrigger id_ else not_found_or_internal "trigger_not_found" idStr in
      ret (WriteHeader 204)
  end.

(** *** handler_workflows.go *)
Definition WorkflowHandler_Stats (wfID : string) : M (response WorkflowStats) :=
  if decide (wfID = "") then ret (bad_request "wf_id required")
  else
    tryw* stats := StatsForWorkflow wfID else (λ _, internal) in
    ret (WriteJSON 200 stats).

Record workflowListResponse := mkWorkflowList {
  wl_Workflows : list WorkflowDefinition; wl_Total : Z; wl_Limit : Z; wl_Offset : Z
}.

Definition WorkflowHandler_List (limit offset search published : string)
    : M (response workflowListResponse) :=
  match parse_paging limit offset with
  | Err e => ret (bad_request (err_Error e))
  | Ok (l, o) =>
      match parse_opt_bool "published" published with
      | Err e => ret (bad_request (err_Error e))
      | Ok pub =>
          tryw* defs := ListWorkflowDefinitions (mkDefFilter pub search l o) else (λ _, internal) in
          ret (WriteJSON 200 (mkWorkflowList defs (Z.of_nat (length defs)) l o))
      end
  end.

Definition WorkflowHandler_Get (idStr : string) : M (response WorkflowDefinition) :=
  match uuid_parse idStr with
  | Ok id_ =>
      tryw* def := GetWorkflowDefinition id_
        else not_found_or_internal "workflow_not_found" idStr in
      ret (WriteJSON 200 def)
  | Err _ =>
      tryw* defs := ListWorkflowDefinitions (mkDefFilter None idStr 500 0) else (λ _, internal) in
      ret (match list_find (λ d, def_ID d = idStr) defs with
           | Some (_, def) => WriteJSON 200 def
           | None => WriteError 404 "workflow_not_found" idStr
           end)
  end.

(** [WorkflowHandler.Save]; the body of the 200 is the storage id with the
    definition. *)
Definition WorkflowHandler_Save (body : res WorkflowDefinition)
    : M (response (uuid * WorkflowDefinition)) :=
  match body with
  | Err _ => ret (bad_request "bad request body")
  | Ok def =>
      match ValidateDefinition def with
      | Err e => ret (bad_request (err_Error e))
      | Ok _ =>
          tryw* id_ := UpsertWorkflowDefinition def else (λ _, internal) in
          ret (WriteJSON 200 (id_, def))
      end
  end.

(** *** handler_rules.go *)
Definition RulesHandler_Evaluate (ruleID : string) (body : res rulesEvalReq)
    : M (response (Vars * list EvaluatedRow)) :=
  if decide (ruleID = "") then ret (bad_request "rule_id required")
  else
    match body with
    | Err _ => ret (bad_request "bad request body")
    | Ok body =>
        tryw* def := GetPublishedRuleByID ruleID (parse_tenant (re_TenantID body))
          else (λ e, if errors_As_NotFound e
                     then WriteError 404 CodeNotFound_ ("rule not found: " +:+ ruleID)
                     else internal) in
        ret (match Evaluate def (re_Inputs body) with
             | (Err e, _) =>
                 WriteError 422 CodeUnprocessable ("rule evaluation failed: " +:+ err_Error e)
             | (Ok output, audit) => WriteJSON 200 (output, audit)
             end)
    end.

(** *** handler_registry.go *)

(** The row an action is registered as: service and version come from the
    envelope. *)
Definition stamped (service version : string) (a : ActionRegistration) : ActionRegistration :=
  mkAction (act_ID a) service (act_ActionName a) (act_Version a) (act_Description a)
    (act_Category a) (act_Compensable a) (act_InputSchema a) (act_OutputSchema a)
    (act_ErrorCodes a) (act_DefaultRetry a) (act_DefaultTimeoutMS a) (act_Deprecated a)
    (act_RegisteredAt a) version (act_DryRunSupported a) (act_LicenseGroup a)
    (act_Transport a) (act_Address a).

(** The loop of [Register], from action [i]: [Some] response leaves it. *)
Fixpoint register_actions (service version : string) (i : nat) (l : list ActionRegistration)
    : M (option (response Z)) :=
  match l with
  | [] => ret None
  | a :: l =>
      let at_ := "actions[" +:+ itoa (Z.of_nat i) +:+ "]" in
      if decide (act_ActionName a = "") then ret (Some (bad_request (at_ +:+ ".name required")))
      else if decide (act_Version a < 1)%Z then
        ret (Some (bad_request (at_ +:+ ".version must be >= 1")))
      else
        let* r := UpsertActionRegistration (stamped service version a) in
        match r with
        | Err _ => ret (Some internal)
        | Ok _ => register_actions service version (S i) l
        end
  end.

(** [RegistryHandler.Register]; the body of the 200 counts the actions. *)
Definition RegistryHandler_Register (body : res registerReq) : M (response Z) :=
  match body with
  | Err _ => ret (bad_request "bad request body")
  | Ok body =>
      if decide (rg_Service body = "") then ret (bad_request "service required")
      else if decide (rg_Actions body = []) then
        ret (bad_request "actions required (non-empty)")
      else
        let* r := register_actions (rg_Service body) (rg_ServiceVersion body) 0 (rg_Actions body) in
        ret (default (WriteJSON 200 (Z.of_nat (length (rg_Actions body)))) r)
  end.

Definition RegistryHandler_List (service category search : string)
    : M (response (list ActionRegistration)) :=
  tryw* actions := ListActions (mkActionFilter service search category) else (λ _, internal) in
  ret (WriteJSON 200 actions).
End Api.
