(* ===== verification/ApiProps.v ===== *)
(** Properties of the REST handlers: what a signal, a task submission, an action
    result and a created trigger do, end to end with the engine. *)
From S2P Require Import Prelude Values Domain World Demo StoreApi Rows StoreSpec MemStore MemSpec.
From S2P Require Import VerbsData Join Fanout VerbsEffect Action Registry Retry Engine.
From S2P Require Import EngineLemmas EngineStep EngineRounds EngineProps MemInv MemProps.
From S2P Require Import Dispatchers DispatcherProps LivenessProps Api.

(** ** Action results, over the store contract *)
Section ActionResult.
Context `{StoreSpec St}.
Implicit Types w : World St.

(** A result posted without an attempt number. *)
Definition result_body (result : Vars) : res actionResultReq :=
  Ok (mkActionResult None (Some result) None).

Lemma result_post runIDStr id result w r :
  sends_ok → uuid_parse runIDStr = Ok id → v_runs (V w) !! id = Some r →
  ∃ w1, ActionResultHandler_Post (Some mq_PublishSagaAdvance) runIDStr (result_body result) w =
          (WriteHeader 202, w1) ∧
    V w1 = alter_run (λ _, row_CompleteAction (w_now w) result r) id (V w) ∧
    w_clk w1 = w_clk w ∧ w_polls w1 = w_polls w ∧
    (w_out w1).*1 = (w_out w).*1 ++ [MAdvance (uuid_string id)].
Proof.
  intros Hok Hid Hr. unfold ActionResultHandler_Post, result_body. rewrite Hid. simpl.
  destruct (spec_GetRun id w) as (w0 & E0 & (Hn0 & Hc0 & Hp0 & _ & Ho0) & Hv0).
  rewrite (found_Some _ (view (w_store w)) _ r Hr) in E0. rewrite bind_assoc. mstep E0. rewrite bind_ret.
  destruct (spec_CompleteAction id (run_CurrentAttempt r) result w0)
    as (w1 & E1 & (Hn1 & Hc1 & Hp1 & _ & Ho1) & Hv1).
  rewrite Hv0, (found_Some _ (view (w_store w)) _ r Hr) in E1. mstep E1.
  unfold publish_opt, mq_PublishSagaAdvance, bind, send. rewrite Hok. eexists. split; [reflexivity|].
  split_and!; simpl; [|congruence..|by rewrite fmap_app, Ho1, Ho0].
  unfold V at 1; simpl. rewrite Hv1, Hv0, Hn0. unfold alter_run. f_equal. simpl.
  rewrite !(alter_insert_lookup _ _ r) by done. unfold Complete_row. by rewrite decide_False by tauto.
Qed.

(** An action result ends whatever wait the run is in.  The callback endpoint
    checks neither the step it names nor that an action is awaited: a result posted
    for a paused run (waiting for a signal, an approval, an event or a timer) is
    accepted with 202, merged into the variables and published, and the advance it
    triggers leaves the step as if its wakeup had come, through the "timeout"
    branch when a signal or event was still awaited. *)
Theorem action_result_ends_any_wait c runIDStr id result w r d step :
  sends_ok → uuid_parse runIDStr = Ok id → v_runs (V w) !! id = Some r → run_ID r = id →
  run_State r = RunStatePaused → live w → (w_now w ≤ w_clk w)%Z →
  v_defs (V w) !! run_DefinitionID r = Some d → StepByID d (run_CurrentStep r) = Some step →
  wake_target step (negb (no_pending_awaits r)) ≠ "" →
  ∃ w1, ActionResultHandler_Post (Some mq_PublishSagaAdvance) runIDStr (result_body result) w =
          (WriteHeader 202, w1) ∧
    (w_out w1).*1 = (w_out w).*1 ++ [MAdvance (uuid_string id)] ∧
    moves id (advance_iter c id) w1 (row_CompleteAction (w_now w) result r) Continue
      [(EventStepSucceeded, step_ID step, "engine")]
      (row_UpdateRunState RunStateRunning (wake_target step (negb (no_pending_awaits r)))
         (row_ClearPause (row_CompleteAction (w_now w) result r))).
Proof.
  intros Hok Hid Hr Hrid Hp Hl Hle Hd Hs Hn.
  destruct (result_post runIDStr id result w r Hok Hid Hr) as (w1 & E & Hv & Hc & Hpolls & Ho).
  exists w1. split; [done|]. split; [done|]. set (r1 := row_CompleteAction (w_now w) result r).
  assert (no_pending_awaits r1 = no_pending_awaits r) as Hna by done. rewrite <-Hna in *.
  apply (iter_wakes c id w1 r1 d step); try done.
  - unfold live. by rewrite Hpolls.
  - rewrite Hv. by apply (alter_const (row_CompleteAction _ _)).
  - unfold wakeup_due; simpl. rewrite Hc. by apply Z.leb_le.
  - by rewrite Hv.
Qed.
End ActionResult.

(** ** The handlers on the in-memory store *)
Section MemApi.
Context `{EnvLaws}.
Implicit Types w : World MemStore.

(** *** Signals *)

(** Appending, consuming and publishing, as both handlers do it. *)
Lemma append_and_deliver sg w :
  sends_ok →
  let id := sig_RunID sg in
  ∃ w1 w2, mem_AppendSignal sg w = (Ok tt, w1) ∧
    deliver_signal (Some mq_PublishSagaAdvance) id (sig_SignalName sg) w1 =
      (inr (waits_for w id (sig_SignalName sg)), w2) ∧
    w_store w2 = signalled w sg ∧ w_now w2 = w_now w ∧ w_ids w2 = w_ids w ∧
    (w_out w2).*1 = (w_out w).*1 ++
      if waits_for w id (sig_SignalName sg) then [MAdvance (uuid_string id)] else [].
Proof.
  intros Hok id. destruct (append_and_consume sg w) as (w1 & E1 & E2). fold id in E2.
  exists w1. unfold deliver_signal.
  change (TryConsumeAwaitedSignal id (sig_SignalName sg))
    with (mem_TryConsumeAwaitedSignal id (sig_SignalName sg)).
  mstep E2. destruct (waits_for w id (sig_SignalName sg)).
  - unfold publish_opt, mq_PublishSagaAdvance, bind, send, ret. rewrite Hok.
    eexists. split_and!; try done. cbn [w_out]. by rewrite fmap_app.
  - eexists. split_and!; try done. simpl. by rewrite app_nil_r.
Qed.

(** The signal endpoint: the signal is always recorded; exactly when the run is
    paused on that very signal name the answer is 202, the run's await markers are
    cleared, its stored signals of the name are consumed and its advance is
    published once; otherwise the answer is 409 and no run changes and nothing is
    sent. *)
Theorem signal_endpoint runIDStr id name payload w :
  sends_ok → uuid_parse runIDStr = Ok id →
  ∃ w' sg, SignalHandler_Post (Some mq_PublishSagaAdvance) runIDStr name payload w =
    ((if waits_for w id name then WriteHeader 202
      else WriteError 409 CodeConflict "signal recorded but run was not awaiting it"), w') ∧
    sig_RunID sg = id ∧ sig_SignalName sg = name ∧ sig_Payload sg = payload ∧
    w_store w' = signalled w sg ∧
    (w_out w').*1 = (w_out w).*1 ++
      if waits_for w id name then [MAdvance (uuid_string id)] else [].
Proof.
  intros Hok Hid. unfold SignalHandler_Post. rewrite Hid.
  set (w0 := (uuidNew w).2). set (sg := mkSignal (uuid_New (w_ids w)) id name payload (w_now w) None).
  assert (new_signal id name payload w = (sg, w0)) as E0 by done. mstep E0.
  destruct (append_and_deliver sg w0 Hok) as (w1 & w2 & E1 & E2 & Hs & _ & _ & Ho).
  change (AppendSignal sg) with (mem_AppendSignal sg). mstep E1. simpl in E2. mstep E2.
  change (waits_for w0 id name) with (waits_for w id name) in *.
  exists w2, sg. split_and!; try done.
Qed.

(** *** User tasks *)
(** A submission on a store that has the task. *)
Lemma submit_task taskIDStr tid t by_ result w :
  sends_ok → uuid_parse taskIDStr = Ok tid → by_ ≠ "" → userTasks (w_store w) !! tid = Some t →
  let id := task_RunID t in let name := task_signal tid in
  ∃ w' sg, UserTaskHandler_Submit (Some mq_PublishSagaAdvance) taskIDStr
      (Ok (mkSubmit by_ result)) w = (WriteHeader 202, w') ∧
    sig_RunID sg = id ∧ sig_SignalName sg = name ∧ sig_Payload sg = result ∧
    runs (w_store w') = (if waits_for w id name then alter row_clear_awaits id (runs (w_store w))
                         else runs (w_store w)) ∧
    userTasks (w_store w') !! tid =
      Some (set_task_Result result (set_submitted (Some (w_now w)) by_ t)) ∧
    (w_out w').*1 = (w_out w).*1 ++
      if waits_for w id name then [MAdvance (uuid_string id)] else [].
Proof.
  intros Hok Hid Hby Ht id name. unfold UserTaskHandler_Submit. rewrite Hid. cbn [us_SubmittedBy us_Result].
  rewrite decide_False by done. change (GetUserTask tid) with (mem_GetUserTask tid).
  assert (mem_GetUserTask tid w = (Ok t, w)) as E
    by (unfold mem_GetUserTask, bind, get_store; by rewrite Ht).
  mstep E. set (t' := set_task_Result result (set_submitted (Some (w_now w)) by_ t)).
  set (w0 := set_store (set_userTasks (<[tid := t']> (userTasks (w_store w))) (w_store w)) w).
  change (SubmitUserTask tid by_ result) with (mem_SubmitUserTask tid by_ result).
  assert (mem_SubmitUserTask tid by_ result w = (Ok tt, w0)) as E0
    by (unfold mem_SubmitUserTask, bind, get_store, timeNow, put_store; by rewrite Ht).
  mstep E0. set (w1 := (uuidNew w0).2). fold id name.
  set (sg := mkSignal (uuid_New (w_ids w0)) id name result (w_now w0) None).
  assert (new_signal id name result w0 = (sg, w1)) as E1 by done. mstep E1.
  destruct (append_and_deliver sg w1 Hok) as (w2 & w3 & E2 & E3 & Hs & _ & _ & Ho).
  change (AppendSignal sg) with (mem_AppendSignal sg). mstep E2. simpl in E3. mstep E3.
  change (waits_for w1 id name) with (waits_for w id name) in *.
  exists w3, sg. rewrite Hs. unfold signalled.
  change (waits_for w1 (sig_RunID sg) (sig_SignalName sg)) with (waits_for w id name).
  split_and!; try done; destruct (waits_for w id name); try done; by apply lookup_insert_eq.
Qed.

(** C33: the approval round trip: after a [manual_approval] or [collect_input] step
    created its task and paused the run, submitting that task by its id records
    the submitter and the result, wakes the run (its await markers are cleared) and
    publishes its advance; the signal name the verb awaits is the one the endpoint
    sends.  A second submission is answered 202 and overwrites the recorded result,
    but wakes and publishes nothing. *)
Theorem approval_round_trip verb run step assignee dueAt form taskIDStr by1 by2 res1 res2 w r :
  sends_ok → runs (w_store w) !! run_ID run = Some r →
  uuid_parse taskIDStr = Ok (uuid_New (w_ids w)) → by1 ≠ "" → by2 ≠ "" →
  let id := run_ID run in let tid := uuid_New (w_ids w) in
  let submit b res := UserTaskHandler_Submit (Some mq_PublishSagaAdvance) taskIDStr
                        (Ok (mkSubmit b res)) in
  ∃ w1 w2 w3 t, await_task verb run step assignee dueAt form w = (Err ErrSagaPaused, w1) ∧
    submit by1 res1 w1 = (WriteHeader 202, w2) ∧
    userTasks (w_store w2) !! tid = Some (set_task_Result res1 (set_submitted (Some (w_now w1)) by1 t)) ∧
    runs (w_store w2) !! id =
      Some (row_clear_awaits (row_SetPausedAwaitingSignal (submitted_signal tid) dueAt r)) ∧
    (w_out w2).*1 = (w_out w).*1 ++ [MAdvance (uuid_string id)] ∧
    submit by2 res2 w2 = (WriteHeader 202, w3) ∧
    runs (w_store w3) = runs (w_store w2) ∧ (w_out w3).*1 = (w_out w2).*1.
Proof.
  intros Hok Hr Hid Hb1 Hb2 id tid submit.
  set (t := mkTask tid id (step_ID step) assignee dueAt form None "" ∅).
  set (r1 := row_SetPausedAwaitingSignal (submitted_signal tid) dueAt r).
  set (w1 := set_store (set_runs (<[id := r1]> (runs (w_store w)))
    (set_userTasks (<[tid := t]> (userTasks (w_store w))) (w_store w))) (uuidNew w).2).
  assert (await_task verb run step assignee dueAt form w = (Err ErrSagaPaused, w1)) as E1.
  { unfold await_task. unfold bind at 1, uuidNew. cbv zeta.
    change (CreateUserTask ?x) with (mem_CreateUserTask x).
    change (SetPausedAwaitingSignal ?a ?b ?c) with (mem_SetPausedAwaitingSignal a b c).
    unfold mem_CreateUserTask, mem_SetPausedAwaitingSignal, upd_run, bind, get_store, put_store; simpl.
    change id with (run_ID run). by rewrite Hr. }
  assert (userTasks (w_store w1) !! tid = Some t) as Ht by apply lookup_insert_eq.
  assert (runs (w_store w1) !! id = Some r1) as Hr1 by apply lookup_insert_eq.
  assert (waits_for w1 id (task_signal tid) = true) as Hw1.
  { apply (waits_for_row _ _ _ r1 Hr1); unfold r1, row_SetPausedAwaitingSignal; by destruct dueAt. }
  destruct (submit_task taskIDStr tid t by1 res1 w1 Hok Hid Hb1 Ht)
    as (w2 & _ & E2 & _ & _ & _ & Hruns & Htask & Ho).
  change (task_RunID t) with id in *. rewrite Hw1 in *.
  assert (runs (w_store w2) !! id = Some (row_clear_awaits r1)) as Hr2
    by (by rewrite Hruns, lookup_alter_eq, Hr1).
  destruct (submit_task taskIDStr tid _ by2 res2 w2 Hok Hid Hb2 Htask)
    as (w3 & _ & E3 & _ & _ & _ & Hruns3 & _ & Ho3).
  assert (waits_for w2 (task_RunID (set_task_Result res1 (set_submitted (Some (w_now w1)) by1 t)))
            (task_signal tid) = false) as Hw2.
  { unfold waits_for. change (task_RunID _) with id. rewrite Hr2. apply bool_decide_eq_false_2.
    by intros [_ ?]. }
  rewrite Hw2 in *. rewrite app_nil_r in Ho3. exists w1, w2, w3, t. by split_and!.
Qed.
End MemApi.

(** ** Witnesses *)
#[local] Existing Instance demo_env.
#[local] Existing Instance demo_laws.

Lemma action_result_ends_any_wait_witness :
  ∃ w1, ActionResultHandler_Post (Some mq_PublishSagaAdvance) demo_id (result_body ∅) (demo_w waiting) =
          (WriteHeader 202, w1) ∧
    (w_out w1).*1 = (w_out (demo_w waiting)).*1 ++ [MAdvance (uuid_string 7%N)] ∧
    moves 7 (advance_iter (demo_coord None) 7) w1 (row_CompleteAction 100 ∅ waiting) Continue
      [(EventStepSucceeded, "w", "engine")]
      (row_UpdateRunState RunStateRunning "late" (row_ClearPause (row_CompleteAction 100 ∅ waiting))).
Proof.
  apply (action_result_ends_any_wait (demo_coord None) demo_id 7 ∅ (demo_w waiting) waiting demo_def
           (wait_step "w" "e" "late")).
  - exact demo_sends_ok.
  - reflexivity.
  - reflexivity.
  - reflexivity.
  - reflexivity.
  - reflexivity.
  - by vm_compute.
  - reflexivity.
  - reflexivity.
  - discriminate.
Defined.

Lemma signal_endpoint_witness :
  ∃ w' sg, SignalHandler_Post (Some mq_PublishSagaAdvance) demo_id "go" ∅ (demo_w waiting) =
      (WriteHeader 202, w') ∧
    sig_RunID sg = 7%N ∧ sig_SignalName sg = "go" ∧ sig_Payload sg = ∅ ∧
    w_store w' = signalled (demo_w waiting) sg ∧
    (w_out w').*1 = (w_out (demo_w waiting)).*1 ++ [MAdvance (uuid_string 7%N)].
Proof.
  apply (signal_endpoint demo_id 7 "go" ∅ (demo_w waiting)).
  - exact demo_sends_ok.
  - reflexivity.
Defined.

Lemma approval_round_trip_witness :
  let w := demo_w waiting in let tid := uuid_New (w_ids w) in
  let submit b res := UserTaskHandler_Submit (Some mq_PublishSagaAdvance) (uuid_string tid)
                        (Ok (mkSubmit b res)) in
  ∃ w1 w2 w3 t, await_task "manual_approval" waiting (wait_step "w" "e" "late") "ops" None ∅ w =
                  (Err ErrSagaPaused, w1) ∧
    submit "ann" ∅ w1 = (WriteHeader 202, w2) ∧
    userTasks (w_store w2) !! tid = Some (set_task_Result ∅ (set_submitted (Some (w_now w1)) "ann" t)) ∧
    runs (w_store w2) !! 7%N =
      Some (row_clear_awaits (row_SetPausedAwaitingSignal (submitted_signal tid) None waiting)) ∧
    (w_out w2).*1 = (w_out w).*1 ++ [MAdvance (uuid_string 7%N)] ∧
    submit "bob" ∅ w2 = (WriteHeader 202, w3) ∧
    runs (w_store w3) = runs (w_store w2) ∧ (w_out w3).*1 = (w_out w2).*1.
Proof.
  intros w tid submit.
  apply (approval_round_trip "manual_approval" waiting (wait_step "w" "e" "late") "ops" None ∅
           (uuid_string tid) "ann" "bob" ∅ ∅ w waiting).
  - exact demo_sends_ok.
  - reflexivity.
  - by vm_compute.
  - discriminate.
  - discriminate.
Defined.
