(* ===== verification/ApiRequests.v ===== *)
(** Properties of the REST requests that create something: a cron trigger that was
    accepted can fire, a started saga can be read back, and the feature override
    header says what its sender meant. *)
From S2P Require Import Prelude Values Domain World Demo StoreApi Rows StoreSpec MemStore MemSpec.
From S2P Require Import VerbsData Join Fanout VerbsEffect Action Registry Retry Engine.
From S2P Require Import EngineLemmas EngineStep EngineRounds EngineProps MemInv MemProps.
From S2P Require Import Dispatchers DispatcherProps Api.

(** ** The feature override header *)
Section OverrideHeader.

(** A string without white space. *)
Fixpoint space_free (s : string) : Prop :=
  match s with EmptyString => True | String c s => is_space c = false ∧ space_free s end.

#[export] Instance space_free_dec s : Decision (space_free s).
Proof. induction s; simpl; apply _. Defined.

Lemma space_free_app s t : space_free (s +:+ t) ↔ space_free s ∧ space_free t.
Proof.
  induction s as [|c s IH]; [change ("" +:+ t) with t; simpl; tauto|].
  rewrite string_app_cons; simpl. rewrite IH. tauto.
Qed.

Lemma rev_onto_app s t acc :
  string_rev_onto (s +:+ t) acc = string_rev_onto t (string_rev_onto s acc).
Proof.
  revert acc. induction s as [|c s IH]; intros acc; [done|].
  rewrite string_app_cons; simpl. apply IH.
Qed.
Lemma rev_onto_acc s acc : string_rev_onto s acc = string_reverse s +:+ acc.
Proof.
  unfold string_reverse. revert acc. induction s as [|c s IH]; intros acc; [done|]; simpl.
  rewrite (IH (String c acc)), (IH (String c "")). by rewrite string_app_assoc.
Qed.
Lemma string_reverse_involutive s : string_reverse (string_reverse s) = s.
Proof.
  induction s as [|c s IH]; [done|].
  change (string_reverse (String c s)) with (string_rev_onto s (String c "")).
  rewrite rev_onto_acc. unfold string_reverse at 1. rewrite rev_onto_app; simpl.
  f_equal. exact IH.
Qed.
Lemma space_free_reverse s : space_free s → space_free (string_reverse s).
Proof.
  induction s as [|c s IH]; [done|]. intros [Hc Hs].
  change (string_reverse (String c s)) with (string_rev_onto s (String c "")).
  rewrite rev_onto_acc. apply space_free_app. simpl. auto.
Qed.
Lemma trim_left_free s : space_free s → trim_left s = s.
Proof. destruct s as [|c s]; [done|]. simpl. by intros [-> _]. Qed.
Lemma TrimSpace_free s : space_free s → strings_TrimSpace s = s.
Proof.
  intros Hs. unfold strings_TrimSpace. rewrite (trim_left_free s Hs).
  rewrite trim_left_free by (by apply space_free_reverse). apply string_reverse_involutive.
Qed.

(** The header a client sends for a list of overrides: [a=on,b=off]. *)
Definition print_override (o : string * bool) : string :=
  o.1 +:+ String "="%char (if o.2 then "on" else "off").
Definition print_overrides (m : gmap string bool) : string :=
  strings_join ","%char (print_override <$> map_to_list m).

(** The feature names the header can carry. *)
Definition plain_name (f : string) : Prop :=
  f ≠ "" ∧ space_free f ∧ char_free "="%char f ∧ char_free ","%char f.

Lemma override_entry_print f v : plain_name f → override_entry (print_override (f, v)) = Some (f, v).
Proof.
  intros (Hne & Hs & He & _). unfold override_entry.
  assert (space_free (print_override (f, v))) as Hsp
    by (apply space_free_app; split; [done|]; by destruct v).
  rewrite (TrimSpace_free _ Hsp). unfold print_override; cbn [fst snd].
  rewrite Index_app by done. rewrite decide_False.
  - rewrite strings_take_app, drop_app_S, (TrimSpace_free _ Hs). by destruct v.
  - rewrite length_string_app. destruct f as [|c f]; [done|]. destruct v; simpl; lia.
Qed.

Lemma parse_entries l m :
  Forall (λ o, plain_name o.1) l →
  fold_left (λ (m : gmap string bool) p,
    match override_entry p with Some (f, v) => <[f := v]> m | None => m end)
    (print_override <$> l) m =
  fold_left (λ (m : gmap string bool) o, <[o.1 := o.2]> m) l m.
Proof.
  revert m. induction l as [|[f v] l IH]; intros m Hl; [done|].
  apply Forall_cons in Hl as [Hf Hl]. cbn [fmap list_fmap fold_left].
  rewrite (override_entry_print f v Hf). by apply IH.
Qed.

Lemma fold_insert_list_to_map (l : list (string * bool)) (m : gmap string bool) :
  NoDup l.*1 → fold_left (λ m o, <[o.1 := o.2]> m) l m = list_to_map l ∪ m.
Proof.
  revert m. induction l as [|[f v] l IH]; intros m Hl; [symmetry; apply (left_id_L ∅ (∪))|].
  apply NoDup_cons in Hl as [Hf Hl]. simpl. rewrite IH by done.
  rewrite <-insert_union_r by (by apply not_elem_of_list_to_map_1).
  by rewrite insert_union_l.
Qed.

(** The feature override header round trips: whatever order the sender lists the
    features in, parsing [a=on,b=off,...] gives back exactly the overrides it was
    printed from, for feature names free of blanks, commas and equal signs; the
    empty map is the empty header. *)
Theorem override_header_roundtrip m :
  map_Forall (λ f _, plain_name f) m → parseFeatureOverrideHeader (print_overrides m) = m.
Proof.
  intros Hm. unfold parseFeatureOverrideHeader, print_overrides.
  assert (Forall (λ o, plain_name o.1) (map_to_list m)) as Hl.
  { apply Forall_forall. intros [f v] Hf%elem_of_map_to_list. by apply (Hm f v). }
  destruct (decide (m = ∅)) as [->|Hne].
  { by rewrite map_to_list_empty. }
  rewrite Split_join.
  - rewrite parse_entries, fold_insert_list_to_map by (done || apply NoDup_fst_map_to_list).
    by rewrite list_to_map_to_list, (right_id_L ∅ (∪)).
  - intros E%fmap_nil_inv. by apply map_to_list_empty_iff in E.
  - apply Forall_fmap. eapply Forall_impl; [exact Hl|]. intros [f v] (_ & _ & _ & Hc).
    apply char_free_app. split; [done|]. by destruct v.
Qed.

Lemma override_header_roundtrip_witness :
  let m : gmap string bool := {["beta" := true; "cron.triggers" := false]} in
  print_overrides m ≠ "" ∧ parseFeatureOverrideHeader (print_overrides m) = m.
Proof.
  intros m. split; [by vm_compute|]. apply override_header_roundtrip.
  apply (bool_decide_unpack _). by vm_compute.
Defined.
End OverrideHeader.

(** ** Creating a cron trigger *)
Section CronTrigger.
Context `{EnvLaws}.
Context {Schedule : Type} (cron_ParseStandard : string → res Schedule)
        (cron_Next : Schedule → Z → Z).
Implicit Types w : World MemStore.
Abbreviation next_fire := (cron_next_fire cron_ParseStandard cron_Next).
Abbreviation first := (first_fire cron_ParseStandard cron_Next).

(** The empty string is no duration. *)
Context (Hempty : ∃ e, parse_duration "" = Err e).

(** The endpoint and the dispatcher agree on the fire times of an accepted
    configuration. *)
Lemma first_fire_next cfg now next :
  first cfg now = Ok next → ∀ t, ∃ n, next_fire cfg t = Some n ∧ (t = now → n = next).
Proof.
  destruct Hempty as [e He]. unfold first_fire, cron_next_fire.
  assert (∀ k, cfg !! k = None → get_str cfg k = "") as Hno
    by (intros k Hk; unfold get_str; by rewrite Hk).
  destruct (cfg !! "schedule") as [s|] eqn:Hs, (cfg !! "interval") as [i|] eqn:Hi; [done|..|done].
  - rewrite (Hno "interval" Hi). simpl. destruct (cron_ParseStandard _); [|done].
    intros [= <-] t. eexists. split; [done|]. by intros ->.
  - destruct (parse_duration (get_str cfg "interval")) as [d|] eqn:Hd; [|done].
    destruct (decide (d ≤ 0)%Z) as [|Hpos]; [done|]. intros [= <-] t.
    rewrite decide_True by congruence.
    eexists. split; [done|]. by intros ->.
Qed.

Lemma licensed_cron body cfg w :
  tc_TriggerType body = TriggerCron →
  cron_check cron_ParseStandard cron_Next (λ _ _ _, ret (Ok true)) body cfg w =
  (match first cfg (w_clk w) with
   | Ok next => inr (Some next)
   | Err e => inl (bad_request (err_Error e))
   end, w).
Proof.
  intros Ht. unfold cron_check. rewrite decide_True by done. unfold bind, Clock_Now.
  by destruct (first cfg (w_clk w)).
Qed.

(** C30: a cron trigger the endpoint accepts is one the dispatcher can fire.  With the
    feature licensed and the required fields present, the request is answered 201
    with the stored row, whose next fire time is the one the dispatcher computes
    from the same configuration at the same instant, and the dispatcher never skips
    it, at any later time; or 400, and nothing is stored. *)
Theorem created_cron_trigger_fires body cfg w :
  trigger_fields body = Ok cfg → tc_TriggerType body = TriggerCron →
  ∃ resp w', TriggerHandler_Create cron_ParseStandard cron_Next (λ _ _ _, ret (Ok true))
      (Ok body) w = (resp, w') ∧
    match resp with
    | WriteJSON status t =>
        status = 201%Z ∧ triggers (w_store w') = <[trig_ID t := t]> (triggers (w_store w)) ∧
        trig_TriggerType t = TriggerCron ∧ trig_Config t = cfg ∧
        trig_Enabled t = tc_Enabled body ∧ trig_LastFiredAt t = None ∧
        trig_NextFireAt t = next_fire cfg (w_clk w) ∧
        ∀ now, is_Some (next_fire cfg now)
    | WriteError status _ _ => status = 400%Z ∧ w' = w ∧ ∃ e, first cfg (w_clk w) = Err e
    | WriteHeader _ => False
    end.
Proof.
  intros Hf Ht. unfold TriggerHandler_Create. rewrite Hf.
  rewrite decide_False by (by rewrite Ht).
  pose proof (licensed_cron body cfg w Ht) as E. mstep E.
  destruct (first cfg (w_clk w)) as [next|e] eqn:Hfirst.
  2: { eexists _, _. split; [done|]. split_and!; try done. by exists e. }
  set (id := uuid_New (w_ids w)).
  set (t := mkTrigger id (tc_TriggerType body) (tc_WorkflowID body) (tc_Version body) cfg
    (tc_Enabled body) (parse_tenant (tc_TenantID body)) (Some (w_now w)) (tc_CreatedBy body)
    (Some next) None).
  set (w1 := set_store (set_triggers (<[id := t]> (triggers (w_store w))) (w_store w)) (exec uuidNew w)).
  change (UpsertTrigger ?x) with (mem_UpsertTrigger x).
  assert (mem_UpsertTrigger (created_trigger body cfg (Some next)) w = (Ok id, w1)) as E1 by done.
  mstep E1. change (GetTrigger id) with (mem_GetTrigger id).
  assert (mem_GetTrigger id w1 = (Ok t, w1)) as E2.
  { unfold mem_GetTrigger, bind, get_store. cbn [w_store w1 set_store triggers set_triggers].
    by rewrite lookup_insert_eq. }
  mstep E2. exists (WriteJSON 201 t), w1. split; [done|].
  pose proof (first_fire_next cfg _ _ Hfirst) as Hn.
  split_and!; try done.
  - destruct (Hn (w_clk w)) as (n & -> & Heq). simpl. by rewrite Heq.
  - intros now. destruct (Hn now) as (n & -> & _). done.
Qed.
End CronTrigger.

(** ** Starting a saga *)
Section Start.
Context `{EnvLaws}.
Implicit Types w : World MemStore.

(** A saga started over REST is there, once, and is published once.  Asking for a
    workflow whose newest published definition is [d] answers 202 with the id of a
    run that [GET] then returns: the inputs, tenant, dry-run flag and overrides of
    the request, pending at no step, on a new stored version of [d]; no other run
    changes, and exactly one advance, of that run, is sent.  An unknown workflow is
    404 and leaves everything as it was. *)
Theorem start_creates_run h w req override :
  sends_ok → reached h w → sr_WorkflowID req ≠ "" →
  ∃ resp w', SagaHandler_Start mq_PublishSagaAdvance [] (Ok req) override w = (resp, w') ∧
    match latest_def (sr_WorkflowID req) h with
    | None => resp = WriteError 404 "workflow_not_found" (sr_WorkflowID req) ∧ w' = w
    | Some d => ∃ id did,
        resp = WriteJSON 202 id ∧ reached (h ++ [d]) w' ∧
        defs (w_store w') !! did = Some d ∧
        let run := started_run id (w_now w) d did req override in
        runs (w_store w') = <[id := run]> (runs (w_store w)) ∧
        SagaHandler_Get (uuid_string id) w' = (WriteJSON 200 run, w') ∧
        (w_out w').*1 = (w_out w).*1 ++ [MAdvance (uuid_string id)]
    end.
Proof.
  intros Hok Hr Hne. unfold SagaHandler_Start. rewrite decide_False by done.
  pose proof (published_lookup h w (sr_WorkflowID req) (sr_TenantID req) Hr) as E.
  change (GetPublishedWorkflowByID (sr_WorkflowID req) (sr_TenantID req))
    with (mem_GetPublishedWorkflowByID (sr_WorkflowID req) (sr_TenantID req)).
  mstep E. destruct (latest_def (sr_WorkflowID req) h) as [d|]; [|by eexists _, _].
  set (did := uuid_New (w_ids w)). set (id := uuid_New (S (w_ids w))).
  set (run := started_run id (w_now w) d did req override).
  set (w1 := apply_op (OpUpsertDefinition d) w).
  set (w2 := apply_op (OpCreateRun run) (exec uuidNew w1)).
  assert (reached (h ++ [d]) w2) as H2.
  { apply (reached_op (OpCreateRun _) (h ++ [d])); [|done].
    apply (reached_env _ w1); [by apply (reached_op (OpUpsertDefinition d) h w)|done|simpl; lia]. }
  set (w3 := exec (send (MAdvance (uuid_string id))) w2).
  assert (runs (w_store w3) !! id = Some run) as Hrun by apply lookup_insert_eq.
  exists (WriteJSON 202 id), w3. split.
  - unfold bind at 1. change (UpsertWorkflowDefinition d) with (mem_UpsertWorkflowDefinition d).
    unfold InjectStartupVariables, mq_PublishSagaAdvance.
    unfold w3, exec, bind, send, ret; simpl. by rewrite !Hok.
  - exists id, did. split_and!; try done.
    + by apply (reached_env _ w2).
    + apply lookup_insert_eq.
    + unfold SagaHandler_Get. rewrite uuid_parse_string. change (GetRun id) with (mem_GetRun id).
      assert (mem_GetRun id w3 = (Ok run, w3)) as E3
        by (unfold mem_GetRun, bind, get_store; by rewrite Hrun).
      by mstep E3.
    + unfold w3, exec; simpl. by rewrite fmap_app.
Qed.
End Start.

(** ** Witnesses *)
#[local] Existing Instance demo_env.
#[local] Existing Instance demo_laws.

Definition cron_request (cfg : Vars) : triggerCreateReq :=
  mkTriggerCreate TriggerCron "wf" 1 (Some cfg) true None "ann".
Definition no_cron (s : string) : res unit := Err (EMsg "bad cron spec").

Lemma demo_no_duration : ∃ e, parse_duration "" = Err e.
Proof. by eexists. Qed.

Lemma created_cron_trigger_fires_witness :
  let cfg : Vars := {["interval" := VStr "5s"]} in
  let w := demo_world New in
  ∃ resp w', TriggerHandler_Create no_cron (λ _ now, now) (λ _ _ _, ret (Ok true))
      (Ok (cron_request cfg)) w = (resp, w') ∧
    match resp with
    | WriteJSON status t =>
        status = 201%Z ∧ triggers (w_store w') = <[trig_ID t := t]> (triggers (w_store w)) ∧
        trig_TriggerType t = TriggerCron ∧ trig_Config t = cfg ∧
        trig_Enabled t = true ∧ trig_LastFiredAt t = None ∧
        trig_NextFireAt t = cron_next_fire no_cron (λ _ now, now) cfg (w_clk w) ∧
        ∀ now, is_Some (cron_next_fire no_cron (λ _ now, now) cfg now)
    | WriteError status _ _ =>
        status = 400%Z ∧ w' = w ∧ ∃ e, first_fire no_cron (λ _ now, now) cfg (w_clk w) = Err e
    | WriteHeader _ => False
    end.
Proof.
  intros cfg w.
  apply (created_cron_trigger_fires no_cron (λ _ now, now) demo_no_duration (cron_request cfg) cfg w).
  - reflexivity.
  - reflexivity.
Defined.

Definition start_request : startRequest := mkStart "wf" ∅ None false.

Lemma start_creates_run_witness :
  let ops := [OpUpsertDefinition (small_def true "live")] in
  let w := fold_left (λ w op, apply_op op w) ops (demo_world New) in
  let h := [small_def true "live"] in
  ∃ resp w', SagaHandler_Start mq_PublishSagaAdvance [] (Ok start_request) "beta=on" w = (resp, w') ∧
    match latest_def "wf" h with
    | None => resp = WriteError 404 "workflow_not_found" "wf" ∧ w' = w
    | Some d => ∃ id did,
        resp = WriteJSON 202 id ∧ reached (h ++ [d]) w' ∧
        defs (w_store w') !! did = Some d ∧
        let run := started_run id (w_now w) d did start_request "beta=on" in
        runs (w_store w') = <[id := run]> (runs (w_store w)) ∧
        SagaHandler_Get (uuid_string id) w' = (WriteJSON 200 run, w') ∧
        (w_out w').*1 = (w_out w).*1 ++ [MAdvance (uuid_string id)]
    end.
Proof.
  intros ops w h. apply (start_creates_run h w start_request "beta=on").
  - exact demo_sends_ok.
  - apply (demo_reached ops). repeat constructor.
  - discriminate.
Defined.
