(* ===== verification/Broker.v ===== *)
(** The message broker: the exchanges and queues of [src/topology], the publisher, the
    consumer and the event subscriber over RabbitMQ ([src/internal/mq],
    [src/engine/event_subscriber.go]), and the loop of [src/cmd/engine] that feeds
    [saga.advance] messages to the coordinator.  RabbitMQ is a parameter with laws. *)
From S2P Require Import Prelude Values Domain World StoreApi Engine Dispatchers Worker.

(** ** RabbitMQ as the code uses it *)

Inductive exchange_kind := ExchangeDirect | ExchangeTopic.
(** A message as published and as delivered. *)
Record message := mkMessage {
  msg_RoutingKey : string;
  msg_Headers : gmap string Val;
  msg_Body : string
}.
(** The arguments [durable, autoDelete, exclusive] of a queue; the last table is [nil]
    throughout, so that no queue names a dead-letter exchange. *)
Record queue_flags := mkFlags { durable : bool; autoDelete : bool; exclusive : bool }.
#[export] Instance queue_flags_eq_dec : EqDecision queue_flags.
Proof. solve_decision. Defined.
#[export] Instance settled_eq_dec : EqDecision settled.
Proof. solve_decision. Defined.
#[export] Instance exchange_kind_eq_dec : EqDecision exchange_kind.
Proof. solve_decision. Defined.

(** What is sent over a channel. *)
Inductive amqp_cmd :=
  | ExchangeDeclare (name : string) (kind : exchange_kind)
  | QueueDeclare (name : string) (flags : queue_flags)
  | QueueBind (queue key exchange : string)
  | Publish (exchange : string) (m : message)
  | Settle (queue : string) (tag : N) (how : settled).

(** The broker: its state, what an accepted command makes of it, and the next delivery.  The
    state is seen through what is declared and bound, the messages that are ready in a
    queue, and those delivered but not settled, by delivery tag. *)
Class Broker := {
  BrokerState : Type;
  amqp : amqp_cmd → BrokerState → res BrokerState;
  deliver : string → BrokerState → option (N * message * BrokerState);
  crash : string → list N → BrokerState → BrokerState;
  exchange_of : BrokerState → string → option exchange_kind;
  queue_of : BrokerState → string → option queue_flags;
  bound : BrokerState → string → string → string → bool;
  ready : BrokerState → string → list message;
  unsettled : BrokerState → string → list (N * message);
  topic_matches : string → string → bool
}.

(** Whether the exchange hands a message with the key to the queue. *)
Definition binding_matches `{Broker} (kind : exchange_kind) (pattern key : string) : bool :=
  match kind with
  | ExchangeDirect => bool_decide (pattern = key)
  | ExchangeTopic => topic_matches pattern key
  end.

(** Declarations and bindings as they were. *)
Definition same_topology `{Broker} (b b' : BrokerState) : Prop :=
  (∀ n, exchange_of b' n = exchange_of b n) ∧ (∀ q, queue_of b' q = queue_of b q) ∧
  (∀ ex q k, bound b' ex q k = bound b ex q k).
Definition same_messages `{Broker} (b b' : BrokerState) : Prop :=
  ∀ q, ready b' q = ready b q ∧ unsettled b' q = unsettled b q.

(** The documented behaviour of the broker.  Redeclaring with the same arguments succeeds and
    changes nothing; the default exchange, named by the empty string, hands a message to the
    queue its key names; the others go by their bindings ([bound b exchange queue key]); a
    requeued message may come back at any place; a message refused without requeue is gone,
    since its queue has no dead-letter exchange. *)
Class BrokerLaws `{Broker} := {
  declare_exchange name kind b b' :
    amqp (ExchangeDeclare name kind) b = Ok b' →
    (∀ n, exchange_of b' n = if decide (n = name) then Some kind else exchange_of b n) ∧
    (∀ q, queue_of b' q = queue_of b q) ∧ (∀ ex q k, bound b' ex q k = bound b ex q k) ∧
    same_messages b b';
  redeclare_exchange name kind b :
    exchange_of b name = Some kind → amqp (ExchangeDeclare name kind) b = Ok b;
  declare_queue name flags b b' :
    amqp (QueueDeclare name flags) b = Ok b' →
    (∀ q, queue_of b' q = if decide (q = name) then Some flags else queue_of b q) ∧
    (∀ n, exchange_of b' n = exchange_of b n) ∧ (∀ ex q k, bound b' ex q k = bound b ex q k) ∧
    same_messages b b';
  redeclare_queue name flags b :
    exclusive flags = false → queue_of b name = Some flags →
    amqp (QueueDeclare name flags) b = Ok b;
  bind_queue queue key exchange b b' :
    amqp (QueueBind queue key exchange) b = Ok b' →
    (∀ n, exchange_of b' n = exchange_of b n) ∧ (∀ q, queue_of b' q = queue_of b q) ∧
    same_messages b b' ∧ ∀ ex q k, bound b' ex q k =
      bound b ex q k || bool_decide (ex = exchange ∧ q = queue ∧ k = key);
  publish_routes exchange m b b' :
    amqp (Publish exchange m) b = Ok b' →
    same_topology b b' ∧ (∀ q, unsettled b' q = unsettled b q) ∧
    ∀ q, ∃ hit : bool, ready b' q = ready b q ++ (if hit then [m] else []) ∧
      (hit = true ↔
         is_Some (queue_of b q) ∧
         (if decide (exchange = "") then q = msg_RoutingKey m
          else ∃ kind pattern, exchange_of b exchange = Some kind ∧
                 bound b exchange q pattern = true ∧
                 binding_matches kind pattern (msg_RoutingKey m) = true));
  deliver_next queue b t m b' :
    deliver queue b = Some (t, m, b') →
    same_topology b b' ∧ ready b queue = m :: ready b' queue ∧
    t ∉ (unsettled b queue).*1 ∧ unsettled b' queue = unsettled b queue ++ [(t, m)] ∧
    ∀ q, q ≠ queue → ready b' q = ready b q ∧ unsettled b' q = unsettled b q;
  settle_one queue t how b b' :
    amqp (Settle queue t how) b = Ok b' →
    same_topology b b' ∧
    t ∈ (unsettled b queue).*1 ∧
    unsettled b' queue = filter (λ d, d.1 ≠ t) (unsettled b queue) ∧
    ready b' queue ≡ₚ
      (match how with
       | Nack true => (filter (λ d, d.1 = t) (unsettled b queue)).*2
       | _ => []
       end) ++ ready b queue ∧
    ∀ q, q ≠ queue → ready b' q = ready b q ∧ unsettled b' q = unsettled b q;
  crash_requeues queue ts b :
    same_topology b (crash queue ts b) ∧
    unsettled (crash queue ts b) queue = filter (λ d, d.1 ∉ ts) (unsettled b queue) ∧
    ready (crash queue ts b) queue ≡ₚ
      (filter (λ d, d.1 ∈ ts) (unsettled b queue)).*2 ++ ready b queue ∧
    ∀ q, q ≠ queue → ready (crash queue ts b) q = ready b q ∧
                     unsettled (crash queue ts b) q = unsettled b q;
  hash_matches key : topic_matches "#" key = true
}.

(** [encoding/json] on the body [{"saga_run_id": id}] and the struct [SagaAdvanceMsg]. *)
Class AdvanceJson := {
  marshal_advance : string → string;
  unmarshal_advance : string → res string
}.
Class AdvanceJsonLaws `{Env} `{AdvanceJson} :=
  unmarshal_marshal id :
    unmarshal_advance (marshal_advance (uuid_string id)) = Ok (uuid_string id).

(** ** topology.go *)
Definition QueueSagaAdvance : string := "saga.advance".
Definition QueueSagaDLQ : string := "saga.dlq".
Definition QueueActionDLQ : string := "action.dlq".
Definition ExchangeAction : string := "action.direct".
Definition ExchangeWorkflowEvents : string := "workflow.events".

(** [Channel], the part of [*amqp.Channel] the declarations use, in a process state [W]; and
    the channel of the broker itself, where a refused command changes nothing. *)
Definition Channel (W : Type) : Type := amqp_cmd → M W (res unit).
Definition on_broker `{Broker} : Channel BrokerState := λ c b,
  match amqp c b with Ok b' => (Ok tt, b') | Err e => (Err e, b) end.

Section Topology.
Context {W : Type} (ch : Channel W).
Abbreviation M := (M W).

(** A call on the channel, with the prefix of its error. *)
Definition call (what : string) (c : amqp_cmd) : M (res unit) :=
  try* _ := ch c else EWrap what in ret (Ok tt).
(** One declaration after the other; an error stops and undoes nothing. *)
Definition seq_ (f g : M (res unit)) : M (res unit) := try* _ := f else id in g.

Fixpoint declare_queues (names : list string) : M (res unit) :=
  match names with
  | [] => ret (Ok tt)
  | n :: names =>
      seq_ (call ("topology: queue " +:+ n) (QueueDeclare n (mkFlags true false false)))
        (declare_queues names)
  end.
Definition DeclareTopology : M (res unit) :=
  seq_ (call ("topology: exchange " +:+ ExchangeAction)
          (ExchangeDeclare ExchangeAction ExchangeDirect))
  (seq_ (call ("topology: exchange " +:+ ExchangeWorkflowEvents)
           (ExchangeDeclare ExchangeWorkflowEvents ExchangeTopic))
        (declare_queues [QueueSagaAdvance; QueueSagaDLQ; QueueActionDLQ])).

(** The first empty routing key. *)
Fixpoint empty_key (i : nat) (keys : list string) : option nat :=
  match keys with
  | [] => None
  | k :: keys => if decide (k = "") then Some i else empty_key (S i) keys
  end.
Fixpoint bind_keys (queue : string) (keys : list string) : M (res unit) :=
  match keys with
  | [] => ret (Ok tt)
  | k :: keys =>
      seq_ (call ("topology: bind " +:+ queue +:+ " to " +:+ k) (QueueBind queue k ExchangeAction))
        (bind_keys queue keys)
  end.
Definition DeclareActionQueue (queue : string) (routingKeys : list string) : M (res unit) :=
  if decide (queue = "") then ret (Err (EMsg "topology: queue name required"))
  else if decide (routingKeys = []) then
    ret (Err (EMsg "topology: at least one routing key required"))
  else
    match empty_key 0 routingKeys with
    | Some i => ret (Err (EMsg ("topology: routing key " +:+ itoa (Z.of_nat i) +:+ " is empty")))
    | None =>
        seq_ (call ("topology: exchange " +:+ ExchangeAction)
                (ExchangeDeclare ExchangeAction ExchangeDirect))
        (seq_ (call ("topology: queue " +:+ queue) (QueueDeclare queue (mkFlags true false false)))
              (bind_keys queue routingKeys))
    end.

(** The queue of [RunRMQ] in event_subscriber.go. *)
Definition bind_events (queue : string) : M (res unit) :=
  seq_ (call "queue declare" (QueueDeclare queue (mkFlags false true true)))
       (call "queue bind" (QueueBind queue "#" ExchangeWorkflowEvents)).
End Topology.

Section Broker.
Context `{Env} `{AdvanceJson}.

(** ** publisher.go: the message each call puts on the wire *)
Definition PublishSagaAdvance (runID : string) : amqp_cmd :=
  Publish "" (mkMessage QueueSagaAdvance ∅ (marshal_advance runID)).
Definition PublishActionDispatch (routingKey payload : string) : amqp_cmd :=
  Publish ExchangeAction (mkMessage routingKey ∅ payload).
Definition DispatchRMQQueue (queue payload : string) : amqp_cmd :=
  Publish "" (mkMessage queue ∅ payload).
Definition PublishEvent (topic : string) (headers : gmap string string) (payload : Vars)
    : res amqp_cmd :=
  match json_marshal (VMap payload) with
  | Err e => Err e
  | Ok body => Ok (Publish ExchangeWorkflowEvents (mkMessage topic (VStr <$> headers) body))
  end.
(** What the calls that [World] records become on the wire. *)
Definition on_wire (m : Msg) : option amqp_cmd :=
  match m with
  | MAdvance id => Some (PublishSagaAdvance id)
  | MActionDispatch key body => Some (PublishActionDispatch key body)
  | MDispatchRMQ queue body => Some (DispatchRMQQueue queue body)
  | MEmitEvent topic headers payload =>
      match PublishEvent topic headers payload with Ok c => Some c | Err _ => None end
  | _ => None
  end.

(** ** consumer.go *)
Section consumer.
Context {St : Type}.
Abbreviation M := (M (World St)).

(** One delivery; [None] is a handler that has not returned. *)
Definition consume_one (h : string → M (option (res unit))) (d : message) : M (option settled) :=
  match unmarshal_advance (msg_Body d) with
  | Err _ => ret (Some (Nack false))
  | Ok id =>
      let* r := h id in
      ret (match r with
           | None => None
           | Some (Err _) => Some (Nack true)
           | Some (Ok _) => Some Ack
           end)
  end.

(** ** cmd/engine: the handler of the engine process *)
Context `{Store St}.
Definition engine_advance (fuel : nat) (coord : Coordinator St) (id : string)
    : M (option (res unit)) :=
  let* r := Advance fuel coord id in
  ret (map_err_res (EWrap "advance") <$> r).

(** ** event_subscriber.go: [RunRMQ] *)
Definition event_of (d : message) : EventDelivery :=
  mkDelivery (msg_RoutingKey d) (sprint <$> msg_Headers d) (msg_Body d).
(** Errors are logged; every delivery was acknowledged when it was sent. *)
Definition on_event (pub : option (Publisher St)) (providers : list (StartupVariableProvider St))
    (dispatcher : bool) (d : message) : M unit :=
  let* _ := Deliver pub (event_of d) in
  if dispatcher then let* _ := Dispatch pub providers (event_of d) in ret tt else ret tt.
End consumer.
End Broker.
