(* ===== verification/BrokerProps.v ===== *)
(** The engine behind its broker: no message that asks to advance a run is lost while the
    broker stands, what is refused without requeue is gone, and who hears an event and an
    action dispatch. *)
From S2P Require Import Prelude Values Domain World Demo StoreApi StoreSpec MemStore Engine.
From S2P Require Import Dispatchers Worker Broker.

(** ** The declarations *)
Section Topology.
Context `{Env} `{BrokerLaws} `{AdvanceJson}.
Implicit Types b : BrokerState.

Lemma seq_inv (f g : M BrokerState (res unit)) b b' :
  seq_ f g b = (Ok tt, b') → ∃ b1, f b = (Ok tt, b1) ∧ g b1 = (Ok tt, b').
Proof. unfold seq_, bind, ret. destruct (f b) as [[[]|] b1]; [|done]. eauto. Qed.
Lemma seq_ok (f g : M BrokerState (res unit)) b b1 :
  f b = (Ok tt, b1) → seq_ f g b = g b1.
Proof. unfold seq_, bind. by intros ->. Qed.
Lemma call_inv what c b b' : call on_broker what c b = (Ok tt, b') → amqp c b = Ok b'.
Proof. unfold call, bind, ret, on_broker. destruct (amqp c b); [|done]. by intros [= ->]. Qed.
Lemma call_ok what c b b' : amqp c b = Ok b' → call on_broker what c b = (Ok tt, b').
Proof. unfold call, bind, ret, on_broker. by intros ->. Qed.

Lemma same_messages_trans b b' b'' :
  same_messages b b' → same_messages b' b'' → same_messages b b''.
Proof. intros E E' q. destruct (E q), (E' q). split; congruence. Qed.
Lemma same_ready b b' q : same_messages b b' → ready b' q = ready b q.
Proof. intros E. apply E. Qed.

(** What [DeclareTopology] leaves. *)
Definition engine_topology b : Prop :=
  exchange_of b ExchangeAction = Some ExchangeDirect ∧
  exchange_of b ExchangeWorkflowEvents = Some ExchangeTopic ∧
  Forall (λ q, queue_of b q = Some (mkFlags true false false))
    [QueueSagaAdvance; QueueSagaDLQ; QueueActionDLQ].

Lemma declare_queues_inv names b b' :
  declare_queues on_broker names b = (Ok tt, b') →
  (∀ n, exchange_of b' n = exchange_of b n) ∧ same_messages b b' ∧
  (∀ ex q k, bound b' ex q k = bound b ex q k) ∧
  (∀ q, queue_of b' q = if decide (q ∈ names) then Some (mkFlags true false false) else queue_of b q).
Proof.
  revert b. induction names as [|n names IH]; intros b; cbn [declare_queues].
  - intros [= <-]. split_and!; [done..|]. intros q. by rewrite decide_False by set_solver.
  - intros (b1 & E%call_inv%declare_queue & Hr)%seq_inv. destruct E as (Eq & Ee & Eb & Em).
    destruct (IH _ Hr) as (Ie & Im & Ib & Iq). split_and!.
    + intros x. by rewrite Ie.
    + by eapply same_messages_trans.
    + intros x y z. by rewrite Ib.
    + intros q. rewrite Iq, Eq. repeat case_decide; try done; set_solver.
Qed.

Lemma Declare_inv b b' :
  DeclareTopology on_broker b = (Ok tt, b') →
  engine_topology b' ∧ same_messages b b' ∧ (∀ ex q k, bound b' ex q k = bound b ex q k) ∧
  (∀ q, q ∉ [QueueSagaAdvance; QueueSagaDLQ; QueueActionDLQ] → queue_of b' q = queue_of b q).
Proof.
  unfold DeclareTopology. intros (b1 & E1%call_inv%declare_exchange & (b2 & E2%call_inv%declare_exchange & E3)%seq_inv)%seq_inv.
  apply declare_queues_inv in E3 as (Ee & Em & Eb & Eq).
  destruct E1 as (Ee1 & Eq1 & Eb1 & Em1), E2 as (Ee2 & Eq2 & Eb2 & Em2).
  split_and!.
  - unfold engine_topology. rewrite !Ee, !Ee2, !Ee1. split_and!; [done..|].
    repeat (apply Forall_cons; split; [by rewrite Eq|]). done.
  - eapply same_messages_trans; [|exact Em]. by eapply same_messages_trans.
  - intros. by rewrite Eb, Eb2, Eb1.
  - intros q Hq. rewrite Eq, decide_False, Eq2, Eq1 by done. done.
Qed.

(** "It is idempotent": declaring again succeeds and changes nothing. *)
Theorem Declare_idempotent b b' : DeclareTopology on_broker b = (Ok tt, b') → DeclareTopology on_broker b' = (Ok tt, b').
Proof.
  intros [(Ha & Hw & Hq) _]%Declare_inv. unfold DeclareTopology.
  rewrite (seq_ok _ _ _ b') by (by apply call_ok, redeclare_exchange).
  rewrite (seq_ok _ _ _ b') by (by apply call_ok, redeclare_exchange).
  induction Hq as [|q qs Hq _ IH]; [done|]. cbn [declare_queues].
  rewrite (seq_ok _ _ _ b') by (by apply call_ok, redeclare_queue). exact IH.
Qed.

(** ** Action queues *)
Lemma empty_key_None i keys : empty_key i keys = None ↔ Forall (λ k, k ≠ "") keys.
Proof.
  revert i. induction keys as [|k keys IH]; intros i; simpl; [split; [constructor|done]|].
  case_decide as E; rewrite Forall_cons; [naive_solver|]. rewrite IH. naive_solver.
Qed.
Lemma bind_keys_inv queue keys b b' :
  bind_keys on_broker queue keys b = (Ok tt, b') →
  (∀ n, exchange_of b' n = exchange_of b n) ∧ (∀ q, queue_of b' q = queue_of b q) ∧
  same_messages b b' ∧
  ∀ ex q k, bound b' ex q k =
    bound b ex q k || bool_decide (ex = ExchangeAction ∧ q = queue ∧ k ∈ keys).
Proof.
  revert b. induction keys as [|k keys IH]; intros b; cbn [bind_keys].
  - intros [= <-]. split_and!; [done..|]. intros. rewrite bool_decide_false, orb_false_r by set_solver.
    done.
  - intros (b1 & E%call_inv%bind_queue & Hr)%seq_inv. destruct E as (Ee & Eq & Em & Eb).
    destruct (IH _ Hr) as (Ie & Iq & Im & Ib). split_and!.
    + intros x. by rewrite Ie.
    + intros x. by rewrite Iq.
    + by eapply same_messages_trans.
    + intros ex q k'. rewrite Ib, Eb, <- orb_assoc. f_equal.
      do 3 case_bool_decide; try done; set_solver.
Qed.

(** An action dispatch reaches the queues that declared its key and no other; a key that no
    queue declared is dropped, and the publisher is not told. *)
Theorem action_dispatch_routed queue keys key payload b b1 b2 :
  DeclareActionQueue on_broker queue keys b = (Ok tt, b1) →
  (∀ k, bound b ExchangeAction queue k = false) →
  amqp (PublishActionDispatch key payload) b1 = Ok b2 →
  ready b2 queue = ready b queue ++ (if decide (key ∈ keys) then [mkMessage key ∅ payload] else []) ∧
  ∀ q, q ≠ queue → bound b ExchangeAction q key = false → ready b2 q = ready b q.
Proof.
  unfold DeclareActionQueue. intros Hd Hfresh Hp. do 2 (case_decide; [done|]).
  destruct (empty_key 0 keys) eqn:Ek; [done|].
  apply seq_inv in Hd as (b' & E1%call_inv%declare_exchange & (b'' & E2%call_inv%declare_queue & E3)%seq_inv).
  apply bind_keys_inv in E3 as (Ee & Eq & Em & Eb).
  destruct E1 as (Ee1 & Eq1 & Eb1 & Em1), E2 as (Eq2 & Ee2 & Eb2 & Em2).
  apply publish_routes in Hp as (_ & _ & Hr).
  assert (exchange_of b1 ExchangeAction = Some ExchangeDirect) as Hex
    by (rewrite Ee, Ee2, Ee1; by rewrite decide_True).
  assert (∀ q k, bound b1 ExchangeAction q k = bound b ExchangeAction q k ||
            bool_decide (q = queue ∧ k ∈ keys)) as Hb.
  { intros q k. rewrite Eb, Eb2, Eb1. f_equal. apply bool_decide_ext. naive_solver. }
  assert (∀ q, ready b1 q = ready b q) as Hm by (intros q; by rewrite (same_ready _ _ _ Em), (same_ready _ _ _ Em2), (same_ready _ _ _ Em1)).
  assert (∀ q k, (∃ kind pattern, exchange_of b1 ExchangeAction = Some kind ∧
            bound b1 ExchangeAction q pattern = true ∧ binding_matches kind pattern k = true)
            ↔ bound b1 ExchangeAction q k = true) as Hdirect.
  { intros q k. rewrite Hex. split.
    - intros (kind & p & [= <-] & Hbd & Hmt%bool_decide_eq_true). by subst.
    - intros Hbd. exists ExchangeDirect, k. split_and!; [done..|]. by apply bool_decide_eq_true. }
  split.
  - destruct (Hr queue) as (hit & -> & Hhit). rewrite Hm. f_equal.
    rewrite decide_False in Hhit by done. rewrite Hdirect, Hb, Hfresh in Hhit. simpl in Hhit.
    rewrite bool_decide_eq_true in Hhit. rewrite Eq, Eq2 in Hhit.
    rewrite decide_True in Hhit by done. destruct Hhit as [H1' H2'].
    destruct (decide (key ∈ keys)) as [Hk|Hk].
    + rewrite H2' by eauto. done.
    + destruct hit; [|done]. destruct (H1' eq_refl) as (_ & _ & Hk'). by destruct Hk.
  - intros q Hq Hnb. destruct (Hr q) as (hit & -> & Hhit). rewrite Hm.
    rewrite decide_False in Hhit by done. rewrite Hdirect, Hb in Hhit; simpl in Hhit.
    rewrite Hnb in Hhit; simpl in Hhit. destruct hit; [|by rewrite app_nil_r].
    destruct Hhit as [Hhit _]. destruct (Hhit eq_refl) as [_ Hk%bool_decide_eq_true]. by destruct Hk.
Qed.

(** ** Events *)

(** An event that the engine emits reaches a subscriber as it was sent, topic, headers and
    body; where no subscriber is bound, as in the engine binary, it reaches no queue at
    all. *)
Theorem event_reaches_subscribers topic headers payload queue b b1 b2 b3 c :
  (∀ s, sprint (VStr s) = s) →
  DeclareTopology on_broker b = (Ok tt, b1) → queue ∉ [QueueSagaAdvance; QueueSagaDLQ; QueueActionDLQ] →
  (∀ q k, bound b ExchangeWorkflowEvents q k = false) →
  PublishEvent topic headers payload = Ok c →
  (bind_events on_broker queue b1 = (Ok tt, b2) → amqp c b2 = Ok b3 →
   ∃ d body, ready b3 queue = ready b2 queue ++ [d] ∧
     json_marshal (VMap payload) = Ok body ∧ event_of d = mkDelivery topic headers body) ∧
  (amqp c b1 = Ok b3 → same_messages b1 b3).
Proof.
  intros Hs (Ht & Em & Eb & Eq)%Declare_inv Hq Hn Hc. destruct Ht as (_ & Hex & _).
  unfold PublishEvent in Hc. destruct (json_marshal _) as [body|] eqn:Ej; [|done].
  injection Hc as <-. split.
  - unfold bind_events. intros (b' & E1 & E2)%seq_inv Hp.
    apply call_inv, declare_queue in E1 as (Eq1 & Ee1 & Eb1 & _).
    apply call_inv, bind_queue in E2 as (Ee2 & Eq2 & _ & Eb2).
    apply publish_routes in Hp as (_ & _ & Hr). destruct (Hr queue) as (hit & Hhit & Hiff).
    assert (hit = true) as ->.
    { apply Hiff. rewrite decide_False by done. split; [rewrite Eq2, Eq1; by rewrite decide_True|].
      exists ExchangeTopic, "#". rewrite Ee2, Ee1. split_and!; [done| |by apply hash_matches].
      rewrite Eb2, bool_decide_true by done. apply orb_true_r. }
    exists (mkMessage topic (VStr <$> headers) body), body. split_and!; [done..|].
    unfold event_of; simpl. f_equal. rewrite <- map_fmap_compose.
    rewrite <- (map_fmap_id headers) at 2. apply map_fmap_ext. intros k s _. apply Hs.
  - intros (_ & Hu & Hr)%publish_routes q. split; [|done]. destruct (Hr q) as (hit & -> & Hhit).
    destruct hit; [|by rewrite app_nil_r]. destruct Hhit as [Hhit _].
    destruct (Hhit eq_refl) as [_ Hb]. rewrite decide_False in Hb by done.
    destruct Hb as (kind & p & _ & Hb & _). by rewrite Eb, Hn in Hb.
Qed.
End Topology.

(** ** The service: engine replicas, the database and the broker *)

(** What happens to the queue of advance messages: a command some process publishes is
    accepted, and puts messages in the queue; an engine settles a message it handled. *)
Inductive happening :=
  | Accepted (c : amqp_cmd) (arrived : list message)
  | Handled (m : message) (how : settled)
  | Elsewhere.

Section Service.
Context `{Env} `{BrokerLaws} `{AdvanceJson} `{Store St}.
Context (fuel : nat) (coord : Coordinator St).
Implicit Types (b : BrokerState) (tr : list happening).

(** One step.  An engine that was handed a message runs the handler and settles; an engine that
    dies loses what it was handed, and the broker takes it back; workers settle in queues of
    their own; the rest of the world, a handler cut short included, may change the database
    in any way. *)
Inductive service_step : World St * BrokerState → happening → World St * BrokerState → Prop :=
  | step_publish w b b' ex m arrived :
      amqp (Publish ex m) b = Ok b' →
      ready b' QueueSagaAdvance = ready b QueueSagaAdvance ++ arrived →
      service_step (w, b) (Accepted (Publish ex m) arrived) (w, b')
  | step_deliver w b b' t m :
      deliver QueueSagaAdvance b = Some (t, m, b') → service_step (w, b) Elsewhere (w, b')
  | step_handle w w' b b' t m how :
      (t, m) ∈ unsettled b QueueSagaAdvance →
      consume_one (engine_advance fuel coord) m w = (Some how, w') →
      amqp (Settle QueueSagaAdvance t how) b = Ok b' →
      service_step (w, b) (Handled m how) (w', b')
  | step_crash w b ts : service_step (w, b) Elsewhere (w, crash QueueSagaAdvance ts b)
  | step_worker w b b' q t how :
      q ≠ QueueSagaAdvance → amqp (Settle q t how) b = Ok b' → service_step (w, b) Elsewhere (w, b')
  | step_worker_deliver w b b' q d :
      q ≠ QueueSagaAdvance → deliver q b = Some (d, b') → service_step (w, b) Elsewhere (w, b')
  | step_world w w' b : service_step (w, b) Elsewhere (w', b).

Inductive service_run : World St * BrokerState → list happening → World St * BrokerState → Prop :=
  | run_nil s : service_run s [] s
  | run_step s e s' tr s'' :
      service_step s e s' → service_run s' tr s'' → service_run s (e :: tr) s''.

(** The messages that wait or are being handled; those that arrived and those settled. *)
Definition pending b : list message :=
  ready b QueueSagaAdvance ++ (unsettled b QueueSagaAdvance).*2.
Definition arrivals tr : list message :=
  tr ≫= λ e, match e with Accepted _ ms => ms | _ => [] end.
Definition settled_as (how : settled) tr : list message :=
  tr ≫= λ e, match e with Handled m h => if decide (h = how) then [m] else [] | _ => [] end.

Definition tags_unique b : Prop := NoDup (unsettled b QueueSagaAdvance).*1.

Lemma filter_split {A} (P : A → Prop) `{∀ x, Decision (P x)} (l : list A) :
  l ≡ₚ filter P l ++ filter (λ x, ¬ P x) l.
Proof.
  induction l as [|x l IH]; [done|]. rewrite !filter_cons. do 2 case_decide; try done; simpl.
  - by constructor.
  - etrans; [by constructor|]. apply Permutation_middle.
Qed.
Lemma tag_filter (l : list (N * message)) t m :
  NoDup l.*1 → (t, m) ∈ l → filter (λ d, d.1 = t) l = [(t, m)].
Proof.
  induction l as [|[t' m'] l IH]; [by intros ? ?%elem_of_nil|]. rewrite fmap_cons, NoDup_cons.
  intros [Hn Hl] Hin. rewrite filter_cons; simpl. apply elem_of_cons in Hin as [[= -> ->]|Hin].
  - rewrite decide_True by done. f_equal. clear IH Hl.
    induction l as [|[t1 m1] l IH]; [done|]. rewrite filter_cons; simpl in *.
    rewrite decide_False by set_solver. apply IH. set_solver.
  - rewrite decide_False; [by apply IH|]. intros ->. apply Hn, list_elem_of_fmap. by exists (t, m).
Qed.
Lemma filter_tag_none (l : list (N * message)) t : t ∉ l.*1 → filter (λ d, d.1 = t) l = [].
Proof.
  induction l as [|[t' m'] l IH]; [done|]. simpl. intros Hn. rewrite filter_cons; simpl.
  rewrite decide_False by set_solver. apply IH. set_solver.
Qed.
Lemma filter_tag_all (l : list (N * message)) t : t ∉ l.*1 → filter (λ d, d.1 ≠ t) l = l.
Proof.
  induction l as [|[t' m'] l IH]; [done|]. simpl. intros Hn. rewrite filter_cons; simpl.
  rewrite decide_True by set_solver. f_equal. apply IH. set_solver.
Qed.
Lemma filter_NoDup_fst (P : N * message → Prop) `{∀ x, Decision (P x)} l :
  NoDup l.*1 → NoDup (filter P l).*1.
Proof.
  induction l as [|x l IH]; [done|]. rewrite fmap_cons, NoDup_cons. intros [Hn Hl].
  rewrite filter_cons. case_decide; [|by apply IH]. rewrite fmap_cons, NoDup_cons.
  split; [|by apply IH]. intros (y & E & Hy%list_elem_of_filter)%list_elem_of_fmap.
  apply Hn. rewrite E. apply list_elem_of_fmap. exists y. naive_solver.
Qed.

Lemma step_conserves s e s' :
  service_step s e s' → tags_unique s.2 →
  tags_unique s'.2 ∧
  pending s.2 ++ arrivals [e] ≡ₚ
    pending s'.2 ++ settled_as Ack [e] ++ settled_as (Nack false) [e].
Proof.
  unfold tags_unique, pending, arrivals, settled_as. intros Hs Hu.
  destruct Hs as [w b b' ex m ms Hp Hr|w b b' t m Hd|w w' b b' t m how Hin Hc Hs|w b ts|w b b' q t how Hq Hs|w b b' q [t m] Hq Hd|];
    simpl in *; rewrite ?app_nil_r.
  - apply publish_routes in Hp as (_ & Eu & _). rewrite Eu, Hr. split; [done|].
    rewrite <- !app_assoc. apply Permutation_app_head, Permutation_app_comm.
  - apply deliver_next in Hd as (_ & Hr & Ht & Eu & _). rewrite Eu, Hr, !fmap_app; simpl. split.
    + rewrite NoDup_app. split_and!; [done|set_solver|apply NoDup_singleton].
    + rewrite app_assoc, (Permutation_app_comm _ [m]). done.
  - apply settle_one in Hs as (_ & _ & Eu & Er & _). rewrite Eu. split; [by apply filter_NoDup_fst|].
    rewrite Er. rewrite (tag_filter _ t m) by done.
    rewrite (filter_split (λ d, d.1 = t) (unsettled b _)) at 1.
    rewrite (tag_filter _ t m) by done. rewrite fmap_app; simpl.
    rewrite <- Permutation_middle. destruct how as [|[|]]; simpl; rewrite ?app_nil_r; [|done|].
    all: by rewrite (Permutation_app_comm _ [m]).
  - destruct (crash_requeues QueueSagaAdvance ts b) as (_ & Eu & Er & _). rewrite Eu.
    split; [by apply filter_NoDup_fst|]. rewrite Er.
    rewrite (filter_split (λ d, d.1 ∈ ts) (unsettled b _)) at 1. rewrite fmap_app.
    rewrite !app_assoc. apply Permutation_app_tail, Permutation_app_comm.
  - apply settle_one in Hs as (_ & _ & _ & _ & Ho). by destruct (Ho QueueSagaAdvance) as [-> ->].
  - apply deliver_next in Hd as (_ & _ & _ & _ & Ho). by destruct (Ho QueueSagaAdvance) as [-> ->].
  - done.
Qed.
Lemma arrivals_cons e tr : arrivals (e :: tr) = arrivals [e] ++ arrivals tr.
Proof. unfold arrivals; simpl. by rewrite app_nil_r. Qed.
Lemma settled_as_cons how e tr : settled_as how (e :: tr) = settled_as how [e] ++ settled_as how tr.
Proof. unfold settled_as; simpl. by rewrite app_nil_r. Qed.

Lemma regroup {A} (p p1 p2 a a' x x' y y' : list A) :
  p ++ a ≡ₚ p1 ++ x ++ y → p1 ++ a' ≡ₚ p2 ++ x' ++ y' →
  p ++ a ++ a' ≡ₚ p2 ++ (x ++ x') ++ (y ++ y').
Proof.
  intros E1 E2. transitivity ((p1 ++ a') ++ x ++ y).
  - rewrite app_assoc, E1, <- !app_assoc. apply Permutation_app_head.
    rewrite app_assoc. apply Permutation_app_comm.
  - rewrite E2, <- !app_assoc. apply Permutation_app_head.
    rewrite (app_assoc x x'), (Permutation_app_comm x x'), <- !app_assoc.
    apply Permutation_app_head. rewrite (Permutation_app_comm y' (x ++ y)), <- !app_assoc. done.
Qed.
Lemma run_conserves s tr s' :
  service_run s tr s' → tags_unique s.2 →
  tags_unique s'.2 ∧
  pending s.2 ++ arrivals tr ≡ₚ pending s'.2 ++ settled_as Ack tr ++ settled_as (Nack false) tr.
Proof.
  induction 1 as [s|s e s' tr s'' Hs _ IH]; intros Hu; [by rewrite !app_nil_r|].
  destruct (step_conserves _ _ _ Hs Hu) as [Hu' Hc]. destruct (IH Hu') as [Hu'' Hc'].
  split; [done|]. rewrite arrivals_cons, (settled_as_cons Ack), (settled_as_cons (Nack false)).
  by eapply regroup.
Qed.

Lemma handled_inv m how tr s s' :
  service_run s tr s' → Handled m how ∈ tr →
  ∃ w w', consume_one (engine_advance fuel coord) m w = (Some how, w').
Proof.
  induction 1 as [s|s e s' tr s'' Hs _ IH]; [by intros ?%elem_of_nil|].
  intros [E|Hin]%elem_of_cons; [|by apply IH]. subst e. inversion Hs; subst. eauto.
Qed.
Lemma elem_of_settled_as m how tr : m ∈ settled_as how tr ↔ Handled m how ∈ tr.
Proof.
  unfold settled_as. rewrite list_elem_of_bind. split.
  - intros (e & Hm & He). destruct e as [|m' h|]; [by apply elem_of_nil in Hm| |by apply elem_of_nil in Hm].
    case_decide; [|by apply elem_of_nil in Hm]. apply list_elem_of_singleton in Hm. by subst.
  - intros He. exists (Handled m how). rewrite decide_True by done. split; [by left|done].
Qed.

(** The message that asks to advance the run. *)
Definition advance_message (id : uuid) : message :=
  mkMessage QueueSagaAdvance ∅ (marshal_advance (uuid_string id)).

(** C7: No message that asks to advance a run is lost.  Whatever publishers, engines that crash,
    workers and other writers of the database do, and in whatever order, the messages that
    were pending and those that arrived are, one for one, the messages that are pending and
    those that left.  A message leaves acknowledged only when [Advance] on the run it names
    returned without error; the messages the engine itself publishes leave in no other
    way. *)
Theorem advance_not_lost s tr s' :
  AdvanceJsonLaws → service_run s tr s' → tags_unique s.2 →
  pending s.2 ++ arrivals tr ≡ₚ pending s'.2 ++ settled_as Ack tr ++ settled_as (Nack false) tr ∧
  (∀ m, m ∈ settled_as Ack tr → ∃ id w w', unmarshal_advance (msg_Body m) = Ok id ∧
          Advance fuel coord id w = (Some (Ok tt), w')) ∧
  (∀ id, advance_message id ∉ settled_as (Nack false) tr).
Proof.
  intros Hj Hr Hu. split_and!; [by eapply run_conserves| |].
  - intros m Hm%elem_of_settled_as. destruct (handled_inv _ _ _ _ _ Hr Hm) as (w & w' & E).
    unfold consume_one in E. destruct (unmarshal_advance _) as [id|]; [|done].
    unfold engine_advance, bind, ret in E. destruct (Advance fuel coord id w) as [[[[]|]|] w1] eqn:Ea;
      simpl in E; simplify_eq. eauto.
  - intros id Hm%elem_of_settled_as. destruct (handled_inv _ _ _ _ _ Hr Hm) as (w & w' & E).
    unfold consume_one in E. simpl in E. rewrite Hj in E.
    unfold engine_advance, bind, ret in E. destruct (Advance _ _ _ _) as [[[[]|]|] w1]; done.
Qed.

(** A message whose run id does not parse is handed out again and again: the engine changes
    nothing and the queue is as before. *)
Theorem bad_run_id_requeued w b b1 b2 t m id e :
  deliver QueueSagaAdvance b = Some (t, m, b1) →
  unmarshal_advance (msg_Body m) = Ok id → uuid_parse id = Err e →
  consume_one (engine_advance fuel coord) m w = (Some (Nack true), w) ∧
  (amqp (Settle QueueSagaAdvance t (Nack true)) b1 = Ok b2 →
   ready b2 QueueSagaAdvance ≡ₚ ready b QueueSagaAdvance ∧
   unsettled b2 QueueSagaAdvance = unsettled b QueueSagaAdvance).
Proof.
  intros Hd Hj He. split.
  - unfold consume_one. rewrite Hj. unfold engine_advance, Advance. by rewrite He.
  - intros (_ & _ & Eu & Er & _)%settle_one. apply deliver_next in Hd as (_ & Hr & Ht & Hun & _).
    rewrite Er, Eu, Hun, Hr, !filter_app, filter_tag_none, filter_tag_all by done.
    rewrite !filter_cons; simpl. rewrite decide_True, decide_False by naive_solver.
    by rewrite app_nil_r.
Qed.

(** ** Dead letters *)
Definition addressed (q : string) (e : happening) : Prop :=
  match e with Accepted (Publish ex m) _ => ex = "" ∧ msg_RoutingKey m = q | _ => False end.
Definition left_alone (q : string) b : Prop :=
  ready b q = [] ∧ unsettled b q = [] ∧ ∀ ex k, bound b ex q k = false.

Lemma step_left_alone q s e s' :
  service_step s e s' → q ≠ QueueSagaAdvance → ¬ addressed q e → left_alone q s.2 → left_alone q s'.2.
Proof.
  intros Hs Hq Ha (Er & Eu & Eb).
  destruct Hs as [w b b' ex m ms Hp Hr|w b b' t m Hd|w w' b b' t m how Hin Hc Hs|w b ts
    |w b b' q' t how Hq' Hs|w b b' q' [t m] Hq' Hd|]; unfold left_alone; simpl in *; [..|done].
  - apply publish_routes in Hp as ((_ & _ & Eb') & Eu' & Hr'). rewrite Eu'.
    split_and!; [|done|by intros; rewrite Eb']. destruct (Hr' q) as (hit & -> & Hhit). rewrite Er.
    destruct hit; [|done]. destruct Hhit as [Hhit _]. destruct (Hhit eq_refl) as [_ Hb].
    case_decide; [naive_solver|]. destruct Hb as (? & ? & _ & Hb & _). by rewrite Eb in Hb.
  - apply deliver_next in Hd as ((_ & _ & Eb') & _ & _ & _ & Ho). destruct (Ho q Hq) as [-> ->].
    split_and!; [done..|]. intros. by rewrite Eb'.
  - apply settle_one in Hs as ((_ & _ & Eb') & _ & _ & _ & Ho). destruct (Ho q Hq) as [-> ->].
    split_and!; [done..|]. intros. by rewrite Eb'.
  - destruct (crash_requeues QueueSagaAdvance ts b) as ((_ & _ & Eb') & _ & _ & Ho).
    destruct (Ho q Hq) as [-> ->]. split_and!; [done..|]. intros. by rewrite Eb'.
  - apply settle_one in Hs as ((_ & _ & Eb') & Ht & _ & _ & Ho). destruct (decide (q' = q)) as [->|Hne].
    + rewrite Eu in Ht. by apply elem_of_nil in Ht.
    + destruct (Ho q) as [-> ->]; [done|]. split_and!; [done..|]. intros. by rewrite Eb'.
  - apply deliver_next in Hd as ((_ & _ & Eb') & Hr & _ & _ & Ho). destruct (decide (q' = q)) as [->|Hne].
    + by rewrite Er in Hr.
    + destruct (Ho q) as [-> ->]; [done|]. split_and!; [done..|]. intros. by rewrite Eb'.
Qed.

(** The dead-letter queues the engine declares stay empty for ever: no queue names a
    dead-letter exchange, so what an engine or a worker refuses without requeue leaves its
    queue and enters no other, unless a publisher addresses a dead-letter queue itself. *)
Theorem dead_letters_stay_empty w b b0 tr w' b' dlq :
  dlq = QueueSagaDLQ ∨ dlq = QueueActionDLQ →
  left_alone dlq b0 → DeclareTopology on_broker b0 = (Ok tt, b) →
  service_run (w, b) tr (w', b') → Forall (λ e, ¬ addressed dlq e) tr →
  ready b' dlq = [].
Proof.
  intros Hdlq (Er & Eu & Eb) (_ & Em & Hb & _)%Declare_inv Hr Ha.
  assert (dlq ≠ QueueSagaAdvance) as Hne by (by destruct Hdlq as [->| ->]).
  assert (left_alone dlq b) as Hl.
  { destruct (Em dlq) as [E1 E2]. unfold left_alone. rewrite E1, E2. split_and!; [done..|].
    intros. by rewrite Hb. }
  change b with (w, b).2 in Hl. change b' with (w', b').2.
  revert Hl Ha. induction Hr as [s|s e s1 tr s2 Hs _ IH]; intros Hl Ha; [by destruct Hl|].
  apply Forall_cons in Ha as [He Ha]. apply IH; [|done]. by eapply step_left_alone.
Qed.
End Service.
