(* ===== verification/BrokerDemo.v ===== *)
(** A broker that keeps its queues in a map and meets the laws, and samples of the
    theorems on it. *)
From S2P Require Import Prelude Values Domain World Demo StoreApi MemStore Engine EngineProps.
From S2P Require Import Dispatchers Worker Broker BrokerProps.

Record queue_state := mkQueue {
  qs_flags : queue_flags; qs_ready : list message; qs_unsettled : list (N * message)
}.
Record rabbit := mkRabbit {
  rb_exchanges : gmap string exchange_kind;
  rb_queues : gmap string queue_state;
  rb_bindings : list (string * string * string)
}.
Definition no_rabbit : rabbit := mkRabbit ∅ ∅ [].

Definition rb_bound (b : rabbit) (ex q k : string) : bool :=
  bool_decide ((ex, q, k) ∈ rb_bindings b).
(** Patterns: [#] alone, or the key itself. *)
Definition demo_matches (pattern key : string) : bool :=
  bool_decide (pattern = "#" ∨ pattern = key).
Definition rb_hit (b : rabbit) (ex : string) (m : message) (q : string) : bool :=
  if decide (ex = "") then bool_decide (q = msg_RoutingKey m)
  else match rb_exchanges b !! ex with
       | Some kind => existsb (λ '(e, q', p), bool_decide (e = ex ∧ q' = q) &&
           match kind with
           | ExchangeDirect => bool_decide (p = msg_RoutingKey m)
           | ExchangeTopic => demo_matches p (msg_RoutingKey m)
           end) (rb_bindings b)
       | None => false
       end.
Definition next_tag (l : list (N * message)) : N := N.succ (foldr N.max 0%N l.*1).
Definition rb_settle (t : N) (how : settled) (s : queue_state) : queue_state :=
  mkQueue (qs_flags s)
    ((match how with Nack true => (filter (λ d, d.1 = t) (qs_unsettled s)).*2 | _ => [] end) ++ qs_ready s)
    (filter (λ d, d.1 ≠ t) (qs_unsettled s)).
Definition rb_crash (ts : list N) (s : queue_state) : queue_state :=
  mkQueue (qs_flags s) ((filter (λ d, d.1 ∈ ts) (qs_unsettled s)).*2 ++ qs_ready s)
    (filter (λ d, d.1 ∉ ts) (qs_unsettled s)).
Definition rb_ready (b : rabbit) (q : string) : list message :=
  default [] (qs_ready <$> rb_queues b !! q).
Definition rb_unsettled (b : rabbit) (q : string) : list (N * message) :=
  default [] (qs_unsettled <$> rb_queues b !! q).
Definition set_queues (f : gmap string queue_state → gmap string queue_state) (b : rabbit) : rabbit :=
  mkRabbit (rb_exchanges b) (f (rb_queues b)) (rb_bindings b).
Definition precondition_failed : err := EMsg "PRECONDITION_FAILED".
Definition rb_amqp (c : amqp_cmd) (b : rabbit) : res rabbit :=
  match c with
  | ExchangeDeclare name kind =>
      match rb_exchanges b !! name with
      | Some k => if decide (k = kind) then Ok b else Err precondition_failed
      | None => Ok (mkRabbit (<[name := kind]> (rb_exchanges b)) (rb_queues b) (rb_bindings b))
      end
  | QueueDeclare name flags =>
      match rb_queues b !! name with
      | Some s => if decide (qs_flags s = flags) then Ok b else Err precondition_failed
      | None => Ok (set_queues <[name := mkQueue flags [] []]> b)
      end
  | QueueBind q k ex => Ok (mkRabbit (rb_exchanges b) (rb_queues b) ((ex, q, k) :: rb_bindings b))
  | Publish ex m =>
      Ok (set_queues (map_imap (λ q s, Some (if rb_hit b ex m q
            then mkQueue (qs_flags s) (qs_ready s ++ [m]) (qs_unsettled s) else s))) b)
  | Settle q t how =>
      if decide (t ∈ (rb_unsettled b q).*1) then Ok (set_queues (alter (rb_settle t how) q) b)
      else Err precondition_failed
  end.
Definition rb_deliver (q : string) (b : rabbit) : option (N * message * rabbit) :=
  match rb_queues b !! q with
  | Some s =>
      match qs_ready s with
      | m :: l => let t := next_tag (qs_unsettled s) in
          Some (t, m, set_queues <[q := mkQueue (qs_flags s) l (qs_unsettled s ++ [(t, m)])]> b)
      | [] => None
      end
  | None => None
  end.
#[export] Instance demo_broker : Broker := {|
  BrokerState := rabbit;
  amqp := rb_amqp;
  deliver := rb_deliver;
  crash q ts := set_queues (alter (rb_crash ts) q);
  exchange_of b n := rb_exchanges b !! n;
  queue_of b q := qs_flags <$> rb_queues b !! q;
  bound := rb_bound;
  ready := rb_ready;
  unsettled := rb_unsettled;
  topic_matches := demo_matches
|}.

Lemma next_tag_fresh l : next_tag l ∉ l.*1.
Proof.
  assert (∀ t, t ∈ l.*1 → (t ≤ foldr N.max 0 l.*1)%N) as Hle.
  { induction l as [|[t' m] l IH]; intros t; [by intros ?%elem_of_nil|].
    rewrite fmap_cons, elem_of_cons; cbn [fst foldr]. intros [->|Ht]; [lia|].
    specialize (IH _ Ht). lia. }
  unfold next_tag. intros Hin%Hle. lia.
Qed.

Lemma rb_hit_spec b ex m q :
  rb_hit b ex m q = true ↔
  (if decide (ex = "") then q = msg_RoutingKey m
   else ∃ kind pattern, rb_exchanges b !! ex = Some kind ∧ rb_bound b ex q pattern = true ∧
          binding_matches kind pattern (msg_RoutingKey m) = true).
Proof.
  unfold rb_hit. case_decide; [by rewrite bool_decide_eq_true|].
  destruct (rb_exchanges b !! ex) as [kind|]; [|naive_solver].
  rewrite existsb_exists. split.
  - intros ([[e q'] p] & Hin & [[-> ->]%bool_decide_eq_true Hm]%andb_true_iff).
    exists kind, p. split_and!; [done| |by destruct kind].
    apply bool_decide_eq_true. by apply list_elem_of_In.
  - intros (? & p & [= <-] & Hb%bool_decide_eq_true & Hm). exists (ex, q, p).
    split; [by apply list_elem_of_In|]. rewrite bool_decide_true by done. by destruct kind.
Qed.
Lemma demo_broker_laws : BrokerLaws.
Proof.
  split.
  - intros name kind b b'. simpl. destruct (rb_exchanges b !! name) as [k|] eqn:Ek.
    + case_decide; [|done]. intros [= <-]. subst. split_and!; try done. intros n. by case_decide; subst.
    + intros [= <-]. split_and!; try done. intros n. simpl. rewrite lookup_insert.
      repeat case_decide; congruence.
  - intros name kind b. simpl. intros ->. by rewrite decide_True.
  - intros name flags b b'. simpl. destruct (rb_queues b !! name) as [s|] eqn:Es.
    + case_decide; [|done]. intros [= <-]. subst. split_and!; try done.
      intros q. case_decide; subst; [by rewrite Es|done].
    + intros [= <-]. split_and!; try done.
      * intros q. simpl. rewrite lookup_insert. by repeat case_decide; try congruence.
      * intros q. simpl. unfold rb_ready, rb_unsettled; simpl. rewrite lookup_insert.
        case_decide; subst; [by rewrite Es|done].
  - intros name flags b _. simpl. destruct (rb_queues b !! name) as [s|]; [|done].
    simpl. intros [= ->]. by rewrite decide_True.
  - intros q k ex b b'. simpl. intros [= <-]. split_and!; try done. intros ex' q' k'.
    simpl. unfold rb_bound; simpl. rewrite <- bool_decide_or. apply bool_decide_ext.
    rewrite elem_of_cons. naive_solver.
  - intros ex m b b'. simpl. intros [= <-]. split_and!; try done.
    + split_and!; [done| |done]. intros q. simpl. rewrite map_lookup_imap. destruct (rb_queues b !! q) as [s|]; simpl; [|done].
      by destruct (rb_hit _ _ _ _).
    + intros q. simpl. unfold rb_unsettled; simpl. rewrite map_lookup_imap.
      destruct (rb_queues b !! q) as [s|]; simpl; [|done]. by destruct (rb_hit _ _ _ _).
    + intros q. exists (rb_hit b ex m q && bool_decide (is_Some (rb_queues b !! q))). split.
      * simpl. unfold rb_ready; simpl. rewrite map_lookup_imap.
        destruct (rb_queues b !! q) as [s|]; simpl; rewrite ?andb_true_r, ?andb_false_r, ?app_nil_r; [|done].
        by destruct (rb_hit _ _ _ _); rewrite ?app_nil_r.
      * rewrite andb_true_iff, bool_decide_eq_true. simpl. rewrite fmap_is_Some.
        rewrite (rb_hit_spec b ex m q). naive_solver.
  - intros q b t m b'. simpl. unfold rb_deliver. destruct (rb_queues b !! q) as [s|] eqn:Es; [|done].
    destruct (qs_ready s) as [|m' l] eqn:El; [done|]. intros [= <- <- <-]. split_and!.
    + split_and!; [done| |done]. intros q'. simpl. rewrite lookup_insert. case_decide; subst; [|done].
      by rewrite Es.
    + simpl. unfold rb_ready; simpl. by rewrite lookup_insert_eq, Es; simpl; rewrite El.
    + simpl. unfold rb_unsettled. rewrite Es; simpl. apply next_tag_fresh.
    + simpl. unfold rb_unsettled; simpl. by rewrite lookup_insert_eq, Es.
    + intros q' Hq. simpl. unfold rb_ready, rb_unsettled; simpl. by rewrite lookup_insert_ne.
  - intros q t how b b'. simpl. case_decide as Ht; [|done]. intros [= <-].
    assert (∃ s, rb_queues b !! q = Some s) as [s Es].
    { unfold rb_unsettled in Ht. destruct (rb_queues b !! q); [eauto|by apply elem_of_nil in Ht]. }
    split_and!.
    + split_and!; [done| |done]. intros q'. simpl. rewrite lookup_alter. case_decide; subst; [|done].
      by rewrite Es.
    + done.
    + simpl. unfold rb_unsettled; simpl. by rewrite lookup_alter_eq, Es.
    + simpl. unfold rb_ready, rb_unsettled; simpl. by rewrite lookup_alter_eq, Es.
    + intros q' Hq. simpl. unfold rb_ready, rb_unsettled; simpl. by rewrite lookup_alter_ne.
  - intros q ts b. simpl. split_and!.
    + split_and!; [done| |done]. intros q'. simpl. rewrite lookup_alter. case_decide; subst; [|done].
      by destruct (rb_queues b !! _).
    + unfold rb_unsettled; simpl. rewrite lookup_alter_eq. by destruct (rb_queues b !! _).
    + unfold rb_ready, rb_unsettled; simpl. rewrite lookup_alter_eq. by destruct (rb_queues b !! _).
    + intros q' Hq. unfold rb_ready, rb_unsettled; simpl. by rewrite lookup_alter_ne.
  - intros key. simpl. unfold demo_matches. apply bool_decide_eq_true. by left.
Qed.

(** ** Samples *)
#[local] Existing Instance demo_env.
#[local] Existing Instance demo_laws.
#[local] Existing Instance demo_broker_laws.

#[export] Instance demo_advance_json : AdvanceJson := {|
  marshal_advance id := "run:" +:+ id;
  unmarshal_advance s :=
    if strings_HasPrefix s "run:" then Ok (strings_TrimPrefix s "run:") else Err (EMsg "invalid character")
|}.
Lemma demo_advance_json_laws : AdvanceJsonLaws.
Proof.
  intros id. change (uuid_string id) with (demo_uuid_string id).
  generalize (demo_uuid_string id). by intros [|c s].
Qed.

Definition after (c : amqp_cmd) (b : BrokerState) : BrokerState :=
  match rb_amqp c b with Ok b => b | Err _ => b end.
Definition handed (q : string) (b : BrokerState) : BrokerState :=
  match rb_deliver q b with Some (_, b') => b' | None => b end.
(** The queues of an engine that just started. *)
Definition declared : BrokerState := (DeclareTopology on_broker no_rabbit).2.

(** A run at its end step is published; the engine that takes the message dies; another one
    is handed it, completes the run and acknowledges. *)
Lemma advance_not_lost_witness :
  let coord := demo_coord None in
  let w := demo_w (row_at RunStatePending "e") in
  let m := advance_message 7 in
  let w' := (Advance 1 coord demo_id w).2 in
  let b1 := after (PublishSagaAdvance demo_id) declared in
  let b2 := handed QueueSagaAdvance b1 in
  let b3 := crash QueueSagaAdvance [1%N] b2 in
  let b4 := handed QueueSagaAdvance b3 in
  let b5 := after (Settle QueueSagaAdvance 1 Ack) b4 in
  let tr := [Accepted (PublishSagaAdvance demo_id) [m]; Elsewhere; Elsewhere; Elsewhere; Handled m Ack] in
  service_run 1 coord (w, declared) tr (w', b5) ∧
  [m] ≡ₚ pending b5 ++ settled_as Ack tr ++ settled_as (Nack false) tr ∧
  run_State <$> (runs (w_store w') !! 7%N) = Some RunStateSucceeded.
Proof.
  intros coord w m w' b1 b2 b3 b4 b5 tr.
  assert (service_run 1 coord (w, declared) tr (w', b5)) as Hr.
  { eapply run_step; [by apply (step_publish 1 coord w declared b1 "" m [m])|].
    eapply run_step; [by apply (step_deliver 1 coord w b1 b2 1 m)|].
    eapply run_step; [by apply (step_crash 1 coord w b2 [1%N])|].
    eapply run_step; [by apply (step_deliver 1 coord w b3 b4 1 m)|].
    eapply run_step; [|apply run_nil].
    apply (step_handle 1 coord w w' b4 b5 1 m Ack); [by left| |done]. by vm_compute. }
  split; [exact Hr|]. split; [|by vm_compute].
  exact (proj1 (@advance_not_lost _ demo_broker demo_broker_laws _ _ _ 1 coord (w, declared) tr (w', b5) demo_advance_json_laws Hr
                  (NoDup_nil_2))).
Defined.

(** A message that is no JSON is refused; the dead-letter queue does not get it. *)
Lemma dead_letters_stay_empty_witness :
  let coord := demo_coord None in
  let w := demo_w (row_at RunStatePending "e") in
  let m := mkMessage QueueSagaAdvance ∅ "garbage" in
  let b1 := after (Publish "" m) declared in
  let b2 := handed QueueSagaAdvance b1 in
  let b3 := after (Settle QueueSagaAdvance 1 (Nack false)) b2 in
  let tr := [Accepted (Publish "" m) [m]; Elsewhere; Handled m (Nack false)] in
  service_run 1 coord (w, declared) tr (w, b3) ∧ pending b3 = [] ∧ ready b3 QueueSagaDLQ = [].
Proof.
  intros coord w m b1 b2 b3 tr.
  assert (service_run 1 coord (w, declared) tr (w, b3)) as Hr.
  { eapply run_step; [by apply (step_publish 1 coord w declared b1 "" m [m])|].
    eapply run_step; [by apply (step_deliver 1 coord w b1 b2 1 m)|].
    eapply run_step; [|apply run_nil].
    apply (step_handle 1 coord w w b2 b3 1 m (Nack false)); [by left|done|done]. }
  split; [exact Hr|]. split; [by vm_compute|].
  apply (@dead_letters_stay_empty _ demo_broker demo_broker_laws _ _ _ 1 coord w declared no_rabbit tr w b3 QueueSagaDLQ);
    [by left|by split_and!|done|exact Hr|].
  apply Forall_cons_2; [by intros [_ E]; vm_compute in E|].
  repeat (apply Forall_cons_2; [by intros ?|]). by constructor.
Defined.

Lemma event_reaches_subscribers_witness :
  let c := Publish ExchangeWorkflowEvents (mkMessage "orders.paid" {["k" := VStr "v"]} (type_name (VMap ∅))) in
  let b2 := (bind_events on_broker "pod-1" declared).2 in
  PublishEvent "orders.paid" {["k" := "v"]} ∅ = Ok c ∧
  ∃ d body, ready (after c b2) "pod-1" = [d] ∧ event_of d = mkDelivery "orders.paid" {["k" := "v"]} body.
Proof.
  intros c b2. split; [by vm_compute|].
  destruct (@event_reaches_subscribers _ demo_broker demo_broker_laws "orders.paid" {["k" := "v"]} ∅ "pod-1" no_rabbit declared b2
              (after c b2) c) as [He _].
  - done.
  - by vm_compute.
  - apply (bool_decide_unpack _). by vm_compute.
  - done.
  - by vm_compute.
  - destruct He as (d & body & Hd & _ & Hev); [by vm_compute..|]. exists d, body. split; [exact Hd|exact Hev].
Defined.

Lemma action_dispatch_routed_witness :
  let b1 := (DeclareActionQueue on_broker "billing" ["pay"; "refund"] declared).2 in
  ready (after (PublishActionDispatch "pay" "x") b1) "billing" = [mkMessage "pay" ∅ "x"] ∧
  ready (after (PublishActionDispatch "ship" "x") b1) "billing" = [].
Proof.
  intros b1. assert (DeclareActionQueue on_broker "billing" ["pay"; "refund"] declared = (Ok tt, b1)) as Hd by (by vm_compute).
  split.
  - exact (proj1 (@action_dispatch_routed demo_broker demo_broker_laws "billing" ["pay"; "refund"] "pay" "x" declared b1
                    (after (PublishActionDispatch "pay" "x") b1) Hd ltac:(done) ltac:(done))).
  - exact (proj1 (@action_dispatch_routed demo_broker demo_broker_laws "billing" ["pay"; "refund"] "ship" "x" declared b1
                    (after (PublishActionDispatch "ship" "x") b1) Hd ltac:(done) ltac:(done))).
Defined.
