(* ===== verification/Stream.v ===== *)
(** The live view of a run ([src/api/handler_stream.go]): a snapshot of the run and its
    events, then the events the database announces. *)
From S2P Require Import Prelude Values Domain World Demo StoreApi Rows StoreSpec MemStore Sorting.
From S2P Require Import MemInv MemRows MemRaces Json PgSchema Pg PgData PgVars PgRows PgInv.
From S2P Require Import PgRaces Storetest RedisConformance PgConformance Api.

(** A message over the websocket. *)
Inductive frame := FrameRun (r : SagaRun) | FrameEvent (e : SagaRunEvent).
(** How a request ends without a stream: an error response, [http.Error] with status 501. *)
Inductive stream_end := Refused (r : response unit) | NotImplemented.
(** Where the handler stands: before [GetRun], with the run sent and the events still to read,
    before LISTEN, in the loop over the notifications, or returned. *)
Inductive phase :=
  | AtGetRun
  | AtSnapshot (runID : uuid)
  | AtListen (runID : uuid)
  | AtLoop
  | Ended (e : stream_end).

(** [strings.ReplaceAll] of one character, and [replace] of SQL. *)
Fixpoint replace_char (c : ascii) (by_ : string) (s : string) : string :=
  match s with
  | "" => ""
  | String d s => (if decide (d = c) then by_ else String d "") +:+ replace_char c by_ s
  end.
Definition double_quote : ascii := Ascii.ascii_of_nat 34.
Definition quoteIdent (s : string) : string :=
  String double_quote "" +:+
  replace_char double_quote (String double_quote (String double_quote "")) s +:+
  String double_quote "".

(** ** The server's side of LISTEN and NOTIFY *)

(** The connection the handler acquired: the channels it listens to and the payloads that
    wait for it. *)
Record Conn := mkConn { cn_channels : list string; cn_queue : list string }.
Definition fresh_conn : Conn := mkConn [] [].

(** The name a quoted identifier stands for. *)
Fixpoint unquote_rest (s : string) : option string :=
  match s with
  | String c s' =>
      if decide (c = double_quote) then
        match s' with
        | "" => Some ""
        | String c' s'' =>
            if decide (c' = double_quote) then String double_quote <$> unquote_rest s'' else None
        end
      else String c <$> unquote_rest s'
  | "" => None
  end.
Definition unquote (s : string) : option string :=
  match s with
  | String c s' => if decide (c = double_quote) then unquote_rest s' else None
  | "" => None
  end.
(** [LISTEN "name"]; what is no identifier is a syntax error. *)
Definition LISTEN (ident : string) (c : Conn) : option Conn :=
  match unquote ident with
  | Some name => Some (mkConn (name :: cn_channels c) (cn_queue c))
  | None => None
  end.
(** [pg_notify]: a session that listens to the channel gets the payload. *)
Definition pg_notify (n : string * string) (c : Conn) : Conn :=
  if decide (n.1 ∈ cn_channels c) then mkConn (cn_channels c) (cn_queue c ++ [n.2]) else c.

Section Stream.
Context `{Env}.

(** The trigger of migration 007, on the row INSERT added: the channel and the payload. *)
Definition notify_saga_event (NEW : EventRow) : string * string :=
  ("saga_event_" +:+ replace_char "-"%char "" (uuid_string (ev_RunID (er_Event NEW))),
   uuid_string (ev_ID (er_Event NEW))).
(** AFTER INSERT FOR EACH ROW: the rows a transaction added. *)
Definition trg_notify_saga_event (d d' : Tables) : list (string * string) :=
  (λ x : uuid * EventRow, notify_saga_event x.2) <$>
    map_to_list (saga_run_events d' ∖ saga_run_events d).

(** ** The handler *)

Definition channel_name (runID : uuid) : string :=
  "saga_event_" +:+ replace_char "-"%char "" (uuid_string runID).

Context `{Store St}.

Record Streamer := mkStreamer {
  sm_world : World St;
  sm_conn : Conn;
  sm_phase : phase;
  sm_frames : list frame
}.
(** [Stream], call by call, for a client that takes every frame and a connection that
    answers; [None] when it waits for a notification or has returned.  An error of
    [ListEventsByRun] is ignored, and so is a payload that is no event. *)
Definition Stream_step (pool : bool) (runIDStr : string) (s : Streamer) : option Streamer :=
  match sm_phase s with
  | AtGetRun =>
      match uuid_parse runIDStr with
      | Err _ => Some (mkStreamer (sm_world s) (sm_conn s) (Ended (Refused (bad_request "bad run_id"))) [])
      | Ok runID =>
          let '(run, w) := GetRun runID (sm_world s) in
          match run with
          | Err e =>
              Some (mkStreamer w (sm_conn s) (Ended (Refused
                (if errors_As_NotFound e then WriteError 404 CodeNotFound_ "run not found"
                 else internal))) [])
          | Ok run =>
              if pool then Some (mkStreamer w (sm_conn s) (AtSnapshot runID) [FrameRun run])
              else Some (mkStreamer w (sm_conn s) (Ended NotImplemented) [])
          end
      end
  | AtSnapshot runID =>
      let '(events, w) := ListEventsByRun runID (sm_world s) in
      Some (mkStreamer w (sm_conn s) (AtListen runID)
        (sm_frames s ++ (FrameEvent <$> match events with Ok es => es | Err _ => [] end)))
  | AtListen runID =>
      match LISTEN (quoteIdent (channel_name runID)) (sm_conn s) with
      | Some c => Some (mkStreamer (sm_world s) c AtLoop (sm_frames s))
      | None => None
      end
  | AtLoop =>
      match cn_queue (sm_conn s) with
      | [] => None
      | payload :: rest =>
          let c := mkConn (cn_channels (sm_conn s)) rest in
          match uuid_parse payload with
          | Err _ => Some (mkStreamer (sm_world s) c AtLoop (sm_frames s))
          | Ok eventID =>
              let '(evt, w) := GetEventByID eventID (sm_world s) in
              Some (mkStreamer w c AtLoop
                (sm_frames s ++ match evt with Ok e => [FrameEvent e] | Err _ => [] end))
          end
      end
  | Ended _ => None
  end.
End Stream.
Arguments Streamer {St}.
Arguments mkStreamer {St}.

(** ** Over PostgreSQL *)
Section PgStream.
Context `{EnvLaws} `{JsonEnv} `{PgE : PgEnv} `{!PgLaws}.
Implicit Types (w : World Postgres) (d : Tables) (s : @Streamer Postgres).

Definition events_of s : gmap uuid EventRow := saga_run_events (tables (w_store (sm_world s))).

(** Another client's operation, and the notifications it causes. *)
Definition others (op : mem_op) s : Streamer :=
  let w' := (pg_do op (sm_world s)).2 in
  mkStreamer w'
    (fold_left (λ c n, pg_notify n c)
       (trg_notify_saga_event (tables (w_store (sm_world s))) (tables (w_store w'))) (sm_conn s))
    (sm_phase s) (sm_frames s).
Inductive other_step : Streamer → Streamer → Prop :=
| other_op op s : other_step s (others op s).
(** The handler's steps and the other clients' operations, in any order. *)
Inductive stream_step (runIDStr : string) : Streamer → Streamer → Prop :=
| stream_other op s : stream_step runIDStr s (others op s)
| stream_handler s s' : Stream_step true runIDStr s = Some s' → stream_step runIDStr s s'.

Lemma pg_list_events id w :
  ∃ es, pg_ListEventsByRun id w = (Ok es, w) ∧
    ∀ e, e ∈ es ↔ ∃ i row, saga_run_events (tables (w_store w)) !! i = Some row ∧
                  er_Event row = e ∧ ev_RunID e = id.
Proof.
  unfold pg_ListEventsByRun, transaction, sql_query. eexists. split; [by destruct w as [[] ? ? ? ? ? ?]|].
  intros e. rewrite list_elem_of_fmap. unfold order_by.
  setoid_rewrite (insertion_sort_perm event_before (where_ _ _)). setoid_rewrite elem_of_where.
  setoid_rewrite bool_decide_eq_true. split.
  - intros (row & -> & Hr & i & Hi). by exists i, row.
  - intros (i & row & Hi & <- & Hr). exists row. eauto.
Qed.
Lemma pg_get_event i w :
  pg_GetEventByID i w =
  (match saga_run_events (tables (w_store w)) !! i with
   | Some row => Ok (er_Event row)
   | None => Err (ErrNotFound "saga_run_event" (uuid_string i))
   end, w).
Proof.
  unfold pg_GetEventByID, bind, transaction, row_of, select.
  destruct (saga_run_events _ !! i); by destruct w as [[] ? ? ? ? ? ?].
Qed.


(** *** Names *)

Lemma append_cons c (t u : string) : String c t +:+ u = String c (t +:+ u).
Proof. done. Qed.
Lemma append_empty (t : string) : "" +:+ t = t.
Proof. done. Qed.
Lemma unquote_rest_quoted (t : string) :
  unquote_rest (replace_char double_quote (String double_quote (String double_quote "")) t +:+
                String double_quote "") = Some t.
Proof.
  induction t as [|c t IH]; [done|]. cbn [replace_char].
  case_decide as Hc; rewrite !append_cons, append_empty; cbn [unquote_rest].
  - subst. rewrite !decide_True by done. by rewrite IH.
  - rewrite decide_False by done. by rewrite IH.
Qed.
(** The server reads back the name that was quoted. *)
Lemma unquote_quoteIdent t : unquote (quoteIdent t) = Some t.
Proof.
  unfold quoteIdent, unquote. rewrite append_cons, append_empty, decide_True by done.
  apply unquote_rest_quoted.
Qed.

(** *** Notifications *)

Lemma pg_notify_all ns c :
  cn_channels (fold_left (λ c n, pg_notify n c) ns c) = cn_channels c ∧
  ∀ p, p ∈ cn_queue (fold_left (λ c n, pg_notify n c) ns c) ↔
       p ∈ cn_queue c ∨ ∃ ch, (ch, p) ∈ ns ∧ ch ∈ cn_channels c.
Proof.
  revert c. induction ns as [|[ch q] ns IH]; intros c; simpl.
  { split; [done|]. intros p. set_solver. }
  destruct (IH (pg_notify (ch, q) c)) as [-> Hq]. unfold pg_notify at 1 3. simpl.
  split; [by case_decide|]. intros p. rewrite Hq. unfold pg_notify. simpl.
  case_decide as Hd; simpl; set_solver.
Qed.
Lemma elem_of_trg d d' n :
  n ∈ trg_notify_saga_event d d' ↔
  ∃ i row, saga_run_events d' !! i = Some row ∧ saga_run_events d !! i = None ∧
           n = notify_saga_event row.
Proof.
  unfold trg_notify_saga_event. rewrite list_elem_of_fmap. split.
  - intros ([i row] & -> & [Hi Hn]%elem_of_map_to_list%lookup_difference_Some). eauto.
  - intros (i & row & Hi & Hn & ->). exists (i, row). split; [done|].
    by apply elem_of_map_to_list, lookup_difference_Some.
Qed.

(** Every event is stored under its id. *)
Definition keyed_events d : Prop :=
  map_Forall (λ i row, ev_ID (er_Event row) = i) (saga_run_events d).
Lemma insert_event_keyed b e now d u d' :
  insert_event b e now d = Ok (u, d') → keyed_events d → keyed_events d'.
Proof.
  unfold insert_event. intros E. destruct (b && _); [by simplify_eq|].
  destruct (insert_row _ _ _ _) as [t|] eqn:Ei; [|done]. apply insert_row_inv in Ei as [Hn ->].
  cases. intros Hd. by apply map_Forall_insert_2.
Qed.
Lemma pg_do_keyed op w :
  keyed_events (tables (w_store w)) → keyed_events (tables (w_store (pg_do op w).2)).
Proof.
  pose (P := λ (_ : Z) d d', keyed_events d → keyed_events d').
  assert (∀ now d, P now d d) as Hrefl by (by intros ???).
  destruct op; cbn [pg_do];
    match goal with |- _ → keyed_events (tables (w_store (accepted ?c w).2)) =>
      cut (relates P c); [exact (relates_accepted P c w)|] end.
  all: unfold_pg; relates; try (intros; unfold P in *; by auto).
  all: unfold cancel_transaction, consume_transaction, fail_transaction, engine_event,
         def_by_version, update_variables_tx, insert_saga_run in *; start_tx; try done.
  all: try (unfold P; intros Hk; exact Hk).
  all: unfold P, keyed_events; try match goal with E : write_dotted _ _ _ _ = _ |- _ =>
             rewrite (keeps_write_dotted _ _ _ _ _ _ E); done end.
  all: try match goal with E : insert_event _ _ _ _ = _ |- _ =>
             exact (insert_event_keyed _ _ _ _ _ _ E) end.
  all: unfold upsert_def_row, upsert_rule_row, upsert_action_row, upsert_trigger_row in *.
  all: try by cases.
Qed.

(** *** One connection *)

(** [uuid.Parse] also takes the digits without the dashes. *)
Context (uuid_parse_raw : ∀ u, uuid_parse (replace_char "-"%char "" (uuid_string u)) = Ok u).

Lemma notify_channel row id :
  (notify_saga_event row).1 = channel_name id → ev_RunID (er_Event row) = id.
Proof.
  unfold notify_saga_event, channel_name. cbn [fst].
  assert (∀ p t u : string, p +:+ t = p +:+ u → t = u) as Hp.
  { intros p t u. induction p as [|c p IH]; [done|]. rewrite !append_cons. intros [= E]. by apply IH. }
  intros E%Hp. apply (f_equal uuid_parse) in E. rewrite !uuid_parse_raw in E. by injection E.
Qed.

(** An event of the run that was not there at [d]. *)
Definition later (id : uuid) d d' (e : SagaRunEvent) : Prop :=
  ∃ i row, saga_run_events d' !! i = Some row ∧ er_Event row = e ∧ ev_RunID e = id ∧
           saga_run_events d !! i = None.
Definition tables_of s : Tables := tables (w_store (sm_world s)).
(** The loop began at [d], with the frames [pre] sent: what is announced and what is sent are
    the run's later events. *)
Record in_loop (id : uuid) (pre : list frame) d s : Prop := {
  il_phase : sm_phase s = AtLoop;
  il_channel : cn_channels (sm_conn s) = [channel_name id];
  il_keyed : keyed_events (tables_of s);
  il_grows : saga_run_events d ⊆ saga_run_events (tables_of s);
  il_frames : ∃ fs, sm_frames s = pre ++ (FrameEvent <$> fs) ∧
    (∀ e, e ∈ fs → later id d (tables_of s) e) ∧
    (∀ p, p ∈ cn_queue (sm_conn s) →
       ∃ e, later id d (tables_of s) e ∧ p = uuid_string (ev_ID e)) ∧
    (∀ e, later id d (tables_of s) e → e ∈ fs ∨ uuid_string (ev_ID e) ∈ cn_queue (sm_conn s))
}.

Lemma later_weaken id d d1 d2 e :
  saga_run_events d1 ⊆ saga_run_events d2 → later id d d1 e → later id d d2 e.
Proof. intros Hs (i & row & Hi & ?). exists i, row. split; [by eapply lookup_weaken|done]. Qed.
Lemma in_loop_others id pre d op s : in_loop id pre d s → in_loop id pre d (others op s).
Proof.
  intros [Hp Hc Hk Hg (fs & Hf & Hfs & Hq & Hall)].
  pose proof (pg_do_events op (sm_world s)) as Hsub.
  destruct (pg_notify_all (trg_notify_saga_event (tables_of s) (tables_of (others op s))) (sm_conn s))
    as [Hch Hqu].
  split; [done|by etrans|by apply pg_do_keyed|by etrans|].
  exists fs. split; [done|]. split; [intros e He; by eapply later_weaken, Hfs|]. split.
  - intros p [Hin|(ch & Hin & Hd)]%Hqu.
    + destruct (Hq p Hin) as (e & He & ->). exists e. split; [by eapply later_weaken|done].
    + apply elem_of_trg in Hin as (i & row & Hi & Hn & E). rewrite Hc in Hd.
      apply list_elem_of_singleton in Hd. pose proof (f_equal fst E) as Ech. cbn [fst] in Ech.
      rewrite Hd in Ech. exists (er_Event row). split; [|by injection E].
      exists i, row. split_and!; [done|done|by apply notify_channel|].
      destruct (saga_run_events d !! i) eqn:Hd'; [|done].
      apply (lookup_weaken _ _ _ _ Hd') in Hg. by rewrite Hn in Hg.
  - intros e (i & row & Hi & <- & Hid & Hd). destruct (saga_run_events (tables_of s) !! i) as [row'|] eqn:Hi'.
    + assert (saga_run_events (tables_of (others op s)) !! i = Some row') as Hi2
        by exact (lookup_weaken _ _ _ _ Hi' Hsub).
      assert (row' = row) as -> by congruence.
      destruct (Hall (er_Event row)) as [|Hin]; [by exists i, row|by left|right]. apply Hqu. by left.
    + right. apply Hqu. right. exists (channel_name id). split; [|rewrite Hc; by left].
      apply elem_of_trg. exists i, row. split_and!; [done|done|]. unfold notify_saga_event, channel_name.
      by rewrite Hid.
Qed.
Lemma in_loop_step id pre d run s s' :
  in_loop id pre d s → Stream_step true run s = Some s' → in_loop id pre d s'.
Proof.
  intros [Hp Hc Hk Hg (fs & Hf & Hfs & Hq & Hall)]. unfold Stream_step. rewrite Hp.
  destruct (cn_queue (sm_conn s)) as [|p ps] eqn:Eq; [done|].
  destruct (Hq p) as (e & He & ->); [by left|]. rewrite uuid_parse_string.
  destruct He as (i & row & Hi & <- & Hid & Hd). pose proof (Hk i row Hi) as Hi'. simpl in Hi'.
  change (GetEventByID (ev_ID (er_Event row)) (sm_world s))
    with (pg_GetEventByID (ev_ID (er_Event row)) (sm_world s)).
  rewrite pg_get_event, Hi'. unfold tables_of in Hi. rewrite Hi. intros [= <-].
  split; [done|done|done|done|]. exists (fs ++ [er_Event row]). simpl. split.
  { by rewrite Hf, fmap_app, app_assoc. }
  split; [|split].
  - intros e [He| ->%list_elem_of_singleton]%elem_of_app; [by apply Hfs|by exists i, row].
  - intros p Hp'. apply Hq. by right.
  - intros e He. destruct (Hall e He) as [|[E|]%elem_of_cons]; [set_solver| |by right].
    left. assert (e = er_Event row) as ->; [|set_solver].
    destruct He as (j & row' & Hj & <- & _). pose proof (Hk j row' Hj) as Hj'. simpl in Hj'.
    apply (f_equal uuid_parse) in E. rewrite !uuid_parse_string in E. injection E as E.
    assert (i = j) as -> by congruence. unfold tables_of in Hj. cbn [sm_world] in Hj. congruence.
Qed.
Lemma in_loop_steps id pre d run s s' :
  rtc (stream_step run) s s' → in_loop id pre d s → in_loop id pre d s'.
Proof.
  induction 1 as [|s1 s2 s3 [op s|s s' Hs] _ IH]; [done| |]; intros Hl; apply IH.
  - by apply in_loop_others.
  - by eapply in_loop_step.
Qed.

(** Before LISTEN nothing is announced. *)
Definition deaf (ph : phase) (fs : list frame) s s' : Prop :=
  sm_phase s' = ph ∧ sm_frames s' = fs ∧ sm_conn s' = fresh_conn ∧
  (keyed_events (tables_of s) → keyed_events (tables_of s')) ∧
  saga_run_events (tables_of s) ⊆ saga_run_events (tables_of s').
Lemma deaf_others ph fs s s' :
  rtc other_step s s' → sm_phase s = ph → sm_frames s = fs → sm_conn s = fresh_conn →
  deaf ph fs s s'.
Proof.
  induction 1 as [|s1 s2 s3 [op s] _ IH]; intros Hp Hf Hc; [by split_and!|].
  destruct (pg_notify_all (trg_notify_saga_event (tables_of s) (tables_of (others op s))) (sm_conn s))
    as [Hch Hqu]. rewrite Hc in Hch, Hqu. simpl in Hch, Hqu.
  destruct IH as (?&?&?&Hk&Hg); [done|done| |].
  - simpl. fold (tables_of s). change (tables (w_store (pg_do op (sm_world s)).2)) with (tables_of (others op s)).
    rewrite Hc. destruct (fold_left _ _ _) as [cs q]; simpl in *. subst.
    unfold fresh_conn. f_equal. destruct q as [|p q]; [done|].
    destruct (proj1 (Hqu p)) as [Hin|(ch & _ & Hin)]; [by left|set_solver|set_solver].
  - split_and!; [done|done|done| |].
    + intros Hks. apply Hk. by apply pg_do_keyed.
    + etrans; [apply (pg_do_events op)|exact Hg].
Qed.

(** C35: What a client of the live view sees of a run, however the operations of other clients
    fall between the calls of the handler: its row, the events that were there when the
    snapshot was read, and, once every notification is handled, all those inserted after LISTEN
    took effect; nothing else.  An event inserted between the two, after the snapshot was read
    and before LISTEN, is never sent. *)
Theorem stream_misses_the_gap id r w :
  pg_runs w !! id = Some r → keyed_events (tables (w_store w)) →
  let step := Stream_step true (uuid_string id) in
  ∃ s1, step (mkStreamer w fresh_conn AtGetRun []) = Some s1 ∧ ∀ s2, rtc other_step s1 s2 →
  ∃ s3, step s2 = Some s3 ∧ ∀ s4, rtc other_step s3 s4 →
  ∃ s5, step s4 = Some s5 ∧ ∀ s6, rtc (stream_step (uuid_string id)) s5 s6 →
  (cn_queue (sm_conn s6) ≠ [] → ∃ s7, step s6 = Some s7) ∧
  (cn_queue (sm_conn s6) = [] →
   ∃ es, sm_frames s6 = FrameRun r :: (FrameEvent <$> es) ∧
   ∀ e, e ∈ es ↔ ∃ i row, events_of s6 !! i = Some row ∧ er_Event row = e ∧ ev_RunID e = id ∧
                    (is_Some (events_of s2 !! i) ∨ events_of s4 !! i = None)).
Proof.
  intros Hr Hk step. eexists. split.
  { unfold step, Stream_step. cbn [sm_phase sm_world sm_conn]. rewrite uuid_parse_string.
    change (GetRun id w) with (pg_GetRun id w).
    assert (pg_GetRun id w = (Ok r, w)) as ->; [|done].
    unfold pg_GetRun, transaction, row_of, select. unfold pg_runs in Hr. rewrite Hr.
    by destruct w as [[] ? ? ? ? ? ?]. }
  intros s2 H12. destruct (deaf_others _ _ _ _ H12 eq_refl eq_refl eq_refl) as (P2 & F2 & C2 & K2 & G2).
  cbn [sm_phase sm_frames] in P2, F2. specialize (K2 Hk). destruct (pg_list_events id (sm_world s2)) as (es & Ees & Hes).
  eexists. split.
  { unfold step, Stream_step. rewrite P2. change (ListEventsByRun id) with (pg_ListEventsByRun id).
    by rewrite Ees, F2. }
  intros s4 H34.
  destruct (deaf_others _ _ _ _ H34 eq_refl eq_refl C2) as (P4 & F4 & C4 & K4 & G4).
  cbn [sm_phase sm_frames] in P4, F4. eexists. split.
  { unfold step, Stream_step, LISTEN. by rewrite P4, unquote_quoteIdent, C4, F4. }
  intros s6 H56. apply (in_loop_steps id (FrameRun r :: (FrameEvent <$> es)) (tables_of s4)) in H56;
    [|split; [done|done|by apply K4|done|]; exists []; rewrite app_nil_r; simpl;
      split_and!; [done|set_solver|set_solver|];
      intros e (i & row & Hi & _ & _ & Hn); unfold tables_of in *; simpl in Hi; congruence].
  destruct H56 as [P6 C6 K6 G6 (fs & Hf & Hfs & Hq & Hall)]. split.
  { intros Hne. unfold step, Stream_step. rewrite P6.
    destruct (cn_queue (sm_conn s6)) as [|p ps]; [done|].
    destruct (uuid_parse p); [destruct (GetEventByID _ _)|]; by eexists. }
  intros Hnil. exists (es ++ fs). split; [by rewrite Hf, fmap_app|].
  assert (saga_run_events (tables_of s2) ⊆ saga_run_events (tables_of s6)) as G26 by (by etrans).
  intros e. rewrite elem_of_app, Hes. split.
  - intros [(i & row & Hi & He & Hid)|(i & row & Hi & He & Hid & Hn)%Hfs].
    + exists i, row. split_and!; [by eapply lookup_weaken|done|done|by left; eexists].
    + exists i, row. split_and!; [done..|by right].
  - intros (i & row & Hi & He & Hid & [[row' Hi']|Hn]).
    + left. exists i, row'. split_and!; [done| |done].
      pose proof (lookup_weaken _ _ _ _ Hi' G26) as Hi2. unfold events_of, tables_of in *. congruence.
    + right. destruct (Hall e) as [|Hin]; [by exists i, row|done|]. rewrite Hnil in Hin. set_solver.
Qed.
End PgStream.

Definition absent (i : uuid) (s : @Streamer Postgres) : bool :=
  match events_of s !! i with Some _ => false | None => true end.
Lemma demo_parse_raw u :
  @uuid_parse demo_env (replace_char "-"%char "" (@uuid_string demo_env u)) = Ok u.
Proof.
  assert (∀ p, replace_char "-"%char "" (pos_digits p) = pos_digits p) as Hp.
  { induction p as [p IH|p IH|]; simpl; [by rewrite IH..|done]. }
  destruct u as [|p]; [done|]. simpl. rewrite Hp. apply (@uuid_parse_string demo_env demo_laws (Npos p)).
Qed.

(** Two events of a run: the first falls into the gap, the second is announced. *)
Lemma stream_misses_the_gap_witness :
  let e1 := mkEvent 20 7 "wait" 1 EventStepStarted "engine" ∅ 60 in
  let e2 := mkEvent 21 7 "wait" 1 EventStepSucceeded "engine" ∅ 70 in
  let stored e := mkEvent (ev_ID e) 7 "wait" 1 (ev_EventType e) "engine" ∅ 0 in
  let step s := @Stream_step demo_env _ (@pg_Store demo_env demo_json demo_pg) true
                  (@uuid_string demo_env 7) s in
  let append e := @others demo_env demo_json demo_pg (OpAppendEvent e) in
  let s0 := mkStreamer (in_pg pg_signalled) fresh_conn AtGetRun [] in
  let s3 := default s0 (match step s0 with Some s1 => step s1 | None => None end) in
  let s5 := default s3 (step (append e1 s3)) in
  let s6 := default s5 (step (append e2 s5)) in
  ∃ r es, sm_frames s6 = FrameRun r :: (FrameEvent <$> es) ∧ stored e1 ∉ es ∧ stored e2 ∈ es.
Proof.
  intros e1 e2 stored step append s0 s3 s5 s6.
  destruct (pg_runs (in_pg pg_signalled) !! 7%N) as [r|] eqn:Hr; [|by vm_compute in Hr].
  destruct (@stream_misses_the_gap demo_env demo_laws demo_json demo_pg demo_pg_laws demo_parse_raw
              7 r (in_pg pg_signalled) Hr) as (s1 & H01 & K1); [by vm_compute|].
  destruct (K1 s1) as (s3' & H13 & K3); [reflexivity|].
  assert (step s0 = Some s1) as H01' by exact H01.
  assert (step s1 = Some s3') as H13' by exact H13.
  assert (s3 = s3') as E3 by (unfold s3; by rewrite H01', H13').
  destruct (K3 (append e1 s3')) as (s5' & H45 & K5); [by apply rtc_once, other_op|].
  assert (step (append e1 s3') = Some s5') as H45' by exact H45.
  assert (s5 = s5') as E5 by (unfold s5; by rewrite E3, H45').
  assert (step (append e2 s5) = Some s6) as H56.
  { assert (match step (append e2 s5) with Some _ => true | None => false end = true) as Hb
      by (by vm_compute).
    unfold s6. by destruct (step (append e2 s5)). }
  rewrite <- E5 in K5. destruct (K5 s6) as [_ K6].
  { eapply rtc_l; [apply (stream_other _ (OpAppendEvent e2))|]. by apply rtc_once, stream_handler. }
  destruct K6 as (es & Hes & Hin); [by vm_compute|]. exists r, es. split; [exact Hes|].
  rewrite <- E3 in Hin. split.
  - rewrite Hin. intros (i & row & Hi & He & _ & Hd).
    assert (keyed_events (tables_of s6)) as Hk by (apply (bool_decide_unpack _); by vm_compute).
    pose proof (Hk i row Hi) as Hi'. simpl in Hi'. rewrite He in Hi'. subst i.
    assert (match step s0 with Some s => absent 20%N s | None => false end = true) as H20
      by (by vm_compute). rewrite H01' in H20.
    assert (absent 20%N (append e1 s3) = false) as H20' by (by vm_compute). unfold absent in *.
    change (ev_ID (stored e1)) with 20%N in *.
    destruct Hd as [[? Hd]|Hd].
    + rewrite Hd in H20. discriminate H20.
    + rewrite Hd in H20'. discriminate H20'.
  - apply Hin. exists 21%N, (mkEventRow (Some "wait") (stored e2)). split_and!; [by vm_compute|done|done|].
    right. by vm_compute.
Defined.
