(* ===== verification/Process.v ===== *)
(** The start of a process: its configuration ([src/internal/config]), the choice of the store
    ([src/internal/storefactory]), and the dispatcher of http actions
    ([src/internal/dispatch]). *)
From S2P Require Import Prelude Values Domain World Demo StoreApi MemStore VerbsEffect.

(** ** config.go *)
Record Config := mkConfig {
  cf_APIPort : string;
  cf_GRPCPort : string;
  cf_EnableCronDispatcher : bool;
  cf_ShutdownTimeout : Z;
  cf_DatabaseDSN : string;
  cf_RabbitMQURL : string;
  cf_StoreType : string;
  cf_RedisURL : string;
  cf_RedisRunTTL : Z
}.

(** [strconv.ParseBool]. *)
Definition strconv_ParseBool (s : string) : option bool :=
  if decide (s ∈ ["1"; "t"; "T"; "true"; "TRUE"; "True"]) then Some true
  else if decide (s ∈ ["0"; "f"; "F"; "false"; "FALSE"; "False"]) then Some false
  else None.

Section Config.
Context `{Env}.
(** [os.Getenv]: the empty string for a variable that is not set. *)
Implicit Types getenv : string → string.

Definition parseRunTTL (s : string) : Z :=
  if decide (s = "") then 0%Z
  else match parse_duration s with Ok d => d | Err _ => 0%Z end.
Definition getEnv getenv (key fallback : string) : string :=
  if decide (getenv key ≠ "") then getenv key else fallback.
Definition getEnvBool getenv (key : string) (fallback : bool) : bool :=
  if decide (getenv key = "") then fallback else default fallback (strconv_ParseBool (getenv key)).

Definition Load getenv : Config := {|
  cf_APIPort := getEnv getenv "WORKFLOW_API_PORT" "8080";
  cf_GRPCPort := getEnv getenv "WORKFLOW_ENGINE_GRPC_PORT" "9090";
  cf_EnableCronDispatcher := getEnvBool getenv "WORKFLOW_CRON_DISPATCHER" true;
  cf_ShutdownTimeout := 15 * 1000000000;
  cf_DatabaseDSN := getEnv getenv "DATABASE_DSN" "";
  cf_RabbitMQURL := getEnv getenv "RABBITMQ_URL" "";
  cf_StoreType := getEnv getenv "STORE_TYPE" "postgres";
  cf_RedisURL := getEnv getenv "REDIS_URL" "";
  cf_RedisRunTTL := parseRunTTL (getEnv getenv "REDIS_RUN_TTL" "0s")
|}.

(** ** storefactory.go *)

(** What was opened: a pool on the database, a client that expires finished runs after the
    time to live, or an empty in-memory store. *)
Inductive opened := OpenedPostgres (dsn : string) | OpenedRedis (url : string) (ttl : Z) | OpenedMemory.

(** The connections are made outside: [postgres.Open], [postgres.Migrate], [redis.Open].  The
    second component says whether a pool was opened and closed again. *)
Definition Open (pg_open pg_migrate redis_open : string → option err) (cfg : Config)
    : res opened * bool :=
  if decide (cf_StoreType cfg = "" ∨ cf_StoreType cfg = "postgres") then
    match pg_open (cf_DatabaseDSN cfg) with
    | Some e => (Err e, false)
    | None =>
        match pg_migrate (cf_DatabaseDSN cfg) with
        | Some e => (Err e, true)
        | None => (Ok (OpenedPostgres (cf_DatabaseDSN cfg)), false)
        end
    end
  else if decide (cf_StoreType cfg = "redis" ∨ cf_StoreType cfg = "valkey") then
    match redis_open (cf_RedisURL cfg) with
    | Some e => (Err e, false)
    | None => (Ok (OpenedRedis (cf_RedisURL cfg) (cf_RedisRunTTL cfg)), false)
    end
  else if decide (cf_StoreType cfg = "memory") then (Ok OpenedMemory, false)
  else
    (Err (EMsg ("unknown STORE_TYPE " +:+ quote (cf_StoreType cfg) +:+
                " (want postgres|redis|valkey|memory)")), false).

(** ** dispatch/http.go *)
Context {St : Type}.
Definition dispatchTimeout : Z := 10 * 1000000000.
Definition DispatchHTTP : ActionHTTPDispatcher St := λ address payload,
  match http_NewRequest "POST" address with
  | Some e => ret (Err (EWrap "dispatch http: build request" e))
  | None =>
      try* resp := http_Do (mkHTTP "POST" address {["Content-Type" := "application/json"]}
                              (Some payload) dispatchTimeout)
        else EWrap ("dispatch http: post " +:+ address) in
      ret (if decide (rs_StatusCode resp < 200 ∨ 300 ≤ rs_StatusCode resp)%Z
           then Err (EMsg ("dispatch http: " +:+ address +:+ " returned status " +:+
                           itoa (rs_StatusCode resp)))
           else Ok tt)
  end.

(** ** Properties *)

(** A process started without any variable runs on PostgreSQL, dispatches cron triggers and
    keeps finished Redis runs. *)
Theorem Load_defaults getenv :
  (∀ k, getenv k = "") → parseRunTTL "0s" = 0%Z →
  Load getenv = mkConfig "8080" "9090" true 15000000000 "" "" "postgres" "" 0.
Proof.
  intros He Ht.
  assert (∀ key fallback, getEnv getenv key fallback = fallback) as Hg.
  { intros key fallback. unfold getEnv. by rewrite He, decide_False by (intros Hn; by destruct Hn). }
  unfold Load, getEnvBool. by rewrite !Hg, He, decide_True, Ht.
Qed.

(** Only the twelve spellings of [strconv.ParseBool] switch the cron dispatcher; any other
    text, "off" and "fALSE" included, leaves it on. *)
Theorem cron_dispatcher_off getenv :
  cf_EnableCronDispatcher (Load getenv) = false ↔
  getenv "WORKFLOW_CRON_DISPATCHER" ∈ ["0"; "f"; "F"; "false"; "FALSE"; "False"].
Proof.
  cbn [Load cf_EnableCronDispatcher]. unfold getEnvBool, strconv_ParseBool.
  generalize (getenv "WORKFLOW_CRON_DISPATCHER"). intros s. split.
  - repeat case_decide; simpl; done.
  - intros Hs. repeat (apply elem_of_cons in Hs as [->|Hs]; [reflexivity|]).
    by apply elem_of_nil in Hs.
Qed.

(** A store is opened exactly when its type is known and its connections succeed; a database
    that cannot be migrated is closed again, and nothing else is. *)
Theorem Open_outcome po pm ro cfg :
  match Open po pm ro cfg with
  | (Ok (OpenedPostgres dsn), closed) =>
      (cf_StoreType cfg = "" ∨ cf_StoreType cfg = "postgres") ∧ dsn = cf_DatabaseDSN cfg ∧
      po dsn = None ∧ pm dsn = None ∧ closed = false
  | (Ok (OpenedRedis url ttl), closed) =>
      (cf_StoreType cfg = "redis" ∨ cf_StoreType cfg = "valkey") ∧ url = cf_RedisURL cfg ∧
      ttl = cf_RedisRunTTL cfg ∧ ro url = None ∧ closed = false
  | (Ok OpenedMemory, closed) => cf_StoreType cfg = "memory" ∧ closed = false
  | (Err e, closed) =>
      closed = true ↔
        (cf_StoreType cfg = "" ∨ cf_StoreType cfg = "postgres") ∧
        po (cf_DatabaseDSN cfg) = None ∧ is_Some (pm (cf_DatabaseDSN cfg))
  end.
Proof.
  unfold Open. case_decide as Hp.
  { destruct (po _) eqn:Ep; [split; [done|by intros (_ & ? & _)]|].
    destruct (pm _) eqn:Em; [split; [eauto|done]|done]. }
  case_decide as Hr; [destruct (ro _) eqn:Er; [split; [done|by intros (? & _)]|done]|].
  case_decide; [done|]. split; [done|by intros (? & _)].
Qed.

(** A dispatch over http is accepted exactly when the request could be built and sent and the
    answer is a 2xx; it sends one request, or none when it cannot be built. *)
Theorem DispatchHTTP_accepted address payload (w : World St) :
  let req := mkHTTP "POST" address {["Content-Type" := "application/json"]} (Some payload) dispatchTimeout in
  let resp := http_response (w_out w) req in
  (is_Ok (DispatchHTTP address payload w).1 = true ↔
     http_NewRequest "POST" address = None ∧ ext_result (w_out w) (MHTTP req) = None ∧
     (200 ≤ rs_StatusCode resp < 300)%Z) ∧
  (w_out (DispatchHTTP address payload w).2).*1 =
    (w_out w).*1 ++ (if http_NewRequest "POST" address then [] else [MHTTP req]).
Proof.
  intros req resp. unfold DispatchHTTP. fold req.
  destruct (http_NewRequest "POST" address) as [e|]; [split; [by split; [|intros [? _]]|by rewrite app_nil_r]|].
  unfold http_Do, bind, send, ret; simpl. fold resp.
  destruct (ext_result (w_out w) (MHTTP req)) as [e|] eqn:Er; simpl; rewrite fmap_app; simpl.
  - split; [|done]. split; [done|]. by intros (_ & ? & _).
  - split; [|done]. case_decide; simpl; split; try done; lia || (intros; split_and!; try done; lia).
Qed.
End Config.
