(* ===== verification/Bootstrap.v ===== *)
(** The start of a worker ([Bootstrap] of [src/clients/go/worker/runtime.go]): it validates its
    configuration, registers its actions over REST, declares and consumes its queue, and
    handles deliveries until its context is done or the channel closes.  The connections are
    parameters of the process state [W]; deferred closes are left out. *)
From S2P Require Import Prelude Values Domain World StoreApi Engine Liveness Worker Broker.

(** ** The registration request *)
Record actionEnvelope := mkActionEnvelope {
  ae_ActionName : string;
  ae_Version : Z;
  ae_Description : string;
  ae_Category : string;
  ae_Compensable : bool;
  ae_InputSchema : Vars;
  ae_OutputSchema : Vars;
  ae_ErrorCodes : list string;
  ae_DefaultRetry : Vars;
  ae_DefaultTimeoutMS : Z;
  ae_LicenseGroup : string;
  ae_DryRunSupported : bool
}.
Record registerEnvelope := mkRegisterEnvelope {
  ge_Service : string;
  ge_ServiceVersion : string;
  ge_Actions : list actionEnvelope
}.

(** [encoding/json] on the envelope. *)
Class RegisterJson := { marshal_register : registerEnvelope → res string }.

(** [strings.TrimRight] with one character in the cutset. *)
Fixpoint strings_TrimRight (c : ascii) (s : string) : string :=
  match s with
  | "" => ""
  | String d s =>
      match strings_TrimRight c s with
      | "" => if decide (d = c) then "" else String d ""
      | s => String d s
      end
  end.

(** What the loop of [consumeLoop] finds ready: the context is done, a delivery, or the closed
    channel. *)
Inductive selected := CtxDone (reason : err) | Delivered (tag : N) (body : string) | DeliveriesClosed.

Section Bootstrap.
Context `{Env} `{RegisterJson} {W : Type}.
Context (decode_payload : string → res WorkerPayload).
Abbreviation M := (M W).
Implicit Types c : BootstrapConfig (W := W).

(** The connections of the process. *)
Record Outside := mkOutside {
  http_DefaultClient_Do : HTTPRequest → M (res HTTPResponse);
  amqp_Dial : string → M (res unit);
  conn_Channel : M (res unit);
  worker_channel : Channel W;
  ch_Qos : M (res unit);
  ch_Consume : string → M (res unit);
  grpc_NewClient : string → M (res unit)
}.
Implicit Types o : Outside.

Definition envelope (a : Action (W := W)) : actionEnvelope := {|
  ae_ActionName := wa_Name a;
  ae_Version := 1;
  ae_Description := wa_Description a;
  ae_Category := wa_Category a;
  ae_Compensable := wa_Compensable a;
  ae_InputSchema := wa_InputSchema a;
  ae_OutputSchema := wa_OutputSchema a;
  ae_ErrorCodes := wa_ErrorCodes a;
  ae_DefaultRetry := wa_DefaultRetry a;
  ae_DefaultTimeoutMS := wa_DefaultTimeoutMS a;
  ae_LicenseGroup := wa_LicenseGroup a;
  ae_DryRunSupported := wa_DryRunSupported a
|}.
Definition register_envelope c : registerEnvelope :=
  mkRegisterEnvelope (bc_Service c) (bc_ServiceVersion c) (envelope <$> bc_Actions c).

Definition register_request c (body : string) : HTTPRequest :=
  mkHTTP "POST" (strings_TrimRight "/"%char (bc_RegistryURL c) +:+ "/api/v1/registry/register")
    {["Content-Type" := "application/json"]} (Some body) 0.
Definition registerWithOrchestrator o c : M (res unit) :=
  match marshal_register (register_envelope c) with
  | Err e => ret (Err e)
  | Ok body =>
      let req := register_request c body in
      match http_NewRequest "POST" (rq_URL req) with
      | Some e => ret (Err e)
      | None =>
          try* resp := http_DefaultClient_Do o req else id in
          ret (if decide (300 ≤ rs_StatusCode resp)%Z
               then Err (EMsg ("register: status " +:+ itoa (rs_StatusCode resp) +:+ ": " +:+
                               rs_Body resp))
               else Ok tt)
      end
  end.

(** [Bootstrap] up to the consumer loop. *)
Definition connect o c : M (res unit) :=
  match Validate c with
  | Some e => ret (Err e)
  | None =>
      try* _ := (if bc_SkipRegistration c then ret (Ok tt) else registerWithOrchestrator o c)
        else EWrap "worker: register" in
      try* _ := amqp_Dial o (bc_RmqURL c) else EWrap "worker: dial rabbitmq" in
      try* _ := conn_Channel o else EWrap "worker: rabbitmq channel" in
      try* _ := DeclareActionQueue (worker_channel o) (QueueName c) (RoutingKeys c)
        else EWrap "worker" in
      try* _ := ch_Qos o else EWrap "worker: qos" in
      try* _ := ch_Consume o (QueueName c) else EWrap "worker: consume" in
      try* _ := grpc_NewClient o (bc_GrpcURL c) else EWrap "worker: grpc dial" in
      ret (Ok tt)
  end.

(** [None]: still waiting. *)
Fixpoint consumeLoop (dispatch : N → string → M unit) (l : list selected) : M (option err) :=
  match l with
  | [] => ret None
  | CtxDone reason :: _ => ret (Some reason)
  | DeliveriesClosed :: _ => ret (Some (EMsg "worker: deliveries channel closed"))
  | Delivered tag body :: l => do* dispatch tag body in consumeLoop dispatch l
  end.

(** A delivery is handled and settled; errors of the settling are ignored. *)
Definition handle_delivery o c (client : LivenessClient W) (tag : N) (body : string) : M unit :=
  let* how := processDelivery decode_payload (handler_table c) client body in
  do* worker_channel o (Settle (QueueName c) tag how) in
  ret tt.

Definition Bootstrap o (client : LivenessClient W) c (l : list selected) : M (option err) :=
  let* r := connect o c in
  match r with
  | Err e => ret (Some e)
  | Ok _ => consumeLoop (handle_delivery o c client) l
  end.
End Bootstrap.
