(* ===== verification/BootstrapProps.v ===== *)
(** A worker that started gets the actions it declared: its registration, the declarations of
    its queue, the dispatch of the engine and the handler table agree. *)
From S2P Require Import Prelude Values Domain World Demo StoreApi Rows StoreSpec MemStore MemSpec.
From S2P Require Import Action Engine EngineProps Liveness Worker WorkerProps Api Broker BrokerProps.
From S2P Require Import BrokerDemo Bootstrap.

(** What an error-free [try*] did. *)
Lemma try_inv {S A B} (f : M S (res A)) (g : err → err) (k : A → M S (res B)) w y w' :
  (try* x := f else g in k x) w = (Ok y, w') → ∃ x w1, f w = (Ok x, w1) ∧ k x w1 = (Ok y, w').
Proof. unfold bind, ret. destruct (f w) as [[x|e] w1]; [eauto|done]. Qed.

(** ** The registry *)
Section Registry.
Context `{EnvLaws}.
Implicit Types w : World MemStore.

Definition registry_key (a : ActionRegistration) : string :=
  act_Service a +:+ "." +:+ act_ActionName a.
Definition registered w (key : string) (version : Z) : option ActionRegistration :=
  actions (w_store w) !! key ≫= (.!! version).
(** Every registration is stored under its own name and version. *)
Definition registry_keyed w : Prop :=
  ∀ key version a, registered w key version = Some a → registry_key a = key ∧ act_Version a = version.

Lemma upsert_registers a w :
  ∃ w' id t, mem_UpsertActionRegistration a w = (Ok tt, w') ∧
    runs (w_store w') = runs (w_store w) ∧ w_out w' = w_out w ∧
    ∀ key version, registered w' key version =
      if decide (key = registry_key a ∧ version = act_Version a) then Some (with_act_ids id t a)
      else registered w key version.
Proof.
  unfold mem_UpsertActionRegistration. rewrite bind_get_store.
  set (draw := if decide (act_ID a = uuid_Nil) then uuidNew else ret (act_ID a)).
  destruct (draw w) as [id w1] eqn:Ed. cbv zeta. mstep Ed.
  assert (w_store w1 = w_store w ∧ w_out w1 = w_out w) as [Hs Ho]
    by (unfold draw, uuidNew, ret in Ed; by case_decide; simplify_eq).
  rewrite bind_timeNow. cbv zeta. rewrite bind_put_store.
  eexists _, id, _. split; [reflexivity|]. simpl. split_and!; [done..|].
  intros key version. unfold registered, registry_key; simpl. rewrite lookup_insert.
  destruct (decide (_ = key)) as [<-|Hk].
  - simpl. rewrite lookup_insert. repeat case_decide; try done; try naive_solver.
    by destruct (actions (w_store w) !! _).
  - rewrite decide_False by naive_solver. done.
Qed.

(** A registration that was not refused stored every action, and nothing else. *)
Lemma register_actions_stores service version l : ∀ i w w',
  register_actions service version i l w = (None, w') →
  NoDup (act_ActionName <$> l) → registry_keyed w →
  registry_keyed w' ∧ runs (w_store w') = runs (w_store w) ∧ w_out w' = w_out w ∧
  (∀ a, a ∈ l → ∃ id t, registered w' (registry_key (stamped service version a)) (act_Version a) =
                        Some (with_act_ids id t (stamped service version a))) ∧
  (∀ key v, (∀ a, a ∈ l → key ≠ registry_key (stamped service version a)) →
     registered w' key v = registered w key v) ∧
  (∀ key v x, registered w' key v = Some x →
     registered w key v = Some x ∨ ∃ a, a ∈ l ∧ v = act_Version a).
Proof.
  induction l as [|a l IH]; intros i w w' E Hnd Hk; cbn [register_actions] in E.
  { injection E as <-. split_and!; [done..|by intros ? ?%elem_of_nil|done|by left]. }
  do 2 (case_decide; [done|]). rewrite fmap_cons, NoDup_cons in Hnd. destruct Hnd as [Ha Hnd].
  destruct (upsert_registers (stamped service version a) w) as (w1 & id & t & E1 & Hr1 & Ho1 & Hreg).
  change (UpsertActionRegistration ?x) with (mem_UpsertActionRegistration x) in E.
  unfold bind in E. rewrite E1 in E.
  destruct (IH _ _ _ E Hnd) as (Hk' & Hr' & Ho' & Hin & Hne & Hold).
  { intros key v x. rewrite Hreg. case_decide as Hd; [|by apply Hk]. destruct Hd as [-> ->]. by intros [= <-]. }
  split_and!; [done|congruence|congruence| | |].
  - intros b [->|Hb]%elem_of_cons; [|by apply Hin]. exists id, t. rewrite Hne.
    + rewrite Hreg. by rewrite decide_True.
    + intros b Hb Eb. unfold registry_key in Eb; simpl in Eb.
      apply string_app_inj_l, string_app_inj_l in Eb. apply Ha. rewrite Eb.
      by apply list_elem_of_fmap_2.
  - intros key v Hkey. rewrite Hne by (intros b Hb; apply Hkey; by right). rewrite Hreg.
    rewrite decide_False; [done|]. intros [E' _]. by apply (Hkey a); [left|].
  - intros key v x Hx. destruct (Hold _ _ _ Hx) as [Hx1|(b & Hb & ->)].
    + rewrite Hreg in Hx1. case_decide as Hd; [right; exists a; split; [by left|by destruct Hd]|by left].
    + right. exists b. split; [by right|done].
Qed.

Lemma register_actions_refused service version l : ∀ i w r w',
  register_actions service version i l w = (Some r, w') → (400 ≤ response_status r)%Z.
Proof.
  induction l as [|a l IH]; intros i w r w' E; cbn [register_actions] in E; [done|].
  do 2 (case_decide; [by injection E as <- <-|]). unfold bind in E.
  destruct (UpsertActionRegistration _ w) as [[|] w1]; [by apply IH in E|by injection E as <- <-].
Qed.

Lemma latest_action_in name l : ∀ best b,
  latest_action name l best = Some b → (b ∈ l ∧ act_ActionName b = name) ∨ best = Some b.
Proof.
  induction l as [|r l IH]; intros best b E; cbn [latest_action] in E; [by right|].
  case_decide as Hn.
  - destruct (IH _ _ E) as [[Hb ?]|]; [left|by right]. split; [by right|done].
  - assert (act_ActionName r = name) by (by destruct (decide (act_ActionName r = name))).
    destruct best as [b0|]; [case_decide|]; destruct (IH _ _ E) as [[Hb ?]|Hb];
      try (left; split; [by right|done]); try (by right).
    all: injection Hb as <-; left; split; [by left|done].
Qed.
Lemma list_actions f w :
  ∃ l, ListActions f w = (Ok l, w) ∧
    ∀ a, a ∈ l → act_matches f a = true ∧ ∃ key version, registered w key version = Some a.
Proof.
  eexists. split; [reflexivity|]. intros a [Hm Ha]%list_elem_of_filter. split; [done|].
  apply list_elem_of_In, in_concat in Ha as (l & Hl%list_elem_of_In & Ha%list_elem_of_In).
  apply list_elem_of_fmap in Hl as (m & -> & Hm'). apply list_elem_of_fmap in Hm' as ([key m'] & -> & Hkm).
  apply list_elem_of_fmap in Ha as ([v x] & -> & Hvx). simpl in *.
  rewrite (range_map_perm _) in Hkm. apply elem_of_map_to_list in Hkm.
  rewrite (range_map_perm _) in Hvx. apply elem_of_map_to_list in Hvx.
  exists key, v. unfold registered. by rewrite Hkm.
Qed.

(** An action whose registrations name no transport is dispatched to the broker. *)
Lemma resolves_to_default (v : ActionVerb MemStore) key w :
  registry_keyed w →
  (∀ version x, registered w key version = Some x → act_Transport x = "" ∧ act_Address x = "") →
  resolveDispatch v key w = (("", ""), w).
Proof.
  intros Hk Hd. unfold resolveDispatch. destruct (splitAction key) as [[s n]|] eqn:Hs; [|done].
  destruct (av_S v); [|done]. destruct (list_actions (mkActionFilter s "" "") w) as (l & E & Hl).
  unfold bind at 1. rewrite E. destruct (latest_action n l None) as [b|] eqn:Hb; [|done].
  destruct (latest_action_in _ _ _ _ Hb) as [[Hin Hn]|]; [|done].
  destruct (Hl b Hin) as (Hm & key' & version & Hr). destruct (Hk _ _ _ Hr) as [Hkey _].
  apply (proj2 action_name_roundtrip) in Hs as (-> & _ & Hs & _).
  assert (key' = s +:+ "." +:+ n) as ->.
  { unfold act_matches in Hm; simpl in Hm. apply andb_true_iff in Hm as [[Hm _]%andb_true_iff _].
    rewrite bool_decide_false in Hm by done. apply bool_decide_eq_true in Hm.
    by rewrite <- Hkey, <- Hm, <- Hn. }
  by destruct (Hd _ _ Hr) as [-> ->].
Qed.
End Registry.

(** ** [encoding/json] between the two ends *)

(** Decoding of the request: the maps are read back ([json_reread]), the retry map as a
    [RetryPolicy]; what the worker does not send is zero. *)
Class RegisterWire := {
  unmarshal_register : string → res registerReq;
  json_reread : Vars → Vars;
  json_retry : Vars → res (option RetryPolicy)
}.
Definition decoded_action `{RegisterWire} (e : actionEnvelope) : res ActionRegistration :=
  match json_retry (ae_DefaultRetry e) with
  | Err err => Err err
  | Ok retry =>
      Ok (mkAction uuid_Nil "" (ae_ActionName e) (ae_Version e) (ae_Description e)
            (ae_Category e) (ae_Compensable e) (json_reread (ae_InputSchema e))
            (json_reread (ae_OutputSchema e)) (ae_ErrorCodes e) retry (ae_DefaultTimeoutMS e)
            false None "" (ae_DryRunSupported e) (ae_LicenseGroup e) "" "")
  end.
Class RegisterWireLaws `{RegisterJson} `{RegisterWire} :=
  unmarshal_marshal_register e body :
    marshal_register e = Ok body →
    unmarshal_register body =
    match map_res decoded_action (ge_Actions e) with
    | Ok l => Ok (mkRegister (ge_Service e) (ge_ServiceVersion e) l)
    | Err err => Err err
    end.

Lemma map_res_ok {A B} (f : A → res B) l l' :
  map_res f l = Ok l' → Forall2 (λ x y, f x = Ok y) l l'.
Proof.
  revert l'. induction l as [|x l IH]; intros l' E; simpl in E; [by simplify_eq|].
  destruct (f x) as [y|] eqn:Ex; [|done]. destruct (map_res f l) as [ys|]; [|done].
  simplify_eq. constructor; [done|by apply IH].
Qed.

(** ** The start of the worker *)
Section Start.
Context `{EnvLaws} `{RegisterWireLaws} `{BrokerLaws} {W : Type}.
(** Where the broker and the process of the API are in the state. *)
Context (bk : W → BrokerState) (eng : W → World MemStore).
Implicit Types (c : BootstrapConfig (W := W)) (w : W) (o : Outside (W := W)).

Definition tracks {A} (f : M W A) (g : M BrokerState A) : Prop :=
  ∀ w, g (bk w) = ((f w).1, bk (f w).2) ∧ eng (f w).2 = eng w.
Definition leaves {A} (f : M W A) : Prop := ∀ w, bk (f w).2 = bk w ∧ eng (f w).2 = eng w.

(** The channel is one of the broker's, a request reaches the API, and dialling changes
    neither. *)
Record outside_ok o : Prop := {
  ok_channel : ∀ cmd, tracks (worker_channel o cmd) (on_broker cmd);
  ok_Do : ∀ c body w resp w',
    http_DefaultClient_Do o (register_request c body) w = (Ok resp, w') →
    let r := RegistryHandler_Register (unmarshal_register body) (eng w) in
    rs_StatusCode resp = response_status r.1 ∧ eng w' = r.2 ∧ bk w' = bk w;
  ok_Dial : ∀ url, leaves (amqp_Dial o url);
  ok_Channel : leaves (conn_Channel o);
  ok_Qos : leaves (ch_Qos o);
  ok_Consume : ∀ q, leaves (ch_Consume o q);
  ok_NewClient : ∀ url, leaves (grpc_NewClient o url)
}.

Lemma tracks_ret {A} (x : A) : tracks (ret x) (ret x).
Proof. done. Qed.
Lemma tracks_bind {A B} (f : M W A) g (k : A → M W B) k' :
  tracks f g → (∀ x, tracks (k x) (k' x)) → tracks (bind f k) (bind g k').
Proof.
  intros Hf Hk w. unfold bind. destruct (Hf w) as [-> He]. destruct (f w) as [x w1]; simpl in *.
  destruct (Hk x w1) as [-> Hk']. by rewrite Hk'.
Qed.
Lemma tracks_seq f f' g g' :
  tracks f g → tracks f' g' → tracks (seq_ f f') (seq_ g g').
Proof. intros Hf Hg. apply tracks_bind; [done|]. by intros [|]. Qed.
Lemma tracks_call o what cmd : outside_ok o → tracks (call (worker_channel o) what cmd) (call on_broker what cmd).
Proof. intros Ho. apply tracks_bind; [by apply ok_channel|]. by intros [|]. Qed.
Lemma tracks_bind_keys o queue keys :
  outside_ok o → tracks (bind_keys (worker_channel o) queue keys) (bind_keys on_broker queue keys).
Proof.
  intros Ho. induction keys as [|k keys IH]; [apply tracks_ret|].
  by apply tracks_seq; [apply tracks_call|].
Qed.
Lemma tracks_DeclareActionQueue o queue keys :
  outside_ok o →
  tracks (DeclareActionQueue (worker_channel o) queue keys) (DeclareActionQueue on_broker queue keys).
Proof.
  intros Ho. unfold DeclareActionQueue. do 2 (case_decide; [apply tracks_ret|]).
  destruct (empty_key 0 keys); [apply tracks_ret|].
  do 2 (apply tracks_seq; [by apply tracks_call|]). by apply tracks_bind_keys.
Qed.

(** What a worker that started did: it validated its configuration, registered unless told
    not to, and declared its queue. *)
Lemma connect_inv o c w w' :
  outside_ok o → connect o c w = (Ok tt, w') →
  Validate c = None ∧ DeclareActionQueue on_broker (QueueName c) (RoutingKeys c) (bk w) = (Ok tt, bk w') ∧
  ∃ w1, (if bc_SkipRegistration c then ret (Ok tt) else registerWithOrchestrator o c) w = (Ok tt, w1) ∧
        eng w' = eng w1.
Proof.
  intros Ho. unfold connect. destruct (Validate c); [done|].
  intros ([] & w1 & E1 & (? & w2 & E2 & (? & w3 & E3 & ([] & w4 & E4 & (? & w5 & E5 & (? & w6 & E6 &
    (? & w7 & E7 & [= <-])%try_inv)%try_inv)%try_inv)%try_inv)%try_inv)%try_inv)%try_inv.
  pose proof (ok_Dial _ Ho (bc_RmqURL c) w1) as [B2 G2]. rewrite E2 in B2, G2.
  pose proof (ok_Channel _ Ho w2) as [B3 G3]. rewrite E3 in B3, G3.
  destruct (tracks_DeclareActionQueue o (QueueName c) (RoutingKeys c) Ho w3) as [D4 G4]. rewrite E4 in D4, G4.
  pose proof (ok_Qos _ Ho w4) as [B5 G5]. rewrite E5 in B5, G5.
  pose proof (ok_Consume _ Ho (QueueName c) w5) as [B6 G6]. rewrite E6 in B6, G6.
  pose proof (ok_NewClient _ Ho (bc_GrpcURL c) w6) as [B7 G7]. rewrite E7 in B7, G7. simpl in *.
  assert (bk w1 = bk w) as B1.
  { destruct (bc_SkipRegistration c); [by injection E1 as <-|]. unfold registerWithOrchestrator in E1.
    destruct (marshal_register _) as [body|]; [|done]. destruct (http_NewRequest _ _); [done|].
    apply try_inv in E1 as (resp & w1' & E1 & E1'). injection E1' as E1' <-.
    by apply (ok_Do _ Ho) in E1 as (_ & _ & ?). }
  split_and!; [done|congruence|]. exists w1. split; [done|congruence].
Qed.

(** What the decoder makes of the declared actions. *)
Lemma decoded_actions (l : list (Action (W := W))) (l' : list ActionRegistration) :
  Forall2 (λ a x, decoded_action (envelope a) = Ok x) l l' →
  act_ActionName <$> l' = wa_Name <$> l ∧
  (∀ a, a ∈ l → ∃ x, x ∈ l' ∧ act_ActionName x = wa_Name a ∧ act_Version x = 1%Z ∧
                     act_Transport x = "" ∧ act_Address x = "") ∧
  (∀ x, x ∈ l' → act_Version x = 1%Z).
Proof.
  induction 1 as [|a x l l' E _ IH]; [split_and!; [done|by intros ? ?%elem_of_nil..]|].
  unfold decoded_action, envelope in E; simpl in E. destruct (json_retry _) as [retry|]; [|done].
  injection E as <-. destruct IH as (En & Hin & Hv). split_and!.
  - rewrite !fmap_cons. by rewrite En.
  - intros b [->|(y & Hy & Hb)%Hin]%elem_of_cons; [eexists; split; [by left|done]|].
    exists y. split; [by right|done].
  - intros y [->|Hy]%elem_of_cons; [done|by apply Hv].
Qed.

(** What the API stored for a worker that registered. *)
Lemma registerWithOrchestrator_stores o c w w' :
  outside_ok o → registerWithOrchestrator o c w = (Ok tt, w') →
  NoDup (wa_Name <$> bc_Actions c) → registry_keyed (eng w) →
  registry_keyed (eng w') ∧
  ∀ a, a ∈ bc_Actions c →
    (∃ x, registered (eng w') (bc_Service c +:+ "." +:+ wa_Name a) 1 = Some x ∧
       act_Transport x = "" ∧ act_Address x = "" ∧ act_ServiceVersion x = bc_ServiceVersion c) ∧
    ∀ v x, registered (eng w') (bc_Service c +:+ "." +:+ wa_Name a) v = Some x →
      v = 1%Z ∨ registered (eng w) (bc_Service c +:+ "." +:+ wa_Name a) v = Some x.
Proof.
  intros Ho E Hnd Hk. unfold registerWithOrchestrator in E.
  destruct (marshal_register (register_envelope c)) as [body|] eqn:Em; [|done].
  destruct (http_NewRequest _ _); [done|]. apply try_inv in E as (resp & w1 & E & E').
  injection E' as E' <-. apply (ok_Do _ Ho) in E as (Hst & He & _).
  rewrite (unmarshal_marshal_register _ _ Em) in Hst, He. simpl in Hst, He.
  case_decide as H300; [done|]. rewrite Hst in H300. clear Hst E'.
  destruct (map_res decoded_action _) as [l|] eqn:El; [|simpl in H300; lia].
  unfold RegistryHandler_Register in H300, He; simpl in H300, He.
  do 2 (case_decide; [simpl in H300; lia|]).
  destruct (register_actions (bc_Service c) (bc_ServiceVersion c) 0 l (eng w)) as [r w2] eqn:Er.
  unfold bind in H300, He. rewrite Er in H300, He. simpl in H300, He. subst w2.
  destruct r as [r|]; [apply register_actions_refused in Er; simpl in H300; lia|].
  apply map_res_ok, Forall2_fmap_l in El. destruct (decoded_actions _ _ El) as (Hnames & Hdec & Hv1).
  rewrite <- Hnames in Hnd.
  destruct (register_actions_stores _ _ _ _ _ _ Er Hnd Hk) as (Hk' & _ & _ & Hin & _ & Hold).
  split; [done|]. intros a (x & Hx & Hn & Hv & Ht & Ha)%Hdec. rewrite <- Hn. split.
  - destruct (Hin x Hx) as (id & t & Hr). rewrite Hv in Hr. eexists. split; [exact Hr|done].
  - intros v y [Hy|(b & Hb & ->)]%Hold; [by right|left; by apply Hv1].
Qed.

(** The engine's dispatch of a step whose action no one registered with a transport. *)
Lemma Execute_dispatches (v : ActionVerb MemStore) run step r body (e : World MemStore) :
  let key := step_Action step in
  let attempt := wrap64 (run_CurrentAttempt run + 1) in
  let runID := uuid_string (run_ID run) in
  strings_Contains key "." = true → key ≠ "" →
  registry_keyed e →
  (∀ version x, registered e key version = Some x → act_Transport x = "" ∧ act_Address x = "") →
  runs (w_store e) !! run_ID run = Some r → av_Publisher v = Some mq_PublishActionDispatch →
  json_struct (ActionPayload runID (step_ID step) attempt
    (generateIdempotencyKey runID (step_ID step) attempt) key (step_Inputs step) (run_DryRun run)) = Ok body →
  ext_result (w_out e) (MActionDispatch key body) = None →
  ∃ e2, ActionVerb_Execute v run step e = (Err ErrSagaPaused, e2) ∧
    runs (w_store e2) !! run_ID run = Some (row_MarkAwaitingAction key attempt r) ∧
    w_out e2 = w_out e ++ [(MActionDispatch key body, None)].
Proof.
  intros key attempt runID Hdot Hne Hk Hd Hr Hp Hj Hx. unfold ActionVerb_Execute.
  fold key attempt runID. rewrite decide_False, Hdot, Hj by done. cbn [negb].
  change (MarkAwaitingAction ?x) with (mem_MarkAwaitingAction x).
  set (row := row_MarkAwaitingAction key attempt r).
  set (e1 := set_store (set_runs (<[run_ID run := row]> (runs (w_store e))) (w_store e)) e).
  assert (mem_MarkAwaitingAction (run_ID run) key attempt e = (Ok tt, e1)) as E1.
  { unfold mem_MarkAwaitingAction, upd_run. rewrite bind_get_store, Hr. by rewrite bind_put_store. }
  mstep E1. unfold dispatch. assert (resolveDispatch v key e1 = (("", ""), e1)) as E2.
  { apply resolves_to_default; [exact Hk|exact Hd]. }
  unfold bind at 1 2. rewrite E2, decide_True, Hp by (by left).
  unfold mq_PublishActionDispatch, send, bind, ret; simpl. rewrite Hx.
  eexists. split; [reflexivity|]. split; [apply lookup_insert_eq|reflexivity].
Qed.

Lemma Contains_cons x s sub : strings_Contains s sub = true → strings_Contains (String x s) sub = true.
Proof. intros Hs. cbn [strings_Contains]. rewrite Hs. apply orb_true_r. Qed.
Lemma Contains_dot s t : strings_Contains (s +:+ "." +:+ t) "." = true.
Proof. induction s as [|x s IH]; [by destruct t|]. by apply Contains_cons. Qed.

(** C8: A worker that started gets the actions it declared.  The engine that runs a step with such
    an action pauses the run on it and publishes one dispatch; the broker puts it in the
    worker's queue, and the handler table has the action's own handler for it.  The
    registration, the queue's bindings, the engine's lookup and the table use one name. *)
Theorem started_worker_gets_its_actions o c w w1 a r run step (v : ActionVerb MemStore) body b2 :
  let key := routingKey c a in
  let attempt := wrap64 (run_CurrentAttempt run + 1) in
  let runID := uuid_string (run_ID run) in
  outside_ok o → connect o c w = (Ok tt, w1) →
  bc_SkipRegistration c = false → bc_QualifiedActionNames c = false →
  registry_keyed (eng w) →
  (∀ version x, registered (eng w) key version = Some x → version = 1%Z) →
  (∀ k, bound (bk w) ExchangeAction (QueueName c) k = false) →
  a ∈ bc_Actions c → step_Action step = key →
  runs (w_store (eng w1)) !! run_ID run = Some r → av_Publisher v = Some mq_PublishActionDispatch →
  json_struct (ActionPayload runID (step_ID step) attempt
    (generateIdempotencyKey runID (step_ID step) attempt) key (step_Inputs step) (run_DryRun run)) = Ok body →
  ext_result (w_out (eng w1)) (MActionDispatch key body) = None →
  amqp (PublishActionDispatch key body) (bk w1) = Ok b2 →
  ∃ e2 h, ActionVerb_Execute v run step (eng w1) = (Err ErrSagaPaused, e2) ∧
    runs (w_store e2) !! run_ID run = Some (row_MarkAwaitingAction key attempt r) ∧
    w_out e2 = w_out (eng w1) ++ [(MActionDispatch key body, None)] ∧
    ready b2 (QueueName c) = ready (bk w) (QueueName c) ++ [mkMessage key ∅ body] ∧
    wa_Handler a = Some h ∧ handler_table c !! key = Some h.
Proof.
  intros key attempt runID Ho E Hskip Hq Hk Hver Hfresh Ha Hstep Hr Hp Hj Hx Hpub.
  apply (connect_inv _ _ _ _ Ho) in E as (Hv & Hdecl & w' & Ereg & Heng). rewrite Hskip in Ereg.
  destruct (validate_actions_ok _ _ _ _ (Validate_actions _ Hv)) as (Hnd & _ & _).
  destruct (validated_config_routes c Hv) as (_ & Hhandler & _).
  destruct (Hhandler a Ha) as [[h Hh] Htab].
  assert (key = bc_Service c +:+ "." +:+ wa_Name a) as Hkey by (unfold key, routingKey; by rewrite Hq).
  destruct (registerWithOrchestrator_stores _ _ _ _ Ho Ereg Hnd Hk) as [Hk' Hst].
  rewrite <- Heng in *. destruct (Hst a Ha) as [(x & Hx1 & Ht & Hadr & _) Hall].
  rewrite <- Hkey in *. rewrite <- Hstep in *.
  destruct (Execute_dispatches v run step r body (eng w1)) as (e2 & He2 & Hrow & Hout); try done.
  - rewrite Hkey. apply Contains_dot.
  - rewrite Hkey. by destruct (bc_Service c).
  - intros version y Hy. assert (version = 1%Z) as ->; [|rewrite Hx1 in Hy; by simplify_eq].
    destruct (Hall _ _ Hy) as [|Hold]; [done|by eapply Hver].
  - exists e2, h. split_and!; [done..| |done|rewrite <- Hh, Hstep; exact Htab].
    destruct (action_dispatch_routed _ _ _ _ _ _ _ Hdecl Hfresh Hpub) as [-> _].
    rewrite decide_True; [done|]. rewrite Hstep. apply (list_elem_of_fmap_2 (routingKey c) _ _ Ha).
Qed.
End Start.

(** ** A worker that starts against a fresh broker *)
#[local] Existing Instance demo_env.
#[local] Existing Instance demo_laws.
#[local] Existing Instance demo_broker_laws.

(** An encoder that knows one envelope, and the decoder for it. *)
Definition plain_envelope (e : actionEnvelope) : Prop :=
  ae_Version e = 1%Z ∧ ae_Description e = "" ∧ ae_Category e = "" ∧ ae_Compensable e = false ∧
  ae_InputSchema e = ∅ ∧ ae_OutputSchema e = ∅ ∧ ae_ErrorCodes e = [] ∧ ae_DefaultRetry e = ∅ ∧
  ae_DefaultTimeoutMS e = 0%Z ∧ ae_LicenseGroup e = "" ∧ ae_DryRunSupported e = false.
#[local] Instance plain_envelope_dec e : Decision (plain_envelope e).
Proof. unfold plain_envelope. apply _. Defined.
Definition sample_envelope : registerEnvelope := register_envelope demo_config.
Definition is_sample (e : registerEnvelope) : Prop :=
  ge_Service e = "billing" ∧ ge_ServiceVersion e = "1.0.0" ∧
  ae_ActionName <$> ge_Actions e = ["charge"; "refund"] ∧ Forall plain_envelope (ge_Actions e).
#[local] Instance is_sample_dec e : Decision (is_sample e).
Proof. unfold is_sample. apply _. Defined.
Definition sample_json : RegisterJson := {|
  marshal_register e := if decide (is_sample e) then Ok "actions" else Err (EMsg "json")
|}.
#[local] Existing Instance sample_json.
Definition decode_sample (e : actionEnvelope) : ActionRegistration :=
  mkAction uuid_Nil "" (ae_ActionName e) (ae_Version e) (ae_Description e) (ae_Category e)
    (ae_Compensable e) (ae_InputSchema e) (ae_OutputSchema e) (ae_ErrorCodes e) None
    (ae_DefaultTimeoutMS e) false None "" (ae_DryRunSupported e) (ae_LicenseGroup e) "" "".
Definition sample_wire : RegisterWire := {|
  unmarshal_register _ :=
    Ok (mkRegister "billing" "1.0.0" (decode_sample <$> ge_Actions sample_envelope));
  json_reread m := m;
  json_retry _ := Ok None
|}.
#[local] Existing Instance sample_wire.

Lemma is_sample_eq e : is_sample e → e = sample_envelope.
Proof.
  destruct e as [s v l]. intros (Hs & Hv & Hn & Hp). simpl in *. subst.
  destruct l as [|a1 [|a2 [|? ?]]]; try done. injection Hn as E1 E2.
  apply Forall_cons in Hp as [P1 Hp]. apply Forall_cons in Hp as [P2 _].
  destruct a1, a2. unfold plain_envelope in P1, P2; simpl in *. by destruct_and!; subst.
Qed.
Lemma sample_wire_laws : RegisterWireLaws.
Proof.
  intros e body. unfold marshal_register, sample_json. case_decide as Hd; [|done].
  by rewrite (is_sample_eq _ Hd).
Qed.

(** The process: the broker and the API's process; the HTTP client calls the handler. *)
Definition Site : Type := @BrokerState demo_broker * World MemStore.
Definition site_Do (req : HTTPRequest) : M Site (res HTTPResponse) := λ w,
  let r := RegistryHandler_Register (unmarshal_register (default "" (rq_Body req))) w.2 in
  (Ok (mkResp (response_status r.1) ∅ ""), (w.1, r.2)).
Definition site : Outside (W := Site) := {|
  http_DefaultClient_Do := site_Do;
  amqp_Dial _ := ret (Ok tt);
  conn_Channel := ret (Ok tt);
  worker_channel cmd := λ w : Site,
    let r := @on_broker demo_broker cmd w.1 in (r.1, (r.2, w.2));
  ch_Qos := ret (Ok tt);
  ch_Consume _ := ret (Ok tt);
  grpc_NewClient _ := ret (Ok tt)
|}.
Lemma site_ok : outside_ok fst snd site.
Proof.
  split; try done; unfold tracks, leaves; simpl.
  - intros cmd w. by destruct (@on_broker demo_broker cmd w.1).
  - intros c body w resp w' [= <- <-]. done.
Qed.

Definition site_config : BootstrapConfig (W := Site) :=
  mkConfig "billing" "1.0.0" "http://api/" "amqp://mq" "engine:9090"
    ((λ n, mkWAction n "" "" false ∅ ∅ [] ∅ 0 "" false (Some (λ _, ret (HResult ∅)))) <$> ["charge"; "refund"])
    false false "".
Definition charge_step : Step := mkStep "s" StepTypeAction "e" "billing.charge" ∅ None None ∅.

Lemma started_worker_gets_its_actions_witness :
  let w : Site := (no_rabbit, demo_w (row_at RunStateRunning "s")) in
  let w1 := (connect site site_config w).2 in
  let v := mkActionVerb true (Some mq_PublishActionDispatch) None None in
  let run := row_at RunStateRunning "s" in
  ∃ (e2 : World MemStore) m, ActionVerb_Execute v run charge_step w1.2 = (Err ErrSagaPaused, e2) ∧
    w_out e2 = [(MActionDispatch "billing.charge" (msg_Body m), None)] ∧
    ready (after (PublishActionDispatch "billing.charge" (msg_Body m)) w1.1) "billing.actions" = [m].
Proof.
  intros w w1 v run.
  destruct (json_struct (ActionPayload (uuid_string (run_ID run)) "s" 1
    (generateIdempotencyKey (uuid_string (run_ID run)) "s" 1) "billing.charge" ∅ false)) as [body|] eqn:Hj; [|done].
  destruct (@started_worker_gets_its_actions _ _ _ _ sample_wire_laws demo_broker demo_broker_laws Site fst snd
    site site_config w w1 (mkWAction "charge" "" "" false ∅ ∅ [] ∅ 0 "" false (Some (λ _, ret (HResult ∅))))
    run run charge_step v body
    (after (PublishActionDispatch "billing.charge" body) w1.1)) as (e2 & h & He & _ & Ho & Hq & _ & _).
  - exact site_ok.
  - by vm_compute.
  - done.
  - done.
  - intros key version a Ha. unfold registered in Ha; simpl in Ha. by rewrite lookup_empty in Ha.
  - intros version x Hx. unfold registered in Hx; simpl in Hx. by rewrite lookup_empty in Hx.
  - done.
  - by left.
  - done.
  - by vm_compute.
  - done.
  - exact Hj.
  - by vm_compute.
  - by vm_compute.
  - exists e2, (mkMessage "billing.charge" ∅ body). split_and!; [exact He|exact Ho|exact Hq].
Defined.
