(* ===== verification/Shutdown.v ===== *)
(** Background advances of the embedded engine and their end ([src/saga/publisher.go],
    [Saga.Shutdown] of [src/saga/saga.go]), as a transition system over goroutines.

    A goroutine first takes the lock of its run ([c.runLocks.lock] in [Advance]) and holds it
    until [Advance] returned; inside it is at the head of the loop, where it looks at the
    context, or in a round, in which it may publish further advances.  Calls of the program
    that embeds the engine ([Start], [Signal], ...) advance a run on the caller's goroutine,
    under the same locks and on the caller's own context.  A lock is a member of
    [bg_locks]: that the entries of [runLocks] are such locks, taken by one goroutine at a
    time and never lost, is [run_lock_exclusive] and [run_lock_live] in RunLock.v.
    [sync.WaitGroup] is its counter. *)
From S2P Require Import Prelude Values Domain World StoreApi Engine.

(** ** The state *)
Inductive bg_phase :=
  | Starting (run : string)                     (* after [go]; waits for the lock *)
  | AtHead (run : string)                       (* before the look at the context *)
  | InRound (run : string) (publishes : nat)    (* in a round that will publish so often *)
  | Unlocking (run : string)                    (* [Advance] returns, [unlock] is deferred *)
  | Returned.                                   (* [Advance] returned, [wg.Done] is deferred *)
Inductive shutdown := NotCalled | WaitingForDrain | Drained | DeadlineExceeded.
Record background := mkBackground {
  bg_cancelled : bool;             (* the Saga's derived context *)
  bg_wg : Z;
  bg_goroutines : gmap nat bg_phase;
  bg_shutdown : shutdown;
  bg_locks : gset string;          (* the runs whose lock is taken *)
  bg_calls : gmap nat string       (* the embedding program's calls inside [Advance], with their run *)
}.
Definition New_background : background := mkBackground false 0 ∅ NotCalled ∅ ∅.

Definition set_phase (g : nat) (p : bg_phase) (s : background) : background :=
  mkBackground (bg_cancelled s) (bg_wg s) (<[g := p]> (bg_goroutines s)) (bg_shutdown s) (bg_locks s) (bg_calls s).
Definition wg_Add (n : Z) (s : background) : background :=
  mkBackground (bg_cancelled s) (bg_wg s + n) (bg_goroutines s) (bg_shutdown s) (bg_locks s) (bg_calls s).
Definition exits (g : nat) (s : background) : background :=
  mkBackground (bg_cancelled s) (bg_wg s) (delete g (bg_goroutines s)) (bg_shutdown s) (bg_locks s) (bg_calls s).
Definition set_shutdown (r : shutdown) (s : background) : background :=
  mkBackground (bg_cancelled s) (bg_wg s) (bg_goroutines s) r (bg_locks s) (bg_calls s).
(** [c.runLocks.lock] for a lock that is free, and the function it returns. *)
Definition lock_run (run : string) (s : background) : background :=
  mkBackground (bg_cancelled s) (bg_wg s) (bg_goroutines s) (bg_shutdown s) ({[run]} ∪ bg_locks s) (bg_calls s).
Definition unlock_run (run : string) (s : background) : background :=
  mkBackground (bg_cancelled s) (bg_wg s) (bg_goroutines s) (bg_shutdown s) (bg_locks s ∖ {[run]}) (bg_calls s).
Definition set_calls (m : gmap nat string) (s : background) : background :=
  mkBackground (bg_cancelled s) (bg_wg s) (bg_goroutines s) (bg_shutdown s) (bg_locks s) m.

(** [PublishSagaAdvance]: the counter goes up before the goroutine [g] is started. *)
Definition spawn (g : nat) (run : string) (s : background) : background :=
  set_phase g (Starting run) (wg_Add 1 s).
(** What [Advance] does first: it takes the lock. *)
Definition starts (g : nat) (run : string) (s : background) : background :=
  set_phase g (AtHead run) (lock_run run s).
(** The deferred [unlock]. *)
Definition unlocks (g : nat) (run : string) (s : background) : background :=
  set_phase g Returned (unlock_run run s).
(** The deferred [wg.Done]. *)
Definition wg_Done (g : nat) (s : background) : background := exits g (wg_Add (-1) s).
(** [Shutdown] up to its select: the context is cancelled. *)
Definition Shutdown_begin (s : background) : background :=
  mkBackground true (bg_wg s) (bg_goroutines s) WaitingForDrain (bg_locks s) (bg_calls s).
(** A call of the embedding program enters [Advance] and returns from it. *)
Definition call_enters (c : nat) (run : string) (s : background) : background :=
  set_calls (<[c := run]> (bg_calls s)) (lock_run run s).
Definition call_returns (c : nat) (run : string) (s : background) : background :=
  set_calls (delete c (bg_calls s)) (unlock_run run s).

(** Who makes a step: the embedding program, one of its calls that returns, or the engine. *)
Inductive actor := Client | CallReturns | EngineItself.
Inductive bg_step : actor → background → background → Prop :=
  | bg_client g run s :
      bg_goroutines s !! g = None → bg_step Client s (spawn g run s)
  | bg_call c run s :
      bg_calls s !! c = None → run ∉ bg_locks s → bg_step Client s (call_enters c run s)
  | bg_return c run s :
      bg_calls s !! c = Some run → bg_step CallReturns s (call_returns c run s)
  | bg_start g run s :
      bg_goroutines s !! g = Some (Starting run) → run ∉ bg_locks s →
      bg_step EngineItself s (starts g run s)
  | bg_round g run k s :
      bg_goroutines s !! g = Some (AtHead run) → bg_cancelled s = false →
      bg_step EngineItself s (set_phase g (InRound run k) s)
  | bg_stop g run s :
      bg_goroutines s !! g = Some (AtHead run) → bg_cancelled s = true →
      bg_step EngineItself s (set_phase g (Unlocking run) s)
  | bg_publish g run g' run' k s :
      bg_goroutines s !! g = Some (InRound run (S k)) → bg_goroutines s !! g' = None →
      bg_step EngineItself s (spawn g' run' (set_phase g (InRound run k) s))
  | bg_continue g run s :
      bg_goroutines s !! g = Some (InRound run 0) →
      bg_step EngineItself s (set_phase g (AtHead run) s)
  | bg_finish g run s :
      bg_goroutines s !! g = Some (InRound run 0) →
      bg_step EngineItself s (set_phase g (Unlocking run) s)
  | bg_unlock g run s :
      bg_goroutines s !! g = Some (Unlocking run) → bg_step EngineItself s (unlocks g run s)
  | bg_done g s :
      bg_goroutines s !! g = Some Returned → bg_step EngineItself s (wg_Done g s)
  | bg_shutdown_call s :
      bg_shutdown s = NotCalled → bg_step Client s (Shutdown_begin s)
  | bg_drained s :
      bg_shutdown s = WaitingForDrain → bg_wg s = 0%Z →
      bg_step EngineItself s (set_shutdown Drained s)
  | bg_deadline s :
      bg_shutdown s = WaitingForDrain → bg_step Client s (set_shutdown DeadlineExceeded s).
Definition bg_any (s s' : background) : Prop := ∃ a, bg_step a s s'.
Definition bg_reachable (s : background) : Prop := rtc bg_any New_background s.
(** While the drain is waited for: the engine goes on and calls return. *)
Definition drain_step (s s' : background) : Prop := bg_step EngineItself s s' ∨ bg_step CallReturns s s'.

(** ** The context at the head of the loop *)
Section cancelled.
Context `{Env} `{Store St}.

(** An advance whose context is done returns its error at the next head of the loop: it does
    not look at the store and publishes nothing. *)
Theorem Advance_cancelled fuel (c : Coordinator St) runIDStr runID e w :
  uuid_parse runIDStr = Ok runID → ctx_err (w_polls w) = Some e →
  ∃ w', Advance (S fuel) c runIDStr w = (Some (Err e), w') ∧
    w_store w' = w_store w ∧ w_out w' = w_out w.
Proof.
  intros Hp He. unfold Advance. rewrite Hp. cbn [advance_loop].
  unfold advance_iter, bind, ctx_Err, ret. rewrite He. by eexists.
Qed.
End cancelled.

(** ** Nothing runs after a drain *)

(** The goroutine holds the lock of the run. *)
Definition holds_lock (run : string) (p : bg_phase) : Prop :=
  match p with AtHead r | InRound r _ | Unlocking r => r = run | _ => False end.
Definition in_round (p : bg_phase) : bool := match p with InRound _ _ => true | _ => false end.
Record bg_inv (s : background) : Prop := {
  bi_wg : bg_wg s = Z.of_nat (size (bg_goroutines s));
  bi_cancelled : bg_shutdown s ≠ NotCalled → bg_cancelled s = true;
  bi_drained : bg_shutdown s = Drained → ∀ g p, bg_goroutines s !! g = Some p → in_round p = false;
  bi_holder run : run ∈ bg_locks s →
    (∃ g p, bg_goroutines s !! g = Some p ∧ holds_lock run p) ∨ (∃ c, bg_calls s !! c = Some run)
}.

Lemma size_insert_None {A} (m : gmap nat A) g x :
  m !! g = None → Z.of_nat (size (<[g := x]> m)) = (Z.of_nat (size m) + 1)%Z.
Proof. intros Hg. rewrite map_size_insert_None by done. lia. Qed.
Lemma size_insert_Some {A} (m : gmap nat A) g x y :
  m !! g = Some y → size (<[g := x]> m) = size m.
Proof. intros Hg. by rewrite map_size_insert_Some by eauto. Qed.
Lemma size_delete_Some {A} (m : gmap nat A) g y :
  m !! g = Some y → Z.of_nat (size (delete g m)) = (Z.of_nat (size m) + -1)%Z.
Proof.
  intros Hg. rewrite map_size_delete_Some by eauto.
  assert (size m ≠ 0) by (apply map_size_non_empty_iff; intros ->; by rewrite lookup_empty in Hg). lia.
Qed.

Ltac bg_unfold :=
  unfold spawn, starts, unlocks, call_enters, call_returns, wg_Done, wg_Add, set_phase, exits,
    lock_run, unlock_run, set_calls, Shutdown_begin, set_shutdown in *; simpl in *.
(** The phase of a goroutine after an update. *)
Ltac bg_lookup := intros g0 k0; rewrite ?lookup_insert, ?lookup_delete; repeat case_decide; naive_solver.

(** A goroutine that does not hold the lock of [run], or holds it before and after, moves. *)
Lemma holder_insert (m : gmap nat bg_phase) (calls : gmap nat string) g p q run :
  m !! g = Some p → (holds_lock run p → holds_lock run q) →
  (∃ g p, m !! g = Some p ∧ holds_lock run p) ∨ (∃ c, calls !! c = Some run) →
  (∃ g' p, <[g := q]> m !! g' = Some p ∧ holds_lock run p) ∨ (∃ c, calls !! c = Some run).
Proof.
  intros Hg Hpq [(g' & p' & Hg' & Hp')|Hc]; [left|by right]. destruct (decide (g' = g)) as [->|Hn].
  - exists g, q. rewrite lookup_insert_eq. split; [done|]. apply Hpq. congruence.
  - exists g', p'. by rewrite lookup_insert_ne.
Qed.
Lemma holder_new (m : gmap nat bg_phase) (calls : gmap nat string) g q run :
  m !! g = None →
  (∃ g p, m !! g = Some p ∧ holds_lock run p) ∨ (∃ c, calls !! c = Some run) →
  (∃ g' p, <[g := q]> m !! g' = Some p ∧ holds_lock run p) ∨ (∃ c, calls !! c = Some run).
Proof.
  intros Hg [(g' & p' & Hg' & Hp')|Hc]; [left|by right]. exists g', p'.
  rewrite lookup_insert_ne by (intros ->; congruence). done.
Qed.

Lemma bg_step_wg a s s' : bg_step a s s' → bg_inv s → bg_wg s' = Z.of_nat (size (bg_goroutines s')).
Proof.
  intros Hs [Hwg _ _ _].
  destruct Hs as [g run s Hg|c run s Hc Hl|c run s Hc|g run s Hg Hl|g run k s Hg Hn|g run s Hg Hn|
    g run g' run' k s Hg Hg'|g run s Hg|g run s Hg|g run s Hg|g s Hg|s Hn|s Hw Hz|s Hw]; bg_unfold; try done.
  all: try (by rewrite Hwg, ?(size_insert_None _ _ _ Hg), ?(size_insert_Some _ _ _ _ Hg), ?(size_delete_Some _ _ _ Hg)).
  rewrite size_insert_None by (rewrite lookup_insert_ne by (by intros ->; congruence); done).
  by rewrite (size_insert_Some _ _ _ _ Hg), Hwg.
Qed.
Lemma bg_step_holder a s s' run :
  bg_step a s s' → bg_inv s → run ∈ bg_locks s' →
  (∃ g p, bg_goroutines s' !! g = Some p ∧ holds_lock run p) ∨ (∃ c, bg_calls s' !! c = Some run).
Proof.
  intros Hs [_ _ _ Hh].
  destruct Hs as [g r s Hg|c r s Hc Hl|c r s Hc|g r s Hg Hl|g r k s Hg Hn|g r s Hg Hn|
    g r g' r' k s Hg Hg'|g r s Hg|g r s Hg|g r s Hg|g s Hg|s Hn|s Hw Hz|s Hw]; bg_unfold; intros Hr.
  - apply holder_new; [done|by apply Hh].
  - destruct (decide (run = r)) as [->|Hn]; [right; exists c; apply lookup_insert_eq|].
    destruct (Hh run) as [|[c' Hc']]; [set_solver|by left|right]. exists c'.
    by rewrite lookup_insert_ne by (intros ->; congruence).
  - destruct (Hh run) as [|[c' Hc']]; [set_solver|by left|right]. exists c'.
    rewrite lookup_delete_ne; [done|]. intros ->. set_solver.
  - destruct (decide (run = r)) as [->|Hn]; [left; exists g, (AtHead r); by rewrite lookup_insert_eq|].
    eapply holder_insert; [done|done|apply Hh; set_solver].
  - by eapply holder_insert, Hh.
  - by eapply holder_insert, Hh.
  - apply holder_new; [by rewrite lookup_insert_ne by (intros ->; congruence)|].
    by eapply holder_insert, Hh.
  - by eapply holder_insert, Hh.
  - by eapply holder_insert, Hh.
  - eapply holder_insert; [done| |apply Hh; set_solver]. simpl. set_solver.
  - destruct (Hh run Hr) as [(g' & p' & Hg' & Hp')|]; [left|by right]. exists g', p'.
    rewrite lookup_delete_ne; [done|]. intros ->. rewrite Hg in Hg'. by injection Hg' as <-.
  - by apply Hh.
  - by apply Hh.
  - by apply Hh.
Qed.
Lemma bg_step_inv a s s' : bg_step a s s' → bg_inv s → bg_inv s'.
Proof.
  intros Hs Hi. pose proof (bg_step_wg _ _ _ Hs Hi). pose proof (bg_step_holder a s s').
  split; [done| | |by eauto]; destruct Hi as [Hwg Hc Hd _].
  all: destruct Hs as [g r s Hg|c r s Hg Hl|c r s Hg|g r s Hg Hl|g r k s Hg Hn|g r s Hg Hn|
    g r g' r' k s Hg Hg'|g r s Hg|g r s Hg|g r s Hg|g s Hg|s Hn|s Hw Hz|s Hw]; bg_unfold; try done.
  all: try (intros _; apply Hc; congruence).
  all: try (intros E; specialize (Hd E); bg_lookup).
  - intros E. rewrite Hc in Hn; [done|by rewrite E].
  - intros _ g p. rewrite Hwg in Hz.
    assert (bg_goroutines s = ∅) as -> by (apply map_size_empty_inv; lia). by rewrite lookup_empty.
Qed.
Lemma bg_reachable_inv s : bg_reachable s → bg_inv s.
Proof.
  intros Hr. assert (bg_inv New_background) as Hi by (by split; [..|intros run Hr'; set_solver]).
  unfold bg_reachable in Hr. induction Hr as [|s s1 s' [a Hs] _ IH]; [done|].
  apply IH. by eapply bg_step_inv.
Qed.

(** Once [Shutdown] returned without error no background advance executes a round, now or
    later, even when a call that is still in progress publishes one: such a goroutine finds its
    context cancelled and returns. *)
Theorem no_round_after_drain s s' :
  bg_reachable s → bg_shutdown s = Drained → rtc bg_any s s' →
  bg_shutdown s' = Drained ∧ ∀ g p, bg_goroutines s' !! g = Some p → in_round p = false.
Proof.
  intros Hr Hd Hs. assert (bg_shutdown s' = Drained) as Hd'.
  { clear Hr. induction Hs as [|s s1 s' [a Ha] _ IH]; [done|]. apply IH. destruct Ha; bg_unfold; congruence. }
  split; [done|]. apply bi_drained; [|done]. apply bg_reachable_inv. unfold bg_reachable in *. by transitivity s.
Qed.

(** ** The drain ends *)
Definition weight (p : bg_phase) : nat :=
  match p with
  | Returned => 1 | Unlocking _ => 2 | AtHead _ => 3 | Starting _ => 4 | InRound _ k => 4 + 5 * k
  end.
Definition total (m : gmap nat bg_phase) : nat := map_fold (λ _ p n, weight p + n) 0 m.
(** How many steps of the engine and returns of calls are left at most. *)
Definition remaining (s : background) : nat :=
  total (bg_goroutines s) + size (bg_calls s) +
  match bg_shutdown s with WaitingForDrain => 1 | _ => 0 end.

Lemma total_insert m g p : m !! g = None → total (<[g := p]> m) = weight p + total m.
Proof. intros Hg. unfold total. rewrite map_fold_insert_L; [done|intros; lia|done]. Qed.
Lemma total_delete m g p : m !! g = Some p → total m = weight p + total (delete g m).
Proof.
  intros Hg. rewrite <- (insert_delete_id m g p) at 1 by done. apply total_insert, lookup_delete_eq.
Qed.
Lemma total_update m g p q : m !! g = Some p → total (<[g := q]> m) + weight p = total m + weight q.
Proof.
  intros Hg. rewrite (total_delete m g p Hg), <- insert_delete_eq.
  rewrite total_insert by apply lookup_delete_eq. lia.
Qed.

Lemma drain_step_remaining s s' :
  drain_step s s' → bg_cancelled s = true → remaining s' < remaining s ∧ bg_cancelled s' = true.
Proof.
  intros [Hs|Hs] Hc; inversion Hs as [| |c run ? Hg|g run ? Hg Hl|g run k ? Hg Hn|g run ? Hg Hn|
    g run g' run' k ? Hg Hg'|g run ? Hg|g run ? Hg|g run ? Hg|g ? Hg| |? Hw Hz|]; subst;
    unfold remaining; bg_unfold; (split; [|done]).
  - pose proof (total_update _ _ _ (AtHead run) Hg). simpl in *. lia.
  - congruence.
  - pose proof (total_update _ _ _ (Unlocking run) Hg). simpl in *. lia.
  - rewrite total_insert by (rewrite lookup_insert_ne by (by intros ->; congruence); done).
    pose proof (total_update _ _ _ (InRound run k) Hg). simpl in *. lia.
  - pose proof (total_update _ _ _ (AtHead run) Hg). simpl in *. lia.
  - pose proof (total_update _ _ _ (Unlocking run) Hg). simpl in *. lia.
  - pose proof (total_update _ _ _ Returned Hg). simpl in *. lia.
  - rewrite (total_delete _ _ _ Hg). simpl. lia.
  - rewrite Hw. lia.
  - pose proof (size_delete_Some _ _ _ Hg). lia.
Qed.

Lemma drain_step_shutdown s s' :
  drain_step s s' → bg_shutdown s = WaitingForDrain ∨ bg_shutdown s = Drained →
  bg_shutdown s' = WaitingForDrain ∨ bg_shutdown s' = Drained.
Proof. intros [Hs|Hs]; inversion Hs; subst; bg_unfold; tauto. Qed.

(** Where the engine has no step left every goroutine waits for a lock that a call holds. *)
Lemma stuck_waits s :
  bg_inv s → bg_shutdown s = WaitingForDrain ∨ bg_shutdown s = Drained →
  (∀ s', ¬ bg_step EngineItself s s') →
  ∀ g p, bg_goroutines s !! g = Some p → ∃ run c, p = Starting run ∧ bg_calls s !! c = Some run.
Proof.
  intros [Hwg Hc _ Hh] Hsd Hstuck.
  assert (∀ g p, bg_goroutines s !! g = Some p → ∃ run, p = Starting run) as Hst.
  { intros g [run|run|run [|k]|run|] Hg; [by eexists| | | | |]; exfalso.
    - eapply Hstuck, bg_stop; [done|]. apply Hc. destruct Hsd; congruence.
    - by eapply Hstuck, bg_finish.
    - eapply Hstuck, (bg_publish g run (fresh (dom (bg_goroutines s))) ""); [done|].
      apply not_elem_of_dom, is_fresh.
    - by eapply Hstuck, bg_unlock.
    - by eapply Hstuck, bg_done. }
  intros g p Hg. destruct (Hst g p Hg) as [run ->]. exists run.
  destruct (decide (run ∈ bg_locks s)) as [Hl|Hl]; [|by destruct (Hstuck _ (bg_start g run s Hg Hl))].
  destruct (Hh run Hl) as [(g' & p' & Hg' & Hp')|[c Hc']]; [|by exists c].
  by destruct (Hst g' p' Hg') as [r ->].
Qed.
Lemma idle_is_drained s :
  bg_inv s → bg_shutdown s = WaitingForDrain ∨ bg_shutdown s = Drained →
  (∀ s', ¬ bg_step EngineItself s s') → bg_goroutines s = ∅ → bg_shutdown s = Drained.
Proof.
  intros [Hwg _ _ _] [Hw|Hd] Hstuck He; [|done]. exfalso. eapply Hstuck, bg_drained; [done|].
  by rewrite Hwg, He.
Qed.
Lemma drain_steps s s' :
  bg_reachable s → bg_shutdown s = WaitingForDrain → rtc drain_step s s' →
  bg_inv s' ∧ (bg_shutdown s' = WaitingForDrain ∨ bg_shutdown s' = Drained).
Proof.
  intros Hr Hw Hs. split.
  - apply bg_reachable_inv. unfold bg_reachable in *. transitivity s; [done|].
    apply (rtc_subrel drain_step); [|done]. intros x y [Hxy|Hxy]; by eexists.
  - assert (bg_shutdown s = WaitingForDrain ∨ bg_shutdown s = Drained) as Hsd by (by left).
    clear -Hs Hsd. induction Hs as [|s s1 s' Hx _ IH]; [done|]. eapply IH, drain_step_shutdown; done.
Qed.

(** C36: The drain terminates.  While [Shutdown] waits the engine's steps and the returns of
    the program's own calls are at most [remaining] many, whatever the rounds publish.  When
    the engine has no step left, each background advance that is left waits for the lock of a
    run that a call of the program still holds (the calls are not cancelled: they run on the
    caller's context), and if there is none, [Shutdown] has its nil; so, when no call holds a
    lock any more, the counter is zero and [Shutdown] has returned nil.  (A verb that never
    returns is a step that is never made; then, and while a call keeps its lock, the deadline
    of the caller's context ends the wait.) *)
Theorem shutdown_terminates s :
  bg_reachable s → bg_shutdown s = WaitingForDrain →
  (∀ n s', nsteps drain_step n s s' → n ≤ remaining s) ∧
  ∀ s', rtc drain_step s s' → (∀ s'', ¬ bg_step EngineItself s' s'') →
    (∀ g p, bg_goroutines s' !! g = Some p →
       ∃ run c, p = Starting run ∧ bg_calls s' !! c = Some run) ∧
    (bg_goroutines s' = ∅ → bg_shutdown s' = Drained) ∧
    (bg_calls s' = ∅ → bg_shutdown s' = Drained ∧ bg_goroutines s' = ∅ ∧ bg_wg s' = 0%Z).
Proof.
  intros Hr Hw. assert (bg_cancelled s = true) as Hc.
  { apply bi_cancelled; [by apply bg_reachable_inv|by rewrite Hw]. }
  split.
  - clear Hr Hw. intros n s' Hs. induction Hs as [|n s s1 s' Hx _ IH]; [lia|].
    destruct (drain_step_remaining _ _ Hx Hc) as [? Hc1]. specialize (IH Hc1). lia.
  - intros s' Hs Hstuck. destruct (drain_steps s s' Hr Hw Hs) as [Hi Hsd].
    pose proof (stuck_waits s' Hi Hsd Hstuck) as Hwait. split; [done|]. split.
    { by apply idle_is_drained. }
    intros Hcalls. assert (bg_goroutines s' = ∅) as He.
    { apply map_empty. intros g. destruct (bg_goroutines s' !! g) as [p|] eqn:Hg; [|done].
      destruct (Hwait g p Hg) as (run & c & _ & Hcr). by rewrite Hcalls, lookup_empty in Hcr. }
    split; [by apply idle_is_drained|]. split; [done|]. rewrite (bi_wg _ Hi), He. done.
Qed.

(** ** Samples *)

(** A parallel step: a call publishes one child, its round publishes another, [Shutdown] is
    called, a call in progress publishes a third after it; another call advances the run of
    the second, which waits for it.  The drain comes to its end. *)
Definition busy : background :=
  spawn 2 "c" (Shutdown_begin (call_enters 0 "b" (spawn 1 "b" (set_phase 0 (InRound "a" 0)
    (set_phase 0 (InRound "a" 1) (starts 0 "a" (spawn 0 "a" New_background))))))).
Lemma busy_reachable : bg_reachable busy.
Proof.
  unfold bg_reachable, busy.
  eapply rtc_l; [by exists Client; apply (bg_client 0 "a")|].
  eapply rtc_l; [exists EngineItself; by apply (bg_start 0 "a")|].
  eapply rtc_l; [by exists EngineItself; apply (bg_round 0 "a" 1)|].
  eapply rtc_l; [by exists EngineItself; apply (bg_publish 0 "a" 1 "b" 0)|].
  eapply rtc_l; [exists Client; by apply (bg_call 0 "b")|].
  eapply rtc_l; [by exists Client; apply bg_shutdown_call|].
  eapply rtc_l; [by exists Client; apply (bg_client 2 "c")|]. apply rtc_refl.
Qed.
(** The second goroutine waits until the call returned. *)
Lemma shutdown_terminates_witness :
  remaining busy = 14 ∧ (∀ n s', nsteps drain_step n busy s' → n ≤ 14) ∧
  (∀ s', rtc drain_step busy s' → (∀ s'', ¬ bg_step EngineItself s' s'') → bg_calls s' = ∅ →
     bg_shutdown s' = Drained).
Proof.
  assert (remaining busy = 14) as E by (by vm_compute). split; [exact E|]. rewrite <- E.
  destruct (shutdown_terminates busy busy_reachable eq_refl) as [Hb Hd]. split; [exact Hb|].
  intros s' Hs Hstuck Hc. exact (proj1 (proj2 (proj2 (Hd s' Hs Hstuck)) Hc)).
Defined.

(** An idle engine drains at once; an advance published after that executes no round. *)
Lemma no_round_after_drain_witness :
  let s := set_shutdown Drained (Shutdown_begin New_background) in
  let s' := starts 0 "a" (spawn 0 "a" s) in
  bg_shutdown s' = Drained ∧ ∀ p, bg_goroutines s' !! 0 = Some p → in_round p = false.
Proof.
  intros s s'. destruct (no_round_after_drain s s') as [Hd Hn]; [| |  |split; [exact Hd|exact (Hn 0)]].
  - eapply rtc_l; [by exists Client; apply bg_shutdown_call|].
    eapply rtc_l; [by exists EngineItself; apply bg_drained|]. apply rtc_refl.
  - reflexivity.
  - eapply rtc_l; [by exists Client; apply (bg_client 0 "a")|].
    eapply rtc_l; [exists EngineItself; by apply (bg_start 0 "a")|]. apply rtc_refl.
Defined.
