(* ===== verification/PgAdmin.v ===== *)
(** The PostgreSQL store around its operations: the migration runner
    ([src/store/postgres/migrate.go]) and the advisory lock that elects the replica whose timer
    runs ([src/store/postgres/leader.go], [src/cmd/engine/main.go]).  net/url,
    golang-migrate and the server's locks are outside. *)
From S2P Require Import Prelude Values.

(** ** Data source names *)

(** [strings.HasPrefix] with something left, and the rest. *)
Definition cut_scheme (p dsn : string) : option string :=
  if decide (String.length p < String.length dsn ∧ strings_take (String.length p) dsn = p)
  then Some (strings_drop (String.length p) dsn) else None.
Fixpoint strip_first (ps : list string) (dsn : string) : string :=
  match ps with
  | [] => dsn
  | p :: ps => match cut_scheme p dsn with Some rest => rest | None => strip_first ps dsn end
  end.
Definition stripScheme : string → string := strip_first ["postgres://"; "postgresql://"].

(** net/url: parsing, printing, and the query as a map from keys to their first value. *)
Class NetURL := {
  URL : Type;
  url_Parse : string → res URL;
  url_String : URL → string;
  url_Query : URL → gmap string string;
  url_with_Query : gmap string string → URL → URL
}.
Class NetURLLaws `{NetURL} := query_with q u : url_Query (url_with_Query q u) = q.

(** ** The database as the runner sees it *)
Record migrations := mkMigrations {
  mg_tables : gmap string (N * bool);   (* per schema, version and dirty flag of its table *)
  mg_search_path : list string;         (* where an unqualified name is looked up *)
  mg_ran : list N                       (* the migrations executed so far *)
}.
Definition dq : string := String (Ascii.ascii_of_nat 34) "".
Definition migrationsTable : string :=
  dq +:+ "public" +:+ dq +:+ "." +:+ dq +:+ "schema_migrations" +:+ dq.

(** golang-migrate and the connection: [migrate.NewWithSourceInstance], [Up] by the URL, the
    embedded files, and [pgx.ConnectConfig] with what else can fail before the statement. *)
Class Migrator := {
  migrate_New : string → option err;
  migrate_Up : string → migrations → res unit * migrations;
  versions : list N;
  pg_connect : string → option err
}.
Definition ErrNoChange : err := EMsg "no change".
Definition newer (v : N) `{Migrator} : list N := filter (λ n, v < n)%N versions.

Definition pinned_to (u_query : gmap string string) : Prop :=
  u_query !! "x-migrations-table" = Some migrationsTable ∧
  u_query !! "x-migrations-table-quoted" = Some "1".

(** The documentation of [Up]: from the recorded version to the last; [ErrNoChange] when there
    is nothing to do; a dirty database is refused.  An [Up] that fails leaves what it did. *)
Class MigratorLaws `{NetURL} `{Migrator} := {
  Up_no_change u v d :
    pinned_to (url_Query u) → mg_tables d !! "public" = Some (v, false) → newer v = [] →
    migrate_Up (url_String u) d = (Err ErrNoChange, d);
  Up_runs u d d' :
    pinned_to (url_Query u) → migrate_Up (url_String u) d = (Ok tt, d') →
    ∃ v last, (mg_tables d !! "public" = Some (v, false) ∨ mg_tables d !! "public" = None ∧ v = 0%N) ∧
      d' = mkMigrations (<["public" := (last, false)]> (mg_tables d)) (mg_search_path d)
             (mg_ran d ++ newer v) ∧
      newer last = [];
  Up_unchanged u d d' :
    pinned_to (url_Query u) → migrate_Up (url_String u) d = (Err ErrNoChange, d') →
    d' = d ∧ ∃ v, mg_tables d !! "public" = Some (v, false) ∧ newer v = []
}.

Section Migrate.
Context `{NetURL} `{Migrator}.
Abbreviation M := (M migrations).

Definition option_empty (o : option string) : bool :=
  match o with Some s => bool_decide (s = "") | None => true end.
(** The URL, and whether the table is pinned here. *)
Definition migrationsURL (dsn : string) : res (string * bool) :=
  match url_Parse ("pgx5://" +:+ stripScheme dsn) with
  | Err e => Err (EWrap "parse DSN" e)
  | Ok u =>
      let q := url_Query u in
      if negb (option_empty (q !! "x-migrations-table")) then Ok (url_String u, false)
      else
        let q := <["x-migrations-table-quoted" := "1"]> (<["x-migrations-table" := migrationsTable]> q) in
        Ok (url_String (url_with_Query q u), true)
  end.
Definition connDSN (dsn : string) : string :=
  match url_Parse ("postgres://" +:+ stripScheme dsn) with
  | Err _ => dsn
  | Ok u =>
      url_String (url_with_Query
        (filter (λ kv : string * string, strings_HasPrefix kv.1 "x-" = false) (url_Query u)) u)
  end.

(** [to_regclass('schema_migrations')]: the first schema of the search path with the table. *)
Fixpoint resolve (tables : gmap string (N * bool)) (path : list string) : option string :=
  match path with
  | [] => None
  | s :: path => match tables !! s with Some _ => Some s | None => resolve tables path end
  end.
(** The DO block. *)
Definition adoptLegacyMigrationsTable (d : migrations) : migrations :=
  match mg_tables d !! "public" with
  | Some _ => d
  | None =>
      match resolve (mg_tables d) (mg_search_path d) with
      | Some s =>
          mkMigrations (partial_alter (λ _, mg_tables d !! s) "public" (delete s (mg_tables d)))
            (mg_search_path d) (mg_ran d)
      | None => d
      end
  end.
Definition adoptMigrationsTable (dsn : string) : M (res unit) := λ d,
  match pg_connect (connDSN dsn) with
  | Some e => (Err e, d)
  | None => (Ok tt, adoptLegacyMigrationsTable d)
  end.

Definition Migrate (dsn : string) : M (res unit) :=
  if decide (dsn = "") then ret (Err (EMsg "postgres.Migrate: DSN is empty"))
  else
    match migrationsURL dsn with
    | Err e => ret (Err (EWrap "postgres.Migrate" e))
    | Ok (migrateURL, pinned) =>
        try* _ := (if pinned : bool then adoptMigrationsTable dsn else ret (Ok tt))
          else EWrap "postgres.Migrate" in
        match migrate_New migrateURL with
        | Some e => ret (Err (EWrap "postgres.Migrate: new migrate" e))
        | None =>
            let* r := migrate_Up migrateURL in
            ret (match r with
                 | Ok _ => Ok tt
                 | Err e => if decide (e = ErrNoChange) then Ok tt
                            else Err (EWrap "postgres.Migrate: up" e)
                 end)
        end
    end.

(** ** What a migration does *)
Context `{!NetURLLaws} `{!MigratorLaws}.

(** The version a database is at: that of [public]'s table, else of the first one on the
    search path, else none. *)
Definition recorded (d : migrations) : option (N * bool) :=
  match mg_tables d !! "public" with
  | Some v => Some v
  | None => resolve (mg_tables d) (mg_search_path d) ≫= λ s, mg_tables d !! s
  end.

Lemma adopt_recorded d :
  mg_tables (adoptLegacyMigrationsTable d) !! "public" = recorded d ∧
  mg_ran (adoptLegacyMigrationsTable d) = mg_ran d.
Proof.
  unfold adoptLegacyMigrationsTable, recorded. destruct (mg_tables d !! "public") as [v|] eqn:Hp; [by rewrite Hp|].
  destruct (resolve _ _) as [s|]; simpl; [|by rewrite Hp]. by rewrite lookup_partial_alter_eq.
Qed.
Lemma adopt_public d v : mg_tables d !! "public" = Some v → adoptLegacyMigrationsTable d = d.
Proof. unfold adoptLegacyMigrationsTable. by intros ->. Qed.

Lemma migrationsURL_pinned dsn url :
  migrationsURL dsn = Ok (url, true) → ∃ u, url = url_String u ∧ pinned_to (url_Query u).
Proof.
  unfold migrationsURL. destruct (url_Parse _) as [u|]; [|done]. case_match; [done|]. intros [= <-].
  eexists. split; [reflexivity|]. rewrite query_with. unfold pinned_to.
  by rewrite lookup_insert_ne, !lookup_insert_eq by done.
Qed.

(** A successful [Migrate] adopted the table and ran [Up], which may have had nothing to do. *)
Lemma Migrate_inv dsn url d d' :
  migrationsURL dsn = Ok (url, true) → Migrate dsn d = (Ok tt, d') →
  dsn ≠ "" ∧ pg_connect (connDSN dsn) = None ∧ migrate_New url = None ∧
  ∃ r, migrate_Up url (adoptLegacyMigrationsTable d) = (r, d') ∧ (r = Ok tt ∨ r = Err ErrNoChange).
Proof.
  unfold Migrate. intros ->. case_decide; [done|]. unfold bind, ret, adoptMigrationsTable.
  destruct (pg_connect _); [done|]. destruct (migrate_New url); [done|].
  destruct (migrate_Up _ _) as [[[]|e] d1]; [|case_decide; [|done]]; intros [= <-];
    (split_and!; [done..|]; eexists; split; [reflexivity|]); [by left|right; congruence].
Qed.

(** The table ends up in [public] wherever it was, and every migration that was not recorded
    is executed once: whatever schemas the search path names, a successful [Migrate] runs
    exactly the files above the recorded version. *)
Theorem Migrate_runs_missing dsn url d d' :
  migrationsURL dsn = Ok (url, true) → Migrate dsn d = (Ok tt, d') →
  mg_ran d' = mg_ran d ++ newer (from_option fst 0%N (recorded d)) ∧
  ∃ last, mg_tables d' !! "public" = Some (last, false) ∧ newer last = [].
Proof.
  intros Hu (_ & _ & _ & r & E & Hr)%(Migrate_inv _ _ _ _ Hu).
  destruct (migrationsURL_pinned _ _ Hu) as (u & -> & Hpin).
  destruct (adopt_recorded d) as [Ht Hran]. rewrite <- Ht, <- Hran. destruct Hr as [-> | ->].
  - apply Up_runs in E as (v & last & Hv & -> & Hlast); [|done]. simpl. split.
    + by destruct Hv as [-> |[-> ->]].
    + exists last. by rewrite lookup_insert_eq.
  - apply Up_unchanged in E as (-> & v & Hv & Hnew); [|done]. rewrite Hv; simpl.
    rewrite Hnew, app_nil_r. split; [done|]. by exists v.
Qed.

(** "Safe to call on every boot": a second call changes nothing, also when schemas that come
    first on the search path were created in between. *)
Theorem Migrate_again dsn url d d1 path :
  migrationsURL dsn = Ok (url, true) → Migrate dsn d = (Ok tt, d1) →
  let d2 := mkMigrations (mg_tables d1) path (mg_ran d1) in
  Migrate dsn d2 = (Ok tt, d2).
Proof.
  intros Hu E d2. destruct (Migrate_runs_missing _ _ _ _ Hu E) as (_ & last & Hp & Hlast).
  apply (Migrate_inv _ _ _ _ Hu) in E as (Hne & Hc & Hn & _).
  unfold Migrate. rewrite decide_False, Hu by done. unfold bind, ret, adoptMigrationsTable.
  rewrite Hc, Hn. destruct (migrationsURL_pinned _ _ Hu) as (u & -> & Hpin).
  rewrite (adopt_public d2 (last, false)) by done.
  rewrite (Up_no_change u last d2) by done. by rewrite decide_True.
Qed.
End Migrate.

(** ** The leader lock *)

(** The goroutine of a replica that wants the timer, by its session. *)
Inductive replica :=
  | Acquiring                  (* in [pool.Acquire] *)
  | Blocked (sess : N)         (* in [SELECT pg_advisory_lock] *)
  | Leading (sess : N)         (* in [timer.Run] *)
  | Stopped.                   (* the goroutine returned *)
Record cluster := mkCluster {
  cl_lock : option N;          (* the session that holds the lock *)
  cl_live : gset N;            (* the sessions the server knows *)
  cl_next : N;                 (* sessions from here on are new *)
  cl_replicas : gmap nat replica
}.

(** The server: a session that ends gives up its locks. *)
Definition session_new (c : cluster) : cluster :=
  mkCluster (cl_lock c) ({[cl_next c]} ∪ cl_live c) (N.succ (cl_next c)) (cl_replicas c).
Definition session_end (s : N) (c : cluster) : cluster :=
  mkCluster (if decide (cl_lock c = Some s) then None else cl_lock c) (cl_live c ∖ {[s]})
    (cl_next c) (cl_replicas c).
Definition pg_advisory_lock (s : N) (c : cluster) : option cluster :=
  if decide (s ∈ cl_live c ∧ cl_lock c = None)
  then Some (mkCluster (Some s) (cl_live c) (cl_next c) (cl_replicas c)) else None.
Definition pg_advisory_unlock (s : N) (c : cluster) : cluster :=
  mkCluster (if decide (cl_lock c = Some s) then None else cl_lock c) (cl_live c) (cl_next c)
    (cl_replicas c).
Definition at_phase (r : nat) (p : replica) (c : cluster) : cluster :=
  mkCluster (cl_lock c) (cl_live c) (cl_next c) (<[r := p]> (cl_replicas c)).

(** [AcquireAdvisoryLock] and the goroutine around it, replica by replica; [SessionLost] is a
    connection that breaks, which nothing tells [timer.Run]. *)
Inductive lock_event := LockStep | SessionLost.
Inductive leader_step : lock_event → cluster → cluster → Prop :=
  | ld_acquire r c :
      cl_replicas c !! r = Some Acquiring →
      leader_step LockStep c (at_phase r (Blocked (cl_next c)) (session_new c))
  | ld_acquire_fails r c :
      cl_replicas c !! r = Some Acquiring → leader_step LockStep c (at_phase r Stopped c)
  | ld_granted r s c c' :
      cl_replicas c !! r = Some (Blocked s) → pg_advisory_lock s c = Some c' →
      leader_step LockStep c (at_phase r (Leading s) c')
  | ld_lock_fails r s c :
      cl_replicas c !! r = Some (Blocked s) → s ∉ cl_live c →
      leader_step LockStep c (at_phase r Stopped c)
  | ld_release r s c :
      cl_replicas c !! r = Some (Leading s) →
      leader_step LockStep c (at_phase r Stopped (pg_advisory_unlock s c))
  | ld_session_lost s c : s ∈ cl_live c → leader_step SessionLost c (session_end s c).

Definition leader_any (c c' : cluster) : Prop := ∃ e, leader_step e c c'.
(** Replicas start by asking for the lock. *)
Definition all_start (c : cluster) : Prop :=
  cl_lock c = None ∧ cl_live c = ∅ ∧ ∀ r p, cl_replicas c !! r = Some p → p = Acquiring.

Definition session_of (p : replica) : option N :=
  match p with Blocked s | Leading s => Some s | _ => None end.
Record cluster_inv (c : cluster) : Prop := {
  ci_new : ∀ r p s, cl_replicas c !! r = Some p → session_of p = Some s → (s < cl_next c)%N;
  ci_own : ∀ r r' p p' s, cl_replicas c !! r = Some p → cl_replicas c !! r' = Some p' →
             session_of p = Some s → session_of p' = Some s → r = r';
  ci_lock : ∀ r s, cl_replicas c !! r = Some (Leading s) → s ∈ cl_live c → cl_lock c = Some s
}.

Lemma at_phase_inv r p p' c :
  cluster_inv c → cl_replicas c !! r = Some p →
  (session_of p' = None ∨ session_of p' = session_of p) →
  (∀ s, p' = Leading s → s ∈ cl_live c → cl_lock c = Some s) →
  cluster_inv (at_phase r p' c).
Proof.
  intros [Hn Ho Hl] Hr Hs Hlead. split; simpl.
  - intros r0 q s. rewrite lookup_insert. case_decide; [|by apply Hn]. intros [= <-] E.
    destruct Hs as [Hs|Hs]; [congruence|]. rewrite Hs in E. by eapply Hn.
  - intros r1 r2 q1 q2 s. rewrite !lookup_insert. do 2 case_decide; subst; try done.
    + intros [= <-] H2 E1 E2. destruct Hs as [Hs|Hs]; [congruence|]. rewrite Hs in E1. by eapply Ho.
    + intros H1 [= <-] E1 E2. destruct Hs as [Hs|Hs]; [congruence|]. rewrite Hs in E2. by eapply Ho.
    + by apply Ho.
  - intros r0 s. rewrite lookup_insert. case_decide; [|by apply Hl]. intros [= ->]. by apply Hlead.
Qed.

Lemma leader_step_inv e c c' : leader_step e c c' → cluster_inv c → cluster_inv c'.
Proof.
  intros Hs Hc. destruct Hs as [r c Hr|r c Hr|r s c c' Hr Hg|r s c Hr Hd|r s c Hr|s c Hs].
  - destruct Hc as [Hn Ho Hl]. split; simpl.
    + intros r0 q s. rewrite lookup_insert. case_decide; [intros [= <-] [= <-]; lia|].
      intros Hq Es. specialize (Hn _ _ _ Hq Es). lia.
    + intros r1 r2 q1 q2 s. rewrite !lookup_insert.
      do 2 case_decide; subst; try done; [intros [= <-] H2 [= <-] E2|intros H1 [= <-] E1 [= <-]|by apply Ho].
      all: exfalso; pose proof (Hn _ _ _ ltac:(eassumption) ltac:(eassumption)); lia.
    + intros r0 s. rewrite lookup_insert. case_decide; [done|]. intros Hq Hs. apply (Hl _ _ Hq).
      specialize (Hn _ _ s Hq eq_refl). set_solver by lia.
  - by eapply at_phase_inv; [| |left|].
  - unfold pg_advisory_lock in Hg. case_decide as Hd; [|done]. injection Hg as <-. destruct Hd as [Hd H0].
    eapply (at_phase_inv _ (Blocked s)); simpl; [|done|by right|by intros ? [= ->]].
    destruct Hc as [Hn Ho Hl]. split; simpl; [done..|]. intros r0 s0 Hq Hs. specialize (Hl _ _ Hq Hs). congruence.
  - by eapply at_phase_inv; [| |left|].
  - (* release *)
    assert (∀ r0 s0, r0 ≠ r → cl_replicas c !! r0 = Some (Leading s0) → s0 ∈ cl_live c →
              cl_lock (pg_advisory_unlock s c) = Some s0) as Hother.
    { intros r0 s0 Hne Hq Hs. simpl. pose proof (ci_lock _ Hc _ _ Hq Hs) as E.
      rewrite decide_False; [done|]. intros E'. apply Hne.
      rewrite E in E'. injection E' as ->. by eapply (ci_own _ Hc). }
    destruct Hc as [Hn Ho Hl]. split; simpl.
    + intros r0 q s0. rewrite lookup_insert. case_decide; [by intros [= <-]|by apply Hn].
    + intros r1 r2 q1 q2 s0. rewrite !lookup_insert.
      do 2 case_decide; subst; [done|by intros [= <-]|by intros ? [= <-]|by apply Ho].
    + intros r0 s0. rewrite lookup_insert. case_decide; [done|]. by apply Hother.
  - destruct Hc as [Hn Ho Hl]. split; simpl; [done..|]. intros r0 s0 Hq Hs'.
    assert (s0 ≠ s) by set_solver. assert (s0 ∈ cl_live c) as Hin by set_solver.
    rewrite (Hl _ _ Hq Hin). rewrite decide_False by congruence. done.
Qed.
Lemma all_start_inv c : all_start c → cluster_inv c.
Proof. intros (_ & _ & Ha). split; intros; naive_solver. Qed.
Lemma leader_rtc_inv c c' : cluster_inv c → rtc leader_any c c' → cluster_inv c'.
Proof. intros Hi Hr. induction Hr as [|c c1 c' [e Hs] _ IH]; [done|]. eapply IH, leader_step_inv; done. Qed.

(** The lock elects one leader among the replicas whose session the server still knows. *)
Theorem leader_unique c c' r r' s s' :
  all_start c → rtc leader_any c c' →
  cl_replicas c' !! r = Some (Leading s) → s ∈ cl_live c' →
  cl_replicas c' !! r' = Some (Leading s') → s' ∈ cl_live c' → r = r'.
Proof.
  intros Ha Hr%(leader_rtc_inv _ _ (all_start_inv _ Ha)) H1 L1 H2 L2.
  pose proof (ci_lock _ Hr _ _ H1 L1) as E1. pose proof (ci_lock _ Hr _ _ H2 L2) as E2.
  rewrite E1 in E2. injection E2 as <-. by eapply (ci_own _ Hr).
Qed.

(** But a leader does not notice that its session is gone: after a broken connection the lock
    goes to the next replica while the timer of the first one runs on. *)
Theorem two_timers r r' s s' c :
  cl_replicas c !! r = Some (Leading s) → s ∈ cl_live c → cl_lock c = Some s →
  cl_replicas c !! r' = Some (Blocked s') → s' ∈ cl_live c → s ≠ s' →
  ∃ c', rtc leader_any c c' ∧
    cl_replicas c' !! r = Some (Leading s) ∧ cl_replicas c' !! r' = Some (Leading s').
Proof.
  intros H1 L1 Hlock H2 L2 Hs. assert (r ≠ r') by congruence.
  assert (∃ c2, pg_advisory_lock s' (session_end s c) = Some c2) as [c2 Hg].
  { unfold pg_advisory_lock, session_end; simpl. rewrite (decide_True _ _ Hlock).
    rewrite decide_True; [by eexists|set_solver]. }
  exists (at_phase r' (Leading s') c2). split_and!.
  - eapply rtc_l; [exists SessionLost; by apply (ld_session_lost s)|].
    eapply rtc_once. exists LockStep. apply (ld_granted r' s' (session_end s c)); [exact H2|exact Hg].
  - unfold pg_advisory_lock in Hg. case_decide; [|done]. injection Hg as <-. simpl.
    by rewrite lookup_insert_ne.
  - simpl. apply lookup_insert_eq.
Qed.

(** Nor does a replica that failed to get a connection ask again. *)
Theorem stopped_for_good c c' r :
  rtc leader_any c c' → cl_replicas c !! r = Some Stopped → cl_replicas c' !! r = Some Stopped.
Proof.
  induction 1 as [|c c1 c' [e Hs] _ IH]; [done|]. intros Hr. apply IH.
  destruct Hs as [q c Hq|q c Hq|q s c c1 Hq Hg|q s c Hq Hd|q s c Hq|s c Hs]; simpl; try done.
  3: unfold pg_advisory_lock in Hg; case_decide; [|done]; injection Hg as <-; simpl.
  all: rewrite lookup_insert_ne; [done|intros ->; congruence].
Qed.

(** ** Samples *)
Definition sample_url : NetURL := {|
  URL := gmap string string;
  url_Parse _ := Ok ∅;
  url_String q := default "" (q !! "x-migrations-table");
  url_Query q := q;
  url_with_Query q _ := q
|}.
#[local] Existing Instance sample_url.
Definition sample_up (d : migrations) : res unit * migrations :=
  match mg_tables d !! "public" with
  | Some (_, true) => (Err (EMsg "Dirty database"), d)
  | o =>
      let v := from_option fst 0%N o in
      if decide (3 ≤ v ∧ o ≠ None)%N then (Err ErrNoChange, d)
      else (Ok tt, mkMigrations (<["public" := (3%N, false)]> (mg_tables d)) (mg_search_path d)
                     (mg_ran d ++ filter (λ n, v < n)%N [1; 2; 3]%N))
  end.
Definition sample_migrator : Migrator := {|
  migrate_New _ := None;
  migrate_Up _ := sample_up;
  versions := [1; 2; 3]%N;
  pg_connect _ := None
|}.
#[local] Existing Instance sample_migrator.

Lemma sample_newer v : newer v = [] ↔ (3 ≤ v)%N.
Proof.
  unfold newer; simpl. rewrite !filter_cons, filter_nil. repeat case_decide; split; try done; lia.
Qed.
Lemma sample_laws : MigratorLaws.
Proof.
  split; simpl.
  - intros u v d _ Hp Hn%sample_newer. unfold sample_up. rewrite Hp; simpl. by rewrite decide_True.
  - intros u d d' _. unfold sample_up. destruct (mg_tables d !! "public") as [[v [|]]|] eqn:Hp; simpl; [done|..].
    + case_decide; [done|]. intros [= <-]. exists v, 3%N. split_and!; [by left|done|done].
    + intros [= <-]. exists 0%N, 3%N. split_and!; [by right|done|done].
  - intros u d d' _. unfold sample_up. destruct (mg_tables d !! "public") as [[v [|]]|] eqn:Hp; simpl; [done|..].
    + case_decide as Hv; [|done]. intros [= <-]. split; [done|]. exists v. split; [done|].
      apply sample_newer; tauto.
    + done.
Qed.

(** A database of an earlier release: its table sits in the schema of the role, at the last
    version; the table moves and nothing is executed. *)
Lemma Migrate_runs_missing_witness :
  let d := mkMigrations {["saga" := (3%N, false)]} ["saga"; "public"] [1; 2; 3]%N in
  let d' := (Migrate "postgres://db" d).2 in
  mg_ran d' = mg_ran d ++ [] ∧ mg_tables d' = {["public" := (3%N, false)]}.
Proof.
  intros d d'. split; [|by vm_compute].
  exact (proj1 (@Migrate_runs_missing sample_url sample_migrator (λ _ _, eq_refl) sample_laws
                  "postgres://db" migrationsTable d d' ltac:(by vm_compute) ltac:(by vm_compute))).
Defined.

(** Two replicas: the second one waits for the lock of the first. *)
Lemma leader_unique_witness :
  let c := mkCluster None ∅ 0 {[0 := Acquiring; 1 := Acquiring]} in
  let c' := mkCluster (Some 0%N) {[1%N; 0%N]} 2 {[0 := Leading 0; 1 := Blocked 1]} in
  rtc leader_any c c' ∧ ∀ r s, cl_replicas c' !! r = Some (Leading s) → s ∈ cl_live c' → r = 0.
Proof.
  intros c c'.
  set (c1 := at_phase 0 (Blocked 0) (session_new c)). set (c2 := at_phase 1 (Blocked 1) (session_new c1)).
  set (c3 := mkCluster (Some 0%N) (cl_live c2) (cl_next c2) (cl_replicas c2)).
  assert (rtc leader_any c c') as Hr.
  { eapply rtc_l; [exists LockStep; by apply (ld_acquire 0 c)|]. fold c1.
    eapply rtc_l; [exists LockStep; by apply (ld_acquire 1 c1)|]. fold c2.
    eapply rtc_l; [exists LockStep; by apply (ld_granted 0 0 c2 c3)|].
    assert (at_phase 0 (Leading 0) c3 = c') as ->; [by vm_compute|]. apply rtc_refl. }
  split; [exact Hr|]. intros r s H1 H2.
  eapply (leader_unique c c' r 0 s 0); [|exact Hr|exact H1|exact H2|done|set_solver].
  split_and!; [done..|]. intros q p. unfold c; simpl. rewrite lookup_insert, lookup_singleton.
  repeat case_decide; by intros [= <-].
Defined.
